(* ===== verification/_CoqProject ===== *)
-Q . S2P
Prelude.v
GoStd.v
GoJson.v
Types.v
Externals.v
Runtime.v
Utils.v
Restore.v
RestoreCheck.v
RestoreIpam.v
RestoreState.v
RestoreDurable.v
Threads.v
Pool.v
ClusterController.v
Returns.v
ClusterGenerate.v
ClusterManage.v
ClusterLeak.v
ClusterReconcile.v
AnnotationText.v
Settle.v
Exclusive.v
ExclusiveReconcile.v
ExclusiveRestore.v
ConfigController.v
Interplay.v
Events.v
ConfigValidation.v
ClusterMutation.v
DeepCopy.v
System.v
ExclusiveRuns.v
Progress.v
ThreadSteps.v
Ownership.v
ConcurrentAlloc.v
Startup.v
Commands.v
Sim.v
SetupSim.v
MapServer.v
Witnesses.v
SetupWitnesses.v
RunWitnesses.v
PoolWitnesses.v
Findings.v
