(* ===== verification/Prelude.v ===== *)
(** * Verification of the Gardener-IPAM platform service

    The program (Go, under src/) watches Cluster objects of an openmcp platform and, for
    each cluster that a rule of its IPAMConfig selects, reserves CIDRs, writes them into
    ClusterConfig objects as JSON patches, and records them in an annotation of the
    cluster. The reserved CIDRs are held in memory only, in an instance of the library
    go-ipam; after a restart the instance is rebuilt from the annotations and
    ClusterConfigs found on the API server. What can go wrong is a CIDR handed out twice,
    one that is never freed, one that changes, or a process that blocks on its own lock.
    The development is a shallow embedding of the code and proves that these do not
    happen, or exactly when they do.

    ** The program's parts and the files

    - [Prelude] (this file): errors, the monad [goM] of a Go function (state, and the
      outcomes return, panic, deadlock), its laws, [foldM] for loops, [live] (never
      blocks, keeps an invariant) and [preserves] (relates the states before and after,
      whatever the outcome), the tactics [go_run] and [go_struct] and the hint database
      [go].
    - [GoStd]: strings.Split, strings.Contains, strings.Compare, strconv.Atoi,
      slices.SortStableFunc. [GoJson]: encoding/json for strings and for the annotation's
      maps, byte for byte, with the round trips.
    - [Types]: api/ipam/v1alpha1 (config_types.go, annotation_types.go, constants.go), the
      fields of Cluster and ClusterConfig the program uses, and the class [OpenMCP] of
      what the program takes from the openmcp packages.
    - [Externals]: the code that is called but not contained in the repository, as classes
      of operations with the documented laws the theorems use: the iteration order of maps
      ([GoMapOrder]), go-ipam ([GoIpam], [GoIpamLaws]), controller-utils and
      controller-runtime helpers ([CtrlUtils], [CtrlUtilsLaws]), the API server
      ([K8sApi]: its answers may depend on all earlier requests. Laws of it are assumed in
      [Progress], by the class [GoodApi], and, each class extending the one before, in
      [RestoreDurable] ([ApiStore]), [Settle] ([ClusterStore]) and [Exclusive]
      ([FaithfulStore]): a server to which nobody else writes clusters' annotations and
      ClusterConfigs).
    - [Runtime]: internal/shared/config.go and ipam.go: the package variables as the record
      [gostate], the mutex-protected wrapper [Ipamer], the requests to the API server and
      the recorded events.
    - [Utils]: internal/shared/utils.go: SortPatches, label selectors, generation of
      ClusterConfigs, release of CIDRs.
    - [Restore] (definitions), [RestoreCheck], [RestoreIpam], [RestoreState],
      [RestoreDurable] (theorems): internal/shared/restore.go: the integrity check, the
      rebuilt instance, orphans, the swap, and the whole restore against an API server that
      keeps its ClusterConfigs (the class [ApiStore]).
    - [ClusterController] (definitions), [ClusterGenerate], [ClusterManage],
      [ClusterLeak], [ClusterReconcile] (theorems): internal/controllers/cluster/controller.go.
      [AnnotationText]: annotations that a JSON round trip keeps.
    - [Settle]: what a successful reconciliation leaves on the server.
    - What the server shows over time: [Exclusive] defines who uses a CIDR ([uses]), what a
      server without a CIDR in two places is ([exclusive]), and the requests that keep it one
      ([good_request]); [ExclusiveReconcile] and [ExclusiveRestore] show that a reconciliation
      and a restore send only such requests; [ExclusiveRuns] puts calls, stops and restarts
      together ([reached]).
    - [ConfigController]: internal/controllers/config/controller.go. [Interplay]: a change of
      the config followed by an allocation.
    - [Events]: the SetupWithManager functions of both controllers: what is watched and which
      events pass; the predicates of controller-runtime and controller-utils are the class
      [CtrlPredicates].
    - [ConfigValidation], [ClusterMutation]: the two webhooks under internal/webhooks.
    - [System]: the entry points of the process in any sequence, and what none of them undoes;
      [Returns]: what it takes for a call to return a value, and the calls that do so in any
      started process; [Progress]: that on well-formed objects every entry point returns.
    - Goroutines: [Threads] cuts a call into the operations that others cannot see half done
      (a program [prog], built along the definition of the call by the instances of the
      class [Steps], which also prove that it computes the same function and handles the
      lock properly); [Pool] interleaves programs ([pool_step]), with termination and
      progress for all disciplined ones; [ThreadSteps] has the instances for every function up to
      the entry points; [Ownership] is a rely-guarantee argument about who owns which CIDR,
      which [ConcurrentAlloc] applies to ManageInjections.
    - [DeepCopy]: zz_generated.deepcopy.go on a heap of arrays, maps and structs, and
      GetConfig and SetConfig with pointers: what justifies that a config is a value in all
      other files.
    - [Startup]: cmd/platform-service-gardener-ipam (app.go, run.go, init.go, print.go),
      api/install, api/crds and the scheme builder of api/ipam/v1alpha1: options, their
      completion, the commands "run" and "init"; the framework they drive is the class
      [Framework]. [Commands]: main.go and the command tree with its flags; reading the
      arguments is the class [Cobra].
    - [Sim], [SetupSim], [MapServer]: an executable instance of every class, with its laws
      proved; [Witnesses], [SetupWitnesses], [PoolWitnesses], [RunWitnesses]: clusters, a
      config and its rules run through the program, and each conditional theorem applied to
      such a run; [Findings]:
      runs that show the defects.

    The parts interact through [gostate]: the config controller stores the config and
    queues clusters, the cluster controller reads the config and acquires and releases
    through the shared instance [IPAM], Restore replaces what is inside that instance, the
    mutation webhook reads the config. A Go function with effects is a function of the
    monad [M] (the state is [gostate]), or of [goM Ipamer] for the methods of the wrapper;
    a function that returns [(T, error)] returns [T + error]; a nil pointer that is
    dereferenced, an index out of range, an assignment to a nil map and a call of panic()
    are the outcome [Panic]; a second Lock of a held mutex is [Deadlock]. Package names
    and function names are those of the code; a loop body or a piece of a long function
    that is a definition of its own is named after what it does.

    ** What the theorems show

    - The life of the program (C1, C4): whatever is called, however the calls end, and
      wherever the process is stopped and started again, no CIDR is ever in two places on
      the server; and a reconciliation that succeeds leaves nothing to do.
    - No CIDR twice, none forgotten (C2, C3, C5 to C8): what is handed out is unknown before,
      different for each injection and recorded in the annotation, also when calls of
      ManageInjections interleave, and after a restart all CIDRs in use are known again,
      those of lost patches and ClusterConfigs included.
    - The process (C9, C10, C12, C20, C24): started properly it stays well-formed whatever
      happens, never blocks on its lock, and every call returns if the objects on the API
      server are well formed; the calls as interleaved goroutines never deadlock and always
      come to an end, and refine the calls as functions; main starts the manager only
      properly, with the options of the command line.
    - The integrity check and the restore (C2, C11, C18, C19, C23): the check restores
      what is missing, changes nothing else, and converges; a failed restore adds nothing
      (and RestoreState.Apply_sends_everything: all requests are sent).
    - Failure and release (C13, C14, C15, C25, C37): rollback of a failed generation,
      all-or-nothing release, deletion of a cluster, orphans (and
      RestoreState.handle_orphan_gone).
    - The annotation (C16, C21, C22): immutable entries, every applicable rule is
      accounted for, the written annotation is the parsed one (and
      ClusterManage.Manage_idempotent: a second pass allocates nothing;
      ClusterReconcile.Reconcile_left_alone: clusters that are left alone).
    - The config (C17, C28, C29, C36, C38): the stored config shares nothing with its callers,
      only a valid one is stored, what a change triggers and what it does not, the requeue
      delay with 64-bit overflow.
    - Events (C26, C27): which changes of clusters and ClusterConfigs start a reconciliation.
    - The webhooks (C30 to C32): exactly which configs are accepted, references after the
      mutation, idempotence.
    - Generated objects (C33, C34, C35): order of patches, independence of Go's map order,
      selectors that find the objects again.
    - Defects of the code that the model exhibits (C37, C38, C39, C40; C15, where the CIDRs
      are freed with and without the finalizer; Utils.SortPatches_incomparable_kept; the
      theorems and examples of [Findings], two of them interleavings: a refresh between two
      allocations hands out a CIDR twice, and a rollback may free the CIDR of another
      goroutine).

    ** Bounds, termination, integers

    There is no fuel: every loop of the code ranges over a finite list or map and is a
    structural recursion or a fold, so each definition is a total function and a theorem
    about its result is about every run. Durations are 64-bit nanoseconds with wrap-around
    ([wrap64]; [time_Sub] saturates), the subnet size of an injection is converted to a
    uint8 where the code does so ([uint8]), Atoi has the range of a 64-bit int and its
    saturation. slices.SortStableFunc is the insertion sort that Go runs for up to 20
    elements; on longer slices Go merges sorted blocks, which gives the same result for a
    comparison that is a weak order (the theorems C33 to C35 need no more than that), and
    SortPatches_incomparable_kept, about patches that are not comparable, is stated for up
    to 20.

    ** Choices of the model

    Log calls are dropped. The texts of errors are shortened (the program never reads its
    own, only the "overlaps" of the library's). A nil slice and an empty one are the same;
    a nil map and an empty one are kept apart where a write tells them apart (the inner
    maps of the annotation). [ClusterWatch] is an unbounded channel (the code's has a
    buffer of 1024 events, and a send to a full one waits for the cluster controller). A
    map value is visited in the same order each time it is ranged over; the order itself is arbitrary.
    The read-write lock around the config is not modelled (its critical sections are one
    assignment or one read). The Result field of the cluster controller's ReconcileResult
    and the cache of clusters in the orphan loop are left out, since the code never sets
    the first and never fills the second. In most files calls
    are functions and run one after the other; the operations of goroutines are interleaved
    in [Pool]: a read or write of a package variable, a request with its answer, a critical
    section of the wrapper's methods, the taking and giving back of its lock. C9 and C24
    are about all entry points, C6 about calls of ManageInjections, C1 about calls one after
    the other: a restore beside an allocation breaks what C6 and C1 say
    (Findings.refresh_between_allocations), and a rule with two paths for one injection
    breaks C6 (Findings.rollback_releases_twice). The readings of the clock in one
    reconciliation of the config are the argument [clock]. While the manager runs it makes an
    arbitrary sequence of calls ([schedule]). On the heap of [DeepCopy] a generated function
    writes the copied struct when it is complete, not field by field; the embedded structs of
    other packages copy themselves ([ForeignLaws]). The slices of TLS options in [Startup]
    are lists: they are nil or full when appended to, so no two share an array.

    ** Not modelled

    What cobra does with the arguments; the embedded manifests of api/crds; log calls and
    the names of the loggers and event recorders; constants that no code reads
    (EventReasonReconcileSuccess, EventReasonReconcileError). *)

From stdpp Require Export base option list gmap strings.
From stdpp Require Export sorting.

Declare Scope go_scope.
Delimit Scope go_scope with go.
Open Scope string_scope.
Open Scope list_scope.
Open Scope Z_scope.
Open Scope go_scope.

(** ** Errors *)

(** An error value handed out by a library the program calls. The program looks at
    two things: whether it is a "not found" error, and the text of the others. *)
Inductive exterr : Type :=
  | ErrNotFound (msg : string)
  | ErrOther (msg : string).

#[export] Instance exterr_eq_dec : EqDecision exterr.
Proof. solve_decision. Defined.

(** A Go [error] of the program: a library's error, [fmt.Errorf] with an optional
    wrapped error ([%w]), or [errors.Join] of several. *)
Inductive error : Type :=
  | Lib (e : exterr)
  | Errorf (what : string) (wrapped : option error)
  | Joined (es : list error).

Definition is_not_found (e : exterr) : bool :=
  match e with ErrNotFound _ => true | ErrOther _ => false end.

Definition err_msg (e : exterr) : string :=
  match e with ErrNotFound m => m | ErrOther m => m end.

(** [errors.Join]: nil entries are dropped, nil when nothing is left. *)
Definition errors_Join (es : list (option error)) : option error :=
  match omap id es with
  | [] => None
  | l => Some (Joined l)
  end.

Lemma errors_Join_some errs e : errors_Join [errs; Some e] <> None.
Proof. by destruct errs. Qed.

(** ** Outcomes and the state monad of the Go code *)

(** A Go call returns, panics, or blocks for ever on a mutex it can never get. *)
Inductive outcome (A : Type) : Type :=
  | Ret (a : A)
  | Panic (why : string)
  | Deadlock.
Arguments Ret {_} _.
Arguments Panic {_} _.
Arguments Deadlock {_}.

Definition is_ret {A} (o : outcome A) : bool := match o with Ret _ => true | _ => false end.

Definition goM (S A : Type) : Type := S -> outcome A * S.

Definition retM {S A} (a : A) : goM S A := fun s => (Ret a, s).
Definition panicM {S A} (why : string) : goM S A := fun s => (Panic why, s).
Definition getM {S} : goM S S := fun s => (Ret s, s).
Definition modifyM {S} (f : S -> S) : goM S unit := fun s => (Ret tt, f s).

Definition bindM {S A B} (m : goM S A) (k : A -> goM S B) : goM S B :=
  fun s => match m s with
           | (Ret a, s') => k a s'
           | (Panic w, s') => (Panic w, s')
           | (Deadlock, s') => (Deadlock, s')
           end.

Notation "'let!' x ':=' m 'in' k" := (bindM m (fun x => k))
  (at level 10, x pattern, m at level 200, k at level 200,
   format "'[v' 'let!'  x  ':='  m  'in'  '/' k ']'") : go_scope.
Notation "m ';;;' k" := (bindM m (fun _ => k))
  (at level 100, right associativity) : go_scope.

(** A [for ... range] loop whose body updates the loop's variables. *)
Fixpoint foldM {S A B} (f : B -> A -> goM S B) (b : B) (l : list A) : goM S B :=
  match l with
  | [] => retM b
  | x :: l => let! b' := f b x in foldM f b' l
  end.

Section monad.
Context {S : Type}.

Lemma bindM_Ret_inv {A B} (m : goM S A) (k : A -> goM S B) s b s'' :
  bindM m k s = (Ret b, s'') ->
  exists a s', m s = (Ret a, s') /\ k a s' = (Ret b, s'').
Proof. unfold bindM. destruct (m s) as [[]]; naive_solver. Qed.

(** A run with any outcome: the first call has returned, or it is where the run ended. *)
Lemma bindM_cases {A B} (m : goM S A) (k : A -> goM S B) s o s'' :
  bindM m k s = (o, s'') ->
  (exists a s', m s = (Ret a, s') /\ k a s' = (o, s'')) \/
  (exists o', m s = (o', s'') /\ is_ret o' = false /\ is_ret o = false).
Proof.
  unfold bindM. destruct (m s) as [[a|w|] s'] eqn:Hm; intros Hrun.
  - left. by exists a, s'.
  - right. injection Hrun as <- <-. by exists (Panic w).
  - right. injection Hrun as <- <-. by exists Deadlock.
Qed.

Lemma bindM_Ret {A B} (m : goM S A) (k : A -> goM S B) s a s' :
  m s = (Ret a, s') -> bindM m k s = k a s'.
Proof. unfold bindM. by intros ->. Qed.

(** Whatever the call's outcome, [R] relates the state before and after. *)
Definition preserves {A} (R : relation S) (m : goM S A) : Prop :=
  forall s, R s (m s).2.

(** A call never blocks from a state in [I] and stays in [I]. *)
Definition live {A} (I : S -> Prop) (m : goM S A) : Prop :=
  forall s, I s -> (m s).1 <> Deadlock /\ I (m s).2.

Lemma preserves_run {A} (R : relation S) (m : goM S A) s r s' :
  preserves R m -> m s = (r, s') -> R s s'.
Proof. intros Hm Hrun. specialize (Hm s). by rewrite Hrun in Hm. Qed.

Section preorder.
Context (R : relation S) `{!PreOrder R}.

Lemma preserves_ret {A} (a : A) : preserves R (retM a).
Proof. intros s. simpl. reflexivity. Qed.
Lemma preserves_panic {A} w : preserves R (@panicM S A w).
Proof. intros s. simpl. reflexivity. Qed.
Lemma preserves_get : preserves R getM.
Proof. intros s. simpl. reflexivity. Qed.
Lemma preserves_bind {A B} (m : goM S A) (k : A -> goM S B) :
  preserves R m -> (forall a, preserves R (k a)) -> preserves R (bindM m k).
Proof.
  intros Hm Hk s. specialize (Hm s). unfold bindM.
  destruct (m s) as [[a| |] s']; simpl in *; try done.
  etrans; [done|]. apply Hk.
Qed.
Lemma preserves_foldM {A B} (f : B -> A -> goM S B) l :
  (forall b x, preserves R (f b x)) -> forall b, preserves R (foldM f b l).
Proof.
  intros Hf. induction l as [|x l IH]; intros b; simpl.
  - apply preserves_ret.
  - by apply preserves_bind.
Qed.
End preorder.

Section liveness.
Context (I : S -> Prop).

Lemma live_ret {A} (a : A) : live I (retM a).
Proof. by intros s. Qed.
Lemma live_panic {A} w : live I (@panicM S A w).
Proof. by intros s. Qed.
Lemma live_get : live I getM.
Proof. by intros s. Qed.
Lemma live_bind {A B} (m : goM S A) (k : A -> goM S B) :
  live I m -> (forall a, live I (k a)) -> live I (bindM m k).
Proof.
  intros Hm Hk s Hs. destruct (Hm s Hs) as [Hd HI]. unfold bindM.
  destruct (m s) as [[a| |] s']; simpl in *; [by apply Hk|done|done].
Qed.
Lemma live_foldM {A B} (f : B -> A -> goM S B) l :
  (forall b x, live I (f b x)) -> forall b, live I (foldM f b l).
Proof.
  intros Hf. induction l as [|x l IH]; intros b; simpl.
  - apply live_ret.
  - by apply live_bind.
Qed.
End liveness.
End monad.

Create HintDb go.
#[export] Hint Resolve preserves_ret preserves_panic preserves_get : go.
#[export] Hint Resolve live_ret live_panic live_get : go.

(** ** Proof steps for monadic code *)

(** Splits a terminated run [bindM m k s = (Ret b, s')] into the runs of its parts. *)
Ltac go_step :=
  match goal with
  | H : bindM _ _ _ = (Ret _, _) |- _ =>
      let a := fresh "a" in let s := fresh "s" in
      let H1 := fresh "Hrun" in let H2 := fresh "Hrun" in
      apply bindM_Ret_inv in H as (a & s & H1 & H2)
  | H : retM _ _ = (Ret _, _) |- _ => unfold retM in H; simplify_eq
  | H : getM _ = (Ret _, _) |- _ => unfold getM in H; simplify_eq
  | H : modifyM _ _ = (Ret _, _) |- _ => unfold modifyM in H; simplify_eq
  | H : panicM _ _ = (Ret _, _) |- _ => discriminate H
  | H : (Ret _, _) = (Ret _, _) |- _ => simplify_eq
  | H : (let '(_, _) := ?p in _) _ = (Ret _, _) |- _ => destruct p
  end.
Ltac go_run := repeat (go_step; simpl in *).

(** Case analysis on the head of a run. *)
Ltac go_case :=
  match goal with
  | H : context [match ?x with _ => _ end] |- _ =>
      lazymatch type of H with _ = (Ret _, _) => destruct x eqn:? end
  end.

(** Structural search for [preserves] and [live] goals. *)
Ltac go_struct :=
  repeat first
    [ progress intros
    | assumption
    | match goal with |- PreOrder _ => apply _ end
    | solve [eauto 4 with go]
    | apply preserves_ret | apply preserves_panic | apply preserves_get
    | apply live_ret | apply live_panic | apply live_get
    | apply preserves_bind | apply live_bind
    | apply preserves_foldM | apply live_foldM
    | case_match ].

Section runs.
Context {S : Type}.

(** Rule for a loop with any outcome. *)
Lemma foldM_cases {A B} (f : B -> A -> goM S B) (I : B -> S -> Prop) (J : S -> Prop) l b s o s' :
  foldM f b l s = (o, s') -> I b s -> (forall b s, I b s -> J s) ->
  (forall b x s o s', x ∈ l -> I b s -> f b x s = (o, s') -> J s' /\ forall b', o = Ret b' -> I b' s') -> J s'.
Proof.
  intros Hrun Hi HJ. revert b s Hi Hrun. induction l as [|x l IH]; intros b s Hi Hrun Hf.
  { injection Hrun as _ <-. by eapply HJ. }
  simpl in Hrun. apply bindM_cases in Hrun as [(b' & s1 & Hx & Hrun)|(o1 & Hx & _)].
  - eapply (IH b'); [|exact Hrun|].
    + by eapply (Hf b x); [left| | |].
    + intros b2 y s2 o2 s2' Hy. apply Hf. by right.
  - by eapply (Hf b x s); [left| |].
Qed.

(** Rule for a loop that ran to its end: an invariant on the elements visited so far,
    the accumulator and the state. *)
Lemma foldM_inv {A B} (f : B -> A -> goM S B) (I : list A -> B -> S -> Prop) l b s b' s' :
  foldM f b l s = (Ret b', s') ->
  I [] b s ->
  (forall done x rest b s b' s', l = done ++ x :: rest ->
     I done b s -> f b x s = (Ret b', s') -> I (done ++ [x]) b' s') ->
  I l b' s'.
Proof.
  intros Hrun H0 Hstep.
  cut (forall todo done b s, l = done ++ todo -> I done b s ->
         foldM f b todo s = (Ret b', s') -> I l b' s').
  { intros Hcut. by apply (Hcut l [] b s). }
  clear b s H0 Hrun. intros todo. induction todo as [|x todo IH]; intros done b s Hl HI Hrun.
  - simpl in Hrun. go_run. by rewrite app_nil_r.
  - simpl in Hrun. apply bindM_Ret_inv in Hrun as (b1 & s1 & H1 & H2).
    apply (IH (done ++ [x]) b1 s1); [by rewrite <- app_assoc| |done].
    by apply (Hstep done x todo b s).
Qed.

Lemma foldM_app {A B} (f : B -> A -> goM S B) l1 l2 b :
  forall s, foldM f b (l1 ++ l2) s = bindM (foldM f b l1) (fun b => foldM f b l2) s.
Proof.
  revert b. induction l1 as [|x l1 IH]; intros b s; simpl; [done|].
  unfold bindM. destruct (f b x s) as [[] s1]; [|done|done]. apply IH.
Qed.
End runs.

(** ** Pure loops *)

Lemma foldl_inv {A B} (f : B -> A -> B) (I : list A -> B -> Prop) l b :
  I [] b ->
  (forall done x rest b, l = done ++ x :: rest -> I done b -> I (done ++ [x]) (f b x)) ->
  I l (foldl f b l).
Proof.
  intros H0 Hstep.
  cut (forall todo done b, l = done ++ todo -> I done b -> I l (foldl f b todo)).
  { intros Hcut. by apply (Hcut l []). }
  clear b H0. intros todo. induction todo as [|x todo IH]; intros done b Hl HI; simpl.
  - by rewrite Hl, app_nil_r.
  - apply (IH (done ++ [x])); [by rewrite <- app_assoc|]. by apply (Hstep done x todo).
Qed.

Lemma foldl_if_filter {A B} (p : A -> bool) (g : B -> A -> B) l b :
  foldl (fun acc x => if p x then acc else g acc x) b l =
  foldl g b (filter (fun x => p x = false) l).
Proof.
  revert b. induction l as [|x l IH]; intros b; simpl; [done|].
  rewrite filter_cons. destruct (p x) eqn:Hp.
  - rewrite decide_False by done. apply IH.
  - rewrite decide_True by done. simpl. apply IH.
Qed.

Section fold_insert.
Context {A V : Type} (key : A -> string) (val : A -> V).
Implicit Types m : gmap string V.

Lemma foldl_insert_notin l m k :
  k ∉ key <$> l -> foldl (fun m x => <[key x := val x]> m) m l !! k = m !! k.
Proof.
  revert m. induction l as [|x l IH]; intros m; simpl; [done|].
  rewrite not_elem_of_cons. intros [Hx Hl]. rewrite IH by done. by rewrite lookup_insert_ne.
Qed.

Lemma foldl_insert_in l m x :
  NoDup (key <$> l) -> x ∈ l ->
  foldl (fun m x => <[key x := val x]> m) m l !! key x = Some (val x).
Proof.
  revert m. induction l as [|y l IH]; intros m; simpl; [by intros _ ?%not_elem_of_nil|].
  rewrite NoDup_cons, elem_of_cons. intros [Hy Hl] [->|Hx]; [|by apply IH].
  rewrite foldl_insert_notin by done. by rewrite lookup_insert_eq.
Qed.

(** The last element with a key decides, so one of them does. *)
Lemma foldl_insert_some l m k v :
  foldl (fun m x => <[key x := val x]> m) m l !! k = Some v ->
  (exists x, x ∈ l /\ key x = k /\ val x = v) \/ (m !! k = Some v /\ k ∉ key <$> l).
Proof.
  revert m. induction l as [|x l IH]; intros m; simpl.
  { intros ->. right. split; [done|]. apply not_elem_of_nil. }
  intros Hk. apply IH in Hk as [(y & Hy & ?)|[Hm Hn]]; [left; exists y; split; [by right|done]|].
  destruct (decide (key x = k)) as [<-|Hne].
  - rewrite lookup_insert_eq in Hm. simplify_eq. left. exists x. split; [by left|done].
  - rewrite lookup_insert_ne in Hm by done. right. split; [done|].
    by apply not_elem_of_cons.
Qed.

Lemma foldl_insert_is_some l m k :
  k ∈ key <$> l -> is_Some (foldl (fun m x => <[key x := val x]> m) m l !! k).
Proof.
  revert m. induction l as [|x l IH]; intros m; simpl; [by intros ?%not_elem_of_nil|].
  rewrite elem_of_cons. intros [->|Hk]; [|by apply IH].
  destruct (decide (key x ∈ key <$> l)) as [Hin|Hin]; [by apply IH|].
  rewrite foldl_insert_notin by done. rewrite lookup_insert_eq. by eexists.
Qed.
End fold_insert.
