(* ===== verification/GoStd.v ===== *)
(** * The parts of Go's standard library the program computes with

    [strings.Split], [strings.Contains], [strings.Compare], [strconv.Atoi] and
    [slices.SortStableFunc]. A Go string is a sequence of bytes, here a [string] of
    8-bit [ascii] characters. *)

From stdpp Require Import base list strings sorting.
From Stdlib Require Import Ascii.
From S2P Require Import Prelude.
Open Scope list_scope.
Open Scope Z_scope.

(** ** Package strings *)

(** [strings.Split(s, sep)] for a separator of one byte. *)
Fixpoint strings_Split (s : string) (sep : ascii) : list string :=
  match s with
  | EmptyString => [""]
  | String c s' =>
      if decide (c = sep) then "" :: strings_Split s' sep
      else match strings_Split s' sep with
           | [] => [String c ""]
           | x :: l => String c x :: l
           end
  end.

Definition slash : ascii := "/"%char.

(** [strings.Contains(s, sub)]. *)
Fixpoint strings_Contains (s sub : string) : bool :=
  String.prefix sub s ||
  match s with
  | EmptyString => false
  | String _ s' => strings_Contains s' sub
  end.

Definition byte (c : ascii) : Z := Z.of_N (N_of_ascii c).

(** [strings.Compare(a, b)]: -1, 0 or +1, by bytes. *)
Fixpoint strings_Compare (a b : string) : Z :=
  match a, b with
  | EmptyString, EmptyString => 0
  | EmptyString, _ => -1
  | _, EmptyString => 1
  | String x a', String y b' =>
      if byte x <? byte y then -1
      else if byte y <? byte x then 1
      else strings_Compare a' b'
  end.

Lemma byte_inj x y : byte x = byte y -> x = y.
Proof.
  unfold byte. intros H%N2Z.inj.
  by rewrite <- (ascii_N_embedding x), H, ascii_N_embedding.
Qed.

Lemma strings_Compare_eq a b : strings_Compare a b = 0 <-> a = b.
Proof.
  revert b. induction a as [|x a IH]; intros [|y b]; simpl; try done.
  destruct (Z.ltb_spec (byte x) (byte y)); [naive_solver lia|].
  destruct (Z.ltb_spec (byte y) (byte x)); [naive_solver lia|].
  rewrite IH. split; [intros ->|naive_solver].
  by rewrite (byte_inj x y) by lia.
Qed.

Lemma strings_Compare_antisym a b : strings_Compare b a = - strings_Compare a b.
Proof.
  revert b. induction a as [|x a IH]; intros [|y b]; simpl; try done.
  destruct (Z.ltb_spec (byte x) (byte y)), (Z.ltb_spec (byte y) (byte x));
    try lia. apply IH.
Qed.

Lemma strings_Compare_range a b :
  strings_Compare a b = -1 \/ strings_Compare a b = 0 \/ strings_Compare a b = 1.
Proof.
  revert b. induction a as [|x a IH]; intros [|y b]; simpl; auto.
  repeat case_match; auto.
Qed.

Lemma strings_Compare_trans a b c :
  strings_Compare a b <= 0 -> strings_Compare b c <= 0 -> strings_Compare a c <= 0.
Proof.
  revert b c. induction a as [|x a IH]; intros [|y b] [|z c]; simpl; try lia.
  destruct (Z.ltb_spec (byte x) (byte y)), (Z.ltb_spec (byte y) (byte x)),
    (Z.ltb_spec (byte y) (byte z)), (Z.ltb_spec (byte z) (byte y)),
    (Z.ltb_spec (byte x) (byte z)), (Z.ltb_spec (byte z) (byte x)); try lia.
  apply IH.
Qed.

(** ** strconv.Atoi *)

Definition max_uint64 : Z := 2 ^ 64 - 1.
Definition max_int64 : Z := 2 ^ 63 - 1.
Definition min_int64 : Z := - 2 ^ 63.

Definition err_syntax : exterr := ErrOther "invalid syntax".
Definition err_range : exterr := ErrOther "value out of range".

Definition digit (c : ascii) : option Z :=
  if (48 <=? byte c) && (byte c <=? 57) then Some (byte c - 48) else None.

(** [strconv.ParseUint] in base 10: a wrong character is a syntax error, an overflow
    of 64 bits a range error, whichever the scan meets first. *)
Fixpoint parse_uint (acc : Z) (s : string) : Z + exterr :=
  match s with
  | EmptyString => inl acc
  | String c s' =>
      match digit c with
      | None => inr err_syntax
      | Some d =>
          let n := acc * 10 + d in
          if max_uint64 <? n then inr err_range else parse_uint n s'
      end
  end.

(** [strconv.Atoi]: the value returned with a range error is the nearest [int]. *)
Definition Atoi (s : string) : Z * option exterr :=
  let '(neg, body) :=
    match s with
    | String "-" b => (true, b)
    | String "+" b => (false, b)
    | _ => (false, s)
    end in
  let range := (if neg : bool then min_int64 else max_int64, Some err_range) in
  match body, parse_uint 0 body with
  | EmptyString, _ => (0, Some err_syntax)
  | _, inr e =>
      if bool_decide (e = err_syntax) then (0, Some err_syntax) else range
  | _, inl un =>
      if negb neg && (2 ^ 63 <=? un) then range
      else if neg && (2 ^ 63 <? un) then range
      else (if neg then - un else un, None)
  end.

Example Atoi_24 : Atoi "24" = (24, None).
Proof. reflexivity. Qed.
Example Atoi_bad : Atoi "2x" = (0, Some err_syntax).
Proof. reflexivity. Qed.
Example Atoi_huge : Atoi "99999999999999999999" = (max_int64, Some err_range).
Proof. reflexivity. Qed.

Lemma parse_uint_range acc s n :
  0 <= acc <= max_uint64 -> parse_uint acc s = inl n -> 0 <= n <= max_uint64.
Proof.
  revert acc. induction s as [|c s IH]; simpl; intros acc Hacc; [by intros [= ->]|].
  destruct (digit c) as [d|] eqn:Hd; [|done].
  unfold digit in Hd. case_match eqn:Hb; [|done].
  apply andb_true_iff in Hb as [?%Z.leb_le ?%Z.leb_le]. simplify_eq.
  case_match eqn:Hm; [done|]. apply Z.ltb_ge in Hm. apply IH. lia.
Qed.

(** Whatever the string, the value is a 64-bit [int]. *)
Lemma Atoi_range s : min_int64 <= (Atoi s).1 <= max_int64.
Proof.
  unfold Atoi. destruct (match s with String "-" b => _ | _ => _ end) as [neg body].
  pose proof (parse_uint_range 0 body) as Hu.
  unfold min_int64, max_int64, max_uint64 in *.
  destruct body as [|c body]; [simpl; lia|].
  destruct (parse_uint 0 (String c body)) as [un|e].
  - specialize (Hu un ltac:(lia) eq_refl).
    destruct neg; simpl.
    + destruct (Z.ltb_spec (2 ^ 63) un); simpl; lia.
    + destruct (Z.leb_spec (2 ^ 63) un); simpl; lia.
  - case_bool_decide; destruct neg; simpl; lia.
Qed.

(** ** slices.SortStableFunc *)

(** Go sorts up to 20 elements by insertion: every element moves left while it compares
    smaller than its left neighbour. (It sorts blocks of a longer slice so and merges
    them; where [cmp] is a weak order, stability determines that result too.) The sorted
    prefix is kept reversed, its last element first. *)
Definition insertion_block : nat := 20.

Section sort.
Context {A : Type} (cmp : A -> A -> Z).

Fixpoint sink (x : A) (prefix : list A) : list A :=
  match prefix with
  | [] => [x]
  | y :: prefix' => if cmp x y <? 0 then y :: sink x prefix' else x :: prefix
  end.

Definition sink_all (l : list A) (prefix : list A) : list A :=
  foldl (fun p x => sink x p) prefix l.

Definition SortStableFunc (l : list A) : list A := rev (sink_all l []).

Lemma sink_perm x p : sink x p ≡ₚ x :: p.
Proof.
  induction p as [|y p IH]; simpl; [done|].
  case_match; [|done]. rewrite IH. apply Permutation_swap.
Qed.

Lemma sink_all_perm l p : sink_all l p ≡ₚ l ++ p.
Proof.
  revert p. induction l as [|x l IH]; intros p; simpl; [done|].
  rewrite IH, sink_perm. by rewrite Permutation_middle.
Qed.

Lemma SortStableFunc_perm l : SortStableFunc l ≡ₚ l.
Proof.
  unfold SortStableFunc. rewrite <- Permutation_rev, sink_all_perm. by rewrite app_nil_r.
Qed.

Lemma filter_rev (P : A -> Prop) `{!forall x, Decision (P x)} l :
  filter P (rev l) = rev (filter P l).
Proof.
  induction l as [|x l IH]; [done|]. simpl rev.
  rewrite filter_app, IH, filter_cons, filter_cons, filter_nil.
  case_decide; [done|by rewrite app_nil_r].
Qed.

(** Elements that compare equal to one another keep their order. *)
Lemma sink_filter (P : A -> Prop) `{!forall x, Decision (P x)} x p :
  (forall a b, P a -> P b -> cmp a b = 0) ->
  filter P (sink x p) = filter P (x :: p).
Proof.
  intros Heq. induction p as [|y p IH]; [done|].
  simpl sink. destruct (Z.ltb_spec (cmp x y) 0) as [Hlt|]; [|done].
  rewrite filter_cons, IH, !filter_cons. repeat case_decide; try done.
  rewrite Heq in Hlt by done. lia.
Qed.

Lemma SortStableFunc_stable (P : A -> Prop) `{!forall x, Decision (P x)} l :
  (forall a b, P a -> P b -> cmp a b = 0) ->
  filter P (SortStableFunc l) = filter P l.
Proof.
  intros Heq. unfold SortStableFunc.
  cut (forall p, filter P (rev (sink_all l p)) = filter P (rev p) ++ filter P l).
  { intros Hall. apply (Hall []). }
  induction l as [|x l IH]; intros p; simpl; [by rewrite filter_nil, app_nil_r|].
  rewrite IH, !filter_rev, (sink_filter P) by done.
  rewrite !filter_cons. case_decide; [|done].
  simpl. by rewrite <- app_assoc.
Qed.

(** An element that compares equal to all others stays, and the others stay on their
    side of it. *)
Lemma sink_barrier x y p q : cmp y x = 0 -> sink y (q ++ x :: p) = sink y q ++ x :: p.
Proof.
  intros Hx. induction q as [|z q IH]; simpl.
  - by rewrite Hx.
  - rewrite IH. by case_match.
Qed.

Lemma SortStableFunc_barrier x l1 l2 :
  (forall y, cmp x y = 0 /\ cmp y x = 0) ->
  SortStableFunc (l1 ++ x :: l2) = SortStableFunc l1 ++ x :: SortStableFunc l2.
Proof.
  intros Hx. unfold SortStableFunc, sink_all. rewrite foldl_app. simpl.
  generalize (foldl (fun p x => sink x p) [] l1). intros p.
  assert (sink x p = [] ++ x :: p) as ->.
  { destruct p as [|y p]; [done|]. simpl. by rewrite (proj1 (Hx y)). }
  assert (forall q, foldl (fun p x => sink x p) (q ++ x :: p) l2 =
    foldl (fun p x => sink x p) q l2 ++ x :: p) as ->.
  { induction l2 as [|y l2 IH]; intros q; [done|]. simpl.
    by rewrite sink_barrier by apply Hx. }
  rewrite rev_app_distr. simpl. by rewrite <- app_assoc.
Qed.

(** On elements where [cmp] is a weak order the result is sorted. *)
Context (P : A -> Prop).
Hypothesis cmp_antisym : forall x y, P x -> P y -> cmp x y < 0 -> 0 <= cmp y x.
Hypothesis cmp_total : forall x y, P x -> P y -> 0 <= cmp x y -> cmp y x <= 0.
Hypothesis cmp_trans : forall x y z, P x -> P y -> P z ->
  cmp x y <= 0 -> cmp y z <= 0 -> cmp x z <= 0.

Definition cmp_le (x y : A) : Prop := cmp x y <= 0.

Lemma sink_sorted x p :
  P x -> Forall P p ->
  StronglySorted (flip cmp_le) p -> StronglySorted (flip cmp_le) (sink x p).
Proof.
  intros Hx Hp. induction 1 as [|y p Hs IH Hy]; simpl.
  { by repeat constructor. }
  apply Forall_cons in Hp as [HPy Hp]. specialize (IH Hp).
  destruct (Z.ltb_spec (cmp x y) 0) as [Hlt|Hge].
  - constructor; [done|]. rewrite sink_perm. constructor; [unfold flip, cmp_le; lia|done].
  - assert (cmp_le y x) as Hyx by by apply cmp_total.
    constructor; [by constructor|]. constructor; [done|].
    rewrite Forall_forall in Hy, Hp |- *.
    intros z Hz. specialize (Hy z Hz). specialize (Hp z Hz).
    unfold flip, cmp_le in *. by apply (cmp_trans z y x).
Qed.

Lemma sink_all_sorted l p :
  Forall P l -> Forall P p -> StronglySorted (flip cmp_le) p ->
  StronglySorted (flip cmp_le) (sink_all l p).
Proof.
  revert p. induction l as [|x l IH]; intros p Hl Hp Hs; simpl; [done|].
  apply Forall_cons in Hl as [Hx Hl]. apply IH; [done| |by apply sink_sorted].
  rewrite sink_perm. by constructor.
Qed.

Lemma StronglySorted_rev (R : relation A) l :
  StronglySorted (flip R) l -> StronglySorted R (rev l).
Proof.
  induction 1 as [|x l Hs IH Hx]; simpl; [constructor|].
  apply StronglySorted_app. split_and!; [|done|by repeat constructor].
  intros y z Hy Hz%list_elem_of_singleton. subst.
  rewrite <- Permutation_rev in Hy.
  by apply (proj1 (Forall_forall _ _) Hx).
Qed.

Lemma SortStableFunc_sorted l :
  Forall P l -> StronglySorted cmp_le (SortStableFunc l).
Proof. intros Hl. apply StronglySorted_rev, sink_all_sorted; by try constructor. Qed.

(** When moreover only equal elements compare equal, the result does not depend on
    the order of the input. *)
Lemma SortStableFunc_unique l1 l2 :
  (forall x y, P x -> P y -> cmp x y <= 0 -> cmp y x <= 0 -> x = y) ->
  Forall P l1 -> l1 ≡ₚ l2 -> SortStableFunc l1 = SortStableFunc l2.
Proof.
  intros Hanti Hl1 Hperm.
  assert (Forall P l2) as Hl2 by by rewrite <- Hperm.
  assert (forall s1 s2, Forall P s1 -> s1 ≡ₚ s2 ->
    StronglySorted cmp_le s1 -> StronglySorted cmp_le s2 -> s1 = s2) as Hunique.
  { intros s1 s2 HP Hs H1 H2. apply (StronglySorted_unique_strong cmp_le); try done.
    intros x y Hx Hy. rewrite <- Hs in Hy. rewrite Forall_forall in HP. by apply Hanti; auto. }
  apply Hunique; [by rewrite SortStableFunc_perm| |by apply SortStableFunc_sorted..].
  by rewrite !SortStableFunc_perm.
Qed.
End sort.
