(* ===== verification/GoJson.v ===== *)
(** * encoding/json on the types the program stores

    [json.Marshal] and [json.Unmarshal] for a [string] (the value of a patch) and for a
    [map[string]map[string]string] (the applied-rules annotation), byte for byte:
    HTML-safe escaping, sorted keys, UTF-8 validation, surrogate pairs, [null]. *)

From stdpp Require Import base list strings gmap.
From Stdlib Require Import Ascii.
From S2P Require Import Prelude GoStd.
Open Scope list_scope.
Open Scope Z_scope.

(** ** UTF-8 *)

Definition ch (n : Z) : ascii := ascii_of_N (Z.to_N n).
Definition str1 (c : ascii) : string := String c EmptyString.

(** Length of the sequence a lead byte starts (0: no sequence starts like this). *)
Definition lead (c : ascii) : nat :=
  let b := byte c in
  if b <? 0x80 then 1 else if b <? 0xC2 then 0 else if b <? 0xE0 then 2
  else if b <? 0xF0 then 3 else if b <? 0xF5 then 4 else 0.

Definition within (lo hi : Z) (c : ascii) : bool := (lo <=? byte c) && (byte c <=? hi).
Definition cont (c : ascii) : bool := within 0x80 0xBF c.

(** The second byte: no overlong form, no surrogate, nothing above U+10FFFF. *)
Definition second (c0 c1 : ascii) : bool :=
  let b := byte c0 in
  if b =? 0xE0 then within 0xA0 0xBF c1
  else if b =? 0xED then within 0x80 0x9F c1
  else if b =? 0xF0 then within 0x90 0xBF c1
  else if b =? 0xF4 then within 0x80 0x8F c1
  else cont c1.

(** What [utf8.DecodeRune] reads, one step at a time. *)
Inductive chunk : Type :=
  | CAscii (c : ascii)
  | CSeq (c0 : ascii) (more : string)
  | CBad (c : ascii).

Fixpoint chunks (s : string) : list chunk :=
  match s with
  | EmptyString => []
  | String c0 s1 =>
      match lead c0, s1 with
      | 1%nat, _ => CAscii c0 :: chunks s1
      | 2%nat, String c1 s2 =>
          if second c0 c1 then CSeq c0 (str1 c1) :: chunks s2
          else CBad c0 :: chunks s1
      | 3%nat, String c1 (String c2 s3) =>
          if second c0 c1 && cont c2 then CSeq c0 (String c1 (str1 c2)) :: chunks s3
          else CBad c0 :: chunks s1
      | 4%nat, String c1 (String c2 (String c3 s4)) =>
          if second c0 c1 && cont c2 && cont c3
          then CSeq c0 (String c1 (String c2 (str1 c3))) :: chunks s4
          else CBad c0 :: chunks s1
      | _, _ => CBad c0 :: chunks s1
      end
  end.

Definition is_bad (k : chunk) : bool := match k with CBad _ => true | _ => false end.
Definition valid_utf8 (s : string) : bool := forallb (fun k => negb (is_bad k)) (chunks s).

Fixpoint concat_str (l : list string) : string :=
  match l with
  | [] => EmptyString
  | x :: l => x +:+ concat_str l
  end.

Definition replacement : string := String (ch 0xEF) (String (ch 0xBF) (str1 (ch 0xBD))).

Definition coerce_chunk (k : chunk) : string :=
  match k with
  | CAscii c => str1 c
  | CSeq c0 more => String c0 more
  | CBad _ => replacement
  end.

(** Invalid bytes become U+FFFD. *)
Definition to_valid_utf8 (s : string) : string := concat_str (coerce_chunk <$> chunks s).

(** [utf8.AppendRune] *)
Definition utf8_encode (r : Z) : string :=
  if r <? 0x80 then str1 (ch r)
  else if r <? 0x800 then String (ch (0xC0 + r / 64)) (str1 (ch (0x80 + r mod 64)))
  else if r <? 0x10000 then
    String (ch (0xE0 + r / 4096))
      (String (ch (0x80 + (r / 64) mod 64)) (str1 (ch (0x80 + r mod 64))))
  else
    String (ch (0xF0 + r / 262144)) (String (ch (0x80 + (r / 4096) mod 64))
      (String (ch (0x80 + (r / 64) mod 64)) (str1 (ch (0x80 + r mod 64))))).

(** ** Strings *)

Definition quote : ascii := ch 34.
Definition backslash : ascii := ch 92.

Definition hex_digit (n : Z) : ascii := if n <? 10 then ch (48 + n) else ch (87 + n).

(** The escaping of one ASCII byte, as [json.Marshal] does it (HTML-safe). *)
Definition enc_ascii (c : ascii) : string :=
  let b := byte c in
  let esc (x : Z) := String backslash (str1 (ch x)) in
  if (b =? 34) || (b =? 92) then esc b
  else if b =? 8 then esc 98
  else if b =? 12 then esc 102
  else if b =? 10 then esc 110
  else if b =? 13 then esc 114
  else if b =? 9 then esc 116
  else if (b <? 32) || (b =? 60) || (b =? 62) || (b =? 38) then
    String backslash (String (ch 117) (String (ch 48) (String (ch 48)
      (String (hex_digit (b / 16)) (str1 (hex_digit (b mod 16)))))))
  else str1 c.

Definition esc_u (a b c d : Z) : string :=
  String backslash (String (ch 117) (String (ch a) (String (ch b) (String (ch c) (str1 (ch d)))))).

Definition line_sep : string := String (ch 0x80) (str1 (ch 0xA8)).
Definition para_sep : string := String (ch 0x80) (str1 (ch 0xA9)).

Definition enc_chunk (k : chunk) : string :=
  match k with
  | CAscii c => enc_ascii c
  | CSeq c0 more =>
      if bool_decide (c0 = ch 0xE2 /\ more = line_sep) then esc_u 50 48 50 56
      else if bool_decide (c0 = ch 0xE2 /\ more = para_sep) then esc_u 50 48 50 57
      else String c0 more
  | CBad _ => esc_u 102 102 102 100
  end.

(** [json.Marshal] of a string. *)
Definition json_Marshal_string (s : string) : string :=
  String quote (concat_str (enc_chunk <$> chunks s) +:+ str1 quote).

Definition hex_val (c : ascii) : option Z :=
  let b := byte c in
  if (48 <=? b) && (b <=? 57) then Some (b - 48)
  else if (97 <=? b) && (b <=? 102) then Some (b - 87)
  else if (65 <=? b) && (b <=? 70) then Some (b - 55)
  else None.

Definition hex4 (a b c d : ascii) : option Z :=
  match hex_val a, hex_val b, hex_val c, hex_val d with
  | Some x, Some y, Some z, Some w => Some (((x * 16 + y) * 16 + z) * 16 + w)
  | _, _, _, _ => None
  end.

Definition simple_escape (c : ascii) : option ascii :=
  let b := byte c in
  if (b =? 34) || (b =? 92) || (b =? 47) then Some c
  else if b =? 98 then Some (ch 8)
  else if b =? 102 then Some (ch 12)
  else if b =? 110 then Some (ch 10)
  else if b =? 114 then Some (ch 13)
  else if b =? 116 then Some (ch 9)
  else None.

Definition push (x : string) (r : option (string * string)) : option (string * string) :=
  match r with Some (v, rest) => Some (x +:+ v, rest) | None => None end.

(** The body of a string literal, after the opening quote: its bytes with the escapes
    decoded, and the input behind the closing quote. *)
Fixpoint scan_string (s : string) : option (string * string) :=
  match s with
  | EmptyString => None
  | String c s1 =>
      if bool_decide (c = quote) then Some (EmptyString, s1)
      else if byte c <? 32 then None
      else if bool_decide (c = backslash) then
        match s1 with
        | EmptyString => None
        | String e s2 =>
            match simple_escape e with
            | Some x => push (str1 x) (scan_string s2)
            | None =>
                if byte e =? 117 then
                  match s2 with
                  | String h1 (String h2 (String h3 (String h4 s3))) =>
                      match hex4 h1 h2 h3 h4 with
                      | None => None
                      | Some r =>
                          if (0xD800 <=? r) && (r <? 0xE000) then
                            match s3 with
                            | String b1 (String u1 (String g1 (String g2 (String g3 (String g4 s4))))) =>
                                match hex4 g1 g2 g3 g4 with
                                | Some r2 =>
                                    if bool_decide (b1 = backslash) && (byte u1 =? 117) &&
                                       (r <? 0xDC00) && (0xDC00 <=? r2) && (r2 <? 0xE000)
                                    then push (utf8_encode ((r - 0xD800) * 1024 + (r2 - 0xDC00) + 0x10000))
                                              (scan_string s4)
                                    else push replacement (scan_string s3)
                                | None => push replacement (scan_string s3)
                                end
                            | _ => push replacement (scan_string s3)
                            end
                          else push (utf8_encode r) (scan_string s3)
                      end
                  | _ => None
                  end
                else None
            end
        end
      else push (str1 c) (scan_string s1)
  end.

(** A string literal: its value, invalid UTF-8 replaced, and the rest of the input. *)
Definition parse_string (s : string) : option (string * string) :=
  match s with
  | String c s1 =>
      if bool_decide (c = quote) then
        match scan_string s1 with
        | Some (v, rest) => Some (to_valid_utf8 v, rest)
        | None => None
        end
      else None
  | EmptyString => None
  end.

Definition is_ws (c : ascii) : bool :=
  let b := byte c in (b =? 32) || (b =? 9) || (b =? 10) || (b =? 13).

Fixpoint skip_ws (s : string) : string :=
  match s with
  | String c s1 => if is_ws c then skip_ws s1 else s
  | EmptyString => EmptyString
  end.

(** The literal [null]. *)
Definition parse_null (s : string) : option string :=
  match s with
  | String a (String b (String c (String d rest))) =>
      if bool_decide (String a (String b (String c (str1 d))) = "null") then Some rest else None
  | _ => None
  end.

Definition at_end (s : string) : bool := bool_decide (skip_ws s = EmptyString).

(** [json.Unmarshal] into a string variable that holds [v0]: [null] leaves it alone,
    a string literal is its value, anything else is an error. *)
Definition json_Unmarshal_string (v0 s : string) : option string :=
  let s := skip_ws s in
  match parse_null s with
  | Some rest => if at_end rest then Some v0 else None
  | None =>
      match parse_string s with
      | Some (v, rest) => if at_end rest then Some v else None
      | None => None
      end
  end.

(** ** Objects *)

Section members.
Context {V : Type} (elem : string -> option (V * string)).

(** The members of an object that is not empty, up to its closing brace. *)
Fixpoint parse_members (fuel : nat) (s : string) : option (list (string * V) * string) :=
  match fuel with
  | O => None
  | S fuel =>
      match parse_string (skip_ws s) with
      | None => None
      | Some (k, s1) =>
          match skip_ws s1 with
          | String ":" s2 =>
              match elem (skip_ws s2) with
              | None => None
              | Some (v, s3) =>
                  match skip_ws s3 with
                  | String "," s4 =>
                      match parse_members fuel s4 with
                      | Some (l, rest) => Some ((k, v) :: l, rest)
                      | None => None
                      end
                  | String "}" s4 => Some ([(k, v)], s4)
                  | _ => None
                  end
              end
          | _ => None
          end
      end
  end.

(** An object, its opening brace included. *)
Definition parse_object (s : string) : option (list (string * V) * string) :=
  match s with
  | String "{" s1 =>
      match skip_ws s1 with
      | String "}" rest => Some ([], rest)
      | _ => parse_members (String.length s1) s1
      end
  | _ => None
  end.
End members.

(** A later member with the same key replaces an earlier one. *)
Definition members_map {V} (l : list (string * V)) : gmap string V :=
  foldl (fun m kv => <[kv.1 := kv.2]> m) ∅ l.

(** A value of a [map[string]string]; [null] is the zero value. *)
Definition elem_string (s : string) : option (string * string) :=
  match parse_null s with
  | Some rest => Some (EmptyString, rest)
  | None => parse_string s
  end.

(** A value of a [map[string]map[string]string]; [null] is the nil map, [None]. *)
Definition elem_map (s : string) : option (option (gmap string string) * string) :=
  match parse_null s with
  | Some rest => Some (None, rest)
  | None =>
      match parse_object elem_string s with
      | Some (l, rest) => Some (Some (members_map l), rest)
      | None => None
      end
  end.

(** [json.Unmarshal] into an empty [map[string]map[string]string]. *)
Definition json_Unmarshal_map2 (s : string) : option (gmap string (option (gmap string string))) :=
  let s := skip_ws s in
  match parse_null s with
  | Some rest => if at_end rest then Some ∅ else None
  | None =>
      match parse_object elem_map s with
      | Some (l, rest) => if at_end rest then Some (members_map l) else None
      | None => None
      end
  end.

Definition sorted_entries {V} (m : gmap string V) : list (string * V) :=
  SortStableFunc (fun x y => strings_Compare x.1 y.1) (map_to_list m).

Fixpoint enc_members {V} (enc : V -> string) (l : list (string * V)) : string :=
  match l with
  | [] => "}"
  | [(k, v)] => json_Marshal_string k +:+ String ":" (enc v +:+ "}")
  | (k, v) :: l => json_Marshal_string k +:+ String ":" (enc v +:+ String "," (enc_members enc l))
  end.

(** [json.Marshal] of a map: the keys in ascending order. *)
Definition json_Marshal_map {V} (enc : V -> string) (m : gmap string V) : string :=
  String "{" (enc_members enc (sorted_entries m)).

Definition json_Marshal_inner (m : option (gmap string string)) : string :=
  match m with
  | None => "null"
  | Some m => json_Marshal_map json_Marshal_string m
  end.

Definition json_Marshal_map2 (m : gmap string (option (gmap string string))) : string :=
  json_Marshal_map json_Marshal_inner m.

(** ** Round trips *)

#[local] Arguments String.append !_ _ /.

Lemma append_assoc_str (a b c : string) : (a +:+ b) +:+ c = a +:+ (b +:+ c).
Proof. induction a as [|x a IH]; simpl; [done|]. by rewrite IH. Qed.

Lemma append_nil_str (a : string) : a +:+ "" = a.
Proof. induction a as [|x a IH]; simpl; [done|]. by rewrite IH. Qed.

Fixpoint all_high (s : string) : bool :=
  match s with
  | EmptyString => true
  | String c s => (128 <=? byte c) && all_high s
  end.

Lemma within_high lo hi c : 128 <= lo -> within lo hi c = true -> (128 <=? byte c) = true.
Proof. unfold within. intros ? [?%Z.leb_le ?]%andb_true_iff. apply Z.leb_le. lia. Qed.

Lemma second_high c0 c1 : second c0 c1 = true -> (128 <=? byte c1) = true.
Proof. unfold second. repeat case_match; apply within_high; lia. Qed.

Lemma lead_ascii c : lead c = 1%nat -> (128 <=? byte c) = false.
Proof. unfold lead. rewrite Z.leb_antisym. destruct (byte c <? 128); [done|]. by repeat case_match. Qed.

Lemma lead_high c : lead c <> 1%nat -> (128 <=? byte c) = true.
Proof. unfold lead. rewrite Z.leb_antisym. by destruct (byte c <? 128). Qed.

(** Induction along the decoder's steps. *)
Lemma chunks_ind (P : string -> list chunk -> Prop) :
  P EmptyString [] ->
  (forall c s, (128 <=? byte c) = false -> P s (chunks s) -> P (String c s) (CAscii c :: chunks s)) ->
  (forall c0 more s, (128 <=? byte c0) = true -> all_high more = true ->
     (forall rest, chunks (String c0 (more +:+ rest)) = CSeq c0 more :: chunks rest) -> P s (chunks s) ->
     P (String c0 (more +:+ s)) (CSeq c0 more :: chunks s)) ->
  (forall c s, P s (chunks s) -> P (String c s) (CBad c :: chunks s)) ->
  forall s, P s (chunks s).
Proof.
  intros H0 Ha Hs Hb s. remember (String.length s) as n eqn:Hn.
  revert s Hn. induction (lt_wf n) as [n _ IHn]. intros s ->.
  assert (forall s', (String.length s' < String.length s)%nat -> P s' (chunks s')) as IH
    by (intros s' Hs'; by apply (IHn (String.length s'))). clear IHn.
  destruct s as [|c0 s1]; [done|].
  assert (P s1 (chunks s1)) as H1 by (apply IH; simpl; lia).
  pose proof (lead_high c0) as Hh. pose proof (lead_ascii c0) as Hl. simpl.
  destruct (lead c0) as [|[|[|[|[|n]]]]] eqn:Hlead;
    [by apply Hb|by apply Ha; auto| | | |by destruct s1; apply Hb].
  - destruct s1 as [|c1 s2]; [by apply Hb|]. case_match eqn:E1; [|by apply Hb].
    apply (Hs c0 (str1 c1) s2); [by apply Hh| | |apply IH; simpl; lia].
    + simpl. by rewrite (second_high c0 c1).
    + intros rest. simpl. by rewrite Hlead, E1.
  - destruct s1 as [|c1 [|c2 s3]]; [by apply Hb..|]. case_match eqn:E1; [|by apply Hb].
    apply andb_true_iff in E1 as [E1 E2].
    apply (Hs c0 (String c1 (str1 c2)) s3); [by apply Hh| | |apply IH; simpl; lia].
    + simpl. rewrite (second_high c0 c1), (within_high 0x80 0xBF c2); done.
    + intros rest. simpl. by rewrite Hlead, E1, E2.
  - destruct s1 as [|c1 [|c2 [|c3 s4]]]; [by apply Hb..|]. case_match eqn:E1; [|by apply Hb].
    apply andb_true_iff in E1 as [[E1 E2]%andb_true_iff E3].
    apply (Hs c0 (String c1 (String c2 (str1 c3))) s4); [by apply Hh| | |apply IH; simpl; lia].
    + simpl. rewrite (second_high c0 c1), (within_high 0x80 0xBF c2), (within_high 0x80 0xBF c3); done.
    + intros rest. simpl. by rewrite Hlead, E1, E2, E3.
Qed.

Definition wf_chunk (k : chunk) : Prop :=
  match k with
  | CAscii c => (128 <=? byte c) = false
  | CSeq c0 more => (128 <=? byte c0) = true /\ all_high more = true
  | CBad _ => True
  end.

Lemma chunks_wf s : Forall wf_chunk (chunks s).
Proof. apply (chunks_ind (fun _ l => Forall wf_chunk l)); intros; constructor; simpl; auto. Qed.

Lemma to_valid_utf8_id s : valid_utf8 s = true -> to_valid_utf8 s = s.
Proof.
  unfold valid_utf8, to_valid_utf8.
  apply (chunks_ind (fun s l => forallb (fun k => negb (is_bad k)) l = true ->
           concat_str (coerce_chunk <$> l) = s)); cbn; [done|..].
  - intros c s' _ IH Hv. f_equal. by apply IH.
  - intros c0 more s' _ _ _ IH Hv. f_equal. f_equal. by apply IH.
  - done.
Qed.

(** The decoder undoes the encoder, one byte or sequence at a time. *)
Lemma scan_ascii c rest :
  (128 <=? byte c) = false ->
  scan_string (enc_ascii c +:+ rest) = push (str1 c) (scan_string rest).
Proof. destruct c as [[] [] [] [] [] [] [] []]; first [discriminate | intros _; reflexivity]. Qed.

Lemma scan_high c rest :
  (128 <=? byte c) = true ->
  scan_string (String c rest) = push (str1 c) (scan_string rest).
Proof. destruct c as [[] [] [] [] [] [] [] []]; first [discriminate | intros _; reflexivity]. Qed.

Lemma push_push a b r : push a (push b r) = push (a +:+ b) r.
Proof. destruct r as [[v rest]|]; simpl; [by rewrite append_assoc_str|done]. Qed.

Lemma scan_all_high s rest :
  all_high s = true -> scan_string (s +:+ rest) = push s (scan_string rest).
Proof.
  induction s as [|c s IH]; cbn [all_high String.append].
  - intros _. by destruct (scan_string rest) as [[]|].
  - intros [Hc Hs]%andb_true_iff. by rewrite scan_high, IH, push_push.
Qed.

Lemma scan_chunk k rest :
  wf_chunk k -> scan_string (enc_chunk k +:+ rest) = push (coerce_chunk k) (scan_string rest).
Proof.
  destruct k as [c|c0 more|c]; cbn [wf_chunk enc_chunk coerce_chunk]; [apply scan_ascii| |].
  - intros [H0 Hm]. case_bool_decide as H1; [|case_bool_decide as H2].
    + destruct H1 as [-> ->]. reflexivity.
    + destruct H2 as [-> ->]. reflexivity.
    + apply (scan_all_high (String c0 more)). cbn [all_high]. by rewrite H0, Hm.
  - intros _. reflexivity.
Qed.

Lemma scan_chunks l rest :
  Forall wf_chunk l ->
  scan_string (concat_str (enc_chunk <$> l) +:+ String quote rest) =
    Some (concat_str (coerce_chunk <$> l), rest).
Proof.
  induction 1 as [|k l Hk Hl IH]; [reflexivity|].
  rewrite !fmap_cons. cbn [concat_str].
  rewrite append_assoc_str, scan_chunk by done. by rewrite IH.
Qed.

Lemma parse_Marshal_string s rest :
  valid_utf8 s = true ->
  parse_string (json_Marshal_string s +:+ rest) = Some (s, rest).
Proof.
  intros Hv. unfold json_Marshal_string. cbn [String.append parse_string].
  rewrite bool_decide_true, append_assoc_str by done.
  change (str1 quote +:+ rest) with (String quote rest).
  rewrite scan_chunks by apply chunks_wf.
  fold (to_valid_utf8 s). by rewrite !(to_valid_utf8_id s Hv).
Qed.

Lemma skip_ws_Marshal_string s rest :
  skip_ws (json_Marshal_string s +:+ rest) = json_Marshal_string s +:+ rest.
Proof. reflexivity. Qed.

Lemma parse_null_Marshal_string s rest : parse_null (json_Marshal_string s +:+ rest) = None.
Proof.
  unfold json_Marshal_string. cbn [String.append parse_null].
  by repeat case_match.
Qed.

(** Unmarshalling what was marshalled gives the string back. *)
Lemma json_string_roundtrip v0 s :
  valid_utf8 s = true -> json_Unmarshal_string v0 (json_Marshal_string s) = Some s.
Proof.
  intros Hv. unfold json_Unmarshal_string.
  pose proof (skip_ws_Marshal_string s "") as Hw.
  pose proof (parse_null_Marshal_string s "") as Hn.
  pose proof (parse_Marshal_string s "" Hv) as Hp.
  rewrite append_nil_str in Hw, Hn, Hp. by rewrite Hw, Hn, Hp.
Qed.

Lemma json_Unmarshal_string_null v0 : json_Unmarshal_string v0 "null" = Some v0.
Proof. reflexivity. Qed.

Section roundtrip_members.
Context {V : Type} (elem : string -> option (V * string)) (enc : V -> string) (ok : V -> Prop).
Hypothesis elem_enc : forall v rest, ok v -> elem (skip_ws (enc v +:+ rest)) = Some (v, rest).

Lemma parse_members_enc l rest n :
  l <> [] -> (length l <= n)%nat ->
  Forall (fun kv => valid_utf8 kv.1 = true /\ ok kv.2) l ->
  parse_members elem n (enc_members enc l +:+ rest) = Some (l, rest).
Proof.
  intros Hne Hn Hl. revert n Hn Hne.
  induction Hl as [|[k v] l [Hk Hv] Hl IH]; intros [|n] Hn Hne; [done..|simpl in Hn; lia|].
  cbn [length fst snd] in *. cbn [enc_members parse_members].
  destruct l as [|kv l].
  - rewrite append_assoc_str, skip_ws_Marshal_string, parse_Marshal_string by done.
    change (skip_ws (String ":" (enc v +:+ "}") +:+ rest)) with (String ":" ((enc v +:+ "}") +:+ rest)).
    lazy beta iota. rewrite append_assoc_str, elem_enc by done. reflexivity.
  - set (more := enc_members enc (kv :: l)).
    rewrite append_assoc_str, skip_ws_Marshal_string, parse_Marshal_string by done.
    change (skip_ws (String ":" (enc v +:+ String "," more) +:+ rest))
      with (String ":" ((enc v +:+ String "," more) +:+ rest)).
    lazy beta iota. rewrite append_assoc_str, elem_enc by done.
    change (skip_ws (String "," more +:+ rest)) with (String "," (more +:+ rest)).
    lazy beta iota. subst more. by rewrite IH by (done || lia).
Qed.
End roundtrip_members.

Lemma length_append_str (a b : string) :
  String.length (a +:+ b) = (String.length a + String.length b)%nat.
Proof. induction a as [|x a IH]; simpl; [done|]. by rewrite IH. Qed.

Lemma enc_members_length {V} (enc : V -> string) l :
  (length l <= String.length (enc_members enc l))%nat.
Proof.
  induction l as [|[k v] l IH]; [simpl; lia|].
  cbn [length enc_members]. destruct l as [|kv l].
  - unfold json_Marshal_string. simpl. lia.
  - rewrite length_append_str. unfold json_Marshal_string.
    change (String.length (String ":" ?x)) with (S (String.length x)).
    rewrite length_append_str.
    change (String.length (String "," ?x)) with (S (String.length x)).
    lia.
Qed.

Lemma members_map_list_to_map {V} (l : list (string * V)) :
  NoDup l.*1 -> members_map l = list_to_map l.
Proof.
  intros Hnd. unfold members_map.
  cut (forall m : gmap string V,
    foldl (fun m kv => <[kv.1:=kv.2]> m) m l = list_to_map l ∪ m).
  { intros Hm. by rewrite Hm, (right_id_L ∅ (∪)). }
  induction l as [|[k v] l IH]; intros m; simpl; [by rewrite (left_id_L ∅ (∪))|].
  apply NoDup_cons in Hnd as [Hk Hnd]. rewrite IH by done.
  rewrite <- insert_union_r by by apply not_elem_of_list_to_map.
  by rewrite insert_union_l.
Qed.

Lemma sorted_entries_perm {V} (m : gmap string V) : sorted_entries m ≡ₚ map_to_list m.
Proof. apply SortStableFunc_perm. Qed.

Lemma members_map_sorted_entries {V} (m : gmap string V) : members_map (sorted_entries m) = m.
Proof.
  assert (NoDup (sorted_entries m).*1) as Hnd.
  { rewrite sorted_entries_perm. apply NoDup_fst_map_to_list. }
  rewrite members_map_list_to_map by done.
  rewrite (list_to_map_proper _ (map_to_list m)) by (done || apply sorted_entries_perm).
  apply list_to_map_to_list.
Qed.

Lemma parse_object_enc {V} (elem : string -> option (V * string)) enc ok (m : gmap string V) rest :
  (forall v rest, ok v -> elem (skip_ws (enc v +:+ rest)) = Some (v, rest)) ->
  map_Forall (fun k v => valid_utf8 k = true /\ ok v) m ->
  parse_object elem (json_Marshal_map enc m +:+ rest) = Some (sorted_entries m, rest).
Proof.
  intros He Hm. unfold json_Marshal_map.
  change (String "{" ?x +:+ rest) with (String "{" (x +:+ rest)).
  assert (Forall (fun kv => valid_utf8 kv.1 = true /\ ok kv.2) (sorted_entries m)) as Hl.
  { rewrite sorted_entries_perm. apply Forall_forall. intros [k v] Hin%elem_of_map_to_list. by apply Hm. }
  pose proof (enc_members_length enc (sorted_entries m)) as Hlen.
  destruct (sorted_entries m) as [|kv l]; [reflexivity|].
  pose proof (parse_members_enc elem enc ok He (kv :: l) rest
                (String.length (enc_members enc (kv :: l) +:+ rest)) ltac:(done)
                ltac:(rewrite length_append_str; lia) Hl) as Hp.
  unfold parse_object. rewrite Hp. clear. destruct kv as [k v], l as [|kv l]; reflexivity.
Qed.

Definition valid_inner (m : option (gmap string string)) : Prop :=
  match m with
  | None => True
  | Some m => map_Forall (fun k v => valid_utf8 k = true /\ valid_utf8 v = true) m
  end.

Lemma elem_string_enc v rest :
  valid_utf8 v = true -> elem_string (skip_ws (json_Marshal_string v +:+ rest)) = Some (v, rest).
Proof.
  intros Hv. unfold elem_string.
  by rewrite skip_ws_Marshal_string, parse_null_Marshal_string, parse_Marshal_string.
Qed.

Lemma elem_map_enc m rest :
  valid_inner m -> elem_map (skip_ws (json_Marshal_inner m +:+ rest)) = Some (m, rest).
Proof.
  destruct m as [m|]; [|reflexivity]. intros Hm. unfold elem_map.
  change (skip_ws (json_Marshal_inner (Some m) +:+ rest))
    with (json_Marshal_map json_Marshal_string m +:+ rest).
  replace (parse_null _) with (@None string) by (unfold json_Marshal_map; simpl; by repeat case_match).
  rewrite (parse_object_enc _ _ (fun v => valid_utf8 v = true)) by (done || apply elem_string_enc).
  by rewrite members_map_sorted_entries.
Qed.

(** The annotation's JSON reads back as the map it was written from. *)
Lemma json_map2_roundtrip m :
  map_Forall (fun k v => valid_utf8 k = true /\ valid_inner v) m ->
  json_Unmarshal_map2 (json_Marshal_map2 m) = Some m.
Proof.
  intros Hm. unfold json_Unmarshal_map2, json_Marshal_map2.
  pose proof (parse_object_enc elem_map json_Marshal_inner valid_inner m ""
                elem_map_enc Hm) as Hp.
  rewrite append_nil_str in Hp.
  change (skip_ws (json_Marshal_map json_Marshal_inner m)) with (json_Marshal_map json_Marshal_inner m).
  replace (parse_null _) with (@None string) by (unfold json_Marshal_map; simpl; by repeat case_match).
  rewrite Hp. simpl. by rewrite members_map_sorted_entries.
Qed.

(** ** What is read is valid UTF-8 *)

(** The coerced string decodes into the same chunks, the bad ones replaced. *)
Lemma to_valid_utf8_valid s : valid_utf8 (to_valid_utf8 s) = true.
Proof.
  unfold to_valid_utf8.
  apply (chunks_ind (fun _ l => valid_utf8 (concat_str (coerce_chunk <$> l)) = true));
    unfold valid_utf8; rewrite ?fmap_cons; cbn [concat_str coerce_chunk fmap list_fmap].
  - done.
  - intros c s' Hc IH. rewrite <- IH. unfold str1. cbn [String.append chunks].
    assert (lead c = 1%nat) as ->; [|done].
    unfold lead. rewrite Z.leb_antisym in Hc. by destruct (byte c <? 128).
  - intros c0 more s' _ _ Hd IH. cbn [String.append]. by rewrite Hd.
  - intros c s' IH. exact IH.
Qed.

Lemma parse_string_valid s v rest : parse_string s = Some (v, rest) -> valid_utf8 v = true.
Proof.
  unfold parse_string. intros Hp. repeat case_match; simplify_eq. apply to_valid_utf8_valid.
Qed.

Lemma Unmarshal_string_valid v0 s v :
  json_Unmarshal_string v0 s = Some v -> valid_utf8 v0 = true -> valid_utf8 v = true.
Proof.
  unfold json_Unmarshal_string. intros Hp Hv0. repeat case_match; simplify_eq; [done|].
  by eapply parse_string_valid.
Qed.

Lemma elem_string_valid s v rest : elem_string s = Some (v, rest) -> valid_utf8 v = true.
Proof. unfold elem_string. case_match; [by intros [= <- _]|]. apply parse_string_valid. Qed.

Section valid_members.
Context {V : Type} (elem : string -> option (V * string)) (ok : V -> Prop).
Hypothesis elem_ok : forall s v rest, elem s = Some (v, rest) -> ok v.

Lemma parse_members_valid fuel s l rest :
  parse_members elem fuel s = Some (l, rest) -> Forall (fun kv => valid_utf8 kv.1 = true /\ ok kv.2) l.
Proof.
  revert s l rest. induction fuel as [|fuel IH]; intros s l rest Hp; [done|]. cbn [parse_members] in Hp.
  destruct (parse_string (skip_ws s)) as [[k s1]|] eqn:Hk; [|done]. apply parse_string_valid in Hk.
  destruct (skip_ws s1) as [|c s2]; [done|].
  assert (exists v s3, elem (skip_ws s2) = Some (v, s3) /\
    (l = [(k, v)] \/ exists s4 l', parse_members elem fuel s4 = Some (l', rest) /\ l = (k, v) :: l')) as (v & s3 & Hv & Hl).
  { repeat (case_match; simplify_eq); eauto 10. }
  apply elem_ok in Hv. destruct Hl as [->|(s4 & l' & Hl' & ->)]; apply Forall_cons; (split; [done|]); [done|by eapply IH].
Qed.

Lemma parse_object_valid s l rest :
  parse_object elem s = Some (l, rest) -> map_Forall (fun k v => valid_utf8 k = true /\ ok v) (members_map l).
Proof.
  intros Hp.
  assert (Forall (fun kv => valid_utf8 kv.1 = true /\ ok kv.2) l) as Hl.
  { unfold parse_object in Hp. destruct s as [|c s]; [done|].
    assert (l = [] \/ exists n s1, parse_members elem n s1 = Some (l, rest)) as [->|(n & s1 & Hm)].
    { repeat (case_match; simplify_eq); eauto. }
    - constructor.
    - by eapply parse_members_valid. }
  unfold members_map. revert Hl. generalize (map_Forall_empty (M := gmap string) (fun k (v : V) => valid_utf8 k = true /\ ok v)).
  generalize (∅ : gmap string V). clear Hp. induction l as [|[k v] l IH]; intros m Hm Hl; [done|].
  apply Forall_cons in Hl as [Hkv Hl]. simpl. apply IH; [|done]. by apply map_Forall_insert_2.
Qed.
End valid_members.

(** An annotation that can be read consists of valid strings only, whatever the bytes. *)
Lemma Unmarshal_map2_valid s a :
  json_Unmarshal_map2 s = Some a -> map_Forall (fun k v => valid_utf8 k = true /\ valid_inner v) a.
Proof.
  unfold json_Unmarshal_map2. intros Hp. case_match.
  { case_match; simplify_eq. apply map_Forall_empty. }
  destruct (parse_object elem_map (skip_ws s)) as [[l rest]|] eqn:Ho; [|done]. case_match; simplify_eq.
  eapply parse_object_valid; [|exact Ho]. unfold elem_map. intros s' v rest' Hv.
  case_match; [by simplify_eq|]. destruct (parse_object elem_string s') as [[l' r']|] eqn:Hi; [|done].
  simplify_eq. eapply parse_object_valid; [|exact Hi]. apply elem_string_valid.
Qed.
