(* ===== verification/Types.v ===== *)
(** * The API types (api/ipam/v1alpha1) and the foreign objects the program handles

    [Cluster] and [ClusterConfig] belong to other repositories; their records hold the
    fields this program reads or writes. What the program takes from the openmcp API
    packages besides data (the selectors' semantics, constants) is the class [OpenMCP]. *)

From stdpp Require Import base list strings gmap pretty.
From S2P Require Import Prelude GoStd GoJson.
Open Scope list_scope.
Open Scope Z_scope.

(** ** Kubernetes objects *)

Record OwnerReference : Type := {
  or_APIVersion : string; or_Kind : string; or_Name : string; or_UID : string;
  or_Controller : option bool; or_BlockOwnerDeletion : option bool }.

Record ObjectMeta : Type := {
  Name : string;
  Namespace : string;
  UID : string;
  Labels : gmap string string;
  Annotations : gmap string string;
  Finalizers : list string;
  OwnerReferences : list OwnerReference;
  DeletionTimestamp : option Z }.

#[export] Instance OwnerReference_eq_dec : EqDecision OwnerReference.
Proof. solve_decision. Defined.
#[export] Instance ObjectMeta_eq_dec : EqDecision ObjectMeta.
Proof. solve_decision. Defined.

(** [Spec.ClusterConfigs] is a list of references by name. *)
Record Cluster : Type := {
  cl_meta : ObjectMeta;
  cl_Purposes : list string;
  cl_ClusterConfigs : list string }.

#[export] Instance Cluster_eq_dec : EqDecision Cluster.
Proof. solve_decision. Defined.

(** [Value] is a pointer to raw JSON. *)
Record JSONPatch : Type := {
  p_Op : string; p_Path : string; p_Value : option string }.

#[export] Instance JSONPatch_eq_dec : EqDecision JSONPatch.
Proof. solve_decision. Defined.

(** [PatchOptions] is a pointer to a struct with the pointer [CreateMissingOnAdd]. *)
Record ClusterConfig : Type := {
  cc_meta : ObjectMeta;
  cc_PatchOptions : option (option bool);
  cc_Patches : list JSONPatch }.

#[export] Instance ClusterConfig_eq_dec : EqDecision ClusterConfig.
Proof. solve_decision. Defined.

Definition set_Finalizers (fs : list string) (m : ObjectMeta) : ObjectMeta :=
  {| Name := Name m; Namespace := Namespace m; UID := UID m; Labels := Labels m;
     Annotations := Annotations m; Finalizers := fs;
     OwnerReferences := OwnerReferences m; DeletionTimestamp := DeletionTimestamp m |}.

Definition set_Annotations (a : gmap string string) (m : ObjectMeta) : ObjectMeta :=
  {| Name := Name m; Namespace := Namespace m; UID := UID m; Labels := Labels m;
     Annotations := a; Finalizers := Finalizers m;
     OwnerReferences := OwnerReferences m; DeletionTimestamp := DeletionTimestamp m |}.

Definition cc_set_Finalizers (fs : list string) (cc : ClusterConfig) : ClusterConfig :=
  {| cc_meta := set_Finalizers fs (cc_meta cc); cc_PatchOptions := cc_PatchOptions cc;
     cc_Patches := cc_Patches cc |}.

Definition cc_set_Patches (ps : list JSONPatch) (cc : ClusterConfig) : ClusterConfig :=
  {| cc_meta := cc_meta cc; cc_PatchOptions := cc_PatchOptions cc; cc_Patches := ps |}.

Definition cl_set_Annotations (a : gmap string string) (cl : Cluster) : Cluster :=
  {| cl_meta := set_Annotations a (cl_meta cl); cl_Purposes := cl_Purposes cl;
     cl_ClusterConfigs := cl_ClusterConfigs cl |}.

Definition cl_set_ClusterConfigs (refs : list string) (cl : Cluster) : Cluster :=
  {| cl_meta := cl_meta cl; cl_Purposes := cl_Purposes cl; cl_ClusterConfigs := refs |}.

(** ** The openmcp API packages *)

(** The selector embedded in an injection rule, and the constants of the openmcp
    packages the program refers to. *)
Class OpenMCP : Type := {
  Selector : Type;
  Selector_eq_dec :: EqDecision Selector;
  (** [IdentityLabelPurposeSelector.Matches] and [.Validate] *)
  Selector_Matches : Selector -> Cluster -> bool;
  Selector_Validate : Selector -> option exterr;
  GardenGroupName : string;
  ClustersGroupVersion : string;
  ManagedByLabel : string;
  ManagedPurposeLabel : string;
  EnvironmentLabel : string;
  OperationAnnotation : string;
  OperationAnnotationValueIgnore : string;
  OperationAnnotationValueReconcile : string;
  (** [jsonpatchapi.ADD] *)
  ADD : string }.

(** The label keys differ from one another and from the two of this program. *)
Class OpenMCPLaws `{OpenMCP} : Prop := {
  ADD_nonempty : ADD <> "";
  labels_distinct : NoDup [ManagedByLabel; ManagedPurposeLabel; EnvironmentLabel;
    ("ipam." +:+ GardenGroupName +:+ "/cluster");
    ("ipam." +:+ GardenGroupName +:+ "/injection-rule")] }.

(** ** api/ipam/v1alpha1 *)

(** [AppliedRulesAnnotation]: ruleID -> path -> CIDR; an inner map may be nil. *)
Notation AppliedRulesAnnotation := (gmap string (option (gmap string string))).

Section types.
Context {OM : OpenMCP}.

(* groupversion_info.go, constants.go, annotation_types.go *)
Definition GroupName : string := GardenGroupName.
Definition ManagedPurposeLabelValue : string := "gardener-ipam".
Definition CIDRManagementFinalizer : string := "ipam." +:+ GroupName +:+ "/cidr-management".
Definition ClusterTargetLabel : string := "ipam." +:+ GroupName +:+ "/cluster".
Definition InjectionRuleLabel : string := "ipam." +:+ GroupName +:+ "/injection-rule".
Definition AppliedRulesAnnotationKey : string :=
  "ipam." +:+ GroupName +:+ "/applied-injection-rules".

Record SingleCIDRInjection : Type := {
  inj_ID : string;
  inj_Path : string;
  inj_Paths : list string;
  inj_Parents : list string;
  inj_SubnetSize : Z }.

#[global] Instance SingleCIDRInjection_eq_dec : EqDecision SingleCIDRInjection.
Proof. solve_decision. Defined.

Record CIDRInjection : Type := {
  rule_ID : string;
  rule_Selector : Selector;
  rule_Injections : list SingleCIDRInjection }.

#[global] Instance CIDRInjection_eq_dec : EqDecision CIDRInjection.
Proof. solve_decision. Defined.

(** [InternalStateRefreshCycleDuration] points to a duration in nanoseconds. *)
Record IPAMConfigSpec : Type := {
  ParentCIDRs : gmap string (list string);
  InjectionRules : list CIDRInjection;
  InternalStateRefreshCycleDuration : option Z }.

Record IPAMConfig : Type := {
  cfg_meta : ObjectMeta;
  Spec : IPAMConfigSpec }.

Definition rule_Matches (r : CIDRInjection) (cl : Cluster) : bool :=
  Selector_Matches (rule_Selector r) cl.

Record PathWithSource : Type := { pws_Path : string; pws_Index : Z }.

(** [fmt.Sprintf("paths[%d]", pws.Index)]: the field a path comes from, for messages. *)
Definition Source (pws : PathWithSource) : string :=
  if pws_Index pws <? 0 then "path" else "paths[" +:+ pretty (pws_Index pws) +:+ "]".

Definition GetPaths (sci : SingleCIDRInjection) : list PathWithSource :=
  (if decide (inj_Path sci = "") then []
   else [{| pws_Path := inj_Path sci; pws_Index := -1 |}]) ++
  imap (fun i p => {| pws_Path := p; pws_Index := Z.of_nat i |}) (inj_Paths sci).

(** [ToAnnotation]; [json.Marshal] has no error for this type. *)
Definition ToAnnotation (a : AppliedRulesAnnotation) : string + error :=
  inl (json_Marshal_map2 a).

(** [FromAnnotation] on a map that is not nil: its new contents. *)
Definition FromAnnotation (ann : string) : AppliedRulesAnnotation + error :=
  match json_Unmarshal_map2 ann with
  | Some a => inl a
  | None => inr (Errorf "error unmarshaling the applied rules annotation json string" None)
  end.

(** What reading a possibly nil map gives. *)
Definition nil_map (m : option (gmap string string)) : gmap string string := default ∅ m.
End types.
