(* ===== verification/Externals.v ===== *)
(** * The code the program calls but does not contain

    Each dependency is a class of operations, and a second class states the documented
    behaviour the theorems rely on. [Sim.v] has an implementation of every one of them. *)

From stdpp Require Import base list strings gmap.
From S2P Require Import Prelude GoStd Types.
Open Scope list_scope.
Open Scope Z_scope.

(** ** The order in which [range] visits a map

    Go leaves it unspecified: any function that lists every entry once. *)
Class GoMapOrder : Type := {
  range : forall {V : Type}, gmap string V -> list (string * V);
  range_perm : forall {V : Type} (m : gmap string V), range m ≡ₚ map_to_list m }.

Section range.
Context {GO : GoMapOrder} {V : Type}.
Implicit Types m : gmap string V.

Lemma elem_of_range m k v : (k, v) ∈ range m <-> m !! k = Some v.
Proof. by rewrite range_perm, elem_of_map_to_list. Qed.

Lemma range_NoDup m : NoDup (range m).*1.
Proof. rewrite range_perm. apply NoDup_fst_map_to_list. Qed.

Lemma range_length m : length (range m) = size m.
Proof. rewrite range_perm. apply length_map_to_list. Qed.

Lemma elem_of_range_keys m k : k ∈ (range m).*1 <-> is_Some (m !! k).
Proof.
  rewrite list_elem_of_fmap. split.
  - intros [[k' v] [-> Hin%elem_of_range]]. eauto.
  - intros [v Hv%elem_of_range]. by exists (k, v).
Qed.
End range.

(** ** github.com/metal-stack/go-ipam *)

Class GoIpam : Type := {
  (** the state behind a [goipam.Ipamer], a [goipam.Prefix], a [goipam.IP] *)
  ipamS : Type;
  Prefix : Type;
  IP : Type;
  pCidr : Prefix -> string;
  ipam_New : ipamS;
  ipam_PrefixFrom : string -> ipamS -> ipamS * (Prefix + exterr);
  ipam_NewPrefix : string -> ipamS -> ipamS * (Prefix + exterr);
  ipam_DeletePrefix : string -> ipamS -> ipamS * (Prefix + exterr);
  ipam_AcquireChildPrefix : string -> Z -> ipamS -> ipamS * (Prefix + exterr);
  ipam_AcquireSpecificChildPrefix : string -> string -> ipamS -> ipamS * (Prefix + exterr);
  ipam_ReleaseChildPrefix : Prefix -> ipamS -> ipamS * option exterr;
  ipam_AcquireIP : string -> ipamS -> ipamS * (IP + exterr);
  ipam_AcquireSpecificIP : string -> string -> ipamS -> ipamS * (IP + exterr);
  ipam_ReleaseIP : IP -> ipamS -> ipamS * (Prefix + exterr);
  ipam_ReleaseIPFromPrefix : string -> string -> ipamS -> ipamS * option exterr;
  ipam_Dump : ipamS -> ipamS * (string + exterr);
  ipam_Load : string -> ipamS -> ipamS * option exterr;
  ipam_ReadAllPrefixCidrs : ipamS -> ipamS * (list string + exterr);
  ipam_CreateNamespace : string -> ipamS -> ipamS * option exterr;
  ipam_DeleteNamespace : string -> ipamS -> ipamS * option exterr;
  ipam_ListNamespaces : ipamS -> ipamS * (list string + exterr);
  PrefixesOverlapping : list string -> list string -> option exterr }.

(** The size behind the slash of a CIDR. *)
Definition cidr_size (cidr : string) : option Z :=
  match strings_Split cidr slash with
  | [_; size] => match Atoi size with (n, None) => Some n | (_, Some _) => None end
  | _ => None
  end.

(** What the program relies on, in terms of the set of prefixes an instance knows
    ([known]), of those among them that can be released because they were sliced from a
    known prefix and have no addresses of their own taken ([children]), of the prefixes
    sliced from a given one ([slices]), and of the normal form the library gives a CIDR
    ([canon]). *)
Class IpamView {GI : GoIpam} : Type := {
  known : ipamS -> gset string;
  children : ipamS -> gset string;
  slices : ipamS -> string -> gset string;
  canon : string -> string }.

Definition same_view {GI : GoIpam} {IV : IpamView} (s s' : ipamS) : Prop :=
  known s' = known s /\ children s' = children s /\ (forall c, slices s' c = slices s c).

Class GoIpamLaws {GI : GoIpam} : Type := {
  GoIpam_view :: IpamView;
  canon_idem c : canon (canon c) = canon c;
  known_New : known ipam_New = ∅;
  slices_known s c : slices s c ⊆ known s;
  (** [PrefixFrom] finds exactly the known prefixes and changes nothing *)
  PrefixFrom_same c s : same_view s (ipam_PrefixFrom c s).1;
  PrefixFrom_found c s p :
    (ipam_PrefixFrom c s).2 = inl p -> pCidr p = canon c /\ canon c ∈ known s;
  PrefixFrom_known c s :
    canon c ∈ known s -> exists p, (ipam_PrefixFrom c s).2 = inl p;
  (** a new top-level prefix *)
  NewPrefix_ok c s s' p :
    ipam_NewPrefix c s = (s', inl p) ->
    pCidr p = canon c /\ known s' = {[canon c]} ∪ known s;
  NewPrefix_err c s s' e : ipam_NewPrefix c s = (s', inr e) -> same_view s s';
  (** an acquired child is new, has the requested size and can be released *)
  AcquireChild_ok c n s s' p :
    ipam_AcquireChildPrefix c n s = (s', inl p) ->
    pCidr p ∉ known s /\ canon (pCidr p) = pCidr p /\ cidr_size (pCidr p) = Some n /\
    known s' = {[pCidr p]} ∪ known s /\ {[pCidr p]} ∪ children s ⊆ children s' /\
    (forall d, slices s' d ⊆ slices s d ∪ (if decide (d = canon c) then {[pCidr p]} else ∅));
  AcquireChild_err c n s s' e : ipam_AcquireChildPrefix c n s = (s', inr e) -> same_view s s';
  AcquireSpecific_ok c d s s' p :
    ipam_AcquireSpecificChildPrefix c d s = (s', inl p) ->
    pCidr p = canon d /\ known s' = {[canon d]} ∪ known s;
  AcquireSpecific_err c d s s' e :
    ipam_AcquireSpecificChildPrefix c d s = (s', inr e) -> same_view s s';
  (** a released prefix is no longer known, and what was sliced from it may no longer be
      releasable; a child can be released *)
  Release_ok p s s' :
    ipam_ReleaseChildPrefix p s = (s', None) ->
    known s' = known s ∖ {[pCidr p]} /\
    children s ∖ ({[pCidr p]} ∪ slices s (pCidr p)) ⊆ children s' /\
    (forall c, slices s' c ⊆ slices s c);
  Release_err p s s' e : ipam_ReleaseChildPrefix p s = (s', Some e) -> same_view s s';
  Release_child p s : pCidr p ∈ children s -> (ipam_ReleaseChildPrefix p s).2 = None;
  (** [Dump] and [Load] copy an instance *)
  Dump_same s : same_view s (ipam_Dump s).1;
  Load_Dump s d s' :
    (ipam_Dump s).2 = inl d -> ipam_Load d ipam_New = (s', None) -> same_view s s' }.

#[export] Instance same_view_equiv {GI : GoIpam} {IV : IpamView} : Equivalence same_view.
Proof.
  unfold same_view. split.
  - by intros s.
  - intros s1 s2 (-> & -> & Hs). split_and!; [done..|]. intros c. by rewrite Hs.
  - intros s1 s2 s3 (-> & -> & Hs) (-> & -> & Hs'). split_and!; [done..|]. intros c. by rewrite Hs', Hs.
Qed.

(** ** controller-utils and controller-runtime helpers *)

Class CtrlUtils : Type := {
  (** [jsonpatch.ConvertPath] *)
  ConvertPath : string -> string + exterr;
  (** [ctrlutils.ShortenToXCharacters], [ctrlutils.K8sMaxNameLength] *)
  ShortenToXCharacters : string -> Z -> string + exterr;
  K8sMaxNameLength : Z;
  (** [controllerutil.AddFinalizer], [.RemoveFinalizer]: the object's new finalizers and
      whether they changed *)
  AddFinalizer : list string -> string -> list string * bool;
  RemoveFinalizer : list string -> string -> list string * bool;
  (** package collections *)
  AggregateMap : forall {V A : Type}, gmap string V -> (string -> V -> A -> A) -> A -> A;
  ProjectSliceToSlice : forall {A B : Type}, list A -> (A -> B) -> list B;
  ProjectSliceToMap : forall {A V : Type}, list A -> (A -> string * V) -> gmap string V;
  ProjectMapToMap : forall {V W : Type}, gmap string V -> (string -> V -> string * W) -> gmap string W }.

Class CtrlUtilsLaws `{CtrlUtils} : Prop := {
  Shorten_short s n : Z.of_nat (String.length s) <= n -> ShortenToXCharacters s n = inl s;
  Shorten_bound s n s' : ShortenToXCharacters s n = inl s' -> Z.of_nat (String.length s') <= n;
  AddFinalizer_new fs f : f ∉ fs -> AddFinalizer fs f = (fs ++ [f], true);
  AddFinalizer_old fs f : f ∈ fs -> AddFinalizer fs f = (fs, false);
  RemoveFinalizer_gone fs f : f ∉ (RemoveFinalizer fs f).1;
  RemoveFinalizer_other fs f g : g <> f -> g ∈ (RemoveFinalizer fs f).1 <-> g ∈ fs;
  RemoveFinalizer_changed fs f : (RemoveFinalizer fs f).2 = bool_decide (f ∈ fs);
  RemoveFinalizer_same fs f : f ∉ fs -> (RemoveFinalizer fs f).1 = fs;
  (** the aggregation visits every entry once, in some order *)
  AggregateMap_fold {V A} (m : gmap string V) (f : string -> V -> A -> A) a :
    exists l, l ≡ₚ map_to_list m /\
      AggregateMap m f a = foldl (fun acc kv => f kv.1 kv.2 acc) a l;
  ProjectSliceToSlice_map {A B} (l : list A) (f : A -> B) : ProjectSliceToSlice l f = f <$> l;
  (** each key of the result comes with a value projected for it *)
  ProjectSliceToMap_sound {A V} (l : list A) (f : A -> string * V) k v :
    ProjectSliceToMap l f !! k = Some v -> (k, v) ∈ f <$> l;
  ProjectSliceToMap_complete {A V} (l : list A) (f : A -> string * V) k :
    k ∈ (f <$> l).*1 -> is_Some (ProjectSliceToMap l f !! k);
  ProjectMapToMap_id {V W} (m : gmap string V) (g : string -> V -> W) :
    ProjectMapToMap m (fun k v => (k, g k v)) = map_imap (fun k v => Some (g k v)) m }.

(** ** The platform cluster's API server *)

(** A request the program sends. *)
Inductive api_call `{OpenMCP} : Type :=
  | CallGetCluster (ns name : string)
  | CallListClusters
  | CallGetConfig (name : string)
  | CallListClusterConfigs (labels : gmap string string) (ns : option string)
  | CallCreateClusterConfig (cc : ClusterConfig)
  | CallUpdateClusterConfig (cc : ClusterConfig)
  | CallPatchClusterConfig (old new : ClusterConfig)
  | CallDeleteClusterConfig (ns name : string)
  | CallPatchCluster (old new : Cluster)
  | CallRemoveClusterAnnotation (ns name key : string)
  | CallRemoveConfigAnnotation (name key : string).

(** The server's answers may depend on everything it was asked before (newest request
    first), and through that on anything else that happens in the cluster. *)
Class K8sApi `{OpenMCP} : Type := {
  api_GetCluster : list api_call -> string -> string -> Cluster + exterr;
  api_ListClusters : list api_call -> list Cluster + exterr;
  api_GetConfig : list api_call -> string -> IPAMConfig + exterr;
  api_ListClusterConfigs :
    list api_call -> gmap string string -> option string -> list ClusterConfig + exterr;
  api_CreateClusterConfig : list api_call -> ClusterConfig -> option exterr;
  api_UpdateClusterConfig : list api_call -> ClusterConfig -> option exterr;
  (** [Patch] refreshes the object it is given; on an error the object stays *)
  api_PatchClusterConfig :
    list api_call -> ClusterConfig -> ClusterConfig -> ClusterConfig + exterr;
  api_DeleteClusterConfig : list api_call -> string -> string -> option exterr;
  api_PatchCluster : list api_call -> Cluster -> Cluster -> Cluster + exterr;
  (** [ctrlutils.EnsureAnnotation] with [DELETE] *)
  api_RemoveClusterAnnotation : list api_call -> Cluster -> string -> Cluster + exterr;
  api_RemoveConfigAnnotation : list api_call -> IPAMConfig -> string -> IPAMConfig + exterr }.
