(* ===== verification/Runtime.v ===== *)
(** * Process state: package variables, the IPAM wrapper, calls to the API server

    internal/shared/config.go and internal/shared/ipam.go, and the monad every other
    component is written in. *)

From stdpp Require Import base list strings gmap.
From S2P Require Import Prelude GoStd Types Externals.
Open Scope list_scope.
Open Scope Z_scope.

(** ** The Ipamer (ipam.go) *)

(** A type [Ipamer]: the library's instance, the mutex, the known parents. *)
Record Ipamer `{GoIpam} : Type := {
  internal : ipamS;
  lock : bool;
  parents : list Prefix }.

Section ipamer.
Context {GI : GoIpam}.

Definition set_internal (x : ipamS) (i : Ipamer) : Ipamer :=
  {| internal := x; lock := lock i; parents := parents i |}.
Definition set_lock (b : bool) (i : Ipamer) : Ipamer :=
  {| internal := internal i; lock := b; parents := parents i |}.
Definition add_parents (ps : list Prefix) (i : Ipamer) : Ipamer :=
  {| internal := internal i; lock := lock i; parents := parents i ++ ps |}.

Definition NewIpam : Ipamer := {| internal := ipam_New; lock := false; parents := [] |}.

(** [i.lock.Lock(); defer i.lock.Unlock(); ...]: a Go mutex is not reentrant, and the
    deferred unlock also runs when the body panics. *)
Definition locked {A} (body : goM Ipamer A) : goM Ipamer A := fun i =>
  if lock i then (Deadlock, i)
  else match body (set_lock true i) with
       | (Deadlock, i') => (Deadlock, i')
       | (r, i') => (r, set_lock false i')
       end.

(** A call of the wrapped instance. *)
Definition on_internal {A} (op : ipamS -> ipamS * A) : goM Ipamer A := fun i =>
  let '(x, r) := op (internal i) in (Ret r, set_internal x i).

(** The prefixes of [AddParentPrefixesFromStrings], up to the first error. *)
Fixpoint prefixes_from_strings (acc : list Prefix) (cidrs : list string) :
    goM Ipamer (list Prefix + exterr) :=
  match cidrs with
  | [] => retM (inl acc)
  | cidr :: cidrs =>
      let! r := on_internal (ipam_PrefixFrom cidr) in
      match r with
      | inl prefix => prefixes_from_strings (acc ++ [prefix]) cidrs
      | inr err =>
          if negb (is_not_found err) then retM (inr err)
          else
            let! r := on_internal (ipam_NewPrefix cidr) in
            match r with
            | inr err => retM (inr err)
            | inl prefix => prefixes_from_strings (acc ++ [prefix]) cidrs
            end
      end
  end.

Definition AddParentPrefixesFromStrings (cidrs : list string) : goM Ipamer (option exterr) :=
  locked
    (let! r := prefixes_from_strings [] cidrs in
     match r with
     | inr err => retM (Some err)
     | inl prefixes => modifyM (add_parents prefixes) ;;; retM None
     end).

Definition AddParentPrefixes (prefixes : list Prefix) : goM Ipamer unit :=
  locked (modifyM (add_parents prefixes)).
Definition ParentPrefixes : goM Ipamer (list Prefix) :=
  locked (let! i := getM in retM (parents i)).

Definition AcquireChildPrefix (parentCidr : string) (length : Z) : goM Ipamer (Prefix + exterr) :=
  locked (on_internal (ipam_AcquireChildPrefix parentCidr length)).
Definition AcquireIP (prefixCidr : string) : goM Ipamer (IP + exterr) :=
  locked (on_internal (ipam_AcquireIP prefixCidr)).
Definition AcquireSpecificChildPrefix (parentCidr childCidr : string) : goM Ipamer (Prefix + exterr) :=
  locked (on_internal (ipam_AcquireSpecificChildPrefix parentCidr childCidr)).
Definition AcquireSpecificIP (prefixCidr specificIP : string) : goM Ipamer (IP + exterr) :=
  locked (on_internal (ipam_AcquireSpecificIP prefixCidr specificIP)).
Definition CreateNamespace (namespace : string) : goM Ipamer (option exterr) :=
  locked (on_internal (ipam_CreateNamespace namespace)).
Definition DeleteNamespace (namespace : string) : goM Ipamer (option exterr) :=
  locked (on_internal (ipam_DeleteNamespace namespace)).
Definition DeletePrefix (cidr : string) : goM Ipamer (Prefix + exterr) :=
  locked (on_internal (ipam_DeletePrefix cidr)).
Definition Dump : goM Ipamer (string + exterr) :=
  locked (on_internal ipam_Dump).
Definition ListNamespaces : goM Ipamer (list string + exterr) :=
  locked (on_internal ipam_ListNamespaces).
Definition Load (dump : string) : goM Ipamer (option exterr) :=
  locked (on_internal (ipam_Load dump)).
Definition NewPrefix (cidr : string) : goM Ipamer (Prefix + exterr) :=
  locked (on_internal (ipam_NewPrefix cidr)).
Definition PrefixFrom (cidr : string) : goM Ipamer (Prefix + exterr) :=
  locked (on_internal (ipam_PrefixFrom cidr)).
Definition ReadAllPrefixCidrs : goM Ipamer (list string + exterr) :=
  locked (on_internal ipam_ReadAllPrefixCidrs).
Definition ReleaseChildPrefix (child : Prefix) : goM Ipamer (option exterr) :=
  locked (on_internal (ipam_ReleaseChildPrefix child)).
Definition ReleaseIP (ip : IP) : goM Ipamer (Prefix + exterr) :=
  locked (on_internal (ipam_ReleaseIP ip)).
Definition ReleaseIPFromPrefix (prefixCidr ip : string) : goM Ipamer (option exterr) :=
  locked (on_internal (ipam_ReleaseIPFromPrefix prefixCidr ip)).
End ipamer.

(** ** The package variables of internal/shared *)

(** An event handed to the event recorder: type, reason and action. *)
Record recorded : Type := { ev_type : string; ev_reason : string; ev_action : string }.

(** [config], [ClusterWatch] (a channel; its clusters in sending order), [IPAM],
    [providerName], [environment]; [calls] is the history of API requests, newest
    first, [events] that of recorded events. *)
Record gostate `{OpenMCP, GoIpam} : Type := {
  config : option IPAMConfig;
  ClusterWatch : list Cluster;
  IPAM : option Ipamer;
  providerName : string;
  environment : string;
  calls : list api_call;
  events : list recorded }.

Section runtime.
Context {OM : OpenMCP} {GI : GoIpam} {KA : K8sApi}.

Definition M : Type -> Type := goM gostate.

Definition st_set_config (c : option IPAMConfig) (s : gostate) : gostate :=
  {| config := c; ClusterWatch := ClusterWatch s; IPAM := IPAM s;
     providerName := providerName s; environment := environment s;
     calls := calls s; events := events s |}.
Definition st_set_ClusterWatch (w : list Cluster) (s : gostate) : gostate :=
  {| config := config s; ClusterWatch := w; IPAM := IPAM s;
     providerName := providerName s; environment := environment s;
     calls := calls s; events := events s |}.
Definition st_set_IPAM (i : option Ipamer) (s : gostate) : gostate :=
  {| config := config s; ClusterWatch := ClusterWatch s; IPAM := i;
     providerName := providerName s; environment := environment s;
     calls := calls s; events := events s |}.
Definition st_set_names (p e : string) (s : gostate) : gostate :=
  {| config := config s; ClusterWatch := ClusterWatch s; IPAM := IPAM s;
     providerName := p; environment := e; calls := calls s; events := events s |}.
Definition st_set_calls (h : list api_call) (s : gostate) : gostate :=
  {| config := config s; ClusterWatch := ClusterWatch s; IPAM := IPAM s;
     providerName := providerName s; environment := environment s;
     calls := h; events := events s |}.
Definition st_set_events (e : list recorded) (s : gostate) : gostate :=
  {| config := config s; ClusterWatch := ClusterWatch s; IPAM := IPAM s;
     providerName := providerName s; environment := environment s;
     calls := calls s; events := e |}.

(** *** config.go *)

Definition GetConfig : M (option IPAMConfig) := let! s := getM in retM (config s).
Definition SetConfig (cfg : option IPAMConfig) : M unit := modifyM (st_set_config cfg).

Definition ProviderName : M string :=
  let! s := getM in
  if decide (providerName s = "") then panicM "provider name not set"
  else retM (providerName s).

Definition SetProviderName (name : string) : M unit :=
  let! s := getM in
  if decide (name = "") then panicM "provider name cannot be empty"
  else if decide (providerName s <> "") then panicM "provider name already set"
  else modifyM (fun s => st_set_names name (environment s) s).

Definition Environment : M string :=
  let! s := getM in
  if decide (environment s = "") then panicM "environment not set"
  else retM (environment s).

Definition SetEnvironment (env : string) : M unit :=
  let! s := getM in
  if decide (env = "") then panicM "environment cannot be empty"
  else if decide (environment s <> "") then panicM "environment already set"
  else modifyM (fun s => st_set_names (providerName s) env s).

(** *** The shared IPAM instance *)

(** A method call on the package variable [IPAM], a nil pointer before it is set. *)
Definition on_IPAM {A} (m : goM Ipamer A) : M A := fun s =>
  match IPAM s with
  | None => (Panic "nil pointer dereference: IPAM", s)
  | Some i => let '(r, i') := m i in (r, st_set_IPAM (Some i') s)
  end.

(** [IPAM.lock.Lock(); defer IPAM.lock.Unlock(); ...] around code that uses more than
    the Ipamer. *)
Definition with_IPAM_lock {A} (body : M A) : M A := fun s =>
  match IPAM s with
  | None => (Panic "nil pointer dereference: IPAM", s)
  | Some i =>
      if lock i then (Deadlock, s)
      else match body (st_set_IPAM (Some (set_lock true i)) s) with
           | (Deadlock, s') => (Deadlock, s')
           | (r, s') => (r, st_set_IPAM (set_lock false <$> IPAM s') s')
           end
  end.

(** *** Requests *)

Definition request {A} (c : api_call) (answer : list api_call -> A) : M A := fun s =>
  (Ret (answer (calls s)), st_set_calls (c :: calls s) s).

Definition client_GetCluster (ns name : string) : M (Cluster + exterr) :=
  request (CallGetCluster ns name) (fun h => api_GetCluster h ns name).
Definition client_ListClusters : M (list Cluster + exterr) :=
  request CallListClusters api_ListClusters.
Definition client_GetConfig (name : string) : M (IPAMConfig + exterr) :=
  request (CallGetConfig name) (fun h => api_GetConfig h name).
Definition client_ListClusterConfigs (labels : gmap string string) (ns : option string) :
    M (list ClusterConfig + exterr) :=
  request (CallListClusterConfigs labels ns) (fun h => api_ListClusterConfigs h labels ns).
Definition client_CreateClusterConfig (cc : ClusterConfig) : M (option exterr) :=
  request (CallCreateClusterConfig cc) (fun h => api_CreateClusterConfig h cc).
Definition client_UpdateClusterConfig (cc : ClusterConfig) : M (option exterr) :=
  request (CallUpdateClusterConfig cc) (fun h => api_UpdateClusterConfig h cc).
Definition client_PatchClusterConfig (old new : ClusterConfig) : M (ClusterConfig + exterr) :=
  request (CallPatchClusterConfig old new) (fun h => api_PatchClusterConfig h old new).
Definition client_DeleteClusterConfig (cc : ClusterConfig) : M (option exterr) :=
  let ns := Namespace (cc_meta cc) in let name := Name (cc_meta cc) in
  request (CallDeleteClusterConfig ns name) (fun h => api_DeleteClusterConfig h ns name).
Definition client_PatchCluster (old new : Cluster) : M (Cluster + exterr) :=
  request (CallPatchCluster old new) (fun h => api_PatchCluster h old new).
Definition client_RemoveClusterAnnotation (cl : Cluster) (key : string) : M (Cluster + exterr) :=
  request (CallRemoveClusterAnnotation (Namespace (cl_meta cl)) (Name (cl_meta cl)) key)
    (fun h => api_RemoveClusterAnnotation h cl key).
Definition client_RemoveConfigAnnotation (cfg : IPAMConfig) (key : string) : M (IPAMConfig + exterr) :=
  request (CallRemoveConfigAnnotation (Name (cfg_meta cfg)) key)
    (fun h => api_RemoveConfigAnnotation h cfg key).

(** [er.Eventf], on a recorder that may be nil. *)
Definition Eventf (er : bool) (ty reason action : string) : M unit :=
  if er then modifyM (fun s =>
    st_set_events (events s ++ [{| ev_type := ty; ev_reason := reason; ev_action := action |}]) s)
  else retM tt.
End runtime.

(** [client.IgnoreNotFound] *)
Definition IgnoreNotFound (e : option exterr) : option exterr :=
  match e with
  | Some e => if is_not_found e then None else Some e
  | None => None
  end.

(** ** Lemmas: locks *)

Section locks.
Context {OM : OpenMCP} {GI : GoIpam} {KA : K8sApi}.

Definition lock_free (s : gostate) : Prop :=
  match IPAM s with Some i => lock i = false | None => True end.
Definition lock_held (s : gostate) : Prop :=
  match IPAM s with Some i => lock i = true | None => False end.

(** The code under the lock neither blocks nor releases it. *)
Lemma with_IPAM_lock_live {A} (body : M A) :
  live lock_held body -> live lock_free (with_IPAM_lock body).
Proof.
  intros Hb s Hs. unfold lock_free, with_IPAM_lock in *.
  destruct (IPAM s) as [i|] eqn:Hi; [|by simpl; rewrite Hi]. rewrite Hs.
  destruct (Hb (st_set_IPAM (Some (set_lock true i)) s)) as [Hd Hh]; [done|].
  destruct (body _) as [[a|w|] s']; simpl in *; [..|done];
    (split; [done|]); by destruct (IPAM s').
Qed.

(** The lock and the instance around the body. *)
Lemma with_IPAM_lock_Ret {A} (body : M A) s r s' :
  with_IPAM_lock body s = (Ret r, s') ->
  exists i s1, IPAM s = Some i /\ lock i = false /\
    body (st_set_IPAM (Some (set_lock true i)) s) = (Ret r, s1) /\
    s' = st_set_IPAM (set_lock false <$> IPAM s1) s1.
Proof.
  unfold with_IPAM_lock. destruct (IPAM s) as [i|]; [|done].
  destruct (lock i) eqn:Hl; [done|]. destruct (body _) as [[a|w|] s1] eqn:Hb; [|done..].
  intros [= -> <-]. by exists i, s1.
Qed.

Lemma locked_live {A} (body : goM Ipamer A) :
  live (fun i => lock i = true) body -> live (fun i => lock i = false) (locked body).
Proof.
  intros Hb i Hi. unfold locked. rewrite Hi.
  destruct (Hb (set_lock true i)) as [Hd Hl]; [done|].
  by destruct (body _) as [[a|w|] i'].
Qed.

Lemma on_internal_live {A} b (op : ipamS -> ipamS * A) :
  live (fun i => lock i = b) (on_internal op).
Proof. intros i Hi. unfold on_internal. by destruct (op _). Qed.

Lemma on_IPAM_live_free {A} (m : goM Ipamer A) :
  live (fun i => lock i = false) m -> live lock_free (on_IPAM m).
Proof.
  intros Hm s Hs. unfold lock_free, on_IPAM in *.
  destruct (IPAM s) as [i|] eqn:Hi; [|by simpl; rewrite Hi].
  destruct (Hm i Hs). by destruct (m i).
Qed.

Lemma on_IPAM_live_held {A} (m : goM Ipamer A) :
  live (fun i => lock i = true) m -> live lock_held (on_IPAM m).
Proof.
  intros Hm s Hs. unfold lock_held, on_IPAM in *.
  destruct (IPAM s) as [i|] eqn:Hi; [|done].
  destruct (Hm i Hs). by destruct (m i).
Qed.

Lemma modify_live {S} (I : S -> Prop) f : (forall s, I s -> I (f s)) -> live I (modifyM f).
Proof. intros Hf s Hs. split; [done|]. by apply Hf. Qed.

Lemma request_live_free {A} c (answer : list api_call -> A) : live lock_free (request c answer).
Proof. by intros s Hs. Qed.
Lemma request_live_held {A} c (answer : list api_call -> A) : live lock_held (request c answer).
Proof. by intros s Hs. Qed.

Lemma Eventf_live er ty r a : live lock_free (Eventf er ty r a).
Proof. destruct er; [apply modify_live; done|apply live_ret]. Qed.

Lemma ProviderName_live (I : gostate -> Prop) : live I ProviderName.
Proof. unfold ProviderName. go_struct. Qed.
Lemma Environment_live (I : gostate -> Prop) : live I Environment.
Proof. unfold Environment. go_struct. Qed.
Lemma GetConfig_live (I : gostate -> Prop) : live I GetConfig.
Proof. unfold GetConfig. go_struct. Qed.
Lemma SetConfig_live cfg : live lock_free (SetConfig cfg).
Proof. by apply modify_live. Qed.
Lemma set_internal_live x : live lock_held (on_IPAM (modifyM (set_internal x))).
Proof. apply on_IPAM_live_held. by apply modify_live. Qed.
End locks.

#[export] Hint Resolve with_IPAM_lock_live locked_live on_internal_live on_IPAM_live_free
  on_IPAM_live_held request_live_free request_live_held Eventf_live ProviderName_live
  Environment_live GetConfig_live SetConfig_live set_internal_live : go.
