(* ===== verification/Utils.v ===== *)
(** * internal/shared/utils.go *)

From stdpp Require Import base list strings gmap.
From S2P Require Import Prelude GoStd GoJson Types Externals Runtime.
Open Scope list_scope.
Open Scope Z_scope.

Definition EmptyClusterNamePlaceholder : string := "ipam-empty-cluster-name-placeholder".

(** ** SortPatches *)

Section sort_patches.
Context {OM : OpenMCP}.

Definition patchToSize (patch : JSONPatch) : Z :=
  if decide (p_Op patch <> ADD) then -1
  else match p_Value patch with
       | None => -1
       | Some raw =>
           match json_Unmarshal_string "" raw with
           | None => -1
           | Some cidr =>
               match strings_Split cidr slash with
               | [_; split1] =>
                   match Atoi split1 with
                   | (size, None) => size
                   | (_, Some _) => -1
                   end
               | _ => -1
               end
           end
       end.

Definition patch_cmp (a b : JSONPatch) : Z :=
  let aSize := patchToSize a in
  let bSize := patchToSize b in
  if (aSize <? 0) || (bSize <? 0) then 0
  else if negb (aSize =? bSize) then aSize - bSize
  else strings_Compare (p_Path a) (p_Path b).

Definition SortPatches (cc : ClusterConfig) : ClusterConfig :=
  cc_set_Patches (SortStableFunc patch_cmp (cc_Patches cc)) cc.
End sort_patches.

(** ** Labels, names, generation *)

Section utils.
Context {OM : OpenMCP} {GI : GoIpam} {KA : K8sApi} {CU : CtrlUtils} {GO : GoMapOrder}.

Definition ClusterConfigLabels (cl : option Cluster) (ruleID : string) : M (gmap string string) :=
  let! provider := ProviderName in
  let! env := Environment in
  let res := <[EnvironmentLabel := env]> (<[ManagedPurposeLabel := ManagedPurposeLabelValue]>
               {[ManagedByLabel := provider]}) in
  let res := match cl with
             | Some cl => <[ClusterTargetLabel := Name (cl_meta cl)]> res
             | None => res
             end in
  let res := if decide (ruleID <> "") then <[InjectionRuleLabel := ruleID]> res else res in
  retM res.

Definition FetchClusterConfigs : M (list ClusterConfig + error) :=
  let! labels := ClusterConfigLabels None "" in
  let! ccs := client_ListClusterConfigs labels None in
  match ccs with
  | inr err => retM (inr (Errorf "error listing ClusterConfigs" (Some (Lib err))))
  | inl items => retM (inl (ProjectSliceToSlice items (fun cc => cc)))
  end.

Definition FetchClusterConfigsForCluster (cl : Cluster) : M (gmap string ClusterConfig + error) :=
  let! labels := ClusterConfigLabels (Some cl) "" in
  let! ccs := client_ListClusterConfigs labels (Some (Namespace (cl_meta cl))) in
  match ccs with
  | inr err => retM (inr (Lib err))
  | inl items =>
      retM (inl (ProjectSliceToMap items (fun cc =>
        (default "" (Labels (cc_meta cc) !! InjectionRuleLabel), cc))))
  end.

(** The loop over the ClusterConfigs when there is no config: the clusters they name,
    by namespace and name. *)
Definition fetch_owner (acc : gmap string (gmap string Cluster) * option error) (cc : ClusterConfig) :
    M (gmap string (gmap string Cluster) * option error) :=
  let '(tmp, errs) := acc in
  match Labels (cc_meta cc) !! ClusterTargetLabel with
  | None => retM (tmp, errs)
  | Some cName =>
      let namespace := Namespace (cc_meta cc) in
      let ns := default ∅ (tmp !! namespace) in
      let tmp := <[namespace := ns]> tmp in
      match ns !! cName with
      | Some _ => retM (tmp, errs)
      | None =>
          let! c := client_GetCluster namespace cName in
          match c with
          | inr err =>
              retM (tmp, if is_not_found err then errs
                         else errors_Join [errs; Some (Errorf "error fetching Cluster for ClusterConfig" (Some (Lib err)))])
          | inl c => retM (<[namespace := <[cName := c]> ns]> tmp, errs)
          end
      end
  end.

Definition FetchRelevantClusters (cfg : option IPAMConfig) : M (list Cluster + error) :=
  match cfg with
  | None =>
      let! ccs := FetchClusterConfigs in
      match ccs with
      | inr err => retM (inr (Errorf "error fetching ClusterConfigs" (Some err)))
      | inl ccs =>
          let! (tmp, _) := foldM fetch_owner (∅, None) ccs in
          retM (inl (AggregateMap tmp (fun _ clustersInNamespace res =>
                       res ++ (range clustersInNamespace).*2) []))
      end
  | Some cfg =>
      let! allClusters := client_ListClusters in
      match allClusters with
      | inr err => retM (inr (Errorf "unable to list Cluster resources" (Some (Lib err))))
      | inl items =>
          retM (inl (filter (fun cluster =>
            existsb (fun rule => rule_Matches rule cluster) (InjectionRules (Spec cfg)) = true) items))
      end
  end.

Definition GenerateClusterConfigName (cl : option Cluster) (ruleID : string) : string + error :=
  match cl with
  | None => inr (Errorf "cluster and ruleID must not be nil or empty" None)
  | Some cl =>
      if decide (ruleID = "") then inr (Errorf "cluster and ruleID must not be nil or empty" None)
      else if decide (Name (cl_meta cl) = "") then inl EmptyClusterNamePlaceholder
      else match ShortenToXCharacters (Name (cl_meta cl) +:+ "--ipam--" +:+ ruleID) K8sMaxNameLength with
           | inr err => inr (Errorf "error generating name for ClusterConfig" (Some (Lib err)))
           | inl ccName => inl ccName
           end
  end.

(** One injection as a patch; [json.Marshal] has no error for a string. *)
Definition injection_patch (path cidr : string) : JSONPatch :=
  {| p_Op := ADD; p_Path := path; p_Value := Some (json_Marshal_string cidr) |}.

(** The loop over an injection list, in the order of the iteration. *)
Definition injection_patches (l : list (string * string)) : list JSONPatch :=
  (fun '(path, cidr) => injection_patch path cidr) <$> l.

Definition GenerateClusterConfigForInjectionList (cl : Cluster) (ruleID : string)
    (injections : gmap string string) : M (ClusterConfig + error) :=
  match GenerateClusterConfigName (Some cl) ruleID with
  | inr err => retM (inr err)
  | inl ccName =>
      let! labels := ClusterConfigLabels (Some cl) ruleID in
      retM (inl (SortPatches
        {| cc_meta :=
             {| Name := ccName; Namespace := Namespace (cl_meta cl); UID := "";
                Labels := labels; Annotations := ∅;
                Finalizers := [CIDRManagementFinalizer];
                OwnerReferences :=
                  [{| or_APIVersion := ClustersGroupVersion; or_Kind := "Cluster";
                      or_Name := Name (cl_meta cl); or_UID := UID (cl_meta cl);
                      or_Controller := Some true; or_BlockOwnerDeletion := Some false |}];
                DeletionTimestamp := None |};
           cc_PatchOptions := Some (Some true);
           cc_Patches := injection_patches (range injections) |}))
  end.

(** ** Releasing CIDRs *)

(** The loop of [releaseCIDRsForClusterConfig_internal] over the patches, on the new
    instance. *)
Fixpoint release_patches (patches : list JSONPatch) : goM ipamS (option error) :=
  match patches with
  | [] => retM None
  | patch :: patches =>
      match p_Value patch with
      | None => release_patches patches
      | Some raw =>
          match json_Unmarshal_string "" raw with
          | None => retM (Some (Errorf "error unmarshaling value of patch" None))
          | Some cidr => fun newIpam =>
              match ipam_PrefixFrom cidr newIpam with
              | (newIpam, inr err) =>
                  if negb (is_not_found err)
                  then (Ret (Some (Errorf "error fetching prefix for CIDR" (Some (Lib err)))), newIpam)
                  else release_patches patches newIpam
              | (newIpam, inl ptr) =>
                  match ipam_ReleaseChildPrefix ptr newIpam with
                  | (newIpam, Some err) =>
                      if negb (is_not_found err)
                      then (Ret (Some (Errorf "unable to release child prefix" (Some (Lib err)))), newIpam)
                      else release_patches patches newIpam
                  | (newIpam, None) => release_patches patches newIpam
                  end
              end
          end
      end
  end.

(** [IPAM.internal.Dump(ctx)] by a caller that holds the lock. *)
Definition IPAM_internal {A} (op : ipamS -> ipamS * A) : M A := on_IPAM (on_internal op).

(** The error, and the ClusterConfig the caller's pointer then holds. *)
Definition releaseCIDRsForClusterConfig_internal (cc : ClusterConfig) :
    M (option error * ClusterConfig) :=
  let! ipamData := IPAM_internal ipam_Dump in
  match ipamData with
  | inr err => retM (Some (Errorf "error dumping IPAM state" (Some (Lib err))), cc)
  | inl ipamData =>
      match ipam_Load ipamData ipam_New with
      | (_, Some err) =>
          retM (Some (Errorf "error loading IPAM state into new instance" (Some (Lib err))), cc)
      | (newIpam, None) =>
          match release_patches (cc_Patches cc) newIpam with
          | (Ret (Some err), _) => retM (Some err, cc)
          | (Ret None, newIpam) =>
              let old := cc in
              let '(finalizers, changed) :=
                RemoveFinalizer (Finalizers (cc_meta cc)) CIDRManagementFinalizer in
              let cc := cc_set_Finalizers finalizers cc in
              let! res :=
                if changed : bool then
                  let! r := client_PatchClusterConfig old cc in
                  match r with
                  | inr err => retM (Some (Errorf "error removing CIDR management finalizer" (Some (Lib err))), cc)
                  | inl cc => retM (None, cc)
                  end
                else retM (None, cc) in
              match res with
              | (Some err, cc) => retM (Some err, cc)
              | (None, cc) =>
                  on_IPAM (modifyM (set_internal newIpam)) ;;; retM (None, cc)
              end
          | (Panic why, _) => panicM why
          | (Deadlock, _) => fun s => (Deadlock, s)
          end
      end
  end.

Definition ReleaseCIDRsForClusterConfig (cc : ClusterConfig) : M (option error * ClusterConfig) :=
  with_IPAM_lock (releaseCIDRsForClusterConfig_internal cc).
End utils.

(** ** Lemmas and theorems: sorting *)

Section sort_lemmas.
Context {OM : OpenMCP}.

Definition sized (p : JSONPatch) : Prop := 0 <= patchToSize p.

(** Larger networks (smaller masks) first, then by path. *)
Definition patch_before (a b : JSONPatch) : Prop :=
  patchToSize a < patchToSize b \/
  (patchToSize a = patchToSize b /\ strings_Compare (p_Path a) (p_Path b) <= 0).

Lemma patch_cmp_sized a b : sized a -> sized b ->
  patch_cmp a b = if patchToSize a =? patchToSize b
                  then strings_Compare (p_Path a) (p_Path b)
                  else patchToSize a - patchToSize b.
Proof.
  unfold sized, patch_cmp. intros Ha Hb.
  destruct (Z.ltb_spec (patchToSize a) 0), (Z.ltb_spec (patchToSize b) 0); try lia.
  simpl. by destruct (Z.eqb_spec (patchToSize a) (patchToSize b)).
Qed.

Lemma patch_cmp_before a b : sized a -> sized b -> cmp_le patch_cmp a b <-> patch_before a b.
Proof.
  intros Ha Hb. unfold cmp_le, patch_before. rewrite patch_cmp_sized by done.
  destruct (Z.eqb_spec (patchToSize a) (patchToSize b)); lia.
Qed.

Lemma patch_cmp_total a b : sized a -> sized b -> 0 <= patch_cmp a b -> patch_cmp b a <= 0.
Proof.
  intros Ha Hb. rewrite !patch_cmp_sized by done. rewrite (Z.eqb_sym (patchToSize b)).
  rewrite (strings_Compare_antisym (p_Path a)).
  destruct (Z.eqb_spec (patchToSize a) (patchToSize b)); lia.
Qed.

Lemma patch_cmp_trans a b c : sized a -> sized b -> sized c ->
  patch_cmp a b <= 0 -> patch_cmp b c <= 0 -> patch_cmp a c <= 0.
Proof.
  intros Ha Hb Hc. rewrite !patch_cmp_sized by done.
  pose proof (strings_Compare_trans (p_Path a) (p_Path b) (p_Path c)).
  destruct (Z.eqb_spec (patchToSize a) (patchToSize b)),
    (Z.eqb_spec (patchToSize b) (patchToSize c)),
    (Z.eqb_spec (patchToSize a) (patchToSize c)); lia.
Qed.

Lemma sort_patches_sorted l :
  Forall sized l -> StronglySorted patch_before (SortStableFunc patch_cmp l).
Proof.
  intros Hl.
  assert (StronglySorted (cmp_le patch_cmp) (SortStableFunc patch_cmp l)) as Hs.
  { apply (SortStableFunc_sorted patch_cmp sized); [|apply patch_cmp_trans|done].
    apply patch_cmp_total. }
  assert (Forall sized (SortStableFunc patch_cmp l)) as Hf by by rewrite SortStableFunc_perm.
  induction Hs as [|x l' Hs IH Hx]; [constructor|].
  apply Forall_cons in Hf as [Hsx Hf]. constructor; [by apply IH|].
  rewrite Forall_forall in Hx, Hf |- *. intros y Hy.
  apply patch_cmp_before; auto.
Qed.

(** C33: If every patch has a parsable CIDR of non-negative prefix length, SortPatches returns a
    permutation of the patches that is ordered by ascending prefix length (large networks first)
    and then by path. *)
Theorem SortPatches_sorted cc :
  Forall sized (cc_Patches cc) ->
  cc_Patches (SortPatches cc) ≡ₚ cc_Patches cc /\
  StronglySorted patch_before (cc_Patches (SortPatches cc)).
Proof. intros Hl. split; [apply SortStableFunc_perm|by apply sort_patches_sorted]. Qed.

(** A patch that SortPatches cannot compare (no "add" operation, no CIDR value, no prefix
    length) stays where it is and separates the patches before it from those behind it: the
    two parts are sorted each on its own, and no patch moves past it, even one whose CIDR
    contains that of a patch before. Stated for the slice lengths that Go sorts by insertion.
    *)
Theorem SortPatches_incomparable_kept cc l1 p l2 :
  (length (cc_Patches cc) <= insertion_block)%nat ->
  cc_Patches cc = l1 ++ p :: l2 -> patchToSize p < 0 ->
  cc_Patches (SortPatches cc) =
    cc_Patches (SortPatches (cc_set_Patches l1 cc)) ++ p ::
    cc_Patches (SortPatches (cc_set_Patches l2 cc)).
Proof.
  intros _ Hl Hp%Z.ltb_lt. simpl. rewrite Hl. apply SortStableFunc_barrier.
  intros q. unfold patch_cmp. by rewrite Hp, orb_true_r.
Qed.

Lemma injection_patch_size path cidr n :
  valid_utf8 cidr = true -> cidr_size cidr = Some n ->
  patchToSize (injection_patch path cidr) = n.
Proof.
  unfold patchToSize, cidr_size. cbn [injection_patch p_Op p_Value].
  intros Hv Hn. rewrite decide_False by naive_solver.
  rewrite json_string_roundtrip by done.
  destruct (strings_Split cidr slash) as [|? [|? []]]; try done.
  by destruct (Atoi _) as [? []]; simplify_eq.
Qed.

Lemma injection_patch_value path cidr :
  valid_utf8 cidr = true ->
  json_Unmarshal_string "" <$> p_Value (injection_patch path cidr) = Some (Some cidr).
Proof. intros Hv. simpl. by rewrite json_string_roundtrip. Qed.
End sort_lemmas.

(** ** Lemmas and theorems: generation *)

Section generate.
Context {OM : OpenMCP} {GI : GoIpam} {KA : K8sApi} {CU : CtrlUtils}.

Lemma sort_injections_unique (m : gmap string string) l1 l2 :
  (forall path cidr, m !! path = Some cidr -> sized (injection_patch path cidr)) ->
  l1 ≡ₚ map_to_list m -> l2 ≡ₚ map_to_list m ->
  SortStableFunc patch_cmp (injection_patches l1) = SortStableFunc patch_cmp (injection_patches l2).
Proof.
  intros Hm Hl1 Hl2.
  set (P := fun p => exists path cidr, m !! path = Some cidr /\ p = injection_patch path cidr).
  assert (forall p, P p -> sized p) as HPs by (intros p (path & cidr & Hp & ->); eauto).
  apply (SortStableFunc_unique patch_cmp P).
  - intros x y Hx Hy. apply patch_cmp_total; auto.
  - intros x y z Hx Hy Hz. apply patch_cmp_trans; auto.
  - intros x y Hx Hy Hle Hge.
    apply (patch_cmp_before x y) in Hle; [|by auto..].
    apply (patch_cmp_before y x) in Hge; [|by auto..].
    destruct Hx as (px & cx & Hx & ->), Hy as (py & cy & Hy & ->).
    unfold patch_before in *.
    rewrite (strings_Compare_antisym (p_Path (injection_patch px cx))) in Hge.
    assert (px = py) as -> by (apply strings_Compare_eq; cbn in *; lia).
    by simplify_eq.
  - apply Forall_forall. intros p Hp. unfold injection_patches in Hp.
    apply list_elem_of_fmap in Hp as ([path cidr] & -> & Hin).
    rewrite Hl1, elem_of_map_to_list in Hin. by exists path, cidr.
  - unfold injection_patches. by rewrite Hl1, Hl2.
Qed.
End generate.

Section generate_order.
Context {OM : OpenMCP} {GI : GoIpam} {KA : K8sApi} {CU : CtrlUtils}.

(** C34: A generated ClusterConfig does not depend on the order in which Go iterates over the
    injection map: for maps with CIDRs that have a prefix length, any two iteration orders give
    the same result. *)
Theorem Generate_order_independent (O1 O2 : GoMapOrder) cl ruleID injections s :
  (forall path cidr, injections !! path = Some cidr ->
     exists n, valid_utf8 cidr = true /\ cidr_size cidr = Some n /\ 0 <= n) ->
  GenerateClusterConfigForInjectionList (GO := O1) cl ruleID injections s =
  GenerateClusterConfigForInjectionList (GO := O2) cl ruleID injections s.
Proof.
  intros Hc. unfold GenerateClusterConfigForInjectionList.
  destruct (GenerateClusterConfigName _ _); [|done].
  unfold bindM. destruct (ClusterConfigLabels _ _ s) as [[labels| |] s']; [|done..].
  unfold retM, SortPatches, cc_set_Patches. cbn [cc_meta cc_PatchOptions cc_Patches].
  rewrite (sort_injections_unique injections (range (GoMapOrder := O1) injections)
             (range (GoMapOrder := O2) injections)); [done| |apply range_perm..].
  intros path cidr Hp. destruct (Hc _ _ Hp) as (n & Hv & Hn & Hpos).
  unfold sized. by rewrite (injection_patch_size _ _ n).
Qed.
End generate_order.

Section generate_spec.
Context {OM : OpenMCP} {GI : GoIpam} {KA : K8sApi} {CU : CtrlUtils} {GO : GoMapOrder}.

(** The labels, as a function of the two names of the process. *)
Definition labels_of (provider env : string) (cl : option Cluster) (ruleID : string) :
    gmap string string :=
  let res := <[EnvironmentLabel := env]> (<[ManagedPurposeLabel := ManagedPurposeLabelValue]>
               {[ManagedByLabel := provider]}) in
  let res := match cl with
             | Some cl => <[ClusterTargetLabel := Name (cl_meta cl)]> res
             | None => res
             end in
  if decide (ruleID <> "") then <[InjectionRuleLabel := ruleID]> res else res.

Lemma ClusterConfigLabels_run cl ruleID s labels s' :
  ClusterConfigLabels cl ruleID s = (Ret labels, s') ->
  s' = s /\ labels = labels_of (providerName s) (environment s) cl ruleID.
Proof.
  unfold ClusterConfigLabels, ProviderName, Environment. intros Hrun.
  go_run. repeat (case_decide; go_run); (split; [done|]); unfold labels_of; by case_decide.
Qed.

Lemma labels_of_mono `{!OpenMCPLaws} provider env cl ruleID :
  labels_of provider env None "" ⊆ labels_of provider env (Some cl) "" /\
  labels_of provider env (Some cl) "" ⊆ labels_of provider env (Some cl) ruleID.
Proof.
  pose proof labels_distinct as Hd. rewrite !NoDup_cons, !not_elem_of_cons in Hd.
  destruct Hd as (? & ? & ? & ? & _). unfold labels_of.
  rewrite !(decide_False (P := "" <> "")) by (intros []; done). split.
  - apply insert_subseteq. rewrite !lookup_insert_ne, lookup_singleton_ne; naive_solver.
  - case_decide; [|done]. apply insert_subseteq.
    rewrite !lookup_insert_ne, lookup_singleton_ne; naive_solver.
Qed.

(** C35: A generated ClusterConfig has the generated name, the cluster's namespace, the
    finalizer and no deletion timestamp, the labels of its cluster and rule, one patch for each
    injection and no others; and the label selectors with which the program later lists
    ClusterConfigs (those of this cluster, and all of this process) both select it. The process
    state is not changed. *)
Theorem Generate_correct `{!OpenMCPLaws} cl ruleID injections s cc s' :
  GenerateClusterConfigForInjectionList cl ruleID injections s = (Ret (inl cc), s') ->
  s' = s /\
  GenerateClusterConfigName (Some cl) ruleID = inl (Name (cc_meta cc)) /\
  Namespace (cc_meta cc) = Namespace (cl_meta cl) /\
  Finalizers (cc_meta cc) = [CIDRManagementFinalizer] /\
  DeletionTimestamp (cc_meta cc) = None /\
  Labels (cc_meta cc) !! ClusterTargetLabel = Some (Name (cl_meta cl)) /\
  Labels (cc_meta cc) !! InjectionRuleLabel = Some ruleID /\
  (forall sel s1, ClusterConfigLabels (Some cl) "" s = (Ret sel, s1) -> sel ⊆ Labels (cc_meta cc)) /\
  (forall sel s1, ClusterConfigLabels None "" s = (Ret sel, s1) -> sel ⊆ Labels (cc_meta cc)) /\
  cc_Patches cc ≡ₚ injection_patches (map_to_list injections).
Proof.
  unfold GenerateClusterConfigForInjectionList.
  destruct (GenerateClusterConfigName _ _) as [name|] eqn:Hname; intros Hrun; go_run.
  match goal with H : ClusterConfigLabels _ _ _ = _ |- _ =>
    apply ClusterConfigLabels_run in H as [-> ->] end.
  assert (ruleID <> "") as Hr.
  { intros ->. unfold GenerateClusterConfigName in Hname. by rewrite decide_True in Hname. }
  pose proof labels_distinct as Hd. rewrite !NoDup_cons, !not_elem_of_cons in Hd.
  pose proof (labels_of_mono (providerName s) (environment s) cl ruleID) as [Hm1 Hm2].
  split_and!; try done.
  - unfold labels_of. rewrite decide_True, lookup_insert_ne by (done || naive_solver).
    by rewrite lookup_insert_eq.
  - unfold labels_of. rewrite decide_True by done. by rewrite lookup_insert_eq.
  - by intros sel s1 [_ ->]%ClusterConfigLabels_run.
  - intros sel s1 [_ ->]%ClusterConfigLabels_run. by etrans.
  - rewrite SortStableFunc_perm. unfold injection_patches. by rewrite range_perm.
Qed.
End generate_spec.

(** ** Lemmas and theorems: releasing CIDRs *)

Section release.
Context {OM : OpenMCP} {GI : GoIpam} {KA : K8sApi} {CU : CtrlUtils}.
Context {GL : GoIpamLaws} {CL : CtrlUtilsLaws}.

(** The CIDR a patch injects, if it can be read. *)
Definition patch_cidr (p : JSONPatch) : option string :=
  match p_Value p with
  | Some raw => json_Unmarshal_string "" raw
  | None => None
  end.

Definition patch_cidrs (ps : list JSONPatch) : gset string :=
  list_to_set (canon <$> omap patch_cidr ps).

Lemma patch_cidrs_cons p ps :
  patch_cidrs (p :: ps) =
  match patch_cidr p with Some c => {[canon c]} ∪ patch_cidrs ps | None => patch_cidrs ps end.
Proof. unfold patch_cidrs. simpl. by destruct (patch_cidr p). Qed.

Lemma elem_of_patch_cidrs c ps :
  c ∈ patch_cidrs ps <-> exists p d, p ∈ ps /\ patch_cidr p = Some d /\ c = canon d.
Proof.
  unfold patch_cidrs. rewrite elem_of_list_to_set, list_elem_of_fmap.
  setoid_rewrite list_elem_of_omap. naive_solver.
Qed.

(** One prefix looked up. *)
Lemma lookup_one c x x1 r :
  ipam_PrefixFrom c x = (x1, r) ->
  same_view x x1 /\
  match r with
  | inl p => pCidr p = canon c /\ canon c ∈ known x
  | inr _ => canon c ∉ known x
  end.
Proof.
  intros Hp. pose proof (PrefixFrom_same c x) as H1. pose proof (PrefixFrom_known c x) as H3.
  rewrite Hp in H1, H3. split; [done|].
  destruct r as [p|e]; [apply (PrefixFrom_found c x p); by rewrite Hp|].
  intros Hin. by destruct (H3 Hin).
Qed.

(** [x'] is [x] with nothing new and at most the CIDRs of [X] gone. *)
Definition shrinks (X : gset string) (x x' : ipamS) : Prop :=
  known x' ⊆ known x /\ known x ⊆ known x' ∪ X.

Lemma shrinks_same X x x' : same_view x x' -> shrinks X x x'.
Proof. unfold shrinks. intros (-> & _). set_solver. Qed.

Lemma shrinks_trans X x1 x2 x3 : shrinks X x1 x2 -> shrinks X x2 x3 -> shrinks X x1 x3.
Proof. unfold shrinks. intros (?&?) (?&?). split; [by etrans|set_solver]. Qed.

Lemma shrinks_weaken X Y x x' : X ⊆ Y -> shrinks X x x' -> shrinks Y x x'.
Proof. unfold shrinks. set_solver. Qed.

Lemma shrinks_release c X x x' : c ∈ X -> known x' = known x ∖ {[c]} -> shrinks X x x'.
Proof.
  unfold shrinks. intros Hc ->. split; [set_solver|].
  intros d Hd. destruct (decide (d = c)) as [->|]; set_solver.
Qed.

Lemma release_patches_shrinks ps x r x' :
  release_patches ps x = (r, x') -> shrinks (patch_cidrs ps) x x'.
Proof.
  revert x. induction ps as [|p ps IH]; intros x Hrun; simpl in Hrun.
  { unfold retM in Hrun. simplify_eq. by apply shrinks_same. }
  rewrite patch_cidrs_cons. unfold patch_cidr.
  destruct (p_Value p) as [raw|]; [|by apply IH].
  destruct (json_Unmarshal_string "" raw) as [c|].
  2:{ unfold retM in Hrun. simplify_eq. by apply shrinks_same. }
  assert (forall x, release_patches ps x = (r, x') ->
            shrinks ({[canon c]} ∪ patch_cidrs ps) x x') as IH'.
  { intros y Hy. eapply shrinks_weaken; [|by apply IH]. set_solver. }
  destruct (ipam_PrefixFrom c x) as [x1 q] eqn:Hp.
  apply lookup_one in Hp as (Hk & Hq).
  apply (shrinks_trans _ _ x1); [by apply shrinks_same|].
  destruct q as [q|e].
  - destruct (ipam_ReleaseChildPrefix q x1) as [x2 [e|]] eqn:Hr.
    + apply Release_err in Hr. apply (shrinks_trans _ _ x2); [by apply shrinks_same|].
      destruct (negb (is_not_found e)); [simplify_eq; by apply shrinks_same|by apply IH'].
    + apply Release_ok in Hr as [Hk2 _]. destruct Hq as [Hq _]. rewrite Hq in Hk2.
      apply (shrinks_trans _ _ x2); [|by apply IH'].
      apply (shrinks_release (canon c)); [set_solver|done..].
  - destruct (negb (is_not_found e)); [simplify_eq; by apply shrinks_same|by apply IH'].
Qed.

(** The known prefixes of [X] can be released, and none is sliced from another. *)
Definition releasable (X : gset string) (x : ipamS) : Prop :=
  X ∩ known x ⊆ children x /\ (forall c, c ∈ X -> slices x c ## X).

Lemma releasable_mono X Y x : X ⊆ Y -> releasable Y x -> releasable X x.
Proof. unfold releasable. intros Hs [H1 H2]. split; [set_solver|]. intros c Hc. specialize (H2 c). set_solver. Qed.

Lemma releasable_same X x x' : same_view x x' -> releasable X x -> releasable X x'.
Proof.
  intros (Hk & Hc & Hs) [H1 H2]. split; [by rewrite Hk, Hc|]. intros c Hin. rewrite Hs. by apply H2.
Qed.

Lemma releasable_release X p x x' :
  ipam_ReleaseChildPrefix p x = (x', None) -> pCidr p ∈ X -> releasable X x -> releasable X x'.
Proof.
  intros (Hk & Hc & Hs)%Release_ok Hp [H1 H2]. split.
  - rewrite Hk. etrans; [|exact Hc]. specialize (H2 _ Hp). set_solver.
  - intros c Hin. specialize (H2 _ Hin). specialize (Hs c). set_solver.
Qed.

Lemma release_patches_all ps x x' :
  release_patches ps x = (Ret None, x') ->
  releasable (patch_cidrs ps) x ->
  known x' = known x ∖ patch_cidrs ps.
Proof.
  revert x. induction ps as [|p ps IH]; intros x Hrun Hch; simpl in Hrun.
  { unfold retM in Hrun. simplify_eq. set_solver. }
  rewrite patch_cidrs_cons in *. unfold patch_cidr in *.
  destruct (p_Value p) as [raw|]; [|by apply IH].
  destruct (json_Unmarshal_string "" raw) as [c|]; [|done].
  destruct (ipam_PrefixFrom c x) as [x1 [q|e]] eqn:Hp;
    apply lookup_one in Hp as (Hv & Hq); apply (releasable_same _ _ _ Hv) in Hch;
    destruct Hv as (Hk & _).
  - destruct Hq as [Hq Hin].
    assert (pCidr q ∈ {[canon c]} ∪ patch_cidrs ps) as Hqx
      by (rewrite Hq; apply elem_of_union_l; by apply elem_of_singleton).
    assert (pCidr q ∈ children x1) as Hqc.
    { apply Hch, elem_of_intersection. split; [done|]. by rewrite Hq, Hk. }
    pose proof (Release_child q x1 Hqc) as Hrc. clear Hqc.
    destruct (ipam_ReleaseChildPrefix q x1) as [x2 [e|]] eqn:Hr.
    { discriminate Hrc. }
    apply (releasable_release _ _ _ _ Hr Hqx) in Hch.
    apply Release_ok in Hr as [Hk2 _]. rewrite Hk, Hq in Hk2.
    apply IH in Hrun; [|eapply releasable_mono; [|exact Hch]; clear; set_solver].
    rewrite Hrun, Hk2. clear. set_solver.
  - destruct (negb (is_not_found e)); [done|].
    apply IH in Hrun; [|eapply releasable_mono; [|exact Hch]; clear; set_solver].
    rewrite Hrun, Hk. clear - Hq. set_solver.
Qed.

(** The prefixes the shared instance knows. *)
Definition st_known (s : gostate) : gset string :=
  match IPAM s with Some i => known (internal i) | None => ∅ end.

Definition st_releasable (X : gset string) (s : gostate) : Prop :=
  match IPAM s with Some i => releasable X (internal i) | None => True end.

Lemma IPAM_internal_Dump_run s r s' :
  IPAM_internal ipam_Dump s = (Ret r, s') ->
  exists i, IPAM s = Some i /\ r = (ipam_Dump (internal i)).2 /\
    s' = st_set_IPAM (Some (set_internal (ipam_Dump (internal i)).1 i)) s.
Proof.
  unfold IPAM_internal, on_IPAM, on_internal. destruct (IPAM s) as [i|]; [|done].
  destruct (ipam_Dump (internal i)) as [x d] eqn:Hd. intros ?; simplify_eq. exists i. by rewrite Hd.
Qed.

Lemma release_patches_Ret ps x : exists r, (release_patches ps x).1 = Ret r.
Proof.
  revert x. induction ps as [|p ps IH]; intros x; simpl; [by eexists|].
  repeat case_match; by first [apply IH | eexists].
Qed.

(** The request that removes the finalizer. *)
Definition finalizer_patch (cc : ClusterConfig) : api_call :=
  CallPatchClusterConfig cc
    (cc_set_Finalizers (RemoveFinalizer (Finalizers (cc_meta cc)) CIDRManagementFinalizer).1 cc).

(** What a finished release did: on an error the instance is a copy of the old one, on
    success it is the result of the loop over the patches. *)
Lemma release_internal_inv cc s r cc' s' :
  releaseCIDRsForClusterConfig_internal cc s = (Ret (r, cc'), s') ->
  exists i y, IPAM s = Some i /\
    s' = st_set_calls (calls s') (st_set_IPAM (Some (set_internal y i)) s) /\
    match r with
    | Some _ => same_view (internal i) y /\
                (calls s' = calls s \/ calls s' = finalizer_patch cc :: calls s)
    | None =>
        (exists x, same_view (internal i) x /\
                   release_patches (cc_Patches cc) x = (Ret None, y)) /\
        calls s' = if decide (CIDRManagementFinalizer ∈ Finalizers (cc_meta cc))
                   then finalizer_patch cc :: calls s else calls s
    end.
Proof.
  unfold releaseCIDRsForClusterConfig_internal, finalizer_patch. intros Hrun.
  apply bindM_Ret_inv in Hrun as (d & s1 & H1 & Hrun).
  apply IPAM_internal_Dump_run in H1 as (i & Hi & -> & ->).
  exists i. destruct (ipam_Dump (internal i)).2 as [data|e] eqn:Hd.
  2:{ go_run. eexists. split_and!; [done|reflexivity|apply Dump_same|by left]. }
  destruct (ipam_Load data ipam_New) as [x [e|]] eqn:Hl.
  { go_run. eexists. split_and!; [done|reflexivity|apply Dump_same|by left]. }
  pose proof (Load_Dump _ _ _ Hd Hl) as Hv.
  destruct (release_patches_Ret (cc_Patches cc) x) as [r1 Hr1].
  destruct (release_patches (cc_Patches cc) x) as [o y] eqn:Hp. simpl in Hr1. subst o.
  destruct r1 as [e|].
  { go_run. eexists. split_and!; [done|reflexivity|apply Dump_same|by left]. }
  pose proof (RemoveFinalizer_changed (Finalizers (cc_meta cc)) CIDRManagementFinalizer) as Hch.
  destruct (RemoveFinalizer _ _) as [fs changed]. simpl in Hch. subst changed.
  destruct (decide (CIDRManagementFinalizer ∈ Finalizers (cc_meta cc))) as [Hin|Hin].
  - rewrite bool_decide_true in Hrun by done.
    apply bindM_Ret_inv in Hrun as ([res cc1] & s2 & H2 & Hrun).
    apply bindM_Ret_inv in H2 as (r2 & s3 & H3 & H2).
    unfold client_PatchClusterConfig, request in H3. injection H3 as <- <-.
    destruct (api_PatchClusterConfig _ _ _) as [cc2|e]; go_run.
    + unfold on_IPAM, modifyM in *. simpl in *. simplify_eq.
      exists y. split_and!; [done|reflexivity|by exists x|done].
    + eexists. split_and!; [done|reflexivity|apply Dump_same|by right].
  - rewrite bool_decide_false in Hrun by done. go_run.
    unfold on_IPAM, modifyM in *. simpl in *. simplify_eq.
    exists y. split_and!; [done|reflexivity|by exists x|done].
Qed.

Lemma release_internal_err cc s err cc' s' :
  releaseCIDRsForClusterConfig_internal cc s = (Ret (Some err, cc'), s') ->
  st_known s' = st_known s /\ (forall X, st_releasable X s -> st_releasable X s') /\
  config s' = config s /\ ClusterWatch s' = ClusterWatch s.
Proof.
  intros (i & y & Hi & -> & Hv & _)%release_internal_inv.
  unfold st_known, st_releasable. simpl. rewrite Hi. split_and!; [apply Hv| |done..].
  intros X. by apply releasable_same.
Qed.

Lemma release_internal_ok cc s cc' s' :
  releaseCIDRsForClusterConfig_internal cc s = (Ret (None, cc'), s') ->
  st_releasable (patch_cidrs (cc_Patches cc)) s ->
  st_known s' = st_known s ∖ patch_cidrs (cc_Patches cc) /\
  calls s' = (if decide (CIDRManagementFinalizer ∈ Finalizers (cc_meta cc))
              then finalizer_patch cc :: calls s else calls s).
Proof.
  intros (i & y & Hi & -> & (x & Hv & Hp) & Hcalls)%release_internal_inv.
  unfold st_known, st_releasable. simpl in *. rewrite Hi.
  intros Hch%(releasable_same _ _ x); [|done]. split; [|done].
  destruct Hv as [<- _]. by apply release_patches_all.
Qed.

Lemma release_internal_shrinks cc s r cc' s' :
  releaseCIDRsForClusterConfig_internal cc s = (Ret (r, cc'), s') ->
  st_known s' ⊆ st_known s.
Proof.
  intros (i & y & Hi & -> & Hr)%release_internal_inv.
  unfold st_known. simpl. rewrite Hi. destruct r as [e|].
  - by destruct Hr as [[-> _] _].
  - destruct Hr as [(x & [<- _] & Hp) _]. by apply release_patches_shrinks in Hp as [? _].
Qed.

Lemma st_known_unlock s : st_known (st_set_IPAM (set_lock false <$> IPAM s) s) = st_known s.
Proof. unfold st_known. simpl. by destruct (IPAM s). Qed.
Lemma st_releasable_unlock X s :
  st_releasable X (st_set_IPAM (set_lock false <$> IPAM s) s) <-> st_releasable X s.
Proof. unfold st_releasable. simpl. by destruct (IPAM s). Qed.

(** C14: A ReleaseCIDRsForClusterConfig that returns an error (of the IPAM, of JSON, or of the
    API server that removes the finalizer) leaves the shared IPAM instance as it was: the same
    CIDRs known, the same ones releasable; the config and the cluster queue are untouched too.
    *)
Theorem release_atomic cc s err cc' s' :
  ReleaseCIDRsForClusterConfig cc s = (Ret (Some err, cc'), s') ->
  st_known s' = st_known s /\ (forall X, st_releasable X s -> st_releasable X s') /\
  config s' = config s /\ ClusterWatch s' = ClusterWatch s.
Proof.
  intros (i & s1 & Hi & Hl & Hr & ->)%with_IPAM_lock_Ret.
  apply release_internal_err in Hr as (Hk & Hc & Hcfg & Hw).
  rewrite st_known_unlock, Hk. setoid_rewrite st_releasable_unlock.
  unfold st_known, st_releasable in *. simpl in *. by rewrite Hi.
Qed.


Lemma release_internal_live cc : live lock_held (releaseCIDRsForClusterConfig_internal cc).
Proof.
  unfold releaseCIDRsForClusterConfig_internal, IPAM_internal, client_PatchClusterConfig.
  go_struct.
  destruct (release_patches_Ret (cc_Patches cc) i) as [r Hr].
  by match goal with H : release_patches _ _ = (Deadlock, _) |- _ => rewrite H in Hr end.
Qed.

Lemma Release_live cc : live lock_free (ReleaseCIDRsForClusterConfig cc).
Proof. apply with_IPAM_lock_live, release_internal_live. Qed.
End release.

#[export] Hint Resolve release_internal_live Release_live : go.
