(* ===== verification/Restore.v ===== *)
(** * internal/shared/restore.go *)

From stdpp Require Import base list strings gmap.
From S2P Require Import Prelude GoStd GoJson Types Externals Runtime Utils.
Open Scope list_scope.
Open Scope Z_scope.

Record RestorationInstruction : Type := {
  ClusterConfigsToCreate : list ClusterConfig;
  ClusterConfigsToUpdate : list ClusterConfig }.

(** On a pointer that may be nil. *)
Definition Size (ri : option RestorationInstruction) : nat * nat :=
  match ri with
  | None => (0%nat, 0%nat)
  | Some ri => (length (ClusterConfigsToCreate ri), length (ClusterConfigsToUpdate ri))
  end.

Definition objectKeyFromStrings (namespace name : string) : string := namespace +:+ "/" +:+ name.
Definition objectKey (m : ObjectMeta) : string := objectKeyFromStrings (Namespace m) (Name m).

(** [reverse]: the elements are stored one by one into a new slice, whose slots hold
    nothing ([None]) until then. *)
Definition reverse_slice {T : Type} (src : list T) : list T :=
  let l := length src in
  omap id (foldl (fun res iv => <[(l - 1 - iv.1)%nat := Some iv.2]> res)
             (replicate l None) (imap (fun i v => (i, v)) src)).

Section restore.
Context {OM : OpenMCP} {GI : GoIpam} {KA : K8sApi} {CU : CtrlUtils} {GO : GoMapOrder}.

(** ** Apply *)

(** One of the two loops of [Apply]: every object is sent, the errors are joined. *)
Definition apply_all (send : ClusterConfig -> M (option exterr)) (what : string)
    (errs : option error) (ccs : list ClusterConfig) : M (option error) :=
  foldM (fun errs cc =>
    let! err := send cc in
    retM match err with
         | Some err => errors_Join [errs; Some (Errorf what (Some (Lib err)))]
         | None => errs
         end) errs ccs.

Definition Apply (ri : option RestorationInstruction) : M (option error) :=
  match ri with
  | None => retM None
  | Some ri =>
      let! errs := apply_all client_CreateClusterConfig "error creating ClusterConfig" None
                     (ClusterConfigsToCreate ri) in
      let! errs := apply_all client_UpdateClusterConfig "error updating ClusterConfig" errs
                     (ClusterConfigsToUpdate ri) in
      retM match errs with
           | Some errs => Some (Errorf "one or more errors occurred trying to create/update ClusterConfigs" (Some errs))
           | None => None
           end
  end.

(** ** CheckClusterConfigsForCluster *)

Definition parse_applied_rules (cl : Cluster) : AppliedRulesAnnotation + error :=
  match Annotations (cl_meta cl) !! AppliedRulesAnnotationKey with
  | None => inl ∅
  | Some appliedRulesString =>
      match FromAnnotation appliedRulesString with
      | inl a => inl a
      | inr err => inr (Errorf "unable to recover applied rules" (Some err))
      end
  end.

Definition has_path (path : string) (patches : list JSONPatch) : bool :=
  existsb (fun patch => bool_decide (p_Path patch = path)) patches.

(** The injections of a rule that its ClusterConfig, if any, does not have. *)
Definition missing_of_rule (cc : option ClusterConfig) (injections : gmap string string) :
    gmap string string :=
  match cc with
  | None => foldl (fun mi pc => <[pc.1 := pc.2]> mi) ∅ (range injections)
  | Some cc =>
      foldl (fun mi pc => if has_path pc.1 (cc_Patches cc) then mi else <[pc.1 := pc.2]> mi)
        ∅ (range injections)
  end.

Definition missing_injections (appliedRules : AppliedRulesAnnotation) (ccs : gmap string ClusterConfig) :
    gmap string (gmap string string) :=
  foldl (fun acc ri => <[ri.1 := missing_of_rule (ccs !! ri.1) (nil_map ri.2)]> acc)
    ∅ (range appliedRules).

(** What the second loop collects: new and updated ClusterConfigs, errors. *)
Record check_acc : Type := {
  newCCs : gmap string ClusterConfig;
  updatedCCs : gmap string ClusterConfig;
  check_errs : option error }.

Definition check_rule (cl : Cluster) (ccs : gmap string ClusterConfig) (acc : check_acc)
    (ri : string * gmap string string) : M check_acc :=
  let '(ruleID, injections) := ri in
  if decide (size injections = 0%nat) then retM acc
  else match ccs !! ruleID with
       | None =>
           let! newCC := GenerateClusterConfigForInjectionList cl ruleID injections in
           match newCC with
           | inr err =>
               retM {| newCCs := newCCs acc; updatedCCs := updatedCCs acc;
                       check_errs := errors_Join [check_errs acc;
                         Some (Errorf "error generating ClusterConfig for rule" (Some err))] |}
           | inl newCC =>
               if decide (Name (cc_meta newCC) = EmptyClusterNamePlaceholder) then retM acc
               else retM {| newCCs := <[ruleID := newCC]> (newCCs acc);
                            updatedCCs := updatedCCs acc; check_errs := check_errs acc |}
           end
       | Some cc =>
           let cc := cc_set_Patches (cc_Patches cc ++
                       injection_patches (range injections)) cc in
           retM {| newCCs := newCCs acc; updatedCCs := <[ruleID := cc]> (updatedCCs acc);
                   check_errs := check_errs acc |}
       end.

(** The loop over the existing ClusterConfigs that adds missing finalizers. *)
Definition check_finalizer (updated : gmap string ClusterConfig) (rc : string * ClusterConfig) :
    gmap string ClusterConfig :=
  let '(ruleID, cc) := rc in
  if negb (bool_decide (CIDRManagementFinalizer ∈ Finalizers (cc_meta cc))) &&
     bool_decide (DeletionTimestamp (cc_meta cc) = None)
  then
    let newCC := default cc (updated !! ruleID) in
    let '(finalizers, changed) := AddFinalizer (Finalizers (cc_meta newCC)) CIDRManagementFinalizer in
    if changed : bool then <[ruleID := cc_set_Finalizers finalizers newCC]> updated else updated
  else updated.

Definition CheckClusterConfigsForCluster (cl : Cluster) (appliedRules : option AppliedRulesAnnotation)
    (ccs : option (gmap string ClusterConfig)) : M (RestorationInstruction + error) :=
  match match appliedRules with Some a => inl a | None => parse_applied_rules cl end with
  | inr err => retM (inr err)
  | inl appliedRules =>
      let! ccs :=
        match ccs with
        | Some ccs => retM (inl ccs)
        | None =>
            let! ccs := FetchClusterConfigsForCluster cl in
            retM match ccs with
                 | inl ccs => inl ccs
                 | inr err => inr (Errorf "unable to fetch ClusterConfigs for cluster" (Some err))
                 end
        end in
      match ccs with
      | inr err => retM (inr err)
      | inl ccs =>
          let missingInjections := missing_injections appliedRules ccs in
          let! acc := foldM (check_rule cl ccs)
                        {| newCCs := ∅; updatedCCs := ∅; check_errs := None |}
                        (range missingInjections) in
          match check_errs acc with
          | Some errs =>
              retM (inr (Errorf "one or more errors occurred trying to generate ClusterConfigs for missing injections" (Some errs)))
          | None =>
              let updatedCCs := foldl check_finalizer (updatedCCs acc) (range ccs) in
              retM (inl {| ClusterConfigsToCreate := (range (newCCs acc)).*2;
                           ClusterConfigsToUpdate := SortPatches <$> (range updatedCCs).*2 |})
          end
      end
  end.

(** ** Orphaned ClusterConfigs *)

(** One ClusterConfig: the accumulated error and the ClusterConfigs that remain. The
    cache of clusters is consulted by the code but never filled. *)
Definition handle_orphan (acc : list ClusterConfig * option error) (cc : ClusterConfig) :
    M (list ClusterConfig * option error) :=
  let '(remaining, errs) := acc in
  let namespace := Namespace (cc_meta cc) in
  let cName := default "" (Labels (cc_meta cc) !! ClusterTargetLabel) in
  if decide (cName = "") then
    retM (remaining, errors_Join [errs; Some (Errorf "ClusterConfig is missing the cluster target label, cannot check for orphaned state" None)])
  else
    let! cluster := client_GetCluster namespace cName in
    let errs := match cluster with
                | inr err => if is_not_found err then errs
                             else errors_Join [errs; Some (Errorf "error checking existence of Cluster" (Some (Lib err)))]
                | inl _ => errs
                end in
    match cluster with
    | inl _ => retM (remaining ++ [cc], errs)
    | inr _ =>
        let! err :=
          if decide (DeletionTimestamp (cc_meta cc) = None)
          then client_DeleteClusterConfig cc else retM None in
        match IgnoreNotFound err with
        | Some err =>
            retM (remaining ++ [cc],
                  errors_Join [errs; Some (Errorf "error deleting orphaned ClusterConfig" (Some (Lib err)))])
        | None =>
            let! (err, cc) :=
              if decide (CIDRManagementFinalizer ∈ Finalizers (cc_meta cc))
              then releaseCIDRsForClusterConfig_internal cc
              else retM (None, cc) in
            match err with
            | Some err =>
                retM (remaining ++ [cc],
                      errors_Join [errs; Some (Errorf "error releasing CIDRs for orphaned ClusterConfig" (Some err))])
            | None =>
                if decide (length (Finalizers (cc_meta cc)) = 0%nat) then retM (remaining, errs)
                else retM (remaining ++ [cc], errs)
            end
        end
    end.

Definition handleOrphanedClusterConfigs_internal (ccs : list ClusterConfig) :
    M (list ClusterConfig * option error) :=
  let! (remaining, errs) := foldM handle_orphan ([], None) ccs in
  match errs with
  | Some errs =>
      retM (remaining, Some (Errorf "one or more errors occurred during handling of orphaned ClusterConfigs" (Some errs)))
  | None => retM (remaining, None)
  end.

Definition HandleOrphanedClusterConfigs (ccs : list ClusterConfig) :
    M (list ClusterConfig * option error) :=
  with_IPAM_lock (handleOrphanedClusterConfigs_internal ccs).

(** ** Rebuilding the IPAM state *)

(** [fetchOrNewPrefix], on the instance it is given. *)
Definition fetchOrNewPrefix (cidr : string) (ipam : ipamS) : ipamS * (Prefix + error) :=
  match ipam_PrefixFrom cidr ipam with
  | (ipam, inl p) => (ipam, inl p)
  | (ipam, inr err) =>
      if negb (is_not_found err)
      then (ipam, inr (Errorf "error checking for existing parent prefix" (Some (Lib err))))
      else match ipam_NewPrefix cidr ipam with
           | (ipam, inl p) => (ipam, inl p)
           | (ipam, inr err) => (ipam, inr (Errorf "error registering parent prefix" (Some (Lib err))))
           end
  end.

(** [identifyParentPrefix]: the first prefix that overlaps the child, list by list. *)
Fixpoint first_overlapping (child : string) (parents : list Prefix) : option Prefix + error :=
  match parents with
  | [] => inl None
  | parent :: parents =>
      match PrefixesOverlapping [pCidr parent] [child] with
      | Some err =>
          if negb (strings_Contains (err_msg err) "overlaps")
          then inr (Errorf "error checking for overlapping prefixes" (Some (Lib err)))
          else inl (Some parent)
      | None => first_overlapping child parents
      end
  end.

Fixpoint identifyParentPrefix (child : string) (parentLists : list (list Prefix)) :
    option Prefix + error :=
  match parentLists with
  | [] => inl None
  | parents :: parentLists =>
      match first_overlapping child parents with
      | inl None => identifyParentPrefix child parentLists
      | r => r
      end
  end.

(** The parents of the config, registered in a fresh instance. *)
Fixpoint register_parents (acc : list Prefix) (cidrs : list string) :
    goM ipamS (list Prefix + error) :=
  match cidrs with
  | [] => retM (inl acc)
  | parent :: cidrs => fun ipam =>
      match fetchOrNewPrefix parent ipam with
      | (ipam, inr err) =>
          (Ret (inr (Errorf "error registering parent prefix from config" (Some err))), ipam)
      | (ipam, inl p) => register_parents (acc ++ [p]) cidrs ipam
      end
  end.

(** The patches of one ClusterConfig. *)
Fixpoint register_patches (parents tmpParents : list Prefix) (patches : list JSONPatch) :
    goM ipamS (option error) :=
  match patches with
  | [] => retM None
  | patch :: patches =>
      if decide (p_Op patch <> ADD) then register_patches parents tmpParents patches
      else match p_Value patch with
           | None => panicM "nil pointer dereference: patch.Value"
           | Some raw =>
               match json_Unmarshal_string "" raw with
               | None => retM (Some (Errorf "error unmarshaling CIDR from ClusterConfig" None))
               | Some cidr =>
                   match identifyParentPrefix cidr [reverse_slice tmpParents; parents] with
                   | inr err => retM (Some (Errorf "error identifying parent CIDR" (Some err)))
                   | inl None => fun ipam =>
                       match fetchOrNewPrefix cidr ipam with
                       | (ipam, inr err) =>
                           (Ret (Some (Errorf "error registering parentless prefix" (Some err))), ipam)
                       | (ipam, inl _) => register_patches parents tmpParents patches ipam
                       end
                   | inl (Some parent) =>
                       if decide (pCidr parent = cidr)
                       then register_patches parents tmpParents patches
                       else fun ipam =>
                         match ipam_AcquireSpecificChildPrefix (pCidr parent) cidr ipam with
                         | (ipam, inr err) =>
                             (Ret (Some (Errorf "error registering child prefix" (Some (Lib err)))), ipam)
                         | (ipam, inl child) =>
                             register_patches parents (tmpParents ++ [child]) patches ipam
                         end
                   end
               end
           end
  end.

Fixpoint register_ccs (parents : list Prefix) (ccs : list ClusterConfig) :
    goM ipamS (option error) :=
  match ccs with
  | [] => retM None
  | cc :: ccs =>
      let! err := register_patches parents [] (cc_Patches cc) in
      match err with
      | Some err => retM (Some err)
      | None => register_ccs parents ccs
      end
  end.

(** The new instance is local to the function; only its final state is returned. *)
Definition ipamFromClusterConfigs (cfg : IPAMConfig) (ccs : list ClusterConfig) :
    outcome (ipamS + error) :=
  let body : goM ipamS (option error) :=
    let! parents := register_parents [] (concat (range (ParentCIDRs (Spec cfg))).*2) in
    match parents with
    | inr err => retM (Some err)
    | inl parents => register_ccs parents ccs
    end in
  match body ipam_New with
  | (Ret None, ipam) => Ret (inl ipam)
  | (Ret (Some err), _) => Ret (inr err)
  | (Panic why, _) => Panic why
  | (Deadlock, _) => Deadlock
  end.

(** ** RestoreIPAMFromClusterState *)

(** The loop over the clusters: the ClusterConfigs not yet assigned to one, the
    handled ones by key, errors. *)
Record restore_acc : Type := {
  r_ccs : list ClusterConfig;
  r_handled : gmap string ClusterConfig;
  r_errs : option error }.

Definition belongs_to (cluster : Cluster) (cc : ClusterConfig) : bool :=
  bool_decide (Namespace (cc_meta cc) = Namespace (cl_meta cluster)) &&
  bool_decide (default "" (Labels (cc_meta cc) !! ClusterTargetLabel) = Name (cl_meta cluster)).

Definition add_handled (m : gmap string ClusterConfig) (cc : ClusterConfig) : gmap string ClusterConfig :=
  <[objectKey (cc_meta cc) := cc]> m.

Definition add_err (what : string) (err : error) (acc : restore_acc) : restore_acc :=
  {| r_ccs := r_ccs acc; r_handled := r_handled acc;
     r_errs := errors_Join [r_errs acc; Some (Errorf what (Some err))] |}.

Definition restore_cluster (acc : restore_acc) (cluster : Cluster) : M restore_acc :=
  let mine := filter (fun cc => belongs_to cluster cc = true) (r_ccs acc) in
  let clusterCCs := foldl (fun m cc =>
        <[default "" (Labels (cc_meta cc) !! InjectionRuleLabel) := cc]> m) ∅ mine in
  let acc := {| r_ccs := filter (fun cc => belongs_to cluster cc = false) (r_ccs acc);
                r_handled := foldl add_handled (r_handled acc) mine;
                r_errs := r_errs acc |} in
  let! ir := CheckClusterConfigsForCluster cluster None (Some clusterCCs) in
  match ir with
  | inr err => retM (add_err "error checking ClusterConfigs for Cluster" err acc)
  | inl ir =>
      let '(createCount, updateCount) := Size (Some ir) in
      if (0 <? createCount)%nat || (0 <? updateCount)%nat then
        let! err := Apply (Some ir) in
        match err with
        | Some err => retM (add_err "error restoring ClusterConfigs for Cluster" err acc)
        | None =>
            let! updatedCCs := FetchClusterConfigsForCluster cluster in
            match updatedCCs with
            | inr err => retM (add_err "error fetching ClusterConfigs for Cluster after update" err acc)
            | inl updatedCCs =>
                retM {| r_ccs := r_ccs acc;
                        r_handled := foldl add_handled (r_handled acc) (range updatedCCs).*2;
                        r_errs := r_errs acc |}
            end
        end
      else retM acc
  end.

Definition has_finalizer (cc : ClusterConfig) : bool :=
  bool_decide (CIDRManagementFinalizer ∈ Finalizers (cc_meta cc)).

(** The part after the loop: orphans, the new instance, the swap. *)
Definition restore_finish (cfg : IPAMConfig) (acc : restore_acc) : M (option error) :=
  match r_errs acc with
  | Some errs =>
      retM (Some (Errorf "one or more errors occurred during integrity check of ClusterConfigs" (Some errs)))
  | None =>
      let! (handledCCs, err) :=
        if decide (r_ccs acc = []) then retM (r_handled acc, None)
        else
          let! (remainingCCs, err) := handleOrphanedClusterConfigs_internal (r_ccs acc) in
          match err with
          | Some err => retM (r_handled acc, Some (Errorf "error handling orphaned ClusterConfigs" (Some err)))
          | None =>
              retM (foldl add_handled (r_handled acc)
                      (filter (fun cc => has_finalizer cc = true) remainingCCs), None)
          end in
      match err with
      | Some err => retM (Some err)
      | None =>
          match ipamFromClusterConfigs cfg (range handledCCs).*2 with
          | Ret (inl ipam) => on_IPAM (modifyM (set_internal ipam)) ;;; retM None
          | Ret (inr err) =>
              retM (Some (Errorf "error building IPAM state from ClusterConfigs" (Some err)))
          | Panic why => panicM why
          | Deadlock => fun s => (Deadlock, s)
          end
      end
  end.

Definition restore_body : M (option error) :=
  let! s := getM in
  let! cfg :=
    match config s with
    | None =>
        let! name := ProviderName in
        let! cfg := client_GetConfig name in
        retM match cfg with
             | inl cfg => inl cfg
             | inr err => inr (Errorf "error loading config" (Some (Lib err)))
             end
    | Some cfg => retM (inl cfg)
    end in
  match cfg with
  | inr err => retM (Some err)
  | inl cfg =>
      let! clusters := FetchRelevantClusters (Some cfg) in
      match clusters with
      | inr err => retM (Some (Errorf "error fetching Cluster resources for IPAM state restoration" (Some err)))
      | inl clusters =>
          let! ccs := FetchClusterConfigs in
          match ccs with
          | inr err => retM (Some (Errorf "error fetching ClusterConfig resources for IPAM state restoration" (Some err)))
          | inl ccs =>
              let! acc := foldM restore_cluster
                            {| r_ccs := ccs; r_handled := ∅; r_errs := None |} clusters in
              restore_finish cfg acc
          end
      end
  end.

Definition RestoreIPAMFromClusterState : M (option error) :=
  let! s := getM in
  (if decide (is_Some (IPAM s)) then retM tt else modifyM (st_set_IPAM (Some NewIpam))) ;;;
  with_IPAM_lock restore_body.
End restore.

(** ** Lemmas and theorems: reverse *)

Lemma reverse_slice_loop {T} (L : nat) (src : list T) n acc :
  L = (n + length src)%nat ->
  foldl (fun res iv => <[(L - 1 - iv.1)%nat := Some iv.2]> res)
    (replicate (length src) None ++ acc) (imap (fun i v => ((n + i)%nat, v)) src) =
  (Some <$> rev src) ++ acc.
Proof.
  revert n acc. induction src as [|x src IH]; intros n acc HL; [done|].
  rewrite imap_cons. cbn [foldl fst snd length] in *.
  replace (L - 1 - (n + 0))%nat with (length (replicate (length src) (@None T)) + 0)%nat
    by (rewrite length_replicate; lia).
  rewrite replicate_S_end, <- app_assoc, insert_app_r. cbn [app].
  change (<[0%nat:=Some x]> (None :: acc)) with (Some x :: acc).
  rewrite (imap_ext _ (fun i v => ((S n + i)%nat, v))) by (intros; simpl; f_equal; lia).
  rewrite (IH (S n)) by lia. simpl rev. by rewrite fmap_app, <- app_assoc.
Qed.

Lemma reverse_slice_rev {T} (src : list T) : reverse_slice src = rev src.
Proof.
  unfold reverse_slice.
  pose proof (reverse_slice_loop (length src) src 0 [] eq_refl) as Hl.
  rewrite app_nil_r in Hl. rewrite app_nil_r in Hl.
  rewrite (imap_ext _ (fun i v => ((0 + i)%nat, v))) by done. rewrite Hl.
  clear. induction (rev src) as [|x l IH]; simpl; [done|]. f_equal. exact IH.
Qed.

(** ** The strings of an annotation *)

Section annotation.
Context {OM : OpenMCP} {GI : GoIpam} {KA : K8sApi} {CU : CtrlUtils} {GO : GoMapOrder}.

Definition valid_annotation (a : AppliedRulesAnnotation) : Prop :=
  map_Forall (fun k v => valid_utf8 k = true /\ valid_inner v) a.

(** Whatever bytes the annotation has, what is parsed from it is valid. *)
Lemma parse_valid cl a : parse_applied_rules cl = inl a -> valid_annotation a.
Proof.
  unfold parse_applied_rules, FromAnnotation. intros Hp. repeat case_match; simplify_eq.
  - by eapply Unmarshal_map2_valid.
  - apply map_Forall_empty.
Qed.

Lemma annotated_valid cl a r path cidr :
  parse_applied_rules cl = inl a -> nil_map (default None (a !! r)) !! path = Some cidr ->
  valid_utf8 cidr = true.
Proof.
  intros Ha%parse_valid Hc. destruct (a !! r) as [[m|]|] eqn:Hr; [|done..].
  apply (map_Forall_lookup_1 _ _ _ _ Ha) in Hr as [_ Hm]. simpl in *.
  by apply (map_Forall_lookup_1 _ _ _ _ Hm) in Hc as [_ ?].
Qed.
End annotation.
