(* ===== verification/RestoreCheck.v ===== *)
(** * Restore.v's integrity check: what CheckClusterConfigsForCluster returns

    The loops are related to map lookups; the theorems say what is created, what is
    updated, and that applying the instruction leaves nothing to do. *)

From stdpp Require Import base list strings gmap.
From S2P Require Import Prelude GoStd GoJson Types Externals Runtime Utils Restore.
Open Scope list_scope.
Open Scope Z_scope.

Section check.
Context {OM : OpenMCP} {GI : GoIpam} {KA : K8sApi} {CU : CtrlUtils} {GO : GoMapOrder}.
Context {CL : CtrlUtilsLaws}.

Lemma has_path_true path ps :
  has_path path ps = true <-> exists p, p ∈ ps /\ p_Path p = path.
Proof.
  unfold has_path. rewrite existsb_exists. setoid_rewrite bool_decide_eq_true.
  by setoid_rewrite <- list_elem_of_In.
Qed.

Lemma key_NoDup {V} (m : gmap string V) : NoDup (fst <$> range m).
Proof. apply range_NoDup. Qed.

(** Rebuilding a map entry by entry. *)
Lemma foldl_insert_range {V W} (m : gmap string V) (val : string * V -> W) k :
  foldl (fun acc x => <[x.1 := val x]> acc) (∅ : gmap string W) (range m) !! k = (fun v => val (k, v)) <$> m !! k.
Proof.
  destruct (m !! k) as [v|] eqn:Hk; simpl.
  - apply elem_of_range in Hk.
    apply (foldl_insert_in fst val (range m) ∅ (k, v)); [apply key_NoDup|done].
  - rewrite (foldl_insert_notin fst val); [done|].
    intros (v & Hv)%elem_of_range_keys. congruence.
Qed.

Lemma missing_of_rule_lookup cc injections path :
  missing_of_rule cc injections !! path =
  match cc with
  | Some cc => if has_path path (cc_Patches cc) then None else injections !! path
  | None => injections !! path
  end.
Proof.
  unfold missing_of_rule. destruct cc as [cc|].
  2:{ rewrite (foldl_insert_range injections snd). by destruct (injections !! path). }
  rewrite (foldl_if_filter (fun pc => has_path pc.1 (cc_Patches cc))
             (fun mi (pc : string * string) => <[pc.1 := pc.2]> mi)).
  set (l := filter _ _).
  assert (NoDup (fst <$> l)) as Hnd.
  { eapply sublist_NoDup; [apply (key_NoDup injections)|]. apply fmap_sublist, sublist_filter. }
  destruct (has_path path (cc_Patches cc)) eqn:Hp.
  - rewrite (foldl_insert_notin fst snd); [done|].
    intros ([k v] & -> & Hin)%list_elem_of_fmap. subst l.
    apply list_elem_of_filter in Hin as [Hf _]. simpl in *. congruence.
  - destruct (injections !! path) as [cidr|] eqn:Hc.
    + apply (foldl_insert_in fst snd l ∅ (path, cidr)); [done|].
      apply list_elem_of_filter. split; [done|]. by apply elem_of_range.
    + rewrite (foldl_insert_notin fst snd); [done|].
      intros ([k v] & -> & Hin)%list_elem_of_fmap.
      apply list_elem_of_filter in Hin as [_ Hin]. apply elem_of_range in Hin.
      simpl in *. congruence.
Qed.

Lemma missing_injections_lookup a ccs r :
  missing_injections a ccs !! r = (fun m => missing_of_rule (ccs !! r) (nil_map m)) <$> a !! r.
Proof.
  unfold missing_injections.
  by rewrite (foldl_insert_range a (fun ri => missing_of_rule (ccs !! ri.1) (nil_map ri.2))).
Qed.

Lemma Generate_state cl ruleID inj s r s' :
  GenerateClusterConfigForInjectionList cl ruleID inj s = (Ret r, s') -> s' = s.
Proof.
  unfold GenerateClusterConfigForInjectionList.
  destruct (GenerateClusterConfigName _ _); intros Hrun; go_run; [|done].
  by match goal with H : ClusterConfigLabels _ _ _ = _ |- _ =>
    apply ClusterConfigLabels_run in H as [-> _] end.
Qed.

(** A rule's ClusterConfig with the missing injections appended. *)
Definition extended (cc : ClusterConfig) (mi : gmap string string) : ClusterConfig :=
  cc_set_Patches (cc_Patches cc ++ injection_patches (range mi)) cc.

(** What the second loop has stored for a rule with missing injections [mi]. *)
Definition rule_done (cl : Cluster) (ccs : gmap string ClusterConfig) (s : gostate)
    (acc : check_acc) (r : string) (mi : gmap string string) : Prop :=
  if decide (size mi = 0%nat) then newCCs acc !! r = None /\ updatedCCs acc !! r = None
  else match ccs !! r with
       | Some cc => newCCs acc !! r = None /\ updatedCCs acc !! r = Some (extended cc mi)
       | None =>
           updatedCCs acc !! r = None /\
           exists cc, GenerateClusterConfigForInjectionList cl r mi s = (Ret (inl cc), s) /\
             newCCs acc !! r = if decide (Name (cc_meta cc) = EmptyClusterNamePlaceholder)
                               then None else Some cc
       end.

Lemma rule_done_ext cl ccs s acc acc' r mi :
  newCCs acc' !! r = newCCs acc !! r -> updatedCCs acc' !! r = updatedCCs acc !! r ->
  rule_done cl ccs s acc r mi -> rule_done cl ccs s acc' r mi.
Proof. unfold rule_done. by intros -> ->. Qed.

Definition check_inv (cl : Cluster) (ccs : gmap string ClusterConfig) (s0 : gostate)
    (done : list (string * gmap string string)) (acc : check_acc) (s : gostate) : Prop :=
  s = s0 /\
  (check_errs acc = None ->
   (forall r mi, (r, mi) ∈ done -> rule_done cl ccs s0 acc r mi) /\
   (forall r, r ∉ done.*1 -> newCCs acc !! r = None /\ updatedCCs acc !! r = None)).

Lemma check_inv_step cl ccs s0 done r mi acc acc' :
  r ∉ done.*1 ->
  (check_errs acc' = None -> check_errs acc = None) ->
  (forall r', r' <> r -> newCCs acc' !! r' = newCCs acc !! r') ->
  (forall r', r' <> r -> updatedCCs acc' !! r' = updatedCCs acc !! r') ->
  (check_errs acc' = None -> newCCs acc !! r = None -> updatedCCs acc !! r = None ->
   rule_done cl ccs s0 acc' r mi) ->
  check_inv cl ccs s0 done acc s0 -> check_inv cl ccs s0 (done ++ [(r, mi)]) acc' s0.
Proof.
  intros Hr He Hn Hu Hd [_ Hinv]. split; [done|]. intros He'.
  destruct (Hinv (He He')) as [H1 H2]. split.
  - intros r' mi' [Hin|Hin%list_elem_of_singleton]%elem_of_app.
    + assert (r' <> r) as Hne.
      { intros ->. apply Hr. apply list_elem_of_fmap. by exists (r, mi'). }
      eapply rule_done_ext; [by apply Hn|by apply Hu|by apply H1].
    + simplify_eq. destruct (H2 r Hr). by apply Hd.
  - intros r'. rewrite fmap_app, not_elem_of_app. intros [Hr' Hne%not_elem_of_cons].
    destruct Hne as [Hne _]. simpl in Hne. rewrite Hn, Hu by done. by apply H2.
Qed.

Lemma NoDup_split {A B} (l done rest : list (A * B)) r v :
  NoDup l.*1 -> l = done ++ (r, v) :: rest -> r ∉ done.*1.
Proof.
  intros Hnd ->. rewrite fmap_app, fmap_cons in Hnd.
  apply NoDup_app in Hnd as (_ & Hd & _). intros Hin.
  eapply Hd; [exact Hin|]. by left.
Qed.

Lemma check_loop cl ccs missing s acc s' :
  foldM (check_rule cl ccs) {| newCCs := ∅; updatedCCs := ∅; check_errs := None |}
    (range missing) s = (Ret acc, s') ->
  s' = s /\
  (check_errs acc = None ->
   (forall r mi, missing !! r = Some mi -> rule_done cl ccs s acc r mi) /\
   (forall r, missing !! r = None -> newCCs acc !! r = None /\ updatedCCs acc !! r = None)).
Proof.
  intros Hrun.
  assert (check_inv cl ccs s (range missing) acc s') as [-> Hinv].
  { eapply (foldM_inv _ (check_inv cl ccs s) _ _ _ _ _ Hrun).
    { split; [done|]. intros _. split; [by intros ?? ?%not_elem_of_nil|].
      intros r _. split; apply lookup_empty. }
    clear Hrun acc s'. intros done [r mi] rest acc s1 acc' s2 Hl Hinv Hstep.
    assert (r ∉ done.*1) as Hr by (eapply NoDup_split; [apply range_NoDup|done]).
    pose proof (proj1 Hinv) as ->. unfold check_rule in Hstep.
    destruct (decide (size mi = 0%nat)) as [Hz|Hz].
    { unfold retM in Hstep. injection Hstep as <- <-.
      apply (check_inv_step _ _ _ _ _ _ acc); try done.
      intros _ ? ?. unfold rule_done. by rewrite decide_True. }
    destruct (ccs !! r) as [cc|] eqn:Hcc.
    { go_run. apply (check_inv_step _ _ _ _ _ _ acc); try done; simpl.
      - intros r' Hne. by rewrite lookup_insert_ne.
      - intros _ Hn Hu. unfold rule_done. rewrite decide_False, Hcc by done. simpl.
        by rewrite lookup_insert_eq. }
    apply bindM_Ret_inv in Hstep as (g & s3 & Hg & Hstep).
    pose proof (Generate_state _ _ _ _ _ _ Hg) as ->.
    destruct g as [newCC|err].
    2:{ go_run. apply (check_inv_step _ _ _ _ _ _ acc); try done; simpl; intros Hf; by apply errors_Join_some in Hf. }
    destruct (decide (Name (cc_meta newCC) = EmptyClusterNamePlaceholder)) as [Hp|Hp].
    - unfold retM in Hstep. injection Hstep as <- <-.
      apply (check_inv_step _ _ _ _ _ _ acc); try done; simpl.
      intros _ Hn Hu. unfold rule_done. rewrite decide_False, Hcc by done. split; [done|].
      exists newCC. by rewrite decide_True.
    - go_run. apply (check_inv_step _ _ _ _ _ _ acc); try done; simpl.
      + intros r' Hne. by rewrite lookup_insert_ne.
      + intros _ Hn Hu. unfold rule_done. rewrite decide_False, Hcc by done. simpl. split; [done|].
        exists newCC. rewrite decide_False by done. by rewrite lookup_insert_eq. }
  split; [done|]. intros He. destruct (Hinv He) as [H1 H2]. split.
  - intros r mi Hm. apply H1. by apply elem_of_range.
  - intros r Hm. apply H2. intros (mi & Hmi)%elem_of_range_keys. congruence.
Qed.
(** A ClusterConfig to which the finalizer loop adds the finalizer. *)
Definition wants_finalizer (cc : ClusterConfig) : bool :=
  negb (bool_decide (CIDRManagementFinalizer ∈ Finalizers (cc_meta cc))) &&
  bool_decide (DeletionTimestamp (cc_meta cc) = None).

Definition with_finalizer (cc : ClusterConfig) : ClusterConfig :=
  cc_set_Finalizers (Finalizers (cc_meta cc) ++ [CIDRManagementFinalizer]) cc.

Lemma wants_finalizer_true cc :
  wants_finalizer cc = true <->
  CIDRManagementFinalizer ∉ Finalizers (cc_meta cc) /\ DeletionTimestamp (cc_meta cc) = None.
Proof.
  unfold wants_finalizer. rewrite andb_true_iff, negb_true_iff.
  by rewrite bool_decide_eq_false, bool_decide_eq_true.
Qed.

(** The updated ClusterConfigs have the finalizers of the ones they come from. *)
Definition keeps_finalizers (ccs updated : gmap string ClusterConfig) : Prop :=
  forall r u, updated !! r = Some u ->
    exists cc, ccs !! r = Some cc /\ Finalizers (cc_meta u) = Finalizers (cc_meta cc).

Lemma check_finalizer_step updated r cc :
  (forall u, updated !! r = Some u -> Finalizers (cc_meta u) = Finalizers (cc_meta cc)) ->
  check_finalizer updated (r, cc) =
  if wants_finalizer cc
  then <[r := with_finalizer (default cc (updated !! r))]> updated else updated.
Proof.
  intros Hk. unfold check_finalizer. fold (wants_finalizer cc).
  destruct (wants_finalizer cc) eqn:Hw; [|done].
  apply wants_finalizer_true in Hw as [Hw _].
  assert (Finalizers (cc_meta (default cc (updated !! r))) = Finalizers (cc_meta cc)) as Hf.
  { destruct (updated !! r) as [u|]; [by apply Hk|done]. }
  unfold with_finalizer. by rewrite AddFinalizer_new by (by rewrite Hf).
Qed.

(** The finalizer loop, entry by entry. *)
Lemma finalizer_loop ccs updated r :
  keeps_finalizers ccs updated ->
  foldl check_finalizer updated (range ccs) !! r =
  match ccs !! r with
  | Some cc => if wants_finalizer cc then Some (with_finalizer (default cc (updated !! r)))
               else updated !! r
  | None => updated !! r
  end.
Proof.
  intros Hk.
  set (I := fun (done : list (string * ClusterConfig)) (m : gmap string ClusterConfig) =>
    forall r, m !! r = match ccs !! r with
      | Some cc => if wants_finalizer cc && bool_decide (r ∈ done.*1)
                   then Some (with_finalizer (default cc (updated !! r))) else updated !! r
      | None => updated !! r
      end).
  assert (I (range ccs) (foldl check_finalizer updated (range ccs))) as HI.
  { apply foldl_inv.
    { intros r'. destruct (ccs !! r') as [cc|]; [|done].
      rewrite bool_decide_false by apply not_elem_of_nil. by rewrite andb_false_r. }
    intros done [r' cc] rest m Hl HI r''.
    assert (r' ∉ done.*1) as Hr by (eapply NoDup_split; [apply range_NoDup|done]).
    assert (ccs !! r' = Some cc) as Hcc.
    { apply elem_of_range. rewrite Hl. apply elem_of_app. right. by left. }
    assert (m !! r' = updated !! r') as Hm.
    { rewrite HI, Hcc. rewrite bool_decide_false by done. by rewrite andb_false_r. }
    rewrite (check_finalizer_step m r' cc), Hm.
    2:{ intros u. rewrite Hm. intros Hu. destruct (Hk _ _ Hu) as (cc' & ? & ->). by simplify_eq. }
    rewrite fmap_app. simpl. destruct (decide (r'' = r')) as [->|Hne].
    - rewrite Hcc, (bool_decide_true (r' ∈ _ ++ _)), andb_true_r
        by (apply elem_of_app; right; by left).
      destruct (wants_finalizer cc); [by rewrite lookup_insert_eq|done].
    - rewrite (bool_decide_ext (r'' ∈ done.*1 ++ [r']) (r'' ∈ done.*1)), <- HI.
      { destruct (wants_finalizer cc); [by rewrite lookup_insert_ne|done]. }
      rewrite elem_of_app, list_elem_of_singleton. naive_solver. }
  specialize (HI r). rewrite HI. destruct (ccs !! r) as [cc|] eqn:Hcc; [|done].
  rewrite bool_decide_true; [by rewrite andb_true_r|].
  apply elem_of_range_keys. by eexists.
Qed.
(** The annotated injections of a rule that are not in its ClusterConfig. *)
Definition missing (a : AppliedRulesAnnotation) (ccs : gmap string ClusterConfig) (r : string) :
    gmap string string := default ∅ (missing_injections a ccs !! r).

Lemma missing_lookup a ccs r path :
  missing a ccs r !! path =
  match ccs !! r with
  | Some cc => if has_path path (cc_Patches cc) then None
               else nil_map (default None (a !! r)) !! path
  | None => nil_map (default None (a !! r)) !! path
  end.
Proof.
  unfold missing. rewrite missing_injections_lookup. destruct (a !! r) as [m|]; simpl.
  - apply missing_of_rule_lookup.
  - destruct (ccs !! r); [by destruct (has_path _ _)|done].
Qed.

(** The ClusterConfig as the check wants it, when it is not so already. *)
Definition updated_of (cc : ClusterConfig) (mi : gmap string string) : option ClusterConfig :=
  if decide (mi = ∅)
  then if wants_finalizer cc then Some (with_finalizer cc) else None
  else Some (if wants_finalizer cc then with_finalizer (extended cc mi) else extended cc mi).

Definition creates (cl : Cluster) (s : gostate) (r : string) (mi : gmap string string)
    (new : option ClusterConfig) : Prop :=
  exists cc, GenerateClusterConfigForInjectionList cl r mi s = (Ret (inl cc), s) /\
    new = if decide (Name (cc_meta cc) = EmptyClusterNamePlaceholder) then None else Some cc.

Lemma size_zero_empty (m : gmap string string) : size m = 0%nat <-> m = ∅.
Proof. apply map_size_empty_iff. Qed.

Lemma rule_done_lookups cl ccs s acc r mi :
  rule_done cl ccs s acc r mi ->
  updatedCCs acc !! r = (ccs !! r ≫= fun cc => if decide (mi = ∅) then None else Some (extended cc mi)) /\
  (if decide (ccs !! r = None /\ mi <> ∅) then creates cl s r mi (newCCs acc !! r)
   else newCCs acc !! r = None).
Proof.
  unfold rule_done, creates. intros Hd.
  destruct (decide (size mi = 0%nat)) as [Hz|Hz]; rewrite size_zero_empty in Hz.
  - destruct Hd as [-> ->]. rewrite decide_False by naive_solver.
    split; [|done]. destruct (ccs !! r); simpl; [by rewrite decide_True|done].
  - destruct (ccs !! r) as [cc|]; simpl.
    + destruct Hd as [-> ->]. rewrite !decide_False by naive_solver. done.
    + destruct Hd as [-> Hd]. by rewrite decide_True.
Qed.

(** With the ClusterConfigs at hand the check asks nobody, however it ends. *)
Lemma Generate_same cl r inj : preserves eq (GenerateClusterConfigForInjectionList cl r inj).
Proof. unfold GenerateClusterConfigForInjectionList, ClusterConfigLabels, ProviderName, Environment. go_struct. Qed.

Lemma Check_same cl a ccs s o s' :
  CheckClusterConfigsForCluster cl a (Some ccs) s = (o, s') -> s' = s.
Proof.
  intros Hrun. assert (preserves eq (CheckClusterConfigsForCluster cl a (Some ccs))) as Hp; [|specialize (Hp s); by rewrite Hrun in Hp].
  pose proof Generate_same. unfold CheckClusterConfigsForCluster, check_rule. go_struct.
Qed.

(** Everything the check returns, entry by entry. *)
Lemma check_spec cl a ccs s ri s' :
  CheckClusterConfigsForCluster cl (Some a) (Some ccs) s = (Ret (inl ri), s') ->
  s' = s /\ exists new upd,
    ClusterConfigsToCreate ri = (range new).*2 /\
    ClusterConfigsToUpdate ri = SortPatches <$> (range upd).*2 /\
    (forall r, upd !! r = (ccs !! r ≫= fun cc => updated_of cc (missing a ccs r))) /\
    (forall r, if decide (ccs !! r = None /\ missing a ccs r <> ∅)
               then creates cl s r (missing a ccs r) (new !! r) else new !! r = None).
Proof.
  unfold CheckClusterConfigsForCluster. intros Hrun.
  apply bindM_Ret_inv in Hrun as (x & s1 & Hx & Hrun). unfold retM in Hx. injection Hx as <- <-.
  apply bindM_Ret_inv in Hrun as (acc & s1 & Hloop & Hrun).
  apply check_loop in Hloop as [-> Hloop].
  destruct (check_errs acc) eqn:He; [discriminate Hrun|].
  unfold retM in Hrun. injection Hrun as <- <-. split; [done|]. cbn [ClusterConfigsToCreate ClusterConfigsToUpdate].
  destruct (Hloop eq_refl) as [Hin Hout].
  assert (forall r,
    updatedCCs acc !! r = (ccs !! r ≫= fun cc =>
      if decide (missing a ccs r = ∅) then None else Some (extended cc (missing a ccs r))) /\
    (if decide (ccs !! r = None /\ missing a ccs r <> ∅)
     then creates cl s r (missing a ccs r) (newCCs acc !! r) else newCCs acc !! r = None)) as Hacc.
  { intros r. unfold missing. destruct (missing_injections a ccs !! r) as [mi|] eqn:Hm; simpl.
    - by apply rule_done_lookups, Hin.
    - destruct (Hout r Hm) as [-> ->]. rewrite decide_False by naive_solver.
      split; [|done]. by destruct (ccs !! r). }
  exists (newCCs acc), (foldl check_finalizer (updatedCCs acc) (range ccs)).
  split_and!; [done|done| |intros r; apply Hacc].
  intros r. rewrite finalizer_loop.
  2:{ intros r' u. rewrite (proj1 (Hacc r')). intros (cc & Hcc & Hu)%bind_Some.
      exists cc. split; [done|]. case_decide; by simplify_eq. }
  rewrite (proj1 (Hacc r)). destruct (ccs !! r) as [cc|]; [|done]. simpl. unfold updated_of.
  by destruct (decide (missing a ccs r = ∅)), (wants_finalizer cc).
Qed.

(** *** Elements of the two lists *)

Lemma elem_of_range_values {V} (m : gmap string V) v :
  v ∈ (range m).*2 <-> exists k, m !! k = Some v.
Proof.
  rewrite list_elem_of_fmap. split.
  - intros ([k v'] & -> & Hin%elem_of_range). by exists k.
  - intros (k & Hk%elem_of_range). by exists (k, v).
Qed.

Lemma injection_patches_elem (m : gmap string string) p :
  p ∈ injection_patches (range m) <->
  exists path cidr, m !! path = Some cidr /\ p = injection_patch path cidr.
Proof.
  unfold injection_patches. rewrite list_elem_of_fmap. split.
  - intros ([path cidr] & -> & Hin%elem_of_range). by exists path, cidr.
  - intros (path & cidr & Hm%elem_of_range & ->). by exists (path, cidr).
Qed.

Lemma updated_of_shape cc mi u :
  updated_of cc mi = Some u ->
  cc_Patches u = cc_Patches cc ++ injection_patches (range mi) /\
  cc_PatchOptions u = cc_PatchOptions cc /\
  cc_meta u = cc_meta (if wants_finalizer cc then with_finalizer cc else cc) /\
  (wants_finalizer cc = true \/ mi <> ∅).
Proof.
  unfold updated_of. intros Hu. destruct (decide (mi = ∅)) as [->|Hne].
  - destruct (wants_finalizer cc) eqn:Hw; [|done]. simplify_eq/=.
    split_and!; [|done|done|by left].
    assert (range (∅ : gmap string string) = []) as ->.
    { apply Permutation_nil. symmetry. rewrite range_perm. by rewrite map_to_list_empty. }
    by rewrite app_nil_r.
  - destruct (wants_finalizer cc); simplify_eq/=; (split_and!; [done..|by right]).
Qed.

Lemma SortPatches_elem cc p : p ∈ cc_Patches (SortPatches cc) <-> p ∈ cc_Patches cc.
Proof. simpl. by rewrite SortStableFunc_perm. Qed.

Lemma Generate_patches cl r inj s cc s' :
  GenerateClusterConfigForInjectionList cl r inj s = (Ret (inl cc), s') ->
  cc_Patches cc ≡ₚ injection_patches (range inj).
Proof.
  unfold GenerateClusterConfigForInjectionList.
  destruct (GenerateClusterConfigName _ _); intros Hrun; go_run.
  apply SortStableFunc_perm.
Qed.

(** C18: For every entry (rule, path, CIDR) of the annotation, a successful integrity check
    either finds the path among the patches of the rule's ClusterConfig, or returns that
    ClusterConfig (same name and namespace) for update with the patch for the path and the CIDR,
    or, if there is no ClusterConfig for the rule, generates one with that patch and returns it
    for creation (unless its name is the webhook's placeholder). *)
Theorem Check_restores_missing cl a ccs s ri s' r m path cidr :
  CheckClusterConfigsForCluster cl (Some a) (Some ccs) s = (Ret (inl ri), s') ->
  a !! r = Some m -> nil_map m !! path = Some cidr ->
  match ccs !! r with
  | Some cc =>
      has_path path (cc_Patches cc) = true \/
      exists u, u ∈ ClusterConfigsToUpdate ri /\
        Name (cc_meta u) = Name (cc_meta cc) /\ Namespace (cc_meta u) = Namespace (cc_meta cc) /\
        injection_patch path cidr ∈ cc_Patches u
  | None =>
      exists n mi, GenerateClusterConfigForInjectionList cl r mi s = (Ret (inl n), s) /\
        injection_patch path cidr ∈ cc_Patches n /\
        (Name (cc_meta n) = EmptyClusterNamePlaceholder \/ n ∈ ClusterConfigsToCreate ri)
  end.
Proof.
  intros (-> & new & upd & Hc & Hu & Hupd & Hnew)%check_spec Ha Hm.
  pose proof (missing_lookup a ccs r path) as Hmiss. rewrite Ha in Hmiss. simpl in Hmiss.
  rewrite Hm in Hmiss. specialize (Hupd r). specialize (Hnew r).
  destruct (ccs !! r) as [cc|] eqn:Hcc; simpl in *.
  - destruct (has_path path (cc_Patches cc)); [by left|]. right.
    unfold updated_of in Hupd. rewrite decide_False in Hupd
      by (intros He; by rewrite He, lookup_empty in Hmiss).
    set (u := if wants_finalizer cc then _ else _) in Hupd. exists (SortPatches u).
    rewrite SortPatches_elem, Hu. split_and!.
    + apply list_elem_of_fmap_2, elem_of_range_values. by exists r.
    + subst u. by destruct (wants_finalizer cc).
    + subst u. by destruct (wants_finalizer cc).
    + assert (cc_Patches u = cc_Patches (extended cc (missing a ccs r))) as ->
        by (subst u; by destruct (wants_finalizer cc)).
      simpl. apply elem_of_app. right. apply injection_patches_elem. by exists path, cidr.
  - rewrite decide_True in Hnew
      by (split; [done|]; intros He; by rewrite He, lookup_empty in Hmiss).
    destruct Hnew as (n & Hg & Hn). exists n, (missing a ccs r). split_and!; [done| |].
    + rewrite (Generate_patches _ _ _ _ _ _ Hg). apply injection_patches_elem. by exists path, cidr.
    + case_decide as Hp; [by left|]. right. rewrite Hc. apply elem_of_range_values. by exists r.
Qed.

(** C19: The integrity check changes nothing else: an updated ClusterConfig is an existing one,
    with its patches kept and exactly the missing ones added (in some order), its options kept,
    its metadata changed only by the finalizer, and it is only returned if it lacked the
    finalizer or patches; a created ClusterConfig is for a rule with no ClusterConfig and has
    exactly the missing patches. *)
Theorem Check_changes_only_missing cl a ccs s ri s' :
  CheckClusterConfigsForCluster cl (Some a) (Some ccs) s = (Ret (inl ri), s') ->
  (forall u, u ∈ ClusterConfigsToUpdate ri ->
     exists r cc, ccs !! r = Some cc /\
       cc_Patches u ≡ₚ cc_Patches cc ++ injection_patches (range (missing a ccs r)) /\
       cc_PatchOptions u = cc_PatchOptions cc /\
       cc_meta u = cc_meta (if wants_finalizer cc then with_finalizer cc else cc) /\
       (wants_finalizer cc = true \/ missing a ccs r <> ∅)) /\
  (forall n, n ∈ ClusterConfigsToCreate ri ->
     exists r, ccs !! r = None /\ missing a ccs r <> ∅ /\
       cc_Patches n ≡ₚ injection_patches (range (missing a ccs r))).
Proof.
  intros (-> & new & upd & -> & -> & Hupd & Hnew)%check_spec. split.
  - intros u0 (u & -> & (r & Hr)%elem_of_range_values)%list_elem_of_fmap.
    specialize (Hupd r). rewrite Hr in Hupd.
    symmetry in Hupd. apply bind_Some in Hupd as (cc & Hcc & Hu).
    apply updated_of_shape in Hu as (Hp & Ho & Hm & Hw). exists r, cc.
    split_and!; try done. rewrite <- Hp. apply SortStableFunc_perm.
  - intros n (r & Hr)%elem_of_range_values. exists r. specialize (Hnew r). rewrite Hr in Hnew.
    case_decide as Hd; [|done]. destruct Hd as [Hn Hm]. destruct Hnew as (cc & Hg & Hn').
    case_decide; simplify_eq. split_and!; [done..|]. by eapply Generate_patches.
Qed.

(** *** Nothing to do, and convergence *)

Lemma range_empty {V} : range (∅ : gmap string V) = [].
Proof. apply Permutation_nil. symmetry. rewrite range_perm. by rewrite map_to_list_empty. Qed.

Lemma check_loop_noop cl ccs l acc s :
  (forall r mi, (r, mi) ∈ l -> mi = ∅) -> foldM (check_rule cl ccs) acc l s = (Ret acc, s).
Proof.
  induction l as [|[r mi] l IH]; intros Hl; [done|]. simpl.
  assert (mi = ∅) as -> by (by apply (Hl r); left).
  rewrite map_size_empty, decide_True by done. apply IH. intros r' mi' Hin. by apply (Hl r'); right.
Qed.

Lemma check_noop cl a ccs s :
  (forall r, missing a ccs r = ∅) ->
  (forall r cc, ccs !! r = Some cc -> wants_finalizer cc = false) ->
  CheckClusterConfigsForCluster cl (Some a) (Some ccs) s =
    (Ret (inl {| ClusterConfigsToCreate := []; ClusterConfigsToUpdate := [] |}), s).
Proof.
  intros Hm Hw. unfold CheckClusterConfigsForCluster.
  rewrite (bindM_Ret _ _ s (inl ccs) s) by done.
  rewrite (bindM_Ret _ _ s {| newCCs := ∅; updatedCCs := ∅; check_errs := None |} s).
  2:{ apply check_loop_noop. intros r mi Hin%elem_of_range. specialize (Hm r).
      unfold missing in Hm. by rewrite Hin in Hm. }
  cbn [check_errs updatedCCs newCCs].
  assert (foldl check_finalizer ∅ (range ccs) = ∅) as ->.
  { apply map_eq. intros r. rewrite finalizer_loop by (intros r' u; by rewrite lookup_empty).
    destruct (ccs !! r) as [cc|] eqn:Hcc; [|done]. by rewrite (Hw r cc Hcc). }
  by rewrite !range_empty.
Qed.

(** What [FetchClusterConfigsForCluster] finds once the instruction is applied. *)
Definition rule_label (cc : ClusterConfig) : string :=
  default "" (Labels (cc_meta cc) !! InjectionRuleLabel).

Definition apply_instruction (ri : RestorationInstruction) (ccs : gmap string ClusterConfig) :
    gmap string ClusterConfig :=
  foldl (fun m cc => <[rule_label cc := cc]> m) ccs
    (ClusterConfigsToCreate ri ++ ClusterConfigsToUpdate ri).

(** A list of objects filed under the keys of a map is that map, over the old one. *)
Lemma foldl_insert_values {V} (lab : V -> string) (val : V -> V) (new old : gmap string V) r :
  (forall k v, new !! k = Some v -> lab v = k) ->
  foldl (fun m v => <[lab v := val v]> m) old (range new).*2 !! r =
  match new !! r with Some v => Some (val v) | None => old !! r end.
Proof.
  intros Hlab.
  assert (lab <$> (range new).*2 = (range new).*1) as Hkeys.
  { rewrite <- list_fmap_compose. apply list_fmap_ext. intros i [k v] Hi. simpl.
    apply Hlab. apply elem_of_range. by eapply list_elem_of_lookup_2. }
  destruct (new !! r) as [v|] eqn:Hr.
  - pose proof (Hlab _ _ Hr) as <-. apply (foldl_insert_in lab val).
    + rewrite Hkeys. apply range_NoDup.
    + apply elem_of_range_values. by exists (lab v).
  - rewrite (foldl_insert_notin lab val); [done|].
    rewrite Hkeys, elem_of_range_keys, Hr. by intros [].
Qed.

(** The ClusterConfig of a rule after the instruction. *)
Definition check_result (ccs new upd : gmap string ClusterConfig) (r : string) : option ClusterConfig :=
  match upd !! r with
  | Some u => Some (SortPatches u)
  | None => match new !! r with Some n => Some n | None => ccs !! r end
  end.

Lemma apply_instruction_lookup ri ccs new upd r :
  ClusterConfigsToCreate ri = (range new).*2 ->
  ClusterConfigsToUpdate ri = SortPatches <$> (range upd).*2 ->
  (forall k v, new !! k = Some v -> rule_label v = k) ->
  (forall k v, upd !! k = Some v -> rule_label v = k) ->
  apply_instruction ri ccs !! r = check_result ccs new upd r.
Proof.
  intros Hc Hu Hnew Hupd. unfold apply_instruction, check_result.
  rewrite Hc, Hu, foldl_app.
  rewrite <- (foldl_insert_values rule_label (fun v => v) new ccs r) by done.
  generalize (foldl (fun m cc => <[rule_label cc := cc]> m) ccs (range new).*2). intros old.
  assert (foldl (fun m cc => <[rule_label cc := cc]> m) old (SortPatches <$> (range upd).*2) =
          foldl (fun m cc => <[rule_label cc := SortPatches cc]> m) old (range upd).*2) as ->.
  { clear. revert old. induction (range upd) as [|[k v] l IH]; intros old; simpl; [done|]. apply IH. }
  by apply foldl_insert_values.
Qed.

Lemma Generate_meta cl r inj s cc s' :
  GenerateClusterConfigForInjectionList cl r inj s = (Ret (inl cc), s') ->
  GenerateClusterConfigName (Some cl) r = inl (Name (cc_meta cc)) /\
  rule_label cc = r /\ wants_finalizer cc = false.
Proof.
  unfold GenerateClusterConfigForInjectionList.
  destruct (GenerateClusterConfigName _ _) as [name|] eqn:Hname; intros Hrun; go_run.
  match goal with H : ClusterConfigLabels _ _ _ = _ |- _ =>
    apply ClusterConfigLabels_run in H as [-> ->] end.
  assert (r <> "") as Hr.
  { intros ->. unfold GenerateClusterConfigName in Hname. by rewrite decide_True in Hname. }
  split_and!; [done| |].
  - unfold rule_label. simpl. unfold labels_of. rewrite decide_True by done.
    by rewrite lookup_insert_eq.
  - unfold wants_finalizer. simpl. rewrite bool_decide_true; [done|by left].
Qed.

(** The annotated injections of a rule are all among the patches. *)
Definition covered (a : AppliedRulesAnnotation) (r : string) (cc : ClusterConfig) : Prop :=
  forall path cidr, nil_map (default None (a !! r)) !! path = Some cidr ->
    has_path path (cc_Patches cc) = true.

Lemma covered_missing a ccs r :
  match ccs !! r with
  | Some cc => covered a r cc
  | None => nil_map (default None (a !! r)) = ∅
  end <-> missing a ccs r = ∅.
Proof.
  split.
  - intros Hc. apply map_eq. intros path. rewrite missing_lookup, lookup_empty.
    destruct (ccs !! r) as [cc|]; [|by rewrite Hc].
    destruct (nil_map _ !! path) as [cidr|] eqn:Hp; [|by destruct (has_path _ _)].
    by rewrite (Hc path cidr Hp).
  - intros Hm. destruct (ccs !! r) as [cc|] eqn:Hcc.
    + intros path cidr Hp. pose proof (missing_lookup a ccs r path) as Hl.
      rewrite Hm, Hcc, Hp, lookup_empty in Hl. by destruct (has_path _ _).
    + apply map_eq. intros path. pose proof (missing_lookup a ccs r path) as Hl.
      rewrite Hm, Hcc, lookup_empty in Hl. by rewrite lookup_empty.
Qed.

(** A ClusterConfig that has the old patches and the missing injections has them all. *)
Lemma covered_extended a ccs r u old :
  (forall p, p ∈ cc_Patches u <-> p ∈ old \/ p ∈ injection_patches (range (missing a ccs r))) ->
  match ccs !! r with Some cc => cc_Patches cc = old | None => True end ->
  covered a r u.
Proof.
  intros Hu Hold path cidr Hp. apply has_path_true.
  pose proof (missing_lookup a ccs r path) as Hl. rewrite Hp in Hl.
  assert (missing a ccs r !! path = Some cidr -> exists p, p ∈ cc_Patches u /\ p_Path p = path) as Hin.
  { intros Hm. exists (injection_patch path cidr). split; [|done]. apply Hu. right.
    apply injection_patches_elem. by exists path, cidr. }
  destruct (ccs !! r) as [cc|]; [|by apply Hin].
  destruct (has_path path (cc_Patches cc)) eqn:Hh; [|by apply Hin].
  apply has_path_true in Hh as (p & Hpp & ?). exists p. split; [|done]. apply Hu. left. by rewrite <- Hold.
Qed.

(** The rule's ClusterConfig afterwards is complete. *)
Lemma check_result_complete cl a ccs new upd s r :
  (forall name, GenerateClusterConfigName (Some cl) r = inl name -> name <> EmptyClusterNamePlaceholder) ->
  upd !! r = (ccs !! r ≫= fun cc => updated_of cc (missing a ccs r)) ->
  (if decide (ccs !! r = None /\ missing a ccs r <> ∅)
   then creates cl s r (missing a ccs r) (new !! r) else new !! r = None) ->
  match check_result ccs new upd r with
  | Some cc => covered a r cc /\ wants_finalizer cc = false
  | None => nil_map (default None (a !! r)) = ∅
  end.
Proof.
  intros Hname Hupd Hnew. unfold check_result. pose proof (covered_missing a ccs r) as Hcm.
  destruct (ccs !! r) as [cc|] eqn:Hcc; simpl in Hupd.
  - rewrite decide_False in Hnew by naive_solver. rewrite Hnew.
    destruct (upd !! r) as [u|]; symmetry in Hupd.
    + apply updated_of_shape in Hupd as (Hp & _ & Hm & _). split.
      * apply (covered_extended a ccs r _ (cc_Patches cc)); [|by rewrite Hcc].
        intros p. by rewrite SortPatches_elem, Hp, elem_of_app.
      * change (wants_finalizer (SortPatches u)) with (wants_finalizer u). unfold wants_finalizer at 1.
        rewrite Hm. destruct (wants_finalizer cc) eqn:Hw; [|done]. simpl.
        rewrite bool_decide_true; [done|]. apply elem_of_app. right. by left.
    + unfold updated_of in Hupd. case_decide as He; [|done]. destruct (wants_finalizer cc) eqn:Hw; [done|].
      split; [by apply Hcm|done].
  - rewrite Hupd. case_decide as Hd.
    + destruct Hnew as (n & Hg & Hn). pose proof (Generate_meta _ _ _ _ _ _ Hg) as (Hgn & _ & Hw).
      rewrite decide_False in Hn by (by apply Hname). rewrite Hn. split; [|done].
      apply (covered_extended a ccs r _ []); [|by rewrite Hcc].
      intros p. rewrite (Generate_patches _ _ _ _ _ _ Hg). rewrite elem_of_nil. naive_solver.
    + rewrite Hnew. apply Hcm. destruct (decide (missing a ccs r = ∅)); naive_solver.
Qed.

(** C11: The integrity check converges: once the returned RestorationInstruction has been
    applied to the ClusterConfigs, checking again finds nothing to create and nothing to update,
    whatever the process state then is. This needs the map of ClusterConfigs to be keyed by
    their rule labels, and generated names other than the webhook's placeholder. *)
Theorem Check_converges cl a ccs s ri s' s2 :
  CheckClusterConfigsForCluster cl (Some a) (Some ccs) s = (Ret (inl ri), s') ->
  (forall r cc, ccs !! r = Some cc -> rule_label cc = r) ->
  (forall r name, GenerateClusterConfigName (Some cl) r = inl name -> name <> EmptyClusterNamePlaceholder) ->
  CheckClusterConfigsForCluster cl (Some a) (Some (apply_instruction ri ccs)) s2 =
    (Ret (inl {| ClusterConfigsToCreate := []; ClusterConfigsToUpdate := [] |}), s2).
Proof.
  intros (-> & new & upd & Hc & Hu & Hupd & Hnew)%check_spec Hkeyed Hname.
  assert (forall r, apply_instruction ri ccs !! r = check_result ccs new upd r) as Happ.
  { intros r. apply apply_instruction_lookup; [done|done|..].
    - intros k n Hn. specialize (Hnew k). rewrite Hn in Hnew. case_decide; [|done].
      destruct Hnew as (cc & Hg%Generate_meta & Hn'). case_decide; simplify_eq. by destruct Hg as (_ & -> & _).
    - intros k u Hk. rewrite Hupd in Hk. apply bind_Some in Hk as (cc & Hcc & Hk%updated_of_shape).
      destruct Hk as (_ & _ & Hm & _). rewrite <- (Hkeyed k cc Hcc). unfold rule_label. rewrite Hm.
      by destruct (wants_finalizer cc). }
  pose proof (fun r => check_result_complete cl a ccs new upd s r (Hname r) (Hupd r) (Hnew r)) as Hres.
  apply check_noop.
  - intros r. apply covered_missing. rewrite Happ. specialize (Hres r).
    destruct (check_result ccs new upd r); [apply Hres|done].
  - intros r cc. rewrite Happ. intros Hr. specialize (Hres r). rewrite Hr in Hres. apply Hres.
Qed.
End check.
