(* ===== verification/RestoreIpam.v ===== *)
(** * Restore.v's rebuilt instance: what ipamFromClusterConfigs registers

    The instance that replaces the shared one knows exactly the config's parent CIDRs
    and the CIDRs of the ClusterConfigs it was built from. *)

From stdpp Require Import base list strings gmap.
From S2P Require Import Prelude GoStd GoJson Types Externals Runtime Utils Restore.
Open Scope list_scope.
Open Scope Z_scope.

Section rebuild.
Context {OM : OpenMCP} {GI : GoIpam} {KA : K8sApi} {CU : CtrlUtils} {GO : GoMapOrder}.
Context {GL : GoIpamLaws}.

Definition canons (cidrs : list string) : gset string := list_to_set (canon <$> cidrs).

Lemma canons_cons c cidrs : canons (c :: cidrs) = {[canon c]} ∪ canons cidrs.
Proof. done. Qed.
Lemma canons_app l1 l2 : canons (l1 ++ l2) = canons l1 ∪ canons l2.
Proof. unfold canons. by rewrite fmap_app, list_to_set_app_L. Qed.

(** A prefix of the instance, as the library names it. *)
Definition registered (x : ipamS) (p : Prefix) : Prop :=
  pCidr p ∈ known x /\ canon (pCidr p) = pCidr p.

Lemma registered_mono x x' p : known x ⊆ known x' -> registered x p -> registered x' p.
Proof. intros Hk [H1 H2]. split; [by apply Hk|done]. Qed.

Lemma registered_canon x c p : pCidr p = canon c -> canon c ∈ known x -> registered x p.
Proof. unfold registered. intros -> Hc. split; [done|apply canon_idem]. Qed.

Lemma fetchOrNewPrefix_ok c x x' p :
  fetchOrNewPrefix c x = (x', inl p) ->
  known x' = {[canon c]} ∪ known x /\ pCidr p = canon c.
Proof.
  unfold fetchOrNewPrefix.
  destruct (ipam_PrefixFrom c x) as [x1 [q|e]] eqn:Hq; apply lookup_one in Hq as ((Hk & _) & Hq).
  - intros [= -> ->]. destruct Hq as [-> Hin]. rewrite Hk. split; [set_solver|done].
  - destruct (negb (is_not_found e)); [done|].
    destruct (ipam_NewPrefix c x1) as [x2 [q|e2]] eqn:Hn; [|done]. intros [= -> ->].
    destruct (NewPrefix_ok _ _ _ _ Hn) as (-> & ->). by rewrite Hk.
Qed.

Lemma register_parents_ok cidrs acc x ps x' :
  register_parents acc cidrs x = (Ret (inl ps), x') ->
  known x' = canons cidrs ∪ known x /\
  pCidr <$> ps = (pCidr <$> acc) ++ (canon <$> cidrs).
Proof.
  revert acc x. induction cidrs as [|c cidrs IH]; intros acc x Hrun; simpl in Hrun.
  - go_run. split; [set_solver|by rewrite app_nil_r].
  - destruct (fetchOrNewPrefix c x) as [x1 [p|e]] eqn:Hf; [|done].
    apply fetchOrNewPrefix_ok in Hf as (Hk & Hp).
    apply IH in Hrun as (-> & ->). rewrite canons_cons, Hk, fmap_app. simpl. rewrite Hp.
    rewrite <- app_assoc. split; [set_solver|done].
Qed.

Lemma first_overlapping_elem c ps p : first_overlapping c ps = inl (Some p) -> p ∈ ps.
Proof.
  induction ps as [|q ps IH]; simpl; [done|].
  destruct (PrefixesOverlapping _ _) as [e|].
  - destruct (negb _); [done|]. intros [= ->]. by left.
  - intros Hp. right. by apply IH.
Qed.

Lemma identifyParentPrefix_elem c lists p :
  identifyParentPrefix c lists = inl (Some p) -> p ∈ concat lists.
Proof.
  induction lists as [|ps lists IH]; simpl; [done|].
  destruct (first_overlapping c ps) as [[q|]|e] eqn:Hf; intros Hp; simplify_eq.
  - apply elem_of_app. left. by eapply first_overlapping_elem.
  - apply elem_of_app. right. by apply IH.
Qed.

(** The patches the code registers: those that add something. *)
Definition add_cidrs (ps : list JSONPatch) : gset string :=
  patch_cidrs (filter (fun p => p_Op p = ADD) ps).

Lemma add_cidrs_cons p ps :
  add_cidrs (p :: ps) =
  if decide (p_Op p = ADD)
  then match patch_cidr p with Some c => {[canon c]} ∪ add_cidrs ps | None => add_cidrs ps end
  else add_cidrs ps.
Proof.
  unfold add_cidrs. rewrite filter_cons. case_decide; [|done]. by rewrite patch_cidrs_cons.
Qed.

Lemma register_patches_ok parents ps tmp x x' :
  register_patches parents tmp ps x = (Ret None, x') ->
  Forall (registered x) (tmp ++ parents) ->
  known x' = add_cidrs ps ∪ known x.
Proof.
  revert tmp x. induction ps as [|p ps IH]; intros tmp x Hrun Hreg; cbn [register_patches] in Hrun.
  { go_run. set_solver. }
  rewrite add_cidrs_cons. unfold patch_cidr.
  destruct (decide (p_Op p <> ADD)) as [Ho|Ho].
  { rewrite decide_False by done. by apply (IH tmp). }
  rewrite decide_True by (by apply dec_stable).
  destruct (p_Value p) as [raw|]; [|done].
  destruct (json_Unmarshal_string "" raw) as [c|]; [|done].
  destruct (identifyParentPrefix c _) as [[q|]|e] eqn:Hid; [..|done].
  - apply identifyParentPrefix_elem in Hid. simpl in Hid. rewrite app_nil_r in Hid.
    assert (registered x q) as [Hq1 Hq2].
    { rewrite Forall_forall in Hreg. apply Hreg.
      rewrite reverse_slice_rev, elem_of_app, list_elem_of_In, <- in_rev, <- list_elem_of_In in Hid.
      by apply elem_of_app. }
    destruct (decide (pCidr q = c)) as [<-|Hne].
    + apply IH in Hrun as ->; [|done]. rewrite Hq2. set_solver.
    + destruct (ipam_AcquireSpecificChildPrefix _ _ x) as [x1 [child|e]] eqn:Ha; [|done].
      apply AcquireSpecific_ok in Ha as (Hp & Hk).
      apply IH in Hrun as ->.
      * rewrite Hk. set_solver.
      * assert (known x ⊆ known x1) as Hsub by set_solver.
        rewrite <- app_assoc. apply Forall_app. apply Forall_app in Hreg as [Ht Hps].
        split; [|simpl; apply Forall_cons; split].
        -- eapply Forall_impl; [exact Ht|]. intros y. by apply registered_mono.
        -- apply (registered_canon x1 c); [done|]. set_solver.
        -- eapply Forall_impl; [exact Hps|]. intros y. by apply registered_mono.
  - destruct (fetchOrNewPrefix c x) as [x1 [q|e]] eqn:Hf; [|done].
    apply fetchOrNewPrefix_ok in Hf as (Hk & _).
    apply IH in Hrun as ->.
    + rewrite Hk. set_solver.
    + eapply Forall_impl; [exact Hreg|]. intros y. apply registered_mono. set_solver.
Qed.

(** The CIDRs of all patches of a list of ClusterConfigs. *)
Definition used_cidrs (ccs : list ClusterConfig) : gset string :=
  add_cidrs (concat (cc_Patches <$> ccs)).

Lemma used_cidrs_cons cc ccs : used_cidrs (cc :: ccs) = add_cidrs (cc_Patches cc) ∪ used_cidrs ccs.
Proof.
  unfold used_cidrs, add_cidrs, patch_cidrs. simpl.
  by rewrite filter_app, omap_app, fmap_app, list_to_set_app_L.
Qed.

Lemma register_ccs_ok parents ccs x x' :
  register_ccs parents ccs x = (Ret None, x') ->
  Forall (registered x) parents ->
  known x' = used_cidrs ccs ∪ known x.
Proof.
  revert x. induction ccs as [|cc ccs IH]; intros x Hrun Hreg; simpl in Hrun.
  { go_run. unfold used_cidrs, add_cidrs. simpl. set_solver. }
  apply bindM_Ret_inv in Hrun as ([err|] & x1 & Hp & Hrun); [by go_run|].
  apply register_patches_ok in Hp as Hk; [|done].
  apply IH in Hrun as Hk'.
  - rewrite used_cidrs_cons, Hk', Hk. set_solver.
  - eapply Forall_impl; [exact Hreg|]. intros y. apply registered_mono. set_solver.
Qed.

Definition config_cidrs (cfg : IPAMConfig) : list string := concat (range (ParentCIDRs (Spec cfg))).*2.

Lemma ipamFromClusterConfigs_ok cfg ccs x :
  ipamFromClusterConfigs cfg ccs = Ret (inl x) ->
  known x = canons (config_cidrs cfg) ∪ used_cidrs ccs.
Proof.
  unfold ipamFromClusterConfigs. cbv zeta. intros Hrun.
  destruct (bindM _ _ _) as [[[err|]|why|] x0] eqn:Hb; simplify_eq.
  apply bindM_Ret_inv in Hb as ([ps|err] & x1 & Hp & Hrun); [|by go_run].
  apply register_parents_ok in Hp as (Hk & Hps). simpl in Hps.
  apply register_ccs_ok in Hrun as Hk'.
  - rewrite known_New in Hk. set_solver.
  - apply Forall_forall. intros q Hq.
    assert (pCidr q ∈ canon <$> config_cidrs cfg) as Hin.
    { unfold config_cidrs. rewrite <- Hps. apply list_elem_of_fmap_2. by apply Hq. }
    apply list_elem_of_fmap in Hin as (c & Hqc & Hin). apply (registered_canon x1 c); [done|].
    rewrite Hk. apply elem_of_union_l. unfold canons.
    apply elem_of_list_to_set, list_elem_of_fmap_2. done.
Qed.
End rebuild.
