(* ===== verification/RestoreState.v ===== *)
(** * Restore.v's effects: locks, orphans, and the swap of the shared instance *)

From stdpp Require Import base list strings gmap.
From S2P Require Import Prelude GoStd GoJson Types Externals Runtime Utils Restore RestoreIpam.
Open Scope list_scope.
Open Scope Z_scope.

(** ** Nothing blocks *)

Section live.
Context {OM : OpenMCP} {GI : GoIpam} {KA : K8sApi} {CU : CtrlUtils} {GO : GoMapOrder}.

Lemma ClusterConfigLabels_live (I : gostate -> Prop) cl r : live I (ClusterConfigLabels cl r).
Proof. unfold ClusterConfigLabels. go_struct. Qed.

Section invariant.
(** Requests keep the invariant: it is about the IPAM lock. *)
Context (I : gostate -> Prop).
Context (HI : forall {A} c (answer : list api_call -> A), live I (request c answer)).

Lemma FetchClusterConfigs_live_gen : live I FetchClusterConfigs.
Proof. unfold FetchClusterConfigs, client_ListClusterConfigs. pose proof ClusterConfigLabels_live. go_struct. Qed.
Lemma FetchClusterConfigsForCluster_live_gen cl : live I (FetchClusterConfigsForCluster cl).
Proof.
  unfold FetchClusterConfigsForCluster, client_ListClusterConfigs.
  pose proof ClusterConfigLabels_live. go_struct.
Qed.
Lemma FetchRelevantClusters_live_gen cfg : live I (FetchRelevantClusters cfg).
Proof.
  unfold FetchRelevantClusters, client_ListClusters, fetch_owner, client_GetCluster.
  pose proof FetchClusterConfigs_live_gen. go_struct.
Qed.
Lemma Generate_live_gen cl r inj : live I (GenerateClusterConfigForInjectionList cl r inj).
Proof.
  unfold GenerateClusterConfigForInjectionList. pose proof ClusterConfigLabels_live. go_struct.
Qed.
Lemma Check_live_gen cl a ccs : live I (CheckClusterConfigsForCluster cl a ccs).
Proof.
  unfold CheckClusterConfigsForCluster, check_rule.
  pose proof FetchClusterConfigsForCluster_live_gen. pose proof Generate_live_gen. go_struct.
Qed.
Lemma Apply_live_gen ri : live I (Apply ri).
Proof.
  unfold Apply, apply_all, client_CreateClusterConfig, client_UpdateClusterConfig. go_struct.
Qed.
Lemma restore_cluster_live_gen acc cl : live I (restore_cluster acc cl).
Proof.
  unfold restore_cluster. pose proof Check_live_gen. pose proof Apply_live_gen.
  pose proof FetchClusterConfigsForCluster_live_gen. go_struct.
Qed.
End invariant.

Lemma handle_orphan_live acc cc : live lock_held (handle_orphan acc cc).
Proof. unfold handle_orphan, client_GetCluster, client_DeleteClusterConfig. go_struct. Qed.

Lemma handleOrphaned_live ccs : live lock_held (handleOrphanedClusterConfigs_internal ccs).
Proof.
  unfold handleOrphanedClusterConfigs_internal. pose proof handle_orphan_live. go_struct.
Qed.

Lemma register_patches_nodeadlock parents tmp ps x :
  (register_patches parents tmp ps x).1 <> Deadlock.
Proof.
  revert tmp x. induction ps as [|p ps IH]; intros tmp x; cbn [register_patches]; [done|].
  repeat (case_match; try done; try apply IH).
Qed.

Lemma register_ccs_nodeadlock parents ccs x : (register_ccs parents ccs x).1 <> Deadlock.
Proof.
  revert x. induction ccs as [|cc ccs IH]; intros x; [done|]. simpl. unfold bindM.
  pose proof (register_patches_nodeadlock parents [] (cc_Patches cc) x).
  destruct (register_patches _ _ _ _) as [[[e|]|w|] x']; simpl in *; [done|apply IH|done|done].
Qed.

Lemma register_parents_nodeadlock acc cidrs x : (register_parents acc cidrs x).1 <> Deadlock.
Proof.
  revert acc x. induction cidrs as [|c cidrs IH]; intros acc x; [done|]. simpl.
  destruct (fetchOrNewPrefix c x) as [x' [p|e]]; [apply IH|done].
Qed.

Lemma ipamFromClusterConfigs_nodeadlock cfg ccs : ipamFromClusterConfigs cfg ccs <> Deadlock.
Proof.
  unfold ipamFromClusterConfigs. cbv zeta. unfold bindM at 1.
  pose proof (register_parents_nodeadlock [] (concat (range (ParentCIDRs (Spec cfg))).*2) ipam_New) as Hp.
  destruct (register_parents _ _ _) as [[[ps|e]|w|] x]; simpl in *; [|done|done|done].
  pose proof (register_ccs_nodeadlock ps ccs x) as Hc.
  by destruct (register_ccs _ _ _) as [[[e|]|w|] x'].
Qed.

Lemma restore_finish_live cfg acc : live lock_held (restore_finish cfg acc).
Proof.
  unfold restore_finish. pose proof handleOrphaned_live. go_struct.
  exfalso. by eapply ipamFromClusterConfigs_nodeadlock.
Qed.

Lemma restore_body_live : live lock_held restore_body.
Proof.
  unfold restore_body, client_GetConfig.
  pose proof restore_finish_live.
  pose proof (FetchClusterConfigs_live_gen lock_held (fun _ => request_live_held)).
  pose proof (FetchRelevantClusters_live_gen lock_held (fun _ => request_live_held)).
  pose proof (restore_cluster_live_gen lock_held (fun _ => request_live_held)).
  go_struct.
Qed.

Lemma Restore_live : live lock_free RestoreIPAMFromClusterState.
Proof.
  unfold RestoreIPAMFromClusterState. apply live_bind; [apply live_get|]. intros s.
  apply live_bind; [|intros _; apply with_IPAM_lock_live, restore_body_live].
  case_decide; [apply live_ret|]. by apply modify_live.
Qed.

Lemma HandleOrphaned_live ccs : live lock_free (HandleOrphanedClusterConfigs ccs).
Proof. apply with_IPAM_lock_live, handleOrphaned_live. Qed.
End live.

#[export] Hint Resolve Restore_live HandleOrphaned_live : go.

(** ** What the calls change *)

Section effects.
Context {OM : OpenMCP} {GI : GoIpam} {KA : K8sApi} {CU : CtrlUtils} {GO : GoMapOrder}.

(** Only requests were sent. *)
Definition only_calls (s s' : gostate) : Prop := s' = st_set_calls (calls s') s.

#[export] Instance only_calls_preorder : PreOrder only_calls.
Proof.
  split.
  - by intros [].
  - intros s1 s2 s3 H12 H23. unfold only_calls in *. by rewrite H23, H12.
Qed.

Lemma request_only_calls {A} c (answer : list api_call -> A) : preserves only_calls (request c answer).
Proof. by intros s. Qed.
Hint Resolve request_only_calls : go.

Lemma ClusterConfigLabels_only_calls cl r : preserves only_calls (ClusterConfigLabels cl r).
Proof. unfold ClusterConfigLabels, ProviderName, Environment. go_struct. Qed.
Hint Resolve ClusterConfigLabels_only_calls : go.
Lemma FetchClusterConfigs_only_calls : preserves only_calls FetchClusterConfigs.
Proof. unfold FetchClusterConfigs, client_ListClusterConfigs. go_struct. Qed.
Lemma FetchFor_only_calls cl : preserves only_calls (FetchClusterConfigsForCluster cl).
Proof. unfold FetchClusterConfigsForCluster, client_ListClusterConfigs. go_struct. Qed.
Hint Resolve FetchClusterConfigs_only_calls FetchFor_only_calls : go.
Lemma FetchRelevant_only_calls cfg : preserves only_calls (FetchRelevantClusters cfg).
Proof.
  unfold FetchRelevantClusters, client_ListClusters, fetch_owner, client_GetCluster. go_struct.
Qed.
Lemma Generate_only_calls cl r inj : preserves only_calls (GenerateClusterConfigForInjectionList cl r inj).
Proof. unfold GenerateClusterConfigForInjectionList. go_struct. Qed.
Hint Resolve FetchRelevant_only_calls Generate_only_calls : go.
Lemma Check_only_calls cl a ccs : preserves only_calls (CheckClusterConfigsForCluster cl a ccs).
Proof. unfold CheckClusterConfigsForCluster, check_rule. go_struct. Qed.
Lemma Apply_only_calls ri : preserves only_calls (Apply ri).
Proof. unfold Apply, apply_all, client_CreateClusterConfig, client_UpdateClusterConfig. go_struct. Qed.
Hint Resolve Check_only_calls Apply_only_calls : go.
Lemma restore_cluster_only_calls acc cl : preserves only_calls (restore_cluster acc cl).
Proof. unfold restore_cluster. go_struct. Qed.

(** *** The loop over the clusters *)

Lemma add_handled_is_some m l k :
  is_Some (m !! k) \/ k ∈ ((fun cc => objectKey (cc_meta cc)) <$> l) ->
  is_Some (foldl add_handled m l !! k).
Proof.
  intros Hk. change (foldl add_handled m l) with
    (foldl (fun m x => <[objectKey (cc_meta x) := (fun cc => cc) x]> m) m l).
  destruct (decide (k ∈ (fun cc => objectKey (cc_meta cc)) <$> l)) as [Hin|Hin].
  - by apply foldl_insert_is_some.
  - rewrite foldl_insert_notin by done. naive_solver.
Qed.

Lemma restore_cluster_shape acc cl s acc' s' :
  restore_cluster acc cl s = (Ret acc', s') ->
  r_ccs acc' = filter (fun cc => belongs_to cl cc = false) (r_ccs acc) /\
  exists extra, r_handled acc' =
    foldl add_handled (r_handled acc)
      (filter (fun cc => belongs_to cl cc = true) (r_ccs acc) ++ extra).
Proof.
  unfold restore_cluster. cbv zeta. intros Hrun.
  apply bindM_Ret_inv in Hrun as ([ir|e] & s1 & _ & Hrun).
  2:{ go_run. split; [done|]. exists []. by rewrite app_nil_r. }
  simpl in Hrun. destruct ((_ || _)%bool).
  2:{ go_run. split; [done|]. exists []. by rewrite app_nil_r. }
  apply bindM_Ret_inv in Hrun as ([e|] & s2 & _ & Hrun).
  { go_run. split; [done|]. exists []. by rewrite app_nil_r. }
  apply bindM_Ret_inv in Hrun as ([m|e] & s3 & _ & Hrun); go_run; (split; [done|]).
  - exists (range m).*2. by rewrite foldl_app.
  - exists []. by rewrite app_nil_r.
Qed.

Lemma restore_loop ccs clusters s acc s' :
  foldM restore_cluster {| r_ccs := ccs; r_handled := ∅; r_errs := None |} clusters s = (Ret acc, s') ->
  only_calls s s' /\
  (forall cc, cc ∈ r_ccs acc <-> cc ∈ ccs /\ forall cl, cl ∈ clusters -> belongs_to cl cc = false) /\
  (forall cl cc, cl ∈ clusters -> cc ∈ ccs -> belongs_to cl cc = true ->
     is_Some (r_handled acc !! objectKey (cc_meta cc))).
Proof.
  intros Hrun. split.
  { eapply preserves_run; [|exact Hrun]. apply preserves_foldM; [apply _|].
    apply restore_cluster_only_calls. }
  eapply (foldM_inv _ (fun done acc _ =>
    (forall cc, cc ∈ r_ccs acc <-> cc ∈ ccs /\ forall cl, cl ∈ done -> belongs_to cl cc = false) /\
    (forall cl cc, cl ∈ done -> cc ∈ ccs -> belongs_to cl cc = true ->
       is_Some (r_handled acc !! objectKey (cc_meta cc)))) _ _ _ _ _ Hrun).
  { split; [|by intros ?? ?%not_elem_of_nil]. intros cc. simpl.
    split; [|naive_solver]. intros Hcc. split; [done|]. by intros ? ?%not_elem_of_nil. }
  clear Hrun acc s'. intros done cl rest acc s1 acc' s2 _ [Hccs Hh] Hstep.
  apply restore_cluster_shape in Hstep as (Hr & extra & He). split.
  - intros cc. rewrite Hr, list_elem_of_filter, Hccs. setoid_rewrite elem_of_app.
    setoid_rewrite list_elem_of_singleton. naive_solver.
  - intros cl' cc Hin Hcc Hb. rewrite He. apply add_handled_is_some.
    destruct (decide (Exists (fun c => belongs_to c cc = true) done)) as [Hex|Hno];
      rewrite Exists_exists in * |-; [destruct Hex as (c & Hc & Hbc)|].
    { left. by apply (Hh c). }
    right. apply list_elem_of_fmap. exists cc. split; [done|]. apply elem_of_app. left.
    apply elem_of_app in Hin as [Hin|Hin%list_elem_of_singleton]; [naive_solver|subst cl'].
    apply list_elem_of_filter. split; [done|]. apply Hccs. split; [done|].
    intros c Hc. apply not_true_is_false. naive_solver.
Qed.
End effects.

Section finish.
Context {OM : OpenMCP} {GI : GoIpam} {KA : K8sApi} {CU : CtrlUtils} {GO : GoMapOrder}.
Context {GL : GoIpamLaws} {CL : CtrlUtilsLaws}.

(** Nothing is added to the shared instance; the other variables stay. *)
Definition releasing (s s' : gostate) : Prop :=
  st_known s' ⊆ st_known s /\ config s' = config s /\ ClusterWatch s' = ClusterWatch s /\
  providerName s' = providerName s /\ environment s' = environment s.

#[export] Instance releasing_preorder : PreOrder releasing.
Proof.
  unfold releasing. split; [by intros s|].
  intros s1 s2 s3 (?&?&?&?&?) (?&?&?&?&?). split_and!; by etrans.
Qed.

Lemma only_calls_releasing s s' : only_calls s s' -> releasing s s'.
Proof. unfold only_calls. by intros ->. Qed.

Lemma release_internal_releasing cc s r s' :
  releaseCIDRsForClusterConfig_internal cc s = (Ret r, s') -> releasing s s'.
Proof.
  destruct r as [r cc']. intros Hrun. split; [by eapply release_internal_shrinks|].
  apply release_internal_inv in Hrun as (i & y & _ & -> & _). done.
Qed.

Lemma request_releasing {A} c (answer : list api_call -> A) s r s' :
  request c answer s = (Ret r, s') -> releasing s s'.
Proof. unfold request. intros [= _ <-]. done. Qed.

(** Chaining through the run of a call. *)
Ltac releasing_step :=
  match goal with
  | H : request _ _ ?s = (Ret _, _) |- releasing ?s _ =>
      etrans; [exact (request_releasing _ _ _ _ _ H)|clear H]
  | H : releaseCIDRsForClusterConfig_internal _ ?s = (Ret _, _) |- releasing ?s _ =>
      etrans; [exact (release_internal_releasing _ _ _ _ H)|clear H]
  end.

Lemma handle_orphan_releasing acc cc s r s' :
  handle_orphan acc cc s = (Ret r, s') -> releasing s s'.
Proof.
  unfold handle_orphan, client_GetCluster, client_DeleteClusterConfig. intros Hrun.
  destruct acc as [remaining errs]. cbv zeta in Hrun.
  case_decide; [by go_run|]. apply bindM_Ret_inv in Hrun as (c & s1 & Hget & Hrun).
  releasing_step. destruct c as [c|e]; [by go_run|].
  apply bindM_Ret_inv in Hrun as (e2 & s2 & Hdel & Hrun).
  assert (releasing s1 s2) as Hr12.
  { clear Hrun. case_decide; [by apply request_releasing in Hdel|by go_run]. }
  etrans; [exact Hr12|]. clear Hr12 Hdel. destruct (IgnoreNotFound e2); [by go_run|].
  apply bindM_Ret_inv in Hrun as ([e3 cc3] & s3 & Hrel & Hrun).
  assert (releasing s2 s3) as Hr23.
  { clear Hrun. case_decide; [by apply release_internal_releasing in Hrel|by go_run]. }
  etrans; [exact Hr23|]. destruct e3; [by go_run|]. case_decide; by go_run.
Qed.

Lemma foldM_releasing {A B} (f : B -> A -> M B) l b s b' s' :
  (forall b x s r s', f b x s = (Ret r, s') -> releasing s s') ->
  foldM f b l s = (Ret b', s') -> releasing s s'.
Proof.
  intros Hf Hrun. apply (foldM_inv f (fun _ _ st => releasing s st) l b s b' s' Hrun); [done|].
  intros done x rest b1 s1 b2 s2 _ H1 H2. etrans; [exact H1|]. by eapply Hf.
Qed.

Lemma handleOrphaned_releasing ccs s r s' :
  handleOrphanedClusterConfigs_internal ccs s = (Ret r, s') -> releasing s s'.
Proof.
  unfold handleOrphanedClusterConfigs_internal. intros Hrun.
  apply bindM_Ret_inv in Hrun as ([rem errs] & s1 & Hf & Hrun).
  apply foldM_releasing in Hf; [|apply handle_orphan_releasing].
  etrans; [exact Hf|]. destruct errs; by go_run.
Qed.

Definition same_vars (s s' : gostate) : Prop :=
  config s' = config s /\ ClusterWatch s' = ClusterWatch s /\
  providerName s' = providerName s /\ environment s' = environment s.

Lemma restore_finish_ok cfg acc s s' :
  restore_finish cfg acc s = (Ret None, s') ->
  r_errs acc = None /\ same_vars s s' /\ exists remaining,
    let handled := foldl add_handled (r_handled acc) (filter (fun cc => has_finalizer cc = true) remaining) in
    st_known s' = canons (config_cidrs cfg) ∪ used_cidrs (range handled).*2 /\
    (remaining = [] \/ exists s1, handleOrphanedClusterConfigs_internal (r_ccs acc) s = (Ret (remaining, None), s1)).
Proof.
  unfold restore_finish. destruct (r_errs acc); [by intros; go_run|]. intros Hrun. split; [done|].
  apply bindM_Ret_inv in Hrun as ([handled err] & s1 & H1 & Hrun).
  assert (same_vars s s1 /\ (err = None -> exists remaining,
    handled = foldl add_handled (r_handled acc) (filter (fun cc => has_finalizer cc = true) remaining) /\
    (remaining = [] \/ exists s1, handleOrphanedClusterConfigs_internal (r_ccs acc) s = (Ret (remaining, None), s1))))
    as [Hv Hh].
  { clear Hrun. case_decide; [go_run; split; [done|]; intros _; exists []; by split; [|left]|].
    apply bindM_Ret_inv in H1 as ([rem e] & s2 & H2 & H1).
    pose proof (handleOrphaned_releasing _ _ _ _ H2) as [_ Hv].
    destruct e; unfold retM in H1; injection H1 as <- <- <-; (split; [done|]); [done|]. intros _.
    exists rem. split; [done|]. right. by exists s2. }
  destruct err; [by go_run|]. destruct (Hh eq_refl) as (rem & -> & Hrem).
  destruct (ipamFromClusterConfigs cfg _) as [[x|e]|w|] eqn:Hi; [|by go_run|done|done].
  apply ipamFromClusterConfigs_ok in Hi as Hk.
  unfold on_IPAM, modifyM, bindM, retM in Hrun.
  destruct (IPAM s1) as [i|] eqn:Hs1; [|done]. injection Hrun as <-.
  split; [done|]. by exists rem.
Qed.

Lemma restore_finish_err cfg acc s e s' :
  restore_finish cfg acc s = (Ret (Some e), s') -> releasing s s'.
Proof.
  unfold restore_finish. destruct (r_errs acc); [by intros; go_run|]. intros Hrun.
  apply bindM_Ret_inv in Hrun as ([handled err] & s1 & H1 & Hrun).
  assert (releasing s s1) as Hr.
  { clear Hrun. case_decide; [by go_run|].
    apply bindM_Ret_inv in H1 as ([rem e'] & s2 & H2 & H1).
    apply handleOrphaned_releasing in H2. etrans; [exact H2|]. destruct e'; by go_run. }
  etrans; [exact Hr|]. destruct err; [by go_run|].
  destruct (ipamFromClusterConfigs cfg _) as [[x|e']|w|]; [|by go_run|done|done].
  unfold on_IPAM, modifyM, bindM, retM in Hrun. by destruct (IPAM s1).
Qed.

(** The state in which the body starts: as the caller's, with a locked instance. *)
(** A restore is its body under the lock, however it ends. *)
Lemma Restore_cases s o s' :
  RestoreIPAMFromClusterState s = (o, s') ->
  exists s0, st_known s0 = st_known s /\ same_vars s s0 /\ calls s0 = calls s /\
    exists s1, (restore_body s0 = (o, s1) \/ is_ret o = false /\ s1 = s0) /\
      st_known s' = st_known s1 /\ same_vars s1 s' /\ calls s' = calls s1.
Proof.
  unfold RestoreIPAMFromClusterState. intros Hrun. rewrite (bindM_Ret _ _ s s s) in Hrun by done.
  set (s0 := if decide (is_Some (IPAM s)) then s else st_set_IPAM (Some NewIpam) s).
  rewrite (bindM_Ret _ _ s tt s0) in Hrun by (unfold s0; by case_decide).
  assert (st_known s0 = st_known s /\ same_vars s s0 /\ calls s0 = calls s) as (Hk & Hv & Hc).
  { unfold s0. case_decide as Hi; [done|]. split; [|done].
    unfold st_known. simpl. destruct (IPAM s); [by destruct Hi|]. apply known_New. }
  clearbody s0. unfold with_IPAM_lock in Hrun. destruct (IPAM s0) as [i|] eqn:Hi.
  2:{ injection Hrun as <- <-. exists s0. split_and!; [done..|]. exists s0. split_and!; [by right|done..]. }
  destruct (lock i) eqn:Hl.
  { injection Hrun as <- <-. exists s0. split_and!; [done..|]. exists s0. split_and!; [by right|done..]. }
  set (s2 := st_set_IPAM (Some (set_lock true i)) s0) in *. exists s2.
  split_and!; [rewrite <- Hk; unfold s2, st_known; simpl; by rewrite Hi|exact Hv|exact Hc|].
  destruct (restore_body s2) as [[r|w|] s1] eqn:Hb; injection Hrun as <- <-; exists s1;
    (split_and!; [by left| |done..]); first [done|apply st_known_unlock].
Qed.

Lemma Restore_unfold s r s' :
  RestoreIPAMFromClusterState s = (Ret r, s') ->
  exists s0 s1, restore_body s0 = (Ret r, s1) /\
    st_known s0 = st_known s /\ same_vars s s0 /\ calls s0 = calls s /\
    st_known s' = st_known s1 /\ same_vars s1 s' /\ calls s' = calls s1.
Proof. intros (s0 & ? & ? & ? & s1 & [?|[? _]] & ? & ? & ?)%Restore_cases; [|done]. exists s0, s1. by split_and!. Qed.

Lemma FetchClusterConfigs_run s ccs s' :
  FetchClusterConfigs s = (Ret (inl ccs), s') ->
  let labels := labels_of (providerName s) (environment s) None "" in
  api_ListClusterConfigs (calls s) labels None = inl ccs /\
  s' = st_set_calls (CallListClusterConfigs labels None :: calls s) s.
Proof.
  unfold FetchClusterConfigs, client_ListClusterConfigs, request. intros Hrun.
  apply bindM_Ret_inv in Hrun as (labels & s1 & [-> ->]%ClusterConfigLabels_run & Hrun).
  apply bindM_Ret_inv in Hrun as (res & s2 & [= <- <-] & Hrun).
  destruct (api_ListClusterConfigs _ _ _) as [items|e]; go_run.
  by rewrite ProjectSliceToSlice_map, list_fmap_id.
Qed.

Definition relevant (cfg : IPAMConfig) (cl : Cluster) : bool :=
  existsb (fun rule => rule_Matches rule cl) (InjectionRules (Spec cfg)).

Lemma FetchRelevant_run cfg s clusters s' :
  FetchRelevantClusters (Some cfg) s = (Ret (inl clusters), s') ->
  exists all, api_ListClusters (calls s) = inl all /\
    clusters = filter (fun cl => relevant cfg cl = true) all /\
    s' = st_set_calls (CallListClusters :: calls s) s.
Proof.
  unfold FetchRelevantClusters, client_ListClusters, request. intros Hrun.
  apply bindM_Ret_inv in Hrun as (res & s1 & [= <- <-] & Hrun).
  destruct (api_ListClusters _) as [all|e]; go_run. by exists all.
Qed.

(** What a successful restore makes of the state [s], with the config [cfg] stored. *)
Definition restored (cfg : IPAMConfig) (s s' : gostate) : Prop :=
  exists all ccs handled,
    api_ListClusters (calls s) = inl all /\
    api_ListClusterConfigs (CallListClusters :: calls s)
      (labels_of (providerName s) (environment s) None "") None = inl ccs /\
    (forall cl cc, cl ∈ all -> relevant cfg cl = true -> cc ∈ ccs -> belongs_to cl cc = true ->
       is_Some (handled !! objectKey (cc_meta cc))) /\
    st_known s' = canons (config_cidrs cfg) ∪ used_cidrs (range (V := ClusterConfig) handled).*2 /\
    same_vars s s'.

(** The two lists, the loop over the clusters, and the end of the body. *)
Lemma Restore_phases s cfg s' :
  config s = Some cfg -> RestoreIPAMFromClusterState s = (Ret None, s') ->
  let labels := labels_of (providerName s) (environment s) None "" in
  exists all ccs s1 acc s2 s3,
    api_ListClusters (calls s) = inl all /\
    api_ListClusterConfigs (CallListClusters :: calls s) labels None = inl ccs /\
    calls s1 = CallListClusterConfigs labels None :: CallListClusters :: calls s /\ same_vars s s1 /\
    foldM restore_cluster {| r_ccs := ccs; r_handled := ∅; r_errs := None |}
      (filter (fun cl => relevant cfg cl = true) all) s1 = (Ret acc, s2) /\
    restore_finish cfg acc s2 = (Ret None, s3) /\
    st_known s' = st_known s3 /\ same_vars s3 s'.
Proof.
  intros Hcfg (s0 & s3 & Hrun & _ & Hv & Hc & Hk & Hv' & _)%Restore_unfold.
  unfold restore_body in Hrun. apply bindM_Ret_inv in Hrun as (? & ? & [= <- <-] & Hrun).
  pose proof Hv as (Hv1 & Hv2 & Hv3 & Hv4). rewrite Hv1, Hcfg in Hrun.
  apply bindM_Ret_inv in Hrun as (? & ? & [= <- <-] & Hrun).
  apply bindM_Ret_inv in Hrun as ([clusters|e] & s1 & Hcl & Hrun); [|by go_run].
  apply FetchRelevant_run in Hcl as (all & Hall & -> & ->).
  apply bindM_Ret_inv in Hrun as ([ccs|e] & s2 & Hccs & Hrun); [|by go_run].
  apply FetchClusterConfigs_run in Hccs as [Hccs ->]. simpl in Hccs, Hrun.
  rewrite Hv3, Hv4, Hc in Hccs, Hrun. apply bindM_Ret_inv in Hrun as (acc & s4 & Hloop & Hrun).
  rewrite Hc in Hall. eexists all, ccs, _, acc, s4, s3.
  split; [exact Hall|]. split; [exact Hccs|]. split; [|split; [|split; [exact Hloop|done]]]; [done|exact Hv].
Qed.

Lemma Restore_restored s cfg s' :
  config s = Some cfg -> RestoreIPAMFromClusterState s = (Ret None, s') -> restored cfg s s'.
Proof.
  intros Hcfg (all & ccs & s1 & acc & s2 & s3 & Hall & Hccs & _ & Hv & Hloop & Hfin & Hk' & Hv')%(Restore_phases _ cfg); [|done].
  apply restore_loop in Hloop as (Ho & _ & Hh). apply only_calls_releasing in Ho as [_ Ho].
  apply restore_finish_ok in Hfin as (_ & Hvars & rem & Hk & _).
  eexists all, ccs, _. split_and!; [done|done| |by rewrite Hk', Hk|].
  - intros cl cc Hin Hrel Hcc Hb. apply add_handled_is_some. left. apply (Hh cl cc); [|done..].
    by apply list_elem_of_filter.
  - unfold same_vars in *. naive_solver congruence.
Qed.


(** C23: A RestoreIPAMFromClusterState that returns an error does not add anything to the IPAM
    instance and does not swap it: what is known afterwards was known before (only CIDRs of
    orphaned ClusterConfigs may have been released), and config, queue and names of the process
    are unchanged. *)
Theorem Restore_failure s err s' :
  RestoreIPAMFromClusterState s = (Ret (Some err), s') ->
  st_known s' ⊆ st_known s /\ same_vars s s'.
Proof.
  intros (s0 & s1 & Hrun & Hk & Hv & _ & -> & Hv' & _)%Restore_unfold.
  assert (releasing s0 s1) as [Hr Hvars].
  { unfold restore_body in Hrun. apply bindM_Ret_inv in Hrun as (? & ? & [= <- <-] & Hrun).
    apply bindM_Ret_inv in Hrun as (cfg & s2 & Hcfg & Hrun).
    assert (only_calls s0 s2) as Ho.
    { eapply preserves_run; [|exact Hcfg]. pose proof @request_only_calls.
      unfold ProviderName, client_GetConfig. go_struct. }
    etrans; [exact (only_calls_releasing _ _ Ho)|]. destruct cfg as [cfg|e]; [|by go_run].
    apply bindM_Ret_inv in Hrun as (clusters & s3 & Hcl & Hrun).
    apply (preserves_run _ _ _ _ _ (FetchRelevant_only_calls _)) in Hcl.
    etrans; [exact (only_calls_releasing _ _ Hcl)|]. destruct clusters as [clusters|e]; [|by go_run].
    apply bindM_Ret_inv in Hrun as (ccs & s4 & Hccs & Hrun).
    apply (preserves_run _ _ _ _ _ FetchClusterConfigs_only_calls) in Hccs.
    etrans; [exact (only_calls_releasing _ _ Hccs)|]. destruct ccs as [ccs|e]; [|by go_run].
    apply bindM_Ret_inv in Hrun as (acc & s5 & Hloop & Hrun).
    apply restore_loop in Hloop as [Ho' _].
    etrans; [exact (only_calls_releasing _ _ Ho')|]. by eapply restore_finish_err. }
  rewrite <- Hk. split; [done|]. unfold same_vars in *. naive_solver congruence.
Qed.

(** *** Orphans *)

Definition target (cc : ClusterConfig) : string := default "" (Labels (cc_meta cc) !! ClusterTargetLabel).

(** A leftover ClusterConfig whose target cluster can be fetched is kept: it is added to
    the remaining ones, no error is reported, and the only effect is the get request. *)
Lemma handle_orphan_alive remaining errs cc s c :
  target cc <> "" ->
  api_GetCluster (calls s) (Namespace (cc_meta cc)) (target cc) = inl c ->
  handle_orphan (remaining, errs) cc s =
    (Ret (remaining ++ [cc], errs),
     st_set_calls (CallGetCluster (Namespace (cc_meta cc)) (target cc) :: calls s) s).
Proof.
  intros Ht Hget. unfold handle_orphan. cbv zeta. fold (target cc).
  rewrite decide_False by done. unfold client_GetCluster, request, bindM. by rewrite Hget.
Qed.

(** The first two requests for a ClusterConfig whose cluster could not be fetched. *)
Definition orphan_requests (cc : ClusterConfig) : list api_call :=
  [CallDeleteClusterConfig (Namespace (cc_meta cc)) (Name (cc_meta cc));
   CallGetCluster (Namespace (cc_meta cc)) (target cc)].

Lemma handle_orphan_run remaining errs cc s e r s' :
  target cc <> "" -> DeletionTimestamp (cc_meta cc) = None ->
  api_GetCluster (calls s) (Namespace (cc_meta cc)) (target cc) = inr e ->
  handle_orphan (remaining, errs) cc s = (Ret r, s') ->
  let s1 := st_set_calls (orphan_requests cc ++ calls s) s in
  (s' = s1 \/ exists err cc', releaseCIDRsForClusterConfig_internal cc s1 = (Ret (err, cc'), s')) /\
  (r.2 = None -> is_not_found e = true /\
     (CIDRManagementFinalizer ∈ Finalizers (cc_meta cc) ->
      exists cc', releaseCIDRsForClusterConfig_internal cc s1 = (Ret (None, cc'), s'))).
Proof.
  intros Ht Hd Hget Hrun s1. unfold handle_orphan in Hrun. cbv zeta in Hrun. fold (target cc) in Hrun.
  rewrite decide_False in Hrun by done. rewrite Hd in Hrun.
  apply bindM_Ret_inv in Hrun as (x & s2 & [= <- <-] & Hrun). rewrite Hget in Hrun.
  apply bindM_Ret_inv in Hrun as (y & s3 & Hy & Hrun). rewrite decide_True in Hy by done.
  injection Hy as <- <-. simpl in Hrun.
  set (errs1 := if is_not_found e then errs else _) in Hrun.
  assert (errs1 = None -> is_not_found e = true) as He.
  { subst errs1. destruct (is_not_found e); [done|]. by intros ?%errors_Join_some. }
  destruct (IgnoreNotFound _) as [e'|].
  { go_run. split; [by left|]. by intros ?%errors_Join_some. }
  apply bindM_Ret_inv in Hrun as ([err cc'] & s4 & Hrel & Hrun).
  assert (s4 = s' /\ (r.2 = None -> errs1 = None /\ err = None)) as [-> Hr].
  { destruct err as [err|]; [go_run; split; [done|]; by intros ?%errors_Join_some|].
    destruct (decide (length _ = 0%nat)); by go_run. }
  destruct (decide (CIDRManagementFinalizer ∈ Finalizers (cc_meta cc))) as [Hf|Hf].
  - split; [right; by exists err, cc'|]. intros Hn. destruct (Hr Hn) as [Hn1 ->].
    split; [by apply He|]. intros _. by exists cc'.
  - unfold retM in Hrel. injection Hrel as <- <- <-. split; [by left|].
    intros Hn. split; [by apply He, Hr|done].
Qed.

(** If the handling of a leftover ClusterConfig with the finalizer succeeds although its
    cluster could not be fetched, the error was "not found", the requests sent are the get, the
    deletion and the patch that removes the finalizer, in this order, and exactly the CIDRs of
    the ClusterConfig have been freed (when releasable). *)
Theorem handle_orphan_gone remaining errs cc s e rem' s' :
  target cc <> "" -> DeletionTimestamp (cc_meta cc) = None ->
  CIDRManagementFinalizer ∈ Finalizers (cc_meta cc) ->
  st_releasable (patch_cidrs (cc_Patches cc)) s ->
  api_GetCluster (calls s) (Namespace (cc_meta cc)) (target cc) = inr e ->
  handle_orphan (remaining, errs) cc s = (Ret (rem', None), s') ->
  is_not_found e = true /\
  st_known s' = st_known s ∖ patch_cidrs (cc_Patches cc) /\
  calls s' = finalizer_patch cc :: orphan_requests cc ++ calls s.
Proof.
  intros Ht Hd Hf Hch Hget Hrun.
  apply (handle_orphan_run _ _ _ _ e) in Hrun as [_ Hr]; [|done..].
  destruct (Hr eq_refl) as [He Hrel]. destruct (Hrel Hf) as (cc' & Hok).
  apply release_internal_ok in Hok as [Hk Hc]; [|done].
  rewrite decide_True in Hc by done. done.
Qed.

(** C37: A leftover ClusterConfig is deleted whenever its cluster cannot be fetched, for any
    error of the API server (a timeout, a missing permission), not only "not found". *)
Theorem handle_orphan_any_error_deletes remaining errs cc s e r s' :
  target cc <> "" -> DeletionTimestamp (cc_meta cc) = None ->
  api_GetCluster (calls s) (Namespace (cc_meta cc)) (target cc) = inr e ->
  handle_orphan (remaining, errs) cc s = (Ret r, s') ->
  CallDeleteClusterConfig (Namespace (cc_meta cc)) (Name (cc_meta cc)) ∈ calls s'.
Proof.
  intros Ht Hd Hget Hrun.
  apply (handle_orphan_run _ _ _ _ e) in Hrun as [Hs _]; [|done..].
  assert (CallDeleteClusterConfig (Namespace (cc_meta cc)) (Name (cc_meta cc))
          ∈ orphan_requests cc ++ calls s) as Hin by by left.
  destruct Hs as [->|(err & cc' & Hrel)]; [done|].
  apply release_internal_inv in Hrel as (i & y & _ & _ & Hrel).
  destruct err; [destruct Hrel as (_ & [->| ->])|destruct Hrel as [_ ->]; case_decide];
    by repeat (done || apply elem_of_cons; right).
Qed.

(** *** Apply *)

(** The requests of one of the loops, in the order they are sent. *)
Lemma apply_all_run (call : ClusterConfig -> api_call)
    (answer : list api_call -> ClusterConfig -> option exterr) what l errs s :
  exists errs',
    apply_all (fun cc => request (call cc) (fun h => answer h cc)) what errs l s =
      (Ret errs', st_set_calls (rev (call <$> l) ++ calls s) s) /\
    (errs' = None <-> errs = None /\
       forall l1 cc l2, l = l1 ++ cc :: l2 -> answer (rev (call <$> l1) ++ calls s) cc = None).
Proof.
  revert errs s. induction l as [|cc l IH]; intros errs s.
  - exists errs. split; [by destruct s|]. split; [|naive_solver]. intros He. split; [done|].
    by intros [] ? ?.
  - set (a := answer (calls s) cc).
    set (errs1 := match a with
                  | Some err => errors_Join [errs; Some (Errorf what (Some (Lib err)))]
                  | None => errs
                  end).
    destruct (IH errs1 (st_set_calls (call cc :: calls s) s)) as (errs' & Hrun & Hiff).
    exists errs'. split.
    + unfold apply_all in *. simpl foldM. unfold bindM at 1 2, request at 1, retM at 1.
      fold a. fold errs1. rewrite Hrun. simpl. by rewrite <- app_assoc.
    + rewrite Hiff. simpl. split.
      * intros [He1 Hl]. assert (a = None /\ errs = None) as [Ha He].
        { subst errs1. destruct a; [by apply errors_Join_some in He1|done]. }
        split; [done|]. intros [|c1 l1] cc' l2 Heq; simplify_eq/=; [done|].
        rewrite <- app_assoc. by eapply Hl.
      * intros [-> Hl]. assert (a = None) as Ha by by apply (Hl [] cc l).
        split; [subst errs1; by rewrite Ha|]. intros l1 cc' l2 ->.
        specialize (Hl (cc :: l1) cc' l2 eq_refl). simpl in Hl. by rewrite <- app_assoc in Hl.
Qed.

(** Apply sends one create request for each ClusterConfig to create and then one update
    request for each to update, in their order, whether or not some of them fail; it returns an
    error exactly if one of the requests is answered with an error. *)
Theorem Apply_sends_everything ri s :
  let creates := CallCreateClusterConfig <$> ClusterConfigsToCreate ri in
  let updates := CallUpdateClusterConfig <$> ClusterConfigsToUpdate ri in
  exists err,
    Apply (Some ri) s = (Ret err, st_set_calls (rev (creates ++ updates) ++ calls s) s) /\
    (err = None <->
     (forall l1 cc l2, ClusterConfigsToCreate ri = l1 ++ cc :: l2 ->
        api_CreateClusterConfig (rev (CallCreateClusterConfig <$> l1) ++ calls s) cc = None) /\
     (forall l1 cc l2, ClusterConfigsToUpdate ri = l1 ++ cc :: l2 ->
        api_UpdateClusterConfig
          (rev (creates ++ (CallUpdateClusterConfig <$> l1)) ++ calls s) cc = None)).
Proof.
  intros creates updates.
  destruct (apply_all_run CallCreateClusterConfig api_CreateClusterConfig
              "error creating ClusterConfig" (ClusterConfigsToCreate ri) None s) as (e1 & H1 & Hi1).
  destruct (apply_all_run CallUpdateClusterConfig api_UpdateClusterConfig
              "error updating ClusterConfig" (ClusterConfigsToUpdate ri) e1
              (st_set_calls (rev creates ++ calls s) s)) as (e2 & H2 & Hi2).
  eexists. split.
  - unfold Apply. rewrite (bindM_Ret _ _ _ _ _ H1), (bindM_Ret _ _ _ _ _ H2).
    unfold retM. simpl. rewrite rev_app_distr, <- app_assoc. reflexivity.
  - transitivity (e2 = None); [by destruct e2|]. rewrite Hi2, Hi1. simpl.
    setoid_rewrite rev_app_distr. setoid_rewrite <- app_assoc. naive_solver.
Qed.
End finish.
