(* ===== verification/RestoreDurable.v ===== *)
(** * What a restart cannot lose

    Against an API server that keeps its ClusterConfigs ([ApiStore]): after a successful
    restore the instance knows every CIDR of the existing ClusterConfigs of the selected
    clusters, and every CIDR recorded in their annotations. *)

From stdpp Require Import base list strings gmap.
From S2P Require Import Prelude GoStd GoJson Types Externals Runtime Utils Restore RestoreCheck RestoreIpam RestoreState.
Open Scope list_scope.
Open Scope Z_scope.

Notation key cc := (objectKey (cc_meta cc)).

(** ** An API server that keeps what it is sent *)

(** The metadata that the program matches by, and the rest of what the restore reads. *)
Definition same_object (a x : ClusterConfig) : Prop :=
  Namespace (cc_meta x) = Namespace (cc_meta a) /\ Name (cc_meta x) = Name (cc_meta a) /\
  Labels (cc_meta x) = Labels (cc_meta a).
Definition same_content (a x : ClusterConfig) : Prop :=
  same_object a x /\ cc_Patches x = cc_Patches a.

(** [w] has at least the patches of [v]. *)
Definition patches_sub (v w : ClusterConfig) : Prop := forall p, p ∈ cc_Patches v -> p ∈ cc_Patches w.

#[export] Instance same_object_equiv : Equivalence same_object.
Proof. unfold same_object. split; [done|by intros ?? (?&?&?)|]. intros ??? (?&?&?) (?&?&?). split_and!; congruence. Qed.

#[export] Instance patches_sub_preorder : PreOrder patches_sub.
Proof. split; unfold patches_sub; [auto|]. intros v w x H1 H2 p Hp. auto. Qed.

Lemma same_object_key a x : same_object a x -> key x = key a.
Proof. unfold objectKey. by intros (-> & -> & _). Qed.
Lemma same_object_rule `{OpenMCP} a x : same_object a x -> rule_label x = rule_label a.
Proof. unfold rule_label. by intros (_ & _ & ->). Qed.
Lemma same_object_target `{OpenMCP} a x : same_object a x -> target x = target a.
Proof. unfold target. by intros (_ & _ & ->). Qed.
Lemma same_object_belongs `{OpenMCP} cl a x : same_object a x -> belongs_to cl x = belongs_to cl a.
Proof. unfold belongs_to. by intros (-> & _ & ->). Qed.
Lemma same_content_patches a x : same_content a x -> patches_sub a x.
Proof. intros [_ Hp] p. by rewrite Hp. Qed.

Section store.
Context {OM : OpenMCP} {KA : K8sApi}.

Definition is_read (c : api_call) : bool :=
  match c with
  | CallGetCluster _ _ | CallListClusters | CallGetConfig _ | CallListClusterConfigs _ _ => true
  | _ => false
  end.

(** The ClusterConfigs by key, as a function of the requests so far: nobody else writes
    them while the restore runs. What is created or updated keeps its name, labels and
    patches; the server may fill in other fields. Clusters have distinct names. *)
Class ApiStore : Type := {
  server_ccs : list api_call -> gmap string ClusterConfig;
  stored_key h k cc : server_ccs h !! k = Some cc -> key cc = k;
  stored_List h labels ns items cc :
    api_ListClusterConfigs h labels ns = inl items ->
    cc ∈ items <-> server_ccs h !! key cc = Some cc /\ labels ⊆ Labels (cc_meta cc) /\
      match ns with Some ns => Namespace (cc_meta cc) = ns | None => True end;
  stored_read h c : is_read c = true -> server_ccs (c :: h) = server_ccs h;
  stored_Create h cc : api_CreateClusterConfig h cc = None ->
    server_ccs h !! key cc = None /\ exists x, same_content cc x /\
    server_ccs (CallCreateClusterConfig cc :: h) = <[key cc := x]> (server_ccs h);
  stored_Update h cc : api_UpdateClusterConfig h cc = None ->
    exists x, same_content cc x /\
    server_ccs (CallUpdateClusterConfig cc :: h) = <[key cc := x]> (server_ccs h);
  Patch_key h old new cc : api_PatchClusterConfig h old new = inl cc -> key cc = key old;
  ListClusters_named h all : api_ListClusters h = inl all ->
    NoDup ((fun cl => (Namespace (cl_meta cl), Name (cl_meta cl))) <$> all) /\
    forall cl, cl ∈ all -> Name (cl_meta cl) <> "" }.
End store.

(** ** The handled ClusterConfigs *)

(** Each entry is still there, with at least its patches. *)
Definition grown (m m' : gmap string ClusterConfig) : Prop :=
  forall k v, m !! k = Some v -> exists w, m' !! k = Some w /\ patches_sub v w.

#[export] Instance grown_preorder : PreOrder grown.
Proof.
  split.
  - intros m k v Hk. by exists v.
  - intros m1 m2 m3 H12 H23 k v (w & Hw & Hvw)%H12. apply H23 in Hw as (x & Hx & Hwx).
    exists x. split; [done|by etrans].
Qed.

Lemma fold_handled_inv m l k v :
  foldl add_handled m l !! k = Some v -> (v ∈ l /\ key v = k) \/ (m !! k = Some v /\ k ∉ (fun cc => key cc) <$> l).
Proof.
  change (foldl add_handled m l) with (foldl (fun m x => <[(fun cc => key cc) x := (fun cc => cc) x]> m) m l).
  intros [(y & Hy & <- & <-)|Hm]%foldl_insert_some; [by left|by right].
Qed.

Lemma fold_handled_out m l k : k ∉ ((fun cc => key cc) <$> l) -> foldl add_handled m l !! k = m !! k.
Proof. apply (foldl_insert_notin (fun cc => key cc) (fun cc => cc)). Qed.

(** Objects as they are stored are added. *)
Section add_stored.
Context (m handled : gmap string ClusterConfig) (l : list ClusterConfig).
Context (Hl : forall cc, cc ∈ l -> m !! key cc = Some cc).

Lemma fold_handled_in x : x ∈ l -> foldl add_handled handled l !! key x = Some x.
Proof.
  intros Hx.
  destruct (foldl_insert_is_some (fun cc => key cc) (fun cc => cc) l handled (key x)) as [v Hv].
  { apply list_elem_of_fmap. by exists x. }
  change (foldl add_handled handled l !! key x = Some v) in Hv. rewrite Hv.
  apply fold_handled_inv in Hv as [[Hv Hk]|[_ Hn]].
  - apply Hl in Hx, Hv. congruence.
  - destruct Hn. apply list_elem_of_fmap. by exists x.
Qed.

Lemma fold_handled_grown_in : grown handled m -> grown (foldl add_handled handled l) m.
Proof. intros Hh k v [[Hv <-]|[Hv _]]%fold_handled_inv; [exists v; by rewrite (Hl v)|by apply Hh]. Qed.

Lemma fold_handled_grown_out : grown handled m -> grown handled (foldl add_handled handled l).
Proof.
  intros Hh k v Hk. destruct (Hh k v Hk) as (w & Hw & Hsub).
  destruct (decide (k ∈ (fun cc => key cc) <$> l)) as [Hin|Hin].
  - apply list_elem_of_fmap in Hin as (cc & -> & Hcc). exists cc. rewrite fold_handled_in by done.
    apply Hl in Hcc. by simplify_eq.
  - exists v. by rewrite fold_handled_out.
Qed.
End add_stored.

Section durable.
Context {OM : OpenMCP} {GI : GoIpam} {KA : K8sApi} {CU : CtrlUtils} {GO : GoMapOrder}.
Context {GL : GoIpamLaws} {CL : CtrlUtilsLaws} {OL : OpenMCPLaws} {AS : ApiStore}.

(** ** Sending the instruction *)

(** A sequence of accepted requests, when what is stored is related by [R] to what is sent. *)
Section requests.
Context (R : ClusterConfig -> ClusterConfig -> Prop).
Context (HC : forall h cc, api_CreateClusterConfig h cc = None ->
  server_ccs h !! key cc = None /\ exists x, R cc x /\
  server_ccs (CallCreateClusterConfig cc :: h) = <[key cc := x]> (server_ccs h)).
Context (HU : forall h cc, api_UpdateClusterConfig h cc = None ->
  exists x, R cc x /\ server_ccs (CallUpdateClusterConfig cc :: h) = <[key cc := x]> (server_ccs h)).

Lemma creates_kept l h :
  (forall l1 cc l2, l = l1 ++ cc :: l2 ->
     api_CreateClusterConfig (rev (CallCreateClusterConfig <$> l1) ++ h) cc = None) ->
  let m' := server_ccs (rev (CallCreateClusterConfig <$> l) ++ h) in
  server_ccs h ⊆ m' /\
  (forall n, n ∈ l -> server_ccs h !! key n = None /\ exists x, R n x /\ m' !! key n = Some x) /\
  (forall k x, m' !! k = Some x -> server_ccs h !! k = Some x \/ exists n, n ∈ l /\ R n x).
Proof.
  revert h. induction l as [|cc l IH]; intros h Hl; simpl.
  { split_and!; [done|by intros n ?%not_elem_of_nil|by left]. }
  destruct (HC h cc (Hl [] cc l eq_refl)) as (Hnone & x & Hx & Hst). rewrite <- app_assoc. simpl.
  destruct (IH (CallCreateClusterConfig cc :: h)) as (Hsub & Hin & Hout).
  { intros l1 c l2 ->. specialize (Hl (cc :: l1) c l2 eq_refl). simpl in Hl. by rewrite <- app_assoc in Hl. }
  rewrite Hst in Hsub, Hin, Hout. split_and!.
  - etrans; [|exact Hsub]. by apply insert_subseteq.
  - intros n [->|Hn]%elem_of_cons.
    + split; [done|]. exists x. split; [done|]. eapply lookup_weaken; [|exact Hsub]. apply lookup_insert_eq.
    + destruct (Hin n Hn) as [H1 H2]. split; [|done]. by apply lookup_insert_None in H1 as [H1 _].
  - intros k y [Hk|(n & Hn & Hy)]%Hout; [|right; exists n; split; [by right|done]].
    apply lookup_insert_Some in Hk as [[<- <-]|[_ Hk]]; [right; exists cc; split; [by left|done]|by left].
Qed.

Lemma updates_kept l h :
  (forall l1 cc l2, l = l1 ++ cc :: l2 ->
     api_UpdateClusterConfig (rev (CallUpdateClusterConfig <$> l1) ++ h) cc = None) ->
  let m' := server_ccs (rev (CallUpdateClusterConfig <$> l) ++ h) in
  forall k, (k ∉ (fun cc => key cc) <$> l /\ m' !! k = server_ccs h !! k) \/
            exists u x, u ∈ l /\ key u = k /\ R u x /\ m' !! k = Some x.
Proof.
  induction l as [|cc l IH] using rev_ind; intros Hl m' k; [left; split; [apply not_elem_of_nil|done]|].
  subst m'. rewrite (fmap_app CallUpdateClusterConfig), rev_app_distr. cbn [app rev fmap list_fmap].
  destruct (HU _ cc (Hl l cc [] eq_refl)) as (x & Hx & ->).
  destruct (decide (key cc = k)) as [<-|Hne].
  { right. exists cc, x. rewrite lookup_insert_eq. split_and!; [set_solver|done..]. }
  rewrite lookup_insert_ne by done. destruct (IH) with (k := k) as [[Hk Hm]|(u & y & Hu & Hk & Hy & Hm)].
  - intros l1 c l2 ->. apply (Hl l1 c (l2 ++ [cc])). by rewrite <- app_assoc.
  - left. rewrite fmap_app. set_solver.
  - right. exists u, y. split_and!; [set_solver|done..].
Qed.

End requests.

Lemma creates_stored l h :
  (forall l1 cc l2, l = l1 ++ cc :: l2 ->
     api_CreateClusterConfig (rev (CallCreateClusterConfig <$> l1) ++ h) cc = None) ->
  let m' := server_ccs (rev (CallCreateClusterConfig <$> l) ++ h) in
  server_ccs h ⊆ m' /\
  (forall n, n ∈ l -> server_ccs h !! key n = None /\ exists x, same_content n x /\ m' !! key n = Some x) /\
  (forall k x, m' !! k = Some x -> server_ccs h !! k = Some x \/ exists n, n ∈ l /\ same_content n x).
Proof. exact (creates_kept same_content stored_Create l h). Qed.

Lemma updates_stored l h :
  (forall l1 cc l2, l = l1 ++ cc :: l2 ->
     api_UpdateClusterConfig (rev (CallUpdateClusterConfig <$> l1) ++ h) cc = None) ->
  let m' := server_ccs (rev (CallUpdateClusterConfig <$> l) ++ h) in
  forall k, (k ∉ (fun cc => key cc) <$> l /\ m' !! k = server_ccs h !! k) \/
            exists u x, u ∈ l /\ key u = k /\ same_content u x /\ m' !! k = Some x.
Proof. exact (updates_kept same_content stored_Create stored_Update l h). Qed.

Definition ours (s : gostate) (cc : ClusterConfig) : Prop :=
  labels_of (providerName s) (environment s) None "" ⊆ Labels (cc_meta cc).

(** A ClusterConfig with the metadata generated for the rule. *)
Definition generated_for (cl : Cluster) (r : string) (s : gostate) (x : ClusterConfig) : Prop :=
  Namespace (cc_meta x) = Namespace (cl_meta cl) /\
  GenerateClusterConfigName (Some cl) r = inl (Name (cc_meta x)) /\
  Labels (cc_meta x) = labels_of (providerName s) (environment s) (Some cl) r /\ r <> "".

Lemma Generate_generated cl r inj s n s' :
  GenerateClusterConfigForInjectionList cl r inj s = (Ret (inl n), s') -> generated_for cl r s n.
Proof.
  unfold GenerateClusterConfigForInjectionList, generated_for.
  destruct (GenerateClusterConfigName _ _) as [name|] eqn:Hname; intros Hrun; go_run.
  match goal with H : ClusterConfigLabels _ _ _ = _ |- _ =>
    apply ClusterConfigLabels_run in H as [-> ->] end.
  split_and!; [done..|]. intros ->. unfold GenerateClusterConfigName in Hname. by rewrite decide_True in Hname.
Qed.

Lemma generated_same cl r s n x : same_object n x -> generated_for cl r s n -> generated_for cl r s x.
Proof. unfold generated_for. by intros (-> & -> & ->). Qed.

Lemma generated_facts cl r s x :
  generated_for cl r s x -> ours s x /\ belongs_to cl x = true /\ rule_label x = r /\
    labels_of (providerName s) (environment s) (Some cl) "" ⊆ Labels (cc_meta x).
Proof.
  intros (Hns & _ & Hl & Hr). pose proof (labels_of_mono (providerName s) (environment s) cl r) as [Hm1 Hm2].
  pose proof labels_distinct as Hd. rewrite !NoDup_cons, !not_elem_of_cons in Hd.
  unfold ours, belongs_to, rule_label. rewrite Hns, Hl. split_and!; [by etrans| | |done].
  - rewrite bool_decide_true by done. apply bool_decide_eq_true. unfold labels_of.
    rewrite decide_True, lookup_insert_ne by (done || naive_solver). by rewrite lookup_insert_eq.
  - unfold labels_of. rewrite decide_True by done. by rewrite lookup_insert_eq.
Qed.

(** The requests of an instruction that all succeed. *)
Lemma apply_stored ri s s' :
  Apply (Some ri) s = (Ret None, s') ->
  let creates := ClusterConfigsToCreate ri in let updates := ClusterConfigsToUpdate ri in
  let h1 := rev (CallCreateClusterConfig <$> creates) ++ calls s in
  calls s' = rev (CallUpdateClusterConfig <$> updates) ++ h1 /\
  (forall l1 cc l2, creates = l1 ++ cc :: l2 ->
     api_CreateClusterConfig (rev (CallCreateClusterConfig <$> l1) ++ calls s) cc = None) /\
  (forall l1 cc l2, updates = l1 ++ cc :: l2 ->
     api_UpdateClusterConfig (rev (CallUpdateClusterConfig <$> l1) ++ h1) cc = None).
Proof.
  intros Hrun. destruct (Apply_sends_everything ri s) as (err & Happ & Hok).
  rewrite Happ in Hrun. injection Hrun as -> <-. destruct (proj1 Hok eq_refl) as [Hc Hu].
  split_and!; [by simpl; rewrite rev_app_distr, <- app_assoc|exact Hc|].
  intros l1 cc l2 Hl. specialize (Hu l1 cc l2 Hl). by rewrite rev_app_distr, <- app_assoc in Hu.
Qed.

(** ** What applying the instruction of one cluster does to the stored ClusterConfigs *)

Section instruction.
Context (cl : Cluster) (a : AppliedRulesAnnotation) (mine : list ClusterConfig) (s : gostate).
Notation ccs := (foldl (fun (m : gmap string ClusterConfig) cc => <[rule_label cc := cc]> m) ∅ mine).
Context (ri : RestorationInstruction) (s1 s' : gostate).
Context (Hmine : forall cc, cc ∈ mine -> server_ccs (calls s) !! key cc = Some cc).
Context (Hcheck : CheckClusterConfigsForCluster cl (Some a) (Some ccs) s = (Ret (inl ri), s1)).
Context (Happly : Apply (Some ri) s1 = (Ret None, s')).

Lemma ccs_mine r cc : ccs !! r = Some cc -> cc ∈ mine /\ rule_label cc = r.
Proof.
  change ccs with
    (foldl (fun (m : gmap string ClusterConfig) x => <[rule_label x := (fun cc => cc) x]> m) ∅ mine).
  intros [(y & Hy & <- & <-)|[Hm _]]%foldl_insert_some; [done|]. by rewrite lookup_empty in Hm.
Qed.

Lemma ccs_complete cc : cc ∈ mine -> is_Some (ccs !! rule_label cc).
Proof.
  intros Hcc. apply (foldl_insert_is_some rule_label (fun cc => cc)). apply list_elem_of_fmap. by exists cc.
Qed.

(** A ClusterConfig to update stems from one of the cluster's. *)
Lemma update_source u :
  u ∈ ClusterConfigsToUpdate ri ->
  exists cc, cc ∈ mine /\ same_object cc u /\ patches_sub cc u /\
    forall path cidr, nil_map (default None (a !! rule_label cc)) !! path = Some cidr ->
      has_path path (cc_Patches cc) = true \/ injection_patch path cidr ∈ cc_Patches u.
Proof.
  destruct (check_spec _ _ _ _ _ _ Hcheck) as (_ & new & upd & _ & -> & Hupd & _).
  intros (v & -> & (r & Hr)%elem_of_range_values)%list_elem_of_fmap. specialize (Hupd r). rewrite Hr in Hupd.
  symmetry in Hupd. apply bind_Some in Hupd as (cc & Hcc & (Hp & _ & Hm & _)%updated_of_shape).
  pose proof (ccs_mine _ _ Hcc) as [Hin <-]. exists cc. split_and!; [done| | |].
  - unfold same_object. simpl. rewrite Hm. by destruct (wants_finalizer cc).
  - intros p Hp'. apply SortPatches_elem. rewrite Hp. set_solver.
  - intros path cidr Ha. destruct (has_path path (cc_Patches cc)) eqn:Hh; [by left|]. right.
    apply SortPatches_elem. rewrite Hp. apply elem_of_app. right. apply injection_patches_elem.
    exists path, cidr. split; [|done]. by rewrite missing_lookup, Hcc, Hh.
Qed.

Lemma create_source n :
  n ∈ ClusterConfigsToCreate ri -> exists r, ccs !! r = None /\ generated_for cl r s n.
Proof.
  destruct (check_spec _ _ _ _ _ _ Hcheck) as (_ & new & upd & -> & _ & _ & Hnew).
  intros (r & Hr)%elem_of_range_values. specialize (Hnew r). rewrite Hr in Hnew.
  case_decide as Hd; [|done]. destruct Hnew as (cc & Hg%Generate_generated & Hn). exists r.
  case_decide; simplify_eq. by destruct Hd.
Qed.

Lemma check_calls : calls s1 = calls s.
Proof. by destruct (check_spec _ _ _ _ _ _ Hcheck) as (-> & _). Qed.

Notation m := (server_ccs (calls s)).
Notation m' := (server_ccs (calls s')).

(** Where what is stored afterwards comes from. *)
Lemma stored_after k x :
  m' !! k = Some x ->
  (exists cc, m !! k = Some cc /\ same_object cc x /\ patches_sub cc x /\ (cc ∉ mine -> x = cc)) \/
  (exists r, ccs !! r = None /\ generated_for cl r s x).
Proof.
  destruct (apply_stored _ _ _ Happly) as (-> & Hc & Hu). rewrite check_calls in *.
  apply creates_stored in Hc as (_ & _ & Hout). intros Hk.
  destruct (updates_stored _ _ Hu k) as [[_ Hsame]|(u & y & Hin & <- & Hy & Hsame)].
  - rewrite Hsame in Hk. apply Hout in Hk as [Hk|(n & Hn & [Hx _])].
    + left. by exists x.
    + right. apply create_source in Hn as (r & Hr & Hg). exists r. split; [done|]. by eapply generated_same.
  - rewrite Hsame in Hk. simplify_eq. destruct (update_source u Hin) as (cc & Hcc & Ho & Hs & _).
    left. exists cc. rewrite (same_object_key cc u Ho). split_and!; [by apply Hmine| | |done].
    + etrans; [exact Ho|apply Hy].
    + etrans; [exact Hs|by apply same_content_patches].
Qed.

(** Nothing is lost. *)
Lemma stored_kept k cc :
  m !! k = Some cc -> exists x, m' !! k = Some x /\ same_object cc x /\ patches_sub cc x /\ (cc ∉ mine -> x = cc).
Proof.
  destruct (apply_stored _ _ _ Happly) as (-> & Hc & Hu). rewrite check_calls in *.
  apply creates_stored in Hc as (Hsub & _ & _). intros Hk.
  pose proof (lookup_weaken _ _ _ _ Hk Hsub) as Hk'.
  destruct (updates_stored _ _ Hu k) as [[_ Hsame]|(u & y & Hin & <- & Hy & Hsame)].
  - exists cc. by rewrite Hsame.
  - destruct (update_source u Hin) as (cc0 & Hcc & Ho & Hs & _).
    pose proof (Hmine _ Hcc) as Hst. rewrite <- (same_object_key cc0 u Ho) in Hst. simplify_eq.
    exists y. split_and!; [done| | |done].
    + etrans; [exact Ho|apply Hy].
    + etrans; [exact Hs|by apply same_content_patches].
Qed.

(** Every entry of the annotation is found, unless its path was there before. *)
Lemma stored_restored r path cidr :
  nil_map (default None (a !! r)) !! path = Some cidr ->
  (forall name, GenerateClusterConfigName (Some cl) r = inl name -> name <> EmptyClusterNamePlaceholder) ->
  (exists cc, cc ∈ mine /\ rule_label cc = r /\ has_path path (cc_Patches cc) = true) \/
  (Size (Some ri) <> (0%nat, 0%nat) /\ exists k x,
     m' !! k = Some x /\ injection_patch path cidr ∈ cc_Patches x /\ rule_label x = r /\
     ((exists cc, cc ∈ mine /\ same_object cc x) \/ generated_for cl r s x)).
Proof.
  intros Ha Hname. destruct (apply_stored _ _ _ Happly) as (-> & Hc & Hu). rewrite check_calls in *.
  apply creates_stored in Hc as (_ & Hin & _).
  pose proof (missing_lookup a ccs r path) as Hmiss. rewrite Ha in Hmiss.
  destruct (check_spec _ _ _ _ _ _ Hcheck) as (_ & new & upd & Hcr & Hup & Hupd & Hnew).
  specialize (Hupd r). specialize (Hnew r). destruct (ccs !! r) as [cc|] eqn:Hcc; simpl in Hupd.
  - pose proof (ccs_mine _ _ Hcc) as [Hmem Hrl].
    destruct (has_path path (cc_Patches cc)) eqn:Hh; [left; by exists cc|]. right.
    unfold updated_of in Hupd. rewrite decide_False in Hupd
      by (intros He; rewrite He, lookup_empty in Hmiss; congruence).
    set (u0 := if wants_finalizer cc then _ else _) in Hupd.
    assert (SortPatches u0 ∈ ClusterConfigsToUpdate ri) as Hu0.
    { rewrite Hup. apply list_elem_of_fmap_2, elem_of_range_values. by exists r. }
    assert (key (SortPatches u0) = key cc) as Hkey by (subst u0; by destruct (wants_finalizer cc)).
    split; [simpl; by destruct (ClusterConfigsToUpdate ri); [apply not_elem_of_nil in Hu0|intros [=]]|].
    destruct (updates_stored _ _ Hu (key cc)) as [[Hno _]|(u & y & Huin & Huk & Hy & Hst)].
    { destruct Hno. rewrite <- Hkey. by apply (list_elem_of_fmap_2 (fun cc => key cc)). }
    destruct (update_source u Huin) as (cc0 & Hcc0 & Ho & _ & Hpath).
    assert (cc0 = cc) as -> .
    { pose proof (Hmine _ Hcc0) as H0. pose proof (Hmine _ Hmem) as H1.
      rewrite <- (same_object_key cc0 u Ho), Huk, H1 in H0. by simplify_eq. }
    exists (key cc), y. split_and!; [done| | |].
    + apply (same_content_patches _ _ Hy). destruct (Hpath path cidr) as [Hp|Hp]; [|congruence|done].
      by rewrite Hrl.
    + rewrite <- Hrl. apply same_object_rule. etrans; [exact Ho|apply Hy].
    + left. exists cc. split; [done|]. etrans; [exact Ho|apply Hy].
  - right. rewrite decide_True in Hnew
      by (split; [done|]; intros He; rewrite He, lookup_empty in Hmiss; congruence).
    destruct Hnew as (n & Hg & Hn). pose proof (Generate_generated _ _ _ _ _ _ Hg) as Hgf.
    rewrite decide_False in Hn by (by apply Hname; apply Hgf).
    assert (n ∈ ClusterConfigsToCreate ri) as Hcreate by (rewrite Hcr; apply elem_of_range_values; by exists r).
    split; [simpl; by destruct (ClusterConfigsToCreate ri); [apply not_elem_of_nil in Hcreate|intros [=]]|].
    destruct (Hin n Hcreate) as (Hnone & x & Hx & Hst).
    exists (key n), x. pose proof (generated_same _ _ _ _ _ (proj1 Hx) Hgf) as Hgx. split_and!; [|..|by right].
    + destruct (updates_stored _ _ Hu (key n)) as [[_ ->]|(u & y & Huin & Huk & _)]; [done|].
      destruct (update_source u Huin) as (cc0 & Hcc0 & Ho & _).
      pose proof (Hmine _ Hcc0) as H0. rewrite <- (same_object_key cc0 u Ho), Huk in H0. by rewrite Hnone in H0.
    + apply (same_content_patches _ _ Hx). rewrite (Generate_patches _ _ _ _ _ _ Hg).
      apply injection_patches_elem. exists path, cidr. split; [congruence|done].
    + by apply (generated_facts cl r s).
Qed.
End instruction.

(** ** One cluster of the loop *)

Lemma labels_of_cluster p e cl :
  labels_of p e (Some cl) "" = <[ClusterTargetLabel := Name (cl_meta cl)]> (labels_of p e None "").
Proof. unfold labels_of. by rewrite !(decide_False (P := "" <> "")) by (intros []; done). Qed.

(** What the list for a cluster selects, among what belongs to it. *)
Lemma cluster_selected cl s x :
  Name (cl_meta cl) <> "" ->
  labels_of (providerName s) (environment s) (Some cl) "" ⊆ Labels (cc_meta x) /\
    Namespace (cc_meta x) = Namespace (cl_meta cl) <->
  ours s x /\ belongs_to cl x = true.
Proof.
  intros Hname. unfold ours, belongs_to. rewrite andb_true_iff, !bool_decide_eq_true.
  pose proof (labels_of_mono (providerName s) (environment s) cl "") as [Hm _]. rewrite labels_of_cluster in *. split.
  - intros [Hsub Hns]. split_and!; [by etrans|done|].
    rewrite map_subseteq_spec in Hsub. by rewrite (Hsub ClusterTargetLabel (Name (cl_meta cl))) by apply lookup_insert_eq.
  - intros (Hsub & Hns & Ht). split; [|done]. rewrite map_subseteq_spec in Hsub |- *.
    intros k v [[<- <-]|[_ Hk]]%lookup_insert_Some; [|by apply Hsub].
    destruct (Labels (cc_meta x) !! ClusterTargetLabel); simpl in Ht; congruence.
Qed.

Lemma FetchFor_stored cl s found s' :
  Name (cl_meta cl) <> "" ->
  FetchClusterConfigsForCluster cl s = (Ret (inl found), s') ->
  server_ccs (calls s') = server_ccs (calls s) /\
  (forall cc, cc ∈ (range found).*2 -> server_ccs (calls s) !! key cc = Some cc /\ ours s cc /\ belongs_to cl cc = true) /\
  (forall k x, server_ccs (calls s) !! k = Some x -> ours s x -> belongs_to cl x = true ->
     exists cc, cc ∈ (range found).*2 /\ rule_label cc = rule_label x).
Proof.
  unfold FetchClusterConfigsForCluster, client_ListClusterConfigs, request. intros Hname Hrun.
  apply bindM_Ret_inv in Hrun as (labels & s1 & [-> ->]%ClusterConfigLabels_run & Hrun).
  apply bindM_Ret_inv in Hrun as (res & s2 & [= <- <-] & Hrun).
  destruct (api_ListClusterConfigs _ _ _) as [items|e] eqn:Hlist; go_run.
  assert (forall cc, cc ∈ items <-> server_ccs (calls s) !! key cc = Some cc /\ ours s cc /\ belongs_to cl cc = true) as Hitems.
  { intros cc. rewrite (stored_List _ _ _ _ cc Hlist). by rewrite cluster_selected. }
  split_and!; [by apply stored_read| |].
  - intros cc (r & Hr)%elem_of_range_values. apply ProjectSliceToMap_sound in Hr.
    apply list_elem_of_fmap in Hr as (y & [= _ ->] & Hy). by apply Hitems.
  - intros k x Hx Ho Hb. rewrite <- (stored_key _ _ _ Hx) in Hx.
    destruct (ProjectSliceToMap_complete items
      (fun cc => (default "" (Labels (cc_meta cc) !! InjectionRuleLabel), cc)) (rule_label x)) as [cc Hcc].
    { rewrite <- list_fmap_compose. apply list_elem_of_fmap. exists x. split; [done|]. by apply Hitems. }
    exists cc. split; [apply elem_of_range_values; by exists (rule_label x)|].
    apply ProjectSliceToMap_sound, list_elem_of_fmap in Hcc as (y & [= Hl ->] & _). done.
Qed.

Lemma Apply_nothing ri s : Size (Some ri) = (0%nat, 0%nat) -> Apply (Some ri) s = (Ret None, s).
Proof. destruct ri as [[] []]; done. Qed.

Definition cluster_ccs (mine : list ClusterConfig) : gmap string ClusterConfig :=
  foldl (fun m cc => <[rule_label cc := cc]> m) ∅ mine.

(** The calls of a step without errors. *)
Lemma restore_cluster_run acc cl s acc' s' :
  Name (cl_meta cl) <> "" ->
  restore_cluster acc cl s = (Ret acc', s') -> r_errs acc' = None ->
  let mine := filter (fun cc => belongs_to cl cc = true) (r_ccs acc) in
  r_errs acc = None /\ exists a ri s1 s2 found,
    parse_applied_rules cl = inl a /\
    CheckClusterConfigsForCluster cl (Some a) (Some (cluster_ccs mine)) s = (Ret (inl ri), s1) /\
    Apply (Some ri) s1 = (Ret None, s2) /\
    server_ccs (calls s') = server_ccs (calls s2) /\
    r_ccs acc' = filter (fun cc => belongs_to cl cc = false) (r_ccs acc) /\
    r_handled acc' = foldl add_handled (foldl add_handled (r_handled acc) mine) found /\
    (forall cc, cc ∈ found -> server_ccs (calls s2) !! key cc = Some cc /\ ours s cc /\ belongs_to cl cc = true) /\
    (Size (Some ri) <> (0%nat, 0%nat) ->
     forall k x, server_ccs (calls s2) !! k = Some x -> ours s x -> belongs_to cl x = true ->
       exists cc, cc ∈ found /\ rule_label cc = rule_label x).
Proof.
  intros Hname Hrun Herr mine. unfold restore_cluster in Hrun. cbv zeta in Hrun. fold mine in Hrun.
  change (foldl _ ∅ mine) with (cluster_ccs mine) in Hrun.
  apply bindM_Ret_inv in Hrun as ([ri|e] & s1 & Hcheck & Hrun).
  2:{ go_run. simpl in Herr. by apply errors_Join_some in Herr. }
  assert (exists a, parse_applied_rules cl = inl a /\
    CheckClusterConfigsForCluster cl (Some a) (Some (cluster_ccs mine)) s = (Ret (inl ri), s1)) as (a & Ha & Hcheck').
  { unfold CheckClusterConfigsForCluster in Hcheck |- *.
    destruct (parse_applied_rules cl) as [a|e]; [by exists a|done]. }
  assert (only_calls s s1) as Ho1 by (eapply preserves_run; [apply Check_only_calls|exact Hcheck]).
  destruct (Size (Some ri)) as [c u] eqn:Hsize. cbv iota beta in Hrun. destruct ((_ || _)%bool) eqn:Hpos.
  2:{ apply orb_false_iff in Hpos as [Hc%Nat.ltb_ge Hu%Nat.ltb_ge]. go_run. split; [done|].
      assert (Size (Some ri) = (0%nat, 0%nat)) as Hz by (etrans; [exact Hsize|f_equal; lia]).
      exists a, ri, s', s', []. split_and!; [done..|by apply Apply_nothing|done|done|done|by intros ? ?%not_elem_of_nil|].
      intros Hn. by destruct Hn. }
  apply bindM_Ret_inv in Hrun as ([e|] & s2 & Happ & Hrun).
  { go_run. simpl in Herr. by apply errors_Join_some in Herr. }
  assert (only_calls s1 s2) as Ho2 by (eapply preserves_run; [apply Apply_only_calls|exact Happ]).
  apply bindM_Ret_inv in Hrun as ([found|e] & s3 & Hf & Hrun);
    unfold retM in Hrun; injection Hrun as <- <-.
  2:{ simpl in Herr. by apply errors_Join_some in Herr. }
  split; [done|]. apply FetchFor_stored in Hf as (Hst & Hf1 & Hf2); [|done].
  assert (forall cc, ours s cc <-> ours s2 cc) as Hours.
  { intros cc. unfold ours, only_calls in *. rewrite Ho2, Ho1. done. }
  setoid_rewrite Hours. exists a, ri, s1, s2, (range found).*2. by split_and!.
Qed.

(** ** The loop over the clusters *)

(** A cluster has at most one of the process's ClusterConfigs for each rule. *)
Definition one_per_rule (s : gostate) (m : gmap string ClusterConfig) : Prop :=
  forall k1 k2 x y, m !! k1 = Some x -> m !! k2 = Some y -> ours s x -> ours s y ->
    Namespace (cc_meta x) = Namespace (cc_meta y) -> target x = target y -> rule_label x = rule_label y -> k1 = k2.

(** An annotated injection is in a handled ClusterConfig, or its path was there in [m0]. *)
Definition injection_kept (s : gostate) (m0 handled : gmap string ClusterConfig) (cl : Cluster)
    (r path cidr : string) : Prop :=
  (exists k v, handled !! k = Some v /\ injection_patch path cidr ∈ cc_Patches v) \/
  (exists k cc, m0 !! k = Some cc /\ ours s cc /\ belongs_to cl cc = true /\ rule_label cc = r /\
     has_path path (cc_Patches cc) = true).

(** The webhook's placeholder is no name of a ClusterConfig of the rule. *)
Definition named_rule (cl : Cluster) (r : string) : Prop :=
  forall name, GenerateClusterConfigName (Some cl) r = inl name -> name <> EmptyClusterNamePlaceholder.

Record durable (s : gostate) (m0 : gmap string ClusterConfig) (done : list Cluster) (acc : restore_acc)
    (m : gmap string ClusterConfig) : Prop := {
  d_handled : grown (r_handled acc) m;
  d_rest cc : cc ∈ r_ccs acc <->
    m !! key cc = Some cc /\ ours s cc /\ forall cl, cl ∈ done -> belongs_to cl cc = false;
  d_rest0 cc : cc ∈ r_ccs acc -> m0 !! key cc = Some cc;
  d_new cc : cc ∈ r_ccs acc -> r_handled acc !! key cc = None;
  d_rule : one_per_rule s m;
  d_existing k cc : m0 !! k = Some cc -> ours s cc ->
    cc ∈ r_ccs acc \/ exists v, r_handled acc !! key cc = Some v /\ patches_sub cc v;
  d_annotated cl a r path cidr : cl ∈ done -> parse_applied_rules cl = inl a -> named_rule cl r ->
    nil_map (default None (a !! r)) !! path = Some cidr -> injection_kept s m0 (r_handled acc) cl r path cidr }.

Lemma belongs_to_two cl cl' cc :
  belongs_to cl cc = true -> belongs_to cl' cc = true ->
  (Namespace (cl_meta cl), Name (cl_meta cl)) = (Namespace (cl_meta cl'), Name (cl_meta cl')).
Proof. unfold belongs_to. rewrite !andb_true_iff, !bool_decide_eq_true. naive_solver congruence. Qed.

Lemma belongs_to_same cl x y :
  Namespace (cc_meta x) = Namespace (cc_meta y) -> target x = target y -> belongs_to cl x = belongs_to cl y.
Proof. unfold target, belongs_to. by intros -> ->. Qed.

Lemma injection_kept_grown s m0 handled handled' cl r path cidr :
  grown handled handled' -> injection_kept s m0 handled cl r path cidr -> injection_kept s m0 handled' cl r path cidr.
Proof. intros Hg [(k & v & (w & Hw & Hs)%Hg & Hv)|H]; [left; exists k, w; auto|by right]. Qed.

Section step.
Context (s : gostate) (m0 : gmap string ClusterConfig) (done : list Cluster) (cl : Cluster) (acc acc' : restore_acc) (s' : gostate).
Context (Hfresh : forall c, c ∈ done -> (Namespace (cl_meta c), Name (cl_meta c)) <> (Namespace (cl_meta cl), Name (cl_meta cl))).
Context (Hinv : durable s m0 done acc (server_ccs (calls s))).
Notation mine := (filter (fun cc => belongs_to cl cc = true) (r_ccs acc)).
Context (a : AppliedRulesAnnotation) (ri : RestorationInstruction) (s1 s2 : gostate) (found : list ClusterConfig).
Context (Hparse : parse_applied_rules cl = inl a).
Context (Hcheck : CheckClusterConfigsForCluster cl (Some a) (Some (cluster_ccs mine)) s = (Ret (inl ri), s1)).
Context (Happly : Apply (Some ri) s1 = (Ret None, s2)).
Context (Hrest : r_ccs acc' = filter (fun cc => belongs_to cl cc = false) (r_ccs acc)).
Context (Hhandled : r_handled acc' = foldl add_handled (foldl add_handled (r_handled acc) mine) found).
Context (Hfound : forall cc, cc ∈ found -> server_ccs (calls s2) !! key cc = Some cc /\ ours s cc /\ belongs_to cl cc = true).
Context (Hall : Size (Some ri) <> (0%nat, 0%nat) ->
  forall k x, server_ccs (calls s2) !! k = Some x -> ours s x -> belongs_to cl x = true ->
    exists cc, cc ∈ found /\ rule_label cc = rule_label x).
Notation m := (server_ccs (calls s)).
Notation m' := (server_ccs (calls s2)).

Lemma mine_elem cc :
  cc ∈ mine <-> m !! key cc = Some cc /\ ours s cc /\ belongs_to cl cc = true.
Proof.
  rewrite list_elem_of_filter, (d_rest _ _ _ _ _ Hinv). split; [naive_solver|].
  intros (Hm & Ho & Hb). split_and!; [done..|]. intros c Hc. apply not_true_is_false. intros Hb'.
  apply (Hfresh c Hc). by eapply belongs_to_two.
Qed.

Lemma mine_stored cc : cc ∈ mine -> m !! key cc = Some cc.
Proof. intros Hcc. by apply mine_elem. Qed.

Lemma step_grown :
  grown (r_handled acc) (foldl add_handled (r_handled acc) mine) /\
  grown (foldl add_handled (r_handled acc) mine) (r_handled acc') /\ grown (r_handled acc') m'.
Proof.
  pose proof (d_handled _ _ _ _ _ Hinv) as Hg.
  assert (grown m m') as Hmm.
  { intros k v Hk. destruct (stored_kept _ _ _ _ _ _ _ mine_stored Hcheck Happly k v Hk) as (x & Hx & _ & Hs & _). by exists x. }
  pose proof (fold_handled_grown_in m (r_handled acc) mine mine_stored Hg) as Hg1.
  assert (grown (foldl add_handled (r_handled acc) mine) m') as Hg2 by by etrans.
  assert (forall cc, cc ∈ found -> m' !! key cc = Some cc) as Hf by (intros cc Hcc; by apply Hfound).
  rewrite Hhandled. split_and!; [exact (fold_handled_grown_out m _ _ mine_stored Hg)| |].
  - by apply (fold_handled_grown_out m').
  - by apply (fold_handled_grown_in m').
Qed.

(** A ClusterConfig of another cluster is as before. *)
Lemma step_other k x :
  belongs_to cl x = false -> m' !! k = Some x <-> m !! k = Some x.
Proof.
  intros Hb. split; intros Hk.
  - destruct (stored_after _ _ _ _ _ _ _ mine_stored Hcheck Happly k x Hk)
      as [(cc & Hcc & Ho & _ & Heq)|(r & _ & Hg)].
    + rewrite (same_object_belongs cl _ _ Ho) in Hb. rewrite Heq; [done|].
      intros Hin%mine_elem. destruct Hin as (_ & _ & Hin). by rewrite Hin in Hb.
    + apply generated_facts in Hg as (_ & Hb' & _). by rewrite Hb' in Hb.
  - destruct (stored_kept _ _ _ _ _ _ _ mine_stored Hcheck Happly k x Hk) as (y & Hy & _ & _ & Heq).
    rewrite Hy, Heq; [done|]. intros Hin%mine_elem. destruct Hin as (_ & _ & Hin). by rewrite Hin in Hb.
Qed.

Lemma step_one_per_rule : one_per_rule s m'.
Proof.
  assert (forall x r z, cluster_ccs mine !! r = None -> m !! key x = Some x -> ours s x ->
    generated_for cl r s z -> Namespace (cc_meta x) = Namespace (cc_meta z) -> target x = target z ->
    rule_label x = rule_label z -> False) as Hno.
  { intros x r z Hr Hx Hox Hg Hns Ht Hl. pose proof (generated_facts _ _ _ _ Hg) as (_ & Hb & Hrl & _).
    rewrite <- (belongs_to_same cl x z) in Hb by done.
    assert (x ∈ mine) as Hin by by apply mine_elem.
    destruct (ccs_complete mine x Hin) as [y Hy]. unfold cluster_ccs in Hr. congruence. }
  intros k1 k2 x y Hx Hy Hox Hoy Hns Ht Hl.
  destruct (stored_after _ _ _ _ _ _ _ mine_stored Hcheck Happly k1 x Hx) as [(x0 & Hx0 & Hsx & _)|(r1 & Hr1 & Hg1)],
    (stored_after _ _ _ _ _ _ _ mine_stored Hcheck Happly k2 y Hy) as [(y0 & Hy0 & Hsy & _)|(r2 & Hr2 & Hg2)].
  - apply (d_rule _ _ _ _ _ Hinv k1 k2 x0 y0); [done|done|unfold ours in *..| | |].
    + by destruct Hsx as (_ & _ & <-).
    + by destruct Hsy as (_ & _ & <-).
    + destruct Hsx as (<- & _), Hsy as (<- & _). done.
    + rewrite <- (same_object_target _ _ Hsx), <- (same_object_target _ _ Hsy). done.
    + rewrite <- (same_object_rule _ _ Hsx), <- (same_object_rule _ _ Hsy). done.
  - exfalso. eapply (Hno x0 r2 y Hr2); [by rewrite (stored_key _ _ _ Hx0)| |done|..].
    + unfold ours. by destruct Hsx as (_ & _ & <-).
    + by destruct Hsx as (<- & _).
    + by rewrite <- (same_object_target _ _ Hsx).
    + by rewrite <- (same_object_rule _ _ Hsx).
  - exfalso. eapply (Hno y0 r1 x Hr1); [by rewrite (stored_key _ _ _ Hy0)| |done|..].
    + unfold ours. by destruct Hsy as (_ & _ & <-).
    + by destruct Hsy as (<- & _).
    + by rewrite <- (same_object_target _ _ Hsy).
    + by rewrite <- (same_object_rule _ _ Hsy).
  - rewrite <- (stored_key _ _ _ Hx), <- (stored_key _ _ _ Hy). unfold objectKey. rewrite Hns. f_equal.
    pose proof (generated_facts _ _ _ _ Hg1) as (_ & _ & Hl1 & _).
    pose proof (generated_facts _ _ _ _ Hg2) as (_ & _ & Hl2 & _).
    destruct Hg1 as (_ & Hn1 & _), Hg2 as (_ & Hn2 & _). congruence.
Qed.

Lemma step_annotated r path cidr :
  named_rule cl r -> nil_map (default None (a !! r)) !! path = Some cidr ->
  injection_kept s m0 (r_handled acc') cl r path cidr.
Proof.
  intros Hn Ha.
  destruct (stored_restored _ _ _ _ _ _ _ mine_stored Hcheck Happly r path cidr Ha Hn)
    as [(cc & Hcc & Hrl & Hp)|(Hsz & k & x & Hx & Hpx & Hrl & Hsrc)].
  - right. exists (key cc), cc. pose proof Hcc as (_ & Ho & Hb)%mine_elem. split_and!; try done.
    apply (d_rest0 _ _ _ _ _ Hinv). by apply list_elem_of_filter in Hcc as [_ Hcc].
  - left. assert (ours s x /\ belongs_to cl x = true) as [Ho Hb].
    { destruct Hsrc as [(cc & (_ & Ho & Hb)%mine_elem & Hs)|Hg%generated_facts]; [|naive_solver].
      rewrite (same_object_belongs cl _ _ Hs). unfold ours. by destruct Hs as (_ & _ & ->). }
    destruct (Hall Hsz k x Hx Ho Hb) as (v & Hv & Hvl).
    destruct (Hfound v Hv) as (Hvm & Hvo & Hvb).
    assert (k = key v) as ->.
    { apply andb_true_iff in Hb as [Hb1%bool_decide_eq_true Hb2%bool_decide_eq_true].
      apply andb_true_iff in Hvb as [Hvb1%bool_decide_eq_true Hvb2%bool_decide_eq_true].
      apply (step_one_per_rule k (key v) x v); unfold target; try done; congruence. }
    exists (key v), v. rewrite Hhandled. split; [|congruence].
    apply (fold_handled_in m'); [|done]. intros cc Hcc. by apply Hfound.
Qed.

Lemma step_durable : durable s m0 (done ++ [cl]) acc' m'.
Proof.
  destruct step_grown as (Hg0 & Hg1 & Hg2). split.
  - done.
  - intros cc. rewrite Hrest, list_elem_of_filter, (d_rest _ _ _ _ _ Hinv).
    setoid_rewrite elem_of_app. setoid_rewrite list_elem_of_singleton. split.
    + intros (Hb & Hm & Ho & Hd). split_and!; [by apply step_other|done|naive_solver].
    + intros (Hm & Ho & Hd). assert (belongs_to cl cc = false) as Hb by naive_solver.
      apply step_other in Hm; [|done]. naive_solver.
  - intros cc. rewrite Hrest. intros [_ Hcc]%list_elem_of_filter. by apply (d_rest0 _ _ _ _ _ Hinv).
  - intros cc. rewrite Hrest. intros [Hb Hcc]%list_elem_of_filter.
    pose proof Hcc as (Hm & _)%(d_rest _ _ _ _ _ Hinv).
    rewrite Hhandled, !fold_handled_out; [by apply (d_new _ _ _ _ _ Hinv)|..].
    + intros (y & Hk & Hy)%list_elem_of_fmap. apply mine_elem in Hy as (Hy & _ & Hby).
      rewrite <- Hk in Hy. congruence.
    + intros (y & Hk & Hy)%list_elem_of_fmap. apply Hfound in Hy as (Hy & _ & Hby).
      rewrite <- Hk in Hy. apply (step_other _ cc) in Hm; [congruence|done].
  - apply step_one_per_rule.
  - intros k cc Hk Ho. rewrite Hrest, list_elem_of_filter.
    destruct (d_existing _ _ _ _ _ Hinv k cc Hk Ho) as [Hin|(v & Hv & Hs)].
    + destruct (belongs_to cl cc) eqn:Hb; [|by left]. right.
      assert (cc ∈ mine) as Hmine by by apply list_elem_of_filter.
      pose proof (fold_handled_in m (r_handled acc) mine mine_stored cc Hmine) as Hh.
      by apply Hg1 in Hh.
    + right. apply Hg0 in Hv as (w & Hw & Hvw). apply Hg1 in Hw as (x & Hx & Hwx).
      exists x. split; [done|]. by do 2 etrans.
  - intros c a' r path cidr [Hc| ->%list_elem_of_singleton]%elem_of_app Ha Hn Hp.
    + apply (injection_kept_grown _ _ (r_handled acc)); [by etrans|].
      by apply (d_annotated _ _ _ _ _ Hinv c a').
    + rewrite Hparse in Ha. injection Ha as <-. by apply step_annotated.
Qed.
End step.

Lemma only_calls_ours s0 s cc : only_calls s0 s -> ours s cc <-> ours s0 cc.
Proof. unfold only_calls, ours. by intros ->. Qed.

Lemma durable_ours s0 s m0 done acc m : only_calls s0 s -> durable s m0 done acc m <-> durable s0 m0 done acc m.
Proof.
  intros Ho.
  assert (providerName s = providerName s0 /\ environment s = environment s0) as [Hp He].
  { unfold only_calls in Ho. by rewrite Ho. }
  split; intros []; split; unfold one_per_rule, injection_kept, ours in *; rewrite ?Hp, ?He in *; done.
Qed.

Lemma durable_loop s0 clusters ccs acc s' :
  NoDup ((fun cl => (Namespace (cl_meta cl), Name (cl_meta cl))) <$> clusters) ->
  (forall cl, cl ∈ clusters -> Name (cl_meta cl) <> "") ->
  (forall cc, cc ∈ ccs <-> server_ccs (calls s0) !! key cc = Some cc /\ ours s0 cc) ->
  one_per_rule s0 (server_ccs (calls s0)) ->
  foldM restore_cluster {| r_ccs := ccs; r_handled := ∅; r_errs := None |} clusters s0 = (Ret acc, s') ->
  r_errs acc = None -> durable s0 (server_ccs (calls s0)) clusters acc (server_ccs (calls s')).
Proof.
  intros Hnd Hnames Hccs Hone Hrun.
  eapply (foldM_inv _ (fun done acc s => only_calls s0 s /\
    (r_errs acc = None -> durable s0 (server_ccs (calls s0)) done acc (server_ccs (calls s)))) _ _ _ _ _ Hrun).
  { split; [done|]. intros _. split; simpl.
    - intros k v. by rewrite lookup_empty.
    - intros cc. rewrite Hccs. split; [|naive_solver]. intros []. split_and!; [done..|].
      by intros ? ?%not_elem_of_nil.
    - by intros cc [? _]%Hccs.
    - intros cc _. apply lookup_empty.
    - done.
    - intros k cc Hk Ho. left. apply Hccs. by rewrite (stored_key _ _ _ Hk).
    - by intros ????? ?%not_elem_of_nil. }
  clear Hrun acc s'. intros done cl rest acc s acc' s' Hl [Ho Hinv] Hstep.
  split; [etrans; [exact Ho|]; eapply preserves_run; [apply restore_cluster_only_calls|exact Hstep]|].
  intros Herr. assert (Name (cl_meta cl) <> "") as Hname.
  { apply Hnames. rewrite Hl. apply elem_of_app. right. by left. }
  apply restore_cluster_run in Hstep as
    (Herr0 & a & ri & s1 & s2 & found & Hp & Hch & Happ & -> & Hr & Hh & Hf & Hall); [|done..].
  apply (durable_ours s0 s); [done|].
  apply (step_durable s _ done cl acc acc') with a ri s1 found; try done.
  - intros c Hc Heq. rewrite Hl, fmap_app, NoDup_app in Hnd. destruct Hnd as (_ & Hd & _).
    apply (Hd (Namespace (cl_meta c), Name (cl_meta c))).
    + apply (list_elem_of_fmap_2 (fun cl => (Namespace (cl_meta cl), Name (cl_meta cl)))), Hc.
    + rewrite Heq. by left.
  - apply (durable_ours s0 s); [done|]. by apply Hinv.
Qed.

(** ** The end: leftover ClusterConfigs replace none of the handled ones *)

Lemma release_key cc s r cc' s' :
  releaseCIDRsForClusterConfig_internal cc s = (Ret (r, cc'), s') -> key cc' = key cc.
Proof.
  unfold releaseCIDRsForClusterConfig_internal. intros Hrun.
  apply bindM_Ret_inv in Hrun as ([data|e] & s1 & _ & Hrun); [|by go_run].
  destruct (ipam_Load _ _) as [x [e|]]; [by go_run|].
  destruct (release_patches _ _) as [[[e|]|w|] y]; [by go_run| |done..].
  destruct (RemoveFinalizer _ _) as [fs changed].
  apply bindM_Ret_inv in Hrun as ([res cc1] & s2 & H2 & Hrun).
  assert (key cc1 = key cc) as <-; [|destruct res; [by go_run|]; go_run; done].
  clear Hrun. destruct changed; [|by go_run]. unfold client_PatchClusterConfig, request in H2.
  apply bindM_Ret_inv in H2 as (r2 & s3 & [= <- <-] & H2).
  destruct (api_PatchClusterConfig _ _ _) as [cc2|e] eqn:Hp; go_run; [|done]. by apply Patch_key in Hp.
Qed.

Lemma handle_orphan_keys rem errs cc s rem' errs' s' :
  handle_orphan (rem, errs) cc s = (Ret (rem', errs'), s') ->
  forall x, x ∈ rem' -> x ∈ rem \/ key x = key cc.
Proof.
  unfold handle_orphan, client_GetCluster, client_DeleteClusterConfig. intros Hrun x. cbv zeta in Hrun.
  assert (forall y, key y = key cc -> x ∈ rem ++ [y] -> x ∈ rem \/ key x = key cc) as Happ.
  { intros y Hy [Hx| ->%list_elem_of_singleton]%elem_of_app; [by left|by right]. }
  case_decide; [go_run; by left|]. apply bindM_Ret_inv in Hrun as ([c|e] & s1 & _ & Hrun).
  { go_run. by apply Happ. }
  apply bindM_Ret_inv in Hrun as (e2 & s2 & _ & Hrun).
  destruct (IgnoreNotFound e2); [go_run; by apply Happ|].
  apply bindM_Ret_inv in Hrun as ([e3 cc3] & s3 & Hrel & Hrun).
  assert (key cc3 = key cc) as Hk.
  { clear Hrun. case_decide; [by apply release_key in Hrel|by go_run]. }
  destruct e3; [go_run; by apply Happ|]. case_decide; go_run; [by left|by apply Happ].
Qed.

Lemma handleOrphaned_keys ccs s rem s' x :
  handleOrphanedClusterConfigs_internal ccs s = (Ret (rem, None), s') -> x ∈ rem -> key x ∈ (fun cc => key cc) <$> ccs.
Proof.
  unfold handleOrphanedClusterConfigs_internal. intros Hrun.
  apply bindM_Ret_inv in Hrun as ([rem1 [errs|]] & s1 & Hf & Hrun); go_run.
  eapply (foldM_inv _ (fun done acc _ => forall x, x ∈ acc.1 -> key x ∈ (fun cc => key cc) <$> done) _ _ _ _ _ Hf).
  { by intros y ?%not_elem_of_nil. }
  clear Hf. intros done cc rest [rem2 errs2] s2 [rem3 errs3] s3 _ Hinv Hstep y Hy.
  rewrite fmap_app, elem_of_app. destruct (handle_orphan_keys _ _ _ _ _ _ _ Hstep y Hy) as [Hin|Hk].
  - left. by apply Hinv.
  - right. rewrite Hk. by left.
Qed.

Lemma add_cidrs_elem p c ps : p ∈ ps -> p_Op p = ADD -> patch_cidr p = Some c -> canon c ∈ add_cidrs ps.
Proof. intros Hp Ho Hc. apply elem_of_patch_cidrs. exists p, c. by rewrite list_elem_of_filter. Qed.

(** Every CIDR that a patch of the ClusterConfig adds. *)
Definition adds (cc : ClusterConfig) (cidr : string) : Prop :=
  exists p, p ∈ cc_Patches cc /\ p_Op p = ADD /\ patch_cidr p = Some cidr.

Lemma used_cidrs_elem (handled : gmap string ClusterConfig) k v cidr :
  handled !! k = Some v -> adds v cidr -> canon cidr ∈ used_cidrs (range handled).*2.
Proof.
  intros Hk (p & Hp & Ho & Hc). apply (add_cidrs_elem p); [|done..].
  apply list_elem_of_In, in_concat. exists (cc_Patches v). rewrite <- !list_elem_of_In. split; [|done].
  apply list_elem_of_fmap_2, elem_of_range_values. by exists k.
Qed.

(** A loop and an end without errors, from a state [s1] in which everything was listed. *)
Section finished.
Context (cfg : IPAMConfig) (all : list Cluster) (ccs : list ClusterConfig) (s1 s2 s3 : gostate) (acc : restore_acc).
Notation clusters := (filter (fun cl => relevant cfg cl = true) all).
Context (Hnd : NoDup ((fun cl => (Namespace (cl_meta cl), Name (cl_meta cl))) <$> all)).
Context (Hnames : forall cl, cl ∈ all -> Name (cl_meta cl) <> "").
Context (Hccs : forall cc, cc ∈ ccs <-> server_ccs (calls s1) !! key cc = Some cc /\ ours s1 cc).
Context (Hone : one_per_rule s1 (server_ccs (calls s1))).
Context (Hloop : foldM restore_cluster {| r_ccs := ccs; r_handled := ∅; r_errs := None |} clusters s1 = (Ret acc, s2)).

Lemma loop_durable : r_errs acc = None -> durable s1 (server_ccs (calls s1)) clusters acc (server_ccs (calls s2)).
Proof.
  intros Herr. apply (durable_loop s1 clusters ccs acc s2); try done.
  - eapply sublist_NoDup; [exact Hnd|]. apply fmap_sublist, sublist_filter.
  - intros c [_ Hc]%list_elem_of_filter. by apply Hnames.
Qed.

Context (Hfin : restore_finish cfg acc s2 = (Ret None, s3)).

Lemma handled_known k v cidr : r_handled acc !! k = Some v -> adds v cidr -> canon cidr ∈ st_known s3.
Proof.
  apply restore_finish_ok in Hfin as (Herr & _ & rem & -> & Hrem). intros Hv Hadd.
  set (handled := foldl add_handled (r_handled acc) _). apply elem_of_union_r, (used_cidrs_elem handled k v); [|done].
  unfold handled. rewrite fold_handled_out; [done|].
  intros (x & -> & [_ Hx]%list_elem_of_filter)%list_elem_of_fmap.
  destruct Hrem as [->|(s4 & Hrem)]; [by apply not_elem_of_nil in Hx|].
  apply (handleOrphaned_keys _ _ _ _ x) in Hrem as (y & Hxy & Hy)%list_elem_of_fmap; [|done].
  apply (d_new _ _ _ _ _ (loop_durable Herr)) in Hy. rewrite Hxy in Hv. congruence.
Qed.

Lemma finished_knows cl :
  cl ∈ all -> relevant cfg cl = true ->
  (forall k cc cidr, server_ccs (calls s1) !! k = Some cc -> ours s1 cc -> belongs_to cl cc = true ->
     adds cc cidr -> canon cidr ∈ st_known s3) /\
  (forall a r path cidr, parse_applied_rules cl = inl a -> named_rule cl r ->
     nil_map (default None (a !! r)) !! path = Some cidr ->
     canon cidr ∈ st_known s3 \/
     exists k cc, server_ccs (calls s1) !! k = Some cc /\ ours s1 cc /\ belongs_to cl cc = true /\
       rule_label cc = r /\ has_path path (cc_Patches cc) = true).
Proof.
  intros Hcl Hrel. pose proof Hfin as (Herr & _)%restore_finish_ok. pose proof (loop_durable Herr) as Hd.
  assert (cl ∈ clusters) as Hin by by apply list_elem_of_filter. split.
  - intros k cc cidr Hst' Ho Hb (p & Hp & Hadd).
    destruct (d_existing _ _ _ _ _ Hd k cc Hst' Ho) as [Hr|(v & Hv' & Hs)].
    + apply (d_rest _ _ _ _ _ Hd) in Hr as (_ & _ & Hno). rewrite Hno in Hb; done.
    + apply (handled_known _ _ _ Hv'). exists p. split; [by apply Hs|done].
  - intros a r path cidr Ha Hn Hm. pose proof (annotated_valid _ _ _ _ _ Ha Hm) as Hu.
    destruct (d_annotated _ _ _ _ _ Hd cl a r path cidr Hin Ha Hn Hm) as [(k & v & Hv' & Hp)|Hold]; [left|by right].
    apply (handled_known _ _ _ Hv'). exists (injection_patch path cidr). split_and!; [done..|].
    unfold patch_cidr. pose proof (injection_patch_value path cidr Hu) as Hval. simpl in *. by simplify_eq.
Qed.
End finished.

Lemma same_vars_ours s s' cc : same_vars s s' -> ours s' cc <-> ours s cc.
Proof. unfold ours. by intros (_ & _ & -> & ->). Qed.

(** C3: A restart loses nothing, if the API server keeps its ClusterConfigs and has at most one
    for each cluster and rule: after a successful RestoreIPAMFromClusterState, for every listed
    cluster that some rule selects, the IPAM instance knows every CIDR that a patch of one of
    the cluster's stored ClusterConfigs adds; and for every path and CIDR in the cluster's
    annotation it knows the CIDR, even if the ClusterConfig of the rule was deleted or had the
    patch removed, unless that ClusterConfig has another patch for the path. So none of these
    CIDRs is handed out a second time. *)
Theorem Restore_durable s cfg s' all cl :
  config s = Some cfg ->
  one_per_rule s (server_ccs (calls s)) ->
  RestoreIPAMFromClusterState s = (Ret None, s') ->
  api_ListClusters (calls s) = inl all -> cl ∈ all -> relevant cfg cl = true ->
  (forall k cc cidr, server_ccs (calls s) !! k = Some cc -> ours s cc -> belongs_to cl cc = true ->
     adds cc cidr -> canon cidr ∈ st_known s') /\
  (forall a r path cidr, parse_applied_rules cl = inl a -> named_rule cl r ->
     nil_map (default None (a !! r)) !! path = Some cidr ->
     canon cidr ∈ st_known s' \/
     exists k cc, server_ccs (calls s) !! k = Some cc /\ ours s cc /\ belongs_to cl cc = true /\
       rule_label cc = r /\ has_path path (cc_Patches cc) = true).
Proof.
  intros Hcfg Hone Hrun Hall Hcl Hrel.
  apply (Restore_phases _ cfg) in Hrun
    as (all' & ccs & s1 & acc & s2 & s3 & Hall' & Hccs & Hcalls & Hv & Hloop & Hfin & -> & _); [|done].
  rewrite Hall in Hall'. injection Hall' as <-. pose proof (ListClusters_named _ _ Hall) as [Hnd Hnames].
  assert (server_ccs (calls s1) = server_ccs (calls s)) as Hst by (rewrite Hcalls, !stored_read; done).
  pose proof (same_vars_ours s s1) as Hours. rewrite <- Hst. setoid_rewrite <- Hours; [|done..].
  apply (finished_knows cfg all ccs s1 s2 s3 acc); try done.
  - intros cc. rewrite Hst, Hours, (stored_List _ _ _ _ cc Hccs), stored_read by done. unfold ours. naive_solver.
  - rewrite Hst. intros k1 k2 x y. rewrite !Hours by done. apply Hone.
Qed.
End durable.
