(* ===== verification/Threads.v ===== *)
(** * Goroutines: the same calls, interleaved

    A call written in the monad [M] is one function on the process state. Here it is cut
    into the operations that other goroutines cannot see half done: a read or write of a
    package variable, one critical section of a method of the IPAM wrapper, one request
    to the API server, the taking and the giving back of the IPAM lock. The cut form, a
    [prog], is built along the definition of the call ([Steps]), with the proofs that it
    computes the same function and that it handles the lock properly; the instances for
    the components are in [ThreadSteps]. A [pool] of such programs takes steps in any
    order. *)

From stdpp Require Import base list strings gmap relations.
From S2P Require Import Prelude GoStd Types Externals Runtime.
Open Scope list_scope.
Open Scope Z_scope.

Section threads.
Context {OM : OpenMCP} {GI : GoIpam}.

(** ** Programs *)

(** What is left of a call: it has ended, or it does one operation and goes on. *)
Inductive prog (A : Type) : Type :=
  | Stop (o : outcome A)
  | Next {X : Type} (op : M X) (k : X -> prog A).
Arguments Stop {_} _.
Arguments Next {_ _} _ _.

(** The program on its own. *)
Fixpoint run {A} (p : prog A) : M A :=
  match p with
  | Stop o => fun s => (o, s)
  | Next op k => bindM op (fun x => run (k x))
  end.

Definition atom {A} (op : M A) : prog A := Next op (fun x => Stop (Ret x)).

Fixpoint prog_bind {A B} (p : prog A) (k : A -> prog B) : prog B :=
  match p with
  | Stop (Ret a) => k a
  | Stop (Panic w) => Stop (Panic w)
  | Stop Deadlock => Stop Deadlock
  | Next op k' => Next op (fun x => prog_bind (k' x) k)
  end.

Fixpoint prog_fold {A B} (f : B -> A -> prog B) (b : B) (l : list A) : prog B :=
  match l with
  | [] => Stop (Ret b)
  | x :: l => prog_bind (f b x) (fun b' => prog_fold f b' l)
  end.

(** [IPAM.lock.Lock()] and [IPAM.lock.Unlock()]; the first blocks while the lock is held. *)
Definition lock_IPAM : M unit := fun s =>
  match IPAM s with
  | None => (Panic "nil pointer dereference: IPAM", s)
  | Some i => if lock i then (Deadlock, s) else (Ret tt, st_set_IPAM (Some (set_lock true i)) s)
  end.
Definition unlock_IPAM : M unit := fun s => (Ret tt, st_set_IPAM (set_lock false <$> IPAM s) s).

(** An operation whose panic is a result. *)
Definition attempt {X} (op : M X) : M (X + string) := fun s =>
  match op s with
  | (Ret x, s') => (Ret (inl x), s')
  | (Panic w, s') => (Ret (inr w), s')
  | (Deadlock, s') => (Deadlock, s')
  end.

(** [defer IPAM.lock.Unlock()]: runs at the end and when the body panics. *)
Fixpoint deferred {A} (p : prog A) : prog A :=
  match p with
  | Stop Deadlock => Stop Deadlock
  | Stop o => Next unlock_IPAM (fun _ => Stop o)
  | Next op k => Next (attempt op) (fun r =>
      match r with
      | inl x => deferred (k x)
      | inr w => Next unlock_IPAM (fun _ => Stop (Panic w))
      end)
  end.

Definition prog_locked {A} (p : prog A) : prog A := Next lock_IPAM (fun _ => deferred p).

Lemma run_bind {A B} (p : prog A) (k : A -> prog B) s :
  run (prog_bind p k) s = bindM (run p) (fun a => run (k a)) s.
Proof.
  revert s. induction p as [[a|w|]|X op k' IH]; intros s; [done..|]. simpl. unfold bindM.
  destruct (op s) as [[x|w|] s']; [|done..]. apply IH.
Qed.

Lemma run_deferred {A} (p : prog A) s :
  run (deferred p) s =
  match run p s with
  | (Deadlock, s') => (Deadlock, s')
  | (o, s') => (o, st_set_IPAM (set_lock false <$> IPAM s') s')
  end.
Proof.
  revert s. induction p as [[a|w|]|X op k IH]; intros s; [done..|]. simpl. unfold bindM, attempt.
  destruct (op s) as [[x|w|] s']; [|done..]. apply IH.
Qed.

(** ** Who holds the lock *)

Definition has_IPAM (s : gostate) : Prop := is_Some (IPAM s).
Definition lockb (s : gostate) : bool := match IPAM s with Some i => lock i | None => false end.

(** The lock flag after a step of a thread that holds the lock or not before and after:
    what the others hold stays, and the thread takes the lock only if nobody else has it. *)
Definition lock_step (held held' : bool) (s s' : gostate) : Prop :=
  let others := lockb s && negb held in
  lockb s' = held' || others /\ held' && others = false.

(** [disc fin held p]: if the thread holds the lock or not as [held] says, the program only
    waits for a lock that another thread holds, keeps to [lock_step] and ends as [fin] says. *)
Fixpoint disc {A} (fin : bool -> outcome A -> Prop) (held : bool) (p : prog A) : Prop :=
  match p with
  | Stop o => fin held o
  | Next op k => forall s, has_IPAM s -> (held = true -> lockb s = true) ->
      match op s with
      | (Ret x, s') => has_IPAM s' /\ exists held', lock_step held held' s s' /\ disc fin held' (k x)
      | (Panic w, s') => has_IPAM s' /\ lock_step held held s s' /\ fin held (Panic w)
      | (Deadlock, _) => held = false /\ lockb s = true
      end
  end.

(** The lock as it was at the beginning, and no deadlock on the thread's own lock. *)
Definition returns {A} (held0 : bool) (held : bool) (o : outcome A) : Prop := held = held0 /\ o <> Deadlock.

(** No operation blocks or touches the IPAM instance. *)
Fixpoint pure {A} (p : prog A) : Prop :=
  match p with
  | Stop o => o <> Deadlock
  | Next op k => forall s,
      match op s with
      | (Ret x, s') => IPAM s' = IPAM s /\ pure (k x)
      | (Panic w, s') => IPAM s' = IPAM s
      | (Deadlock, _) => False
      end
  end.

(** Code that uses neither the instance nor the lock; code inside the critical section;
    code outside of it. *)
Inductive mode : Type := Pure | Held | Free.

Definition disciplined {A} (md : mode) (p : prog A) : Prop :=
  match md with
  | Pure => pure p
  | Held => disc (returns true) true p
  | Free => disc (returns false) false p
  end.

Lemma lock_step_same held s s' : lockb s' = lockb s -> (held = true -> lockb s = true) -> lock_step held held s s'.
Proof. unfold lock_step. intros ->. destruct held, (lockb s); naive_solver. Qed.

Lemma disc_weaken {A} (fin fin' : bool -> outcome A -> Prop) held p :
  (forall h o, fin h o -> fin' h o) -> disc fin held p -> disc fin' held p.
Proof.
  intros Hf. revert held. induction p as [o|X op k IH]; intros held; simpl; [apply Hf|].
  intros Hp s Hs Hh. specialize (Hp s Hs Hh). destruct (op s) as [[x|w|] s']; [|naive_solver..].
  destruct Hp as (Hr & held' & Hl & Hk). split; [done|]. exists held'. auto.
Qed.

Lemma disc_bind {A B} (fin : bool -> outcome B -> Prop) held (p : prog A) (k : A -> prog B) :
  disc (fun h o => match o with
                   | Ret a => disc fin h (k a)
                   | Panic w => fin h (Panic w)
                   | Deadlock => fin h Deadlock
                   end) held p ->
  disc fin held (prog_bind p k).
Proof.
  revert held. induction p as [[a|w|]|X op k' IH]; intros held; simpl; [done..|].
  intros Hp s Hs Hh. specialize (Hp s Hs Hh). destruct (op s) as [[x|w|] s']; [|done..].
  destruct Hp as (Hr & held' & Hl & Hk). split; [done|]. exists held'. auto.
Qed.

Lemma pure_bind {A B} (p : prog A) (k : A -> prog B) : pure p -> (forall a, pure (k a)) -> pure (prog_bind p k).
Proof.
  intros Hp Hk. induction p as [[a|w|]|X op k' IH]; simpl in *; [done..|].
  intros s. specialize (Hp s). destruct (op s) as [[x|w|] s']; naive_solver.
Qed.

Lemma pure_disc {A} held (p : prog A) : pure p -> disc (returns held) held p.
Proof.
  induction p as [o|X op k IH]; simpl; [done|]. intros Hp s Hs Hh. specialize (Hp s).
  destruct (op s) as [[x|w|] s']; [| |done].
  - destruct Hp as [HI Hp]. unfold has_IPAM. rewrite HI. split; [done|]. exists held. split; [|auto].
    apply lock_step_same; [|done]. unfold lockb. by rewrite HI.
  - unfold has_IPAM. rewrite Hp. split_and!; [done| |done..]. apply lock_step_same; [|done]. unfold lockb. by rewrite Hp.
Qed.

Lemma disciplined_bind {A B} md (p : prog A) (k : A -> prog B) :
  disciplined md p -> (forall a, disciplined md (k a)) -> disciplined md (prog_bind p k).
Proof.
  destruct md; simpl; [apply pure_bind|..]; intros Hp Hk; apply disc_bind; (eapply disc_weaken; [|exact Hp]);
    intros h [a|w|] [-> Ho]; done || apply Hk.
Qed.

Lemma disc_deferred {A} held (p : prog A) : disc (returns true) held p -> disc (returns false) held (deferred p).
Proof.
  assert (forall o : outcome A, o <> Deadlock -> disc (returns false) true (Next unlock_IPAM (fun _ => Stop o))) as Hstop.
  { intros o Ho s [i Hi] Hl. simpl. split; [unfold has_IPAM; simpl; by rewrite Hi|]. exists false.
    split; [|done]. unfold lock_step. rewrite Hl by done. unfold lockb. simpl. by rewrite Hi. }
  revert held. induction p as [o|X op k IH]; intros held; simpl.
  { intros [-> Ho]. destruct o; [by apply Hstop..|done]. }
  intros Hp s Hs Hh. specialize (Hp s Hs Hh). unfold attempt. destruct (op s) as [[x|w|] s']; [| |done].
  - destruct Hp as (Hr & held' & Hl & Hk). split; [done|]. exists held'. auto.
  - destruct Hp as (Hr & Hl & -> & _). split; [done|]. exists true. split; [done|]. by apply Hstop.
Qed.

Lemma disciplined_locked {A} (p : prog A) : disciplined Held p -> disciplined Free (prog_locked p).
Proof.
  intros Hp s [i Hi] _. unfold lock_IPAM. rewrite Hi. destruct (lock i) eqn:Hl.
  - split; [done|]. unfold lockb. by rewrite Hi.
  - split; [by exists (set_lock true i)|]. exists true. split; [|by apply disc_deferred].
    unfold lock_step, lockb. simpl. by rewrite Hi, Hl.
Qed.

(** ** Cutting a call into operations *)

(** A program for the call: it computes the same and keeps the discipline. *)
Class Steps (md : mode) {A} (m : M A) : Type := {
  steps : prog A;
  steps_run s : run steps s = m s;
  steps_disc : disciplined md steps }.
#[global] Arguments steps {_ _} _ {_} : assert.

(** Pure code may be used everywhere: the same program. *)
Definition steps_lift md {A} (m : M A) (H : Steps Pure m) : Steps md m.
Proof.
  refine {| steps := @steps Pure A m H; steps_run := steps_run |}.
  pose proof (@steps_disc Pure A m H) as Hp. destruct md; [exact Hp|by apply pure_disc..].
Defined.

(** The operations. *)
Definition steps_atom md {A} (op : M A) : disciplined md (atom op) -> Steps md op.
Proof.
  intros Hd. refine {| steps := atom op; steps_disc := Hd |}. intros s. simpl. unfold bindM.
  by destruct (op s) as [[]].
Defined.

Definition steps_stop md {A} (o : outcome A) : o <> Deadlock -> Steps md (fun s => (o, s)).
Proof. intros Ho. refine {| steps := Stop o |}; [done|]. by destruct md. Defined.

Definition steps_bind md {A B} (m : M A) (k : A -> M B) :
  Steps md m -> (forall a, Steps md (k a)) -> Steps md (bindM m k).
Proof.
  intros Hm Hk. refine {| steps := prog_bind (steps m) (fun a => steps (k a)) |}.
  - intros s. rewrite run_bind. unfold bindM. rewrite steps_run.
    destruct (m s) as [[a|w|] s']; [apply steps_run|done..].
  - apply disciplined_bind; [apply steps_disc|]. intros a. apply steps_disc.
Defined.

Lemma prog_fold_run md {A B} (f : B -> A -> M B) (Hf : forall b x, Steps md (f b x)) l b s :
  run (prog_fold (fun b x => steps (f b x)) b l) s = foldM f b l s.
Proof.
  revert b s. induction l as [|x l IH]; intros b s; [done|]. simpl. rewrite run_bind. unfold bindM.
  rewrite steps_run. destruct (f b x s) as [[]]; [apply IH|done..].
Qed.

Definition steps_foldM md {A B} (f : B -> A -> M B) l b :
  (forall b x, Steps md (f b x)) -> Steps md (foldM f b l).
Proof.
  intros Hf. refine {| steps := prog_fold (fun b x => steps (f b x)) b l |}; [apply prog_fold_run|].
  revert b. induction l as [|x l IH]; intros b; [by destruct md|].
  apply disciplined_bind; [apply steps_disc|apply IH].
Defined.

Definition steps_locked {A} (body : M A) : Steps Held body -> Steps Free (with_IPAM_lock body).
Proof.
  intros Hb. refine {| steps := prog_locked (steps body) |}; [|apply disciplined_locked, steps_disc].
  intros s. cbn [run prog_locked]. unfold bindM, lock_IPAM, with_IPAM_lock.
  destruct (IPAM s) as [i|]; [|done]. destruct (lock i); [done|]. by rewrite run_deferred, steps_run.
Defined.

(** *** The operations of the process *)

Lemma atom_pure {A} (op : M A) :
  (forall s, (op s).1 <> Deadlock /\ IPAM (op s).2 = IPAM s) -> disciplined Pure (atom op).
Proof. intros Hop s. specialize (Hop s). destruct (op s) as [[x|w|] s']; naive_solver. Qed.

Definition steps_getM : Steps Pure getM.
Proof. apply steps_atom, atom_pure. by intros s. Defined.

Definition steps_modifyM (f : gostate -> gostate) : (forall s, IPAM (f s) = IPAM s) -> Steps Pure (modifyM f).
Proof. intros Hf. apply steps_atom, atom_pure. intros s. by split; [|apply Hf]. Defined.

Definition steps_request {KA : K8sApi} {A} c (answer : list api_call -> A) : Steps Pure (request c answer).
Proof. apply steps_atom, atom_pure. by intros s. Defined.

(** A change of the instance that does not look at the lock: by its holder, or by code
    that should hold it. *)
Lemma atom_IPAM held {A} (m : goM Ipamer A) :
  (forall i, (m i).1 <> Deadlock /\ lock (m i).2 = lock i) -> disc (returns held) held (atom (on_IPAM m)).
Proof.
  intros Hm s [i Hi] Hh. unfold on_IPAM. rewrite Hi. specialize (Hm i).
  destruct (m i) as [[x|w|] i'] eqn:Hmi; simpl in Hm; [| |by destruct Hm].
  - split; [by eexists|]. exists held. split; [|done]. apply lock_step_same; [|done].
    unfold lockb. simpl. rewrite Hi. apply Hm.
  - split; [by eexists|]. split; [|done]. apply lock_step_same; [|done]. unfold lockb. simpl. rewrite Hi. apply Hm.
Qed.

Definition steps_on_IPAM_plain md {A} (m : goM Ipamer A) :
  md <> Pure -> (forall i, (m i).1 <> Deadlock /\ lock (m i).2 = lock i) -> Steps md (on_IPAM m).
Proof. intros Hmd Hm. apply steps_atom. destruct md; [done|by apply atom_IPAM..]. Defined.

(** A method of the wrapper: its critical section is one operation. *)
Definition steps_on_IPAM_locked {A} (body : goM Ipamer A) :
  (forall i, (body i).1 <> Deadlock /\ lock (body i).2 = lock i) -> Steps Free (on_IPAM (locked body)).
Proof.
  intros Hb. apply steps_atom. intros s [i Hi] _. unfold on_IPAM, locked, lockb. rewrite Hi.
  destruct (lock i) eqn:Hl; [done|]. specialize (Hb (set_lock true i)).
  destruct (body (set_lock true i)) as [[x|w|] i']; simpl in Hb; [| |by destruct Hb].
  - split; [by eexists|]. exists false. split; [|done]. unfold lock_step, lockb. simpl. by rewrite Hi, Hl.
  - split; [by eexists|]. split; [|done]. unfold lock_step, lockb. simpl. by rewrite Hi, Hl.
Defined.

Lemma on_internal_plain {A} (op : ipamS -> ipamS * A) i :
  (on_internal op i).1 <> Deadlock /\ lock (on_internal op i).2 = lock i.
Proof. unfold on_internal. by destruct (op (internal i)). Qed.
End threads.

Arguments Stop {_ _ _} _.
Arguments Next {_ _ _ _} _ _.
