(* ===== verification/Pool.v ===== *)
(** * A pool of goroutines

    The programs of [Threads] take their operations in any order, on one process state.
    An operation that finds the IPAM lock taken waits: its thread has no step. What is
    proved here holds for every pool of disciplined programs: it never deadlocks, every
    execution is finite, and running the calls one after the other is one of them. *)

From stdpp Require Import base list strings gmap relations well_founded.
From S2P Require Import Prelude GoStd Types Externals Runtime Threads.
Open Scope list_scope.

Section pool.
Context {OM : OpenMCP} {GI : GoIpam} {A : Type}.
Implicit Types (p q : prog A) (ts : list (prog A)) (s : gostate).

Definition thread_step p s : option (prog A * gostate) :=
  match p with
  | Stop _ => None
  | Next op k =>
      match op s with
      | (Ret x, s') => Some (k x, s')
      | (Panic w, s') => Some (Stop (Panic w), s')
      | (Deadlock, _) => None
      end
  end.

Inductive pool_step : relation (list (prog A) * gostate) :=
  | pool_step_thread ts s i p p' s' :
      ts !! i = Some p -> thread_step p s = Some (p', s') ->
      pool_step (ts, s) (<[i := p']> ts, s').

Lemma thread_pool_step ts s i p p' s' ts' :
  ts !! i = Some p -> thread_step p s = Some (p', s') -> ts' = <[i := p']> ts -> pool_step (ts, s) (ts', s').
Proof. intros Hi Hp ->. by econstructor. Qed.

(** A schedule: which thread takes each step. *)
Fixpoint run_schedule (sched : list nat) (c : list (prog A) * gostate) : option (list (prog A) * gostate) :=
  match sched with
  | [] => Some c
  | i :: sched =>
      match c.1 !! i ≫= fun p => thread_step p c.2 with
      | Some (p', s') => run_schedule sched (<[i := p']> c.1, s')
      | None => None
      end
  end.

Lemma run_schedule_steps sched c c' : run_schedule sched c = Some c' -> rtc pool_step c c'.
Proof.
  revert c. induction sched as [|i sched IH]; intros [ts s]; simpl; [by intros [= ->]|].
  destruct (ts !! i) as [p|] eqn:Hi; simpl; [|done].
  destruct (thread_step p s) as [[p' s']|] eqn:Hp; [|done]. intros Hrun.
  eapply rtc_l; [by econstructor|]. by apply IH.
Qed.

(** ** Every execution is finite *)

(** A step leaves a smaller program, whatever the state is. *)
Definition smaller q p : Prop :=
  match p with
  | Stop _ => False
  | Next op k => (exists x, q = k x) \/ exists w, q = Stop (Panic w)
  end.

Lemma thread_step_smaller p s p' s' : thread_step p s = Some (p', s') -> smaller p' p.
Proof.
  destruct p as [o|X op k]; simpl; [done|]. destruct (op s) as [[x|w|] s1]; intros [= <- _]; [left|right]; by eexists.
Qed.

Lemma smaller_acc p : Acc smaller p.
Proof.
  induction p as [o|X op k IH]; constructor; [done|].
  intros q [[x ->]|[w ->]]; [apply IH|]. by constructor.
Qed.

(** One of the threads has become smaller. *)
Definition pool_smaller (ts' ts : list (prog A)) : Prop :=
  exists i p p', ts !! i = Some p /\ smaller p' p /\ ts' = <[i := p']> ts.

Lemma pool_smaller_acc ts : Acc pool_smaller ts.
Proof.
  induction ts as [|p ts IH]; [constructor; by intros ? (i & p & p' & ? & _)|].
  revert p. induction IH as [ts _ IHts]. intros p.
  induction (smaller_acc p) as [p _ IHp]. constructor. intros ts' ([|i] & q & q' & Hi & Hq & ->); simplify_eq/=.
  - by apply IHp.
  - apply IHts. by exists i, q, q'.
Qed.

Lemma pool_step_acc c : Acc (flip pool_step) c.
Proof.
  destruct c as [ts s]. revert s. induction (pool_smaller_acc ts) as [ts _ IH]. intros s. constructor.
  intros [ts' s'] Hstep. inversion Hstep as [? ? i p p' ? Hi Hp]; subst. apply IH.
  exists i, p, p'. by apply thread_step_smaller in Hp.
Qed.

(** ** No deadlock *)

Definition is_stop p : bool := match p with Stop _ => true | Next _ _ => false end.

Definition finished (ts : list (prog A)) : Prop := Forall (fun p => exists o, p = Stop o /\ o <> Deadlock) ts.

(** At most one thread holds the lock, and every thread is disciplined. *)
Definition pool_inv (c : list (prog A) * gostate) : Prop :=
  has_IPAM c.2 /\ exists holder : option nat,
    lockb c.2 = bool_decide (is_Some holder) /\
    (forall i, holder = Some i -> (i < length c.1)%nat) /\
    (forall i p, c.1 !! i = Some p -> disc (returns false) (bool_decide (holder = Some i)) p).

Lemma pool_inv_start ts s :
  has_IPAM s -> lockb s = false -> Forall (disciplined Free) ts -> pool_inv (ts, s).
Proof.
  intros Hs Hl Hts. split; [done|]. exists None. split_and!; [done..|].
  intros i p Hp. by eapply Forall_lookup_1 in Hts.
Qed.

Lemma pool_inv_step c c' : pool_inv c -> pool_step c c' -> pool_inv c'.
Proof.
  intros (Hs & holder & Hl & Hlen & Hd) Hstep. destruct Hstep as [ts s i p p' s' Hi Hp]. simpl in *.
  pose proof (lookup_lt_Some _ _ _ Hi) as Hlt.
  destruct p as [o|X op k]; simpl in Hp; [done|]. pose proof (Hd i _ Hi s Hs) as Hop.
  assert (bool_decide (holder = Some i) = true -> lockb s = true) as Hh.
  { intros ->%bool_decide_eq_true. by rewrite Hl. }
  specialize (Hop Hh). set (held := bool_decide (holder = Some i)) in *.
  assert (exists held', has_IPAM s' /\ lock_step held held' s s' /\ disc (returns false) held' p') as (held' & Hs' & Hst & Hp').
  { destruct (op s) as [[x|w|] s1]; simplify_eq; [|by eexists]. destruct Hop as (? & held' & ? & ?). by exists held'. }
  clear Hop Hp. split; [done|]. destruct Hst as [Hst Hex].
  set (others := lockb s && negb held) in *.
  exists (if held' then Some i else if others then holder else None). simpl. split_and!.
  - rewrite Hst. destruct held'; [done|]. destruct others eqn:Ho; [|done]. apply andb_true_iff in Ho as [Ho _].
    by rewrite Hl in Ho.
  - rewrite length_insert. destruct held'; [naive_solver|]. destruct others; naive_solver.
  - intros j q Hq. destruct (decide (i = j)) as [<-|Hne].
    + rewrite list_lookup_insert_eq in Hq by done. injection Hq as <-.
      replace (bool_decide _) with held'; [done|]. symmetry.
      destruct held'; [by apply bool_decide_eq_true|]. apply bool_decide_eq_false.
      destruct others eqn:Ho; [|done]. apply andb_true_iff in Ho as [_ Ho%negb_true_iff]. subst held.
      by apply bool_decide_eq_false in Ho.
    + rewrite list_lookup_insert_ne in Hq by done. specialize (Hd j q Hq).
      replace (bool_decide _) with (bool_decide (holder = Some j)); [done|]. apply bool_decide_ext.
      destruct held'.
      * rewrite andb_true_l in Hex. split; [|naive_solver]. intros ->. exfalso.
        subst others held. rewrite Hl, bool_decide_true, bool_decide_false in Hex by naive_solver. done.
      * destruct others eqn:Ho; [done|]. split; [|done]. intros ->. exfalso.
        subst others held. rewrite Hl, bool_decide_true, bool_decide_false in Ho by naive_solver. done.
Qed.

Lemma pool_inv_steps c c' : pool_inv c -> rtc pool_step c c' -> pool_inv c'.
Proof. intros Hc Hsteps. revert Hc. induction Hsteps; [done|]. eauto using pool_inv_step. Qed.

Lemma disc_step held (p : prog A) s :
  disc (returns false) held p -> has_IPAM s -> (held = true -> lockb s = true) -> (held = false -> lockb s = false) ->
  (exists o, p = Stop o /\ o <> Deadlock /\ held = false) \/ is_Some (thread_step p s).
Proof.
  intros Hp Hs Ht Hf. destruct p as [o|X op k]; [left; destruct Hp; by exists o|right]. simpl in *.
  specialize (Hp s Hs Ht). destruct (op s) as [[x|w|] s']; [by eexists..|]. destruct Hp as [-> Hp].
  by rewrite Hf in Hp.
Qed.

(** A disciplined pool that cannot go on has finished, with the lock free. *)
Lemma pool_progress c :
  pool_inv c -> (finished c.1 /\ lockb c.2 = false) \/ exists c', pool_step c c'.
Proof.
  destruct c as [ts s]. intros (Hs & holder & Hl & Hlen & Hd). simpl in *. destruct holder as [i|].
  - right. destruct (lookup_lt_is_Some_2 ts i (Hlen i eq_refl)) as [p Hi].
    specialize (Hd i p Hi). rewrite bool_decide_true in Hd by done.
    destruct (disc_step true p s) as [(o & _ & _ & ?)|[[p' s'] Hp]]; try done.
    eexists. by econstructor.
  - destruct (decide (Forall (fun p => is_stop p = true) ts)) as [Hall|Hex].
    + left. split; [|done]. apply Forall_lookup. intros i p Hi.
      eapply Forall_lookup_1 in Hall; [|exact Hi]. destruct p as [o|]; [|done].
      specialize (Hd i _ Hi). exists o. by destruct Hd.
    + right. apply not_Forall_Exists, Exists_exists in Hex; [|apply _]. destruct Hex as (p & Hin & Hp).
      apply list_elem_of_lookup in Hin as [i Hi]. specialize (Hd i p Hi). rewrite bool_decide_false in Hd by done.
      destruct (disc_step false p s) as [(o & -> & _)|[[p' s'] Hst]]; try done; [by destruct Hp|].
      eexists. by econstructor.
Qed.

Lemma pool_completes ts s :
  has_IPAM s -> lockb s = false -> Forall (disciplined Free) ts ->
  Acc (flip pool_step) (ts, s) /\
  forall c, rtc pool_step (ts, s) c ->
    (finished c.1 /\ lockb c.2 = false) \/ exists c', pool_step c c'.
Proof.
  intros Hs Hl Hts. split; [apply pool_step_acc|]. intros c Hc. apply pool_progress.
  eapply pool_inv_steps; [|exact Hc]. by apply pool_inv_start.
Qed.

(** ** One thread alone *)

Lemma run_steps ts s i p o s' :
  ts !! i = Some p -> run p s = (o, s') -> o <> Deadlock -> rtc pool_step (ts, s) (<[i := Stop o]> ts, s').
Proof.
  intros Hi Hrun Ho. revert ts s Hi Hrun. induction p as [o'|X op k IH]; intros ts s Hi; simpl.
  { intros [= -> ->]. by rewrite list_insert_id. }
  unfold bindM. destruct (op s) as [[x|w|] s1] eqn:Hop; [| |by intros [= <- _]].
  - intros Hrun. eapply rtc_l.
    { apply (pool_step_thread _ _ i (Next op k) (k x) s1 Hi). simpl. by rewrite Hop. }
    rewrite <- (list_insert_insert_eq ts i (Stop o) (k x)).
    apply IH with x; [|done]. apply list_lookup_insert_eq. by eapply lookup_lt_Some.
  - intros [= <- <-]. apply rtc_once. apply (pool_step_thread _ _ i (Next op k) _ s1 Hi). simpl. by rewrite Hop.
Qed.

(** The other way round: a thread that runs alone computes what [run] does. *)
Lemma steps_run_alone p s o s' : rtc pool_step ([p], s) ([Stop o], s') -> run p s = (o, s').
Proof.
  intros Hsteps. remember ([p], s) as c eqn:Hc. remember ([Stop o], s') as c' eqn:Hc'. revert p s Hc Hc'.
  induction Hsteps as [c|c c1 c2 Hstep _ IH]; intros p s Hc Hc'; [by simplify_eq|]. subst c c2.
  inversion Hstep as [ts s0 i q q' s1 Hi Hq]; subst. destruct i as [|i]; [|done]. simpl in Hi. injection Hi as <-.
  specialize (IH q' s1 eq_refl eq_refl). destruct p as [|X op k]; [done|]. simpl in *. unfold bindM.
  destruct (op s) as [[x|w|] s2]; simplify_eq; [done|]. simpl in IH. by simplify_eq.
Qed.
End pool.
