(* ===== verification/ClusterController.v ===== *)
(** * internal/controllers/cluster/controller.go *)

From stdpp Require Import base list strings gmap.
From S2P Require Import Prelude GoStd GoJson Types Externals Runtime Utils Restore.
Open Scope list_scope.
Open Scope Z_scope.

Definition EventReasonCIDRManagementError : string := "CIDRManagementError".
Definition EventActionFetchingCluster : string := "FetchingCluster".
Definition EventActionHandlingOperationAnnotation : string := "HandlingOperationAnnotation".
Definition EventActionParsingAppliedRules : string := "ParsingAppliedRules".
Definition EventActionEvaluatingExistingClusterConfigs : string := "EvaluatingExistingClusterConfigs".
Definition EventActionEvaluatingMissingInjections : string := "EvaluatingMissingInjections".
Definition EventActionEvaluatingRulesToApply : string := "EvaluatingRulesToApply".
Definition EventActionCIDRGeneration : string := "CIDRGeneration".
Definition EventActionApplyingChanges : string := "ApplyingChanges".
Definition EventActionReleasingCIDRs : string := "ReleasingCIDRs".

(** [Result] is never set. *)
Record ReconcileResult : Type := {
  rr_Cluster : option Cluster;
  rr_EventAction : string;
  rr_Error : option error }.

Definition defaultedEventAction (rr : ReconcileResult) : string :=
  if decide (rr_EventAction rr <> "") then rr_EventAction rr else "Reconcile".

(** The embedded pointer to the instruction is never nil here. *)
Record InjectionManagementResult : Type := {
  im_Instruction : RestorationInstruction;
  AnnotationToApply : AppliedRulesAnnotation;
  RulesWithIssues : gmap string error;
  SkippedBecauseAlreadyAppliedRules : gset string }.

Section controller.
Context {OM : OpenMCP} {GI : GoIpam} {KA : K8sApi} {CU : CtrlUtils} {GO : GoMapOrder}.

(** ** generateCIDRsForInjectionRule *)

Fixpoint try_prefixes (size : Z) (prefixes : list Prefix) : M (option Prefix) :=
  match prefixes with
  | [] => retM None
  | prefix :: prefixes =>
      let! r := on_IPAM (AcquireChildPrefix (pCidr prefix) size) in
      match r with
      | inr _ => try_prefixes size prefixes
      | inl cPrefix => retM (Some cPrefix)
      end
  end.

(** The prefixes of the CIDRs the shared instance knows. *)
Definition fetch_prefixes (cidrs : list string) : M (list Prefix) :=
  foldM (fun prefixes cidr =>
    let! r := on_IPAM (PrefixFrom cidr) in
    retM match r with inl prefix => prefixes ++ [prefix] | inr _ => prefixes end) [] cidrs.

Definition parent_prefixes (tmpParents : gmap string (list Prefix))
    (parentCIDRs : gmap string (list string)) (parentID : string) : M (list Prefix) :=
  match tmpParents !! parentID with
  | Some prefixes => retM prefixes
  | None =>
      match parentCIDRs !! parentID with
      | None => retM []
      | Some cidrs => fetch_prefixes cidrs
      end
  end.

Fixpoint try_parents (tmpParents : gmap string (list Prefix))
    (parentCIDRs : gmap string (list string)) (size : Z) (selectedParents : list string) :
    M (option Prefix) :=
  match selectedParents with
  | [] => retM None
  | parentID :: selectedParents =>
      let! prefixes := parent_prefixes tmpParents parentCIDRs parentID in
      let! r := try_prefixes size prefixes in
      match r with
      | Some cPrefix => retM (Some cPrefix)
      | None => try_parents tmpParents parentCIDRs size selectedParents
      end
  end.

(** [uint8(n)] *)
Definition uint8 (n : Z) : Z := n mod 256.

Definition selected_parents (parentCIDRs : gmap string (list string))
    (injection : SingleCIDRInjection) : list string :=
  if decide (length (inj_Parents injection) = 0%nat) then (range parentCIDRs).*1
  else inj_Parents injection.

Definition add_raw (cPrefix : Prefix) (raw : gmap string Prefix) (injection : SingleCIDRInjection) :
    gmap string Prefix :=
  foldl (fun raw pws => <[pws_Path pws := cPrefix]> raw) raw (GetPaths injection).

Definition release_raw (raw : gmap string Prefix) : M unit :=
  foldM (fun _ pc => let! _ := on_IPAM (ReleaseChildPrefix pc.2) in retM tt) tt (range raw).

Fixpoint generate_loop (parentCIDRs : gmap string (list string)) (raw : gmap string Prefix)
    (tmpParents : gmap string (list Prefix)) (injections : list SingleCIDRInjection) :
    M (gmap string Prefix + error) :=
  match injections with
  | [] => retM (inl raw)
  | injection :: injections =>
      let! r := try_parents tmpParents parentCIDRs (uint8 (inj_SubnetSize injection))
                  (selected_parents parentCIDRs injection) in
      match r with
      | None => release_raw raw ;;; retM (inr (Errorf "unable to generate CIDR for injection" None))
      | Some cPrefix =>
          generate_loop parentCIDRs (add_raw cPrefix raw injection)
            (if decide (inj_ID injection <> "") then <[inj_ID injection := [cPrefix]]> tmpParents
             else tmpParents)
            injections
      end
  end.

Definition generateCIDRsForInjectionRule (rule : CIDRInjection)
    (parentCIDRs : gmap string (list string)) : M (gmap string string + error) :=
  let! r := generate_loop parentCIDRs ∅ ∅ (rule_Injections rule) in
  retM match r with
       | inl raw => inl (ProjectMapToMap raw (fun k v => (k, pCidr v)))
       | inr err => inr err
       end.

(** ** ManageInjections *)

(** The patches of one existing ClusterConfig, recorded in the (possibly nil) map of
    its rule. *)
Fixpoint record_patches (injected : option (gmap string string)) (errs : list error)
    (patches : list JSONPatch) : M (option (gmap string string) * list error) :=
  match patches with
  | [] => retM (injected, errs)
  | patch :: patches =>
      match nil_map injected !! p_Path patch with
      | Some _ => record_patches injected errs patches
      | None =>
          match p_Value patch with
          | None => panicM "nil pointer dereference: patch.Value"
          | Some raw =>
              match json_Unmarshal_string "" raw with
              | None => record_patches injected
                          (errs ++ [Errorf "error unmarshaling value for path" None]) patches
              | Some pval =>
                  match injected with
                  | None => panicM "assignment to entry in nil map"
                  | Some m => record_patches (Some (<[p_Path patch := pval]> m)) errs patches
                  end
              end
          end
      end
  end.

Definition record_cc (acc : AppliedRulesAnnotation * list error) (rc : string * ClusterConfig) :
    M (AppliedRulesAnnotation * list error) :=
  let '(appliedRules, errs) := acc in
  let '(ruleID, cc) := rc in
  let injected := match appliedRules !! ruleID with Some m => m | None => Some ∅ end in
  let! (injected, errs) := record_patches injected errs (cc_Patches cc) in
  retM (<[ruleID := injected]> appliedRules, errs).

Definition injected_paths (appliedRules : AppliedRulesAnnotation) : gset string :=
  AggregateMap appliedRules (fun _ v aggregated => aggregated ∪ dom (nil_map v)) ∅.

Record norm_acc : Type := {
  n_paths : gset string;
  n_issue : option error;
  n_errs : list error }.

Definition inj_set_path (pws : PathWithSource) (path : string) (i : SingleCIDRInjection) :
    SingleCIDRInjection :=
  if pws_Index pws <? 0 then
    {| inj_ID := inj_ID i; inj_Path := path; inj_Paths := inj_Paths i;
       inj_Parents := inj_Parents i; inj_SubnetSize := inj_SubnetSize i |}
  else
    {| inj_ID := inj_ID i; inj_Path := inj_Path i;
       inj_Paths := <[Z.to_nat (pws_Index pws) := path]> (inj_Paths i);
       inj_Parents := inj_Parents i; inj_SubnetSize := inj_SubnetSize i |}.

(** The paths of one injection: normalised in place, up to the first conflict. *)
Fixpoint normalize_paths (injectedPaths : gset string) (pwss : list PathWithSource)
    (injection : SingleCIDRInjection) (acc : norm_acc) : SingleCIDRInjection * norm_acc :=
  match pwss with
  | [] => (injection, acc)
  | pws :: pwss =>
      match ConvertPath (pws_Path pws) with
      | inr err =>
          normalize_paths injectedPaths pwss injection
            {| n_paths := n_paths acc; n_issue := n_issue acc;
               n_errs := n_errs acc ++ [Errorf "error converting path" (Some (Lib err))] |}
      | inl path =>
          let injection := inj_set_path pws path injection in
          if decide (path ∈ n_paths acc) then
            (injection,
             {| n_paths := n_paths acc;
                n_issue := Some (Errorf "rule contains multiple injections for the same path" None);
                n_errs := n_errs acc |})
          else
            let paths := {[path]} ∪ n_paths acc in
            if decide (path ∈ injectedPaths) then
              (injection,
               {| n_paths := paths;
                  n_issue := Some (Errorf "rule tries to inject into path which has already been used by another injection rule" None);
                  n_errs := n_errs acc |})
            else
              normalize_paths injectedPaths pwss injection
                {| n_paths := paths; n_issue := n_issue acc; n_errs := n_errs acc |}
      end
  end.

Fixpoint normalize_injections (injectedPaths : gset string) (injections : list SingleCIDRInjection)
    (acc : norm_acc) : list SingleCIDRInjection * norm_acc :=
  match injections with
  | [] => ([], acc)
  | injection :: injections =>
      let '(injection, acc) := normalize_paths injectedPaths (GetPaths injection) injection acc in
      let '(injections, acc) := normalize_injections injectedPaths injections acc in
      (injection :: injections, acc)
  end.

Definition im_set (res : InjectionManagementResult) (create : list ClusterConfig)
    (ann : AppliedRulesAnnotation) (issues : gmap string error) (skipped : gset string) :
    InjectionManagementResult :=
  {| im_Instruction := {| ClusterConfigsToCreate := create;
                          ClusterConfigsToUpdate := ClusterConfigsToUpdate (im_Instruction res) |};
     AnnotationToApply := ann; RulesWithIssues := issues;
     SkippedBecauseAlreadyAppliedRules := skipped |}.

(** One applicable rule. *)
Definition evaluate_rule (cl : Cluster) (cfg : option IPAMConfig) (appliedRules : AppliedRulesAnnotation)
    (injectedPaths : gset string) (acc : InjectionManagementResult * list error) (rule : CIDRInjection) :
    M (InjectionManagementResult * list error) :=
  let '(res, allErrs) := acc in
  let create := ClusterConfigsToCreate (im_Instruction res) in
  match appliedRules !! rule_ID rule with
  | Some _ =>
      retM (im_set res create (AnnotationToApply res) (RulesWithIssues res)
              ({[rule_ID rule]} ∪ SkippedBecauseAlreadyAppliedRules res), allErrs)
  | None =>
      let '(injections, n) := normalize_injections injectedPaths (rule_Injections rule)
                                {| n_paths := ∅; n_issue := None; n_errs := [] |} in
      let allErrs := allErrs ++ n_errs n in
      let issues := match n_issue n with
                    | Some issue => <[rule_ID rule := issue]> (RulesWithIssues res)
                    | None => RulesWithIssues res
                    end in
      let res := im_set res create (AnnotationToApply res) issues
                   (SkippedBecauseAlreadyAppliedRules res) in
      match issues !! rule_ID rule with
      | Some _ => retM (res, allErrs)
      | None =>
          let rule := {| rule_ID := rule_ID rule; rule_Selector := rule_Selector rule;
                         rule_Injections := injections |} in
          match cfg with
          | None => panicM "nil pointer dereference: cfg"
          | Some cfg =>
              let! injections := generateCIDRsForInjectionRule rule (ParentCIDRs (Spec cfg)) in
              match injections with
              | inr err =>
                  retM (res, allErrs ++ [Errorf "error generating CIDRs for injection rule" (Some err)])
              | inl injections =>
                  let ann := <[rule_ID rule := Some injections]> (AnnotationToApply res) in
                  let res := im_set res create ann (RulesWithIssues res)
                               (SkippedBecauseAlreadyAppliedRules res) in
                  let! newCC := GenerateClusterConfigForInjectionList cl (rule_ID rule) injections in
                  match newCC with
                  | inr err =>
                      retM (res, allErrs ++ [Errorf "error generating ClusterConfig for injection rule" (Some err)])
                  | inl newCC =>
                      if decide (Name (cc_meta newCC) <> EmptyClusterNamePlaceholder)
                      then retM (im_set res (create ++ [newCC]) ann (RulesWithIssues res)
                                   (SkippedBecauseAlreadyAppliedRules res), allErrs)
                      else retM (res, allErrs)
                  end
              end
          end
      end
  end.

Definition ManageInjections (cl : Cluster) (cfg : option IPAMConfig)
    (applicableRules : list CIDRInjection) (ccs : gmap string ClusterConfig) :
    M (option InjectionManagementResult * string * option error) :=
  match parse_applied_rules cl with
  | inr err => retM (None, EventActionParsingAppliedRules, Some err)
  | inl appliedRules =>
      let! (appliedRules, errs) := foldM record_cc (appliedRules, []) (range ccs) in
      match errors_Join (Some <$> errs) with
      | Some err =>
          retM (None, EventActionEvaluatingExistingClusterConfigs,
                Some (Errorf "errors occurred while evaluating existing ClusterConfigs" (Some err)))
      | None =>
          let injectedPaths := injected_paths appliedRules in
          let! ir := CheckClusterConfigsForCluster cl (Some appliedRules) (Some ccs) in
          match ir with
          | inr err =>
              retM (None, EventActionEvaluatingMissingInjections,
                    Some (Errorf "errors occurred while evaluating missing injections" (Some err)))
          | inl ir =>
              let! (res, allErrs) :=
                foldM (evaluate_rule cl cfg appliedRules injectedPaths)
                  ({| im_Instruction := ir; AnnotationToApply := appliedRules;
                      RulesWithIssues := ∅; SkippedBecauseAlreadyAppliedRules := ∅ |}, errs)
                  applicableRules in
              retM (Some res, EventActionCIDRGeneration, errors_Join (Some <$> allErrs))
          end
      end
  end.

(** ** handleCreateOrUpdate *)

Definition warn (er : bool) (action : string) : M unit :=
  Eventf er "Warning" EventReasonCIDRManagementError action.

(** The annotation part: the error so far and the cluster afterwards. *)
Definition apply_annotation (er : bool) (ir : InjectionManagementResult) (errs : option error)
    (cl : Cluster) : M (option error * Cluster) :=
  if decide (size (AnnotationToApply ir) = 0%nat) then retM (errs, cl)
  else
    let! (annotationValue, errs) :=
      match ToAnnotation (AnnotationToApply ir) with
      | inl v => retM (v, errs)
      | inr err => warn er EventActionApplyingChanges ;;;
          retM ("", errors_Join [errs; Some (Errorf "unable to serialize 'applied rules' annotation" (Some err))])
      end in
    let oldAnnotation := default "" (Annotations (cl_meta cl) !! AppliedRulesAnnotationKey) in
    if decide (annotationValue = oldAnnotation) then retM (errs, cl)
    else
      let old := cl in
      let cl := cl_set_Annotations (<[AppliedRulesAnnotationKey := annotationValue]>
                                      (Annotations (cl_meta cl))) cl in
      let! r := client_PatchCluster old cl in
      match r with
      | inl cl => retM (errs, cl)
      | inr err => warn er EventActionApplyingChanges ;;;
          retM (errors_Join [errs; Some (Errorf "unable to update Cluster with 'applied rules' annotation" (Some (Lib err)))], cl)
      end.

Definition report_issues (er : bool) (issues : gmap string error) (errs : option error) : M (option error) :=
  foldM (fun errs ri =>
    warn er EventActionEvaluatingRulesToApply ;;;
    retM (errors_Join [errs; Some (Errorf "problem with injection rule" (Some ri.2))]))
    errs (range issues).

Definition handleCreateOrUpdate (er : bool) (rr : ReconcileResult) (cl : Cluster)
    (applicableRules : list CIDRInjection) : M ReconcileResult :=
  let! cfg := GetConfig in
  let! ccs := FetchClusterConfigsForCluster cl in
  match ccs with
  | inr err =>
      retM {| rr_Cluster := Some cl; rr_EventAction := EventActionEvaluatingExistingClusterConfigs;
              rr_Error := Some (Errorf "error fetching ClusterConfigs for Cluster" (Some err)) |}
  | inl ccs =>
      let! (ir, eventAction, err) := ManageInjections cl cfg applicableRules ccs in
      (if decide (is_Some err) then warn er eventAction else retM tt) ;;;
      match ir with
      | None => panicM "nil pointer dereference: ir"
      | Some ir =>
          let! (errs, cl) := apply_annotation er ir err cl in
          let! err := Apply (Some (im_Instruction ir)) in
          let errs := match err with Some err => errors_Join [errs; Some err] | None => errs end in
          let! errs := report_issues er (RulesWithIssues ir) errs in
          foldM (fun _ _ => Eventf er "Normal" EventReasonCIDRManagementError EventActionEvaluatingRulesToApply)
            tt (elements (SkippedBecauseAlreadyAppliedRules ir)) ;;;
          retM {| rr_Cluster := Some cl; rr_EventAction := rr_EventAction rr; rr_Error := errs |}
      end
  end.

(** ** handleDelete *)

Definition bare_cluster (ns name : string) : Cluster :=
  {| cl_meta := {| Name := name; Namespace := ns; UID := ""; Labels := ∅; Annotations := ∅;
                   Finalizers := []; OwnerReferences := []; DeletionTimestamp := None |};
     cl_Purposes := []; cl_ClusterConfigs := [] |}.

Definition delete_cc (errs : option error) (cc : ClusterConfig) : M (option error) :=
  let! (err, cc) := ReleaseCIDRsForClusterConfig cc in
  let errs := match err with
              | Some err => errors_Join [errs; Some (Errorf "error trying to release CIDRs from ClusterConfig" (Some err))]
              | None => errs
              end in
  let! err := client_DeleteClusterConfig cc in
  retM match IgnoreNotFound err with
       | Some err => errors_Join [errs; Some (Errorf "error trying to delete ClusterConfig" (Some (Lib err)))]
       | None => errs
       end.

Definition handleDelete (ns name : string) : M (option error) :=
  let! ccs := FetchClusterConfigsForCluster (bare_cluster ns name) in
  match ccs with
  | inr err => retM (Some (Errorf "error fetching ClusterConfigs for deleted Cluster" (Some err)))
  | inl ccs => foldM delete_cc None (range ccs).*2
  end.

(** ** Reconcile *)

Definition no_result : ReconcileResult :=
  {| rr_Cluster := None; rr_EventAction := ""; rr_Error := None |}.

(** The part of [reconcile] behind the operation annotation. *)
Definition reconcile_cluster (er : bool) (cl : Cluster) : M ReconcileResult :=
  let! cfg := GetConfig in
  match cfg with
  | None => retM no_result
  | Some cfg =>
      let applicableRules := filter (fun rule => rule_Matches rule cl = true) (InjectionRules (Spec cfg)) in
      if decide (length applicableRules = 0%nat) then retM no_result
      else handleCreateOrUpdate er
             {| rr_Cluster := Some cl; rr_EventAction := ""; rr_Error := None |} cl applicableRules
  end.

Definition reconcile (er : bool) (ns name : string) : M ReconcileResult :=
  let! cl := client_GetCluster ns name in
  match cl with
  | inr err =>
      if is_not_found err then
        let! err := handleDelete ns name in
        retM {| rr_Cluster := None; rr_EventAction := EventActionReleasingCIDRs; rr_Error := err |}
      else retM {| rr_Cluster := None; rr_EventAction := EventActionFetchingCluster;
                   rr_Error := Some (Errorf "error fetching Cluster" (Some (Lib err))) |}
  | inl cl =>
      match Annotations (cl_meta cl) !! OperationAnnotation with
      | None => reconcile_cluster er cl
      | Some op =>
          if decide (op = OperationAnnotationValueIgnore) then retM no_result
          else if decide (op = OperationAnnotationValueReconcile) then
            let! r := client_RemoveClusterAnnotation cl OperationAnnotation in
            match r with
            | inr err =>
                retM {| rr_Cluster := None; rr_EventAction := EventActionHandlingOperationAnnotation;
                        rr_Error := Some (Errorf "error removing operation annotation" (Some (Lib err))) |}
            | inl cl => reconcile_cluster er cl
            end
          else reconcile_cluster er cl
      end
  end.

Definition Reconcile (er : bool) (ns name : string) : M (option error) :=
  let! rr := reconcile er ns name in
  match rr_Cluster rr, rr_Error rr with
  | None, _ => retM tt
  | Some _, Some _ => Eventf er "Warning" "ReconcileError" (defaultedEventAction rr)
  | Some _, None => Eventf er "Normal" "ReconcileSuccess" (defaultedEventAction rr)
  end ;;;
  retM (rr_Error rr).
End controller.
