(* ===== verification/Returns.v ===== *)
(** * Calls that return

    What it takes for a call to return a value ([returns]), and the calls that do so in any
    started process, whatever the objects on the API server look like. *)

From stdpp Require Import base list strings gmap.
From S2P Require Import Prelude GoStd GoJson Types Externals Runtime Utils Restore ClusterController.
Open Scope list_scope.
Open Scope Z_scope.

(** ** Runs that return *)

Section returns.
Context {S : Type}.

(** From [I] the call returns a value with [Q], in [I] again. *)
Definition returns {A} (I : S -> Prop) (Q : A -> Prop) (m : goM S A) : Prop :=
  forall s, I s -> exists a s', m s = (Ret a, s') /\ I s' /\ Q a.

Context (I : S -> Prop).

Lemma returns_ret {A} (Q : A -> Prop) a : Q a -> returns I Q (retM a).
Proof. intros Hq s Hs. by exists a, s. Qed.
Lemma returns_get : returns I I getM.
Proof. intros s Hs. by exists s, s. Qed.
Lemma returns_modify f : (forall s, I s -> I (f s)) -> returns I (fun _ => True) (modifyM f).
Proof. intros Hf s Hs. exists tt, (f s). auto. Qed.
Lemma returns_bind {A B} (P : A -> Prop) (Q : B -> Prop) (m : goM S A) (k : A -> goM S B) :
  returns I P m -> (forall a, P a -> returns I Q (k a)) -> returns I Q (bindM m k).
Proof.
  intros Hm Hk s (a & s1 & Hrun & Hs1 & Ha)%Hm. rewrite (bindM_Ret _ _ _ _ _ Hrun). by apply Hk.
Qed.
Lemma returns_weaken {A} (P Q : A -> Prop) (m : goM S A) :
  returns I P m -> (forall a, P a -> Q a) -> returns I Q m.
Proof. intros Hm HPQ s (a & s1 & Hrun & Hs1 & Ha)%Hm. exists a, s1. auto. Qed.
Lemma returns_any {A} (P : A -> Prop) (m : goM S A) : returns I P m -> returns I (fun _ => True) m.
Proof. intros Hm. by eapply returns_weaken. Qed.
Lemma returns_foldM {A B} (f : B -> A -> goM S B) (J : B -> Prop) l b :
  J b -> (forall b x, J b -> x ∈ l -> returns I J (f b x)) -> returns I J (foldM f b l).
Proof.
  revert b. induction l as [|x l IH]; intros b Hb Hf; simpl; [by apply returns_ret|].
  apply (returns_bind J); [apply Hf; [done|by left]|]. intros b' Hb'. apply IH; [done|].
  intros b2 x2 Hb2 Hx2. apply Hf; [done|by right].
Qed.
End returns.

(** Structural search: a value about which nothing is claimed. *)
Ltac go_returns :=
  repeat first
    [ progress intros
    | solve [eauto 4 with go]
    | match goal with |- returns _ (fun _ => True) (retM _) => by apply returns_ret end
    | apply (returns_bind _ (fun _ => True))
    | apply (returns_foldM _ _ (fun _ => True)); [done|]
    | case_match ].

(** ** A started process *)

Section ready.
Context {OM : OpenMCP} {GI : GoIpam} {KA : K8sApi} {CU : CtrlUtils} {GO : GoMapOrder}.
Context {CL : CtrlUtilsLaws}.

Definition ready (b : bool) (s : gostate) : Prop :=
  (exists i, IPAM s = Some i /\ lock i = b) /\ providerName s <> "" /\ environment s <> "".

(** *** Primitive calls *)

Section primitives.
Context (b : bool).

Lemma ProviderName_returns : returns (ready b) (fun _ => True) ProviderName.
Proof. intros s Hs. exists (providerName s), s. unfold ProviderName, bindM, getM. destruct Hs as (? & ? & ?). by rewrite decide_False. Qed.
Lemma Environment_returns : returns (ready b) (fun _ => True) Environment.
Proof. intros s Hs. exists (environment s), s. unfold Environment, bindM, getM. destruct Hs as (? & ? & ?). by rewrite decide_False. Qed.

Lemma request_returns {A} (Q : A -> Prop) c answer :
  (forall h, Q (answer h)) -> returns (ready b) Q (request c answer).
Proof. intros HQ s Hs. exists (answer (calls s)), (st_set_calls (c :: calls s) s). by split_and!. Qed.
Lemma request_returns_any {A} c (answer : list api_call -> A) : returns (ready b) (fun _ => True) (request c answer).
Proof. by apply request_returns. Qed.

Lemma GetConfig_returns : returns (ready b) (fun _ => True) GetConfig.
Proof. intros s Hs. by exists (config s), s. Qed.
Lemma SetConfig_returns cfg : returns (ready b) (fun _ => True) (SetConfig cfg).
Proof. by apply returns_modify. Qed.
Lemma Eventf_returns er ty r a : returns (ready b) (fun _ => True) (Eventf er ty r a).
Proof. unfold Eventf. destruct er; [by apply returns_modify|by apply returns_ret]. Qed.

Lemma IPAM_internal_returns {A} (op : ipamS -> ipamS * A) : returns (ready b) (fun _ => True) (IPAM_internal op).
Proof.
  intros s ((i & Hi & Hl) & Hn). unfold IPAM_internal, on_IPAM, on_internal. rewrite Hi.
  destruct (op (internal i)) as [x r]. eexists r, _. split; [done|]. split; [|done].
  split; [|done]. by eexists.
Qed.

Lemma set_internal_returns x : returns (ready b) (fun _ => True) (on_IPAM (modifyM (set_internal x))).
Proof.
  intros s ((i & Hi & Hl) & Hn). unfold on_IPAM, modifyM. rewrite Hi. eexists tt, _.
  split; [done|]. split; [|done]. split; [|done]. by eexists.
Qed.
End primitives.

(** A method of the wrapper: the lock is free before and after. *)
Lemma method_returns {A} (op : ipamS -> ipamS * A) : returns (ready false) (fun _ => True) (on_IPAM (locked (on_internal op))).
Proof.
  intros s ((i & Hi & Hl) & Hn). unfold on_IPAM, locked, on_internal. rewrite Hi, Hl. simpl.
  destruct (op (internal i)) as [x r]. eexists r, _. split; [done|]. split; [|done]. split; [|done]. by eexists.
Qed.

Lemma with_IPAM_lock_returns {A} (Q : A -> Prop) (body : M A) :
  returns (ready true) Q body -> returns (ready false) Q (with_IPAM_lock body).
Proof.
  intros Hb s ((i & Hi & Hl) & Hn). unfold with_IPAM_lock. rewrite Hi, Hl.
  destruct (Hb (st_set_IPAM (Some (set_lock true i)) s)) as (a & s' & -> & ((i' & Hi' & _) & Hn') & Ha).
  { split; [|done]. by eexists. }
  eexists a, _. split; [done|]. split; [|done]. split; [|done]. simpl. rewrite Hi'. by eexists.
Qed.
End ready.

#[export] Hint Resolve ProviderName_returns Environment_returns request_returns_any GetConfig_returns
  SetConfig_returns Eventf_returns IPAM_internal_returns set_internal_returns method_returns : go.
#[export] Hint Extern 1 (returns _ (fun _ => True) (retM _)) => by apply returns_ret : go.

Section ends.
Context {OM : OpenMCP} {GI : GoIpam} {KA : K8sApi} {CU : CtrlUtils} {GO : GoMapOrder}.

(** ** utils.go and restore.go *)

Lemma ClusterConfigLabels_returns b cl r : returns (ready b) (fun _ => True) (ClusterConfigLabels cl r).
Proof. unfold ClusterConfigLabels. go_returns. Qed.

Lemma FetchClusterConfigs_ends b : returns (ready b) (fun _ => True) FetchClusterConfigs.
Proof. pose proof ClusterConfigLabels_returns. unfold FetchClusterConfigs, client_ListClusterConfigs. go_returns. Qed.

Lemma FetchFor_ends b cl : returns (ready b) (fun _ => True) (FetchClusterConfigsForCluster cl).
Proof. pose proof ClusterConfigLabels_returns. unfold FetchClusterConfigsForCluster, client_ListClusterConfigs. go_returns. Qed.

Lemma Generate_ends b cl r inj : returns (ready b) (fun _ => True) (GenerateClusterConfigForInjectionList cl r inj).
Proof. pose proof ClusterConfigLabels_returns. unfold GenerateClusterConfigForInjectionList. go_returns. Qed.

Lemma Apply_returns b ri : returns (ready b) (fun _ => True) (Apply ri).
Proof. unfold Apply, apply_all, client_CreateClusterConfig, client_UpdateClusterConfig. go_returns. Qed.

(** ** The allocation *)

Lemma try_prefixes_returns size ps : returns (ready false) (fun _ => True) (try_prefixes size ps).
Proof.
  induction ps as [|p ps IH]; simpl; [by apply returns_ret|].
  eapply returns_bind; [unfold AcquireChildPrefix; apply method_returns|]. intros [q|e] _; [by apply returns_ret|done].
Qed.

Lemma try_parents_returns tmp parents size sel : returns (ready false) (fun _ => True) (try_parents tmp parents size sel).
Proof.
  induction sel as [|p sel IH]; simpl; [by apply returns_ret|].
  eapply returns_bind.
  { instantiate (1 := fun _ => True). unfold parent_prefixes, fetch_prefixes, PrefixFrom. go_returns. }
  intros ps _. eapply returns_bind; [apply try_prefixes_returns|]. intros [q|] _; [by apply returns_ret|done].
Qed.

Lemma generate_loop_returns parents raw tmp injs : returns (ready false) (fun _ => True) (generate_loop parents raw tmp injs).
Proof.
  revert raw tmp. induction injs as [|inj injs IH]; intros raw tmp; cbn [generate_loop]; [by apply returns_ret|].
  eapply returns_bind; [apply try_parents_returns|]. intros [q|] _; [apply IH|].
  unfold release_raw, ReleaseChildPrefix. go_returns.
Qed.

(** A rule of an existing config always gives a result. *)
Lemma evaluate_rule_returns cl cfg applied paths acc rule :
  returns (ready false) (fun _ => True) (evaluate_rule cl (Some cfg) applied paths acc rule).
Proof.
  destruct acc as [res errs]. unfold evaluate_rule, generateCIDRsForInjectionRule.
  case_match; [by apply returns_ret|]. destruct (normalize_injections _ _ _) as [injs n]. cbv zeta.
  case_match; [by apply returns_ret|].
  apply (returns_bind _ (fun _ => True)).
  { eapply returns_bind; [apply generate_loop_returns|]. intros; by apply returns_ret. }
  intros [inj|e] _; [|by apply returns_ret].
  eapply returns_bind; [apply Generate_ends|]. intros [cc|e] _; [|by apply returns_ret].
  case_decide; by apply returns_ret.
Qed.

Lemma apply_annotation_returns er ir errs cl : returns (ready false) (fun _ => True) (apply_annotation er ir errs cl).
Proof. unfold apply_annotation, warn, client_PatchCluster. go_returns. Qed.

End ends.
