(* ===== verification/ClusterGenerate.v ===== *)
(** * generateCIDRsForInjectionRule: what is acquired, and the rollback *)

From stdpp Require Import base list strings gmap.
From S2P Require Import Prelude GoStd GoJson Types Externals Runtime Utils RestoreIpam ClusterController.
Open Scope list_scope.
Open Scope Z_scope.

Section calls.
Context {OM : OpenMCP} {GI : GoIpam} {KA : K8sApi} {CU : CtrlUtils} {GO : GoMapOrder}.
Context {GL : GoIpamLaws} {CL : CtrlUtilsLaws}.

Definition st_children (s : gostate) : gset string :=
  match IPAM s with Some i => children (internal i) | None => ∅ end.
Definition st_slices (s : gostate) (c : string) : gset string :=
  match IPAM s with Some i => slices (internal i) c | None => ∅ end.

(** Only the shared instance changed. *)
Definition only_ipam (s s' : gostate) : Prop := s' = st_set_IPAM (IPAM s') s.

#[export] Instance only_ipam_preorder : PreOrder only_ipam.
Proof.
  split.
  - by intros [].
  - intros s1 s2 s3 H12 H23. unfold only_ipam in *. by rewrite H23, H12.
Qed.

Lemma on_IPAM_only_ipam {A} (m : goM Ipamer A) : preserves only_ipam (on_IPAM m).
Proof.
  intros s. unfold on_IPAM. destruct (IPAM s) as [i|] eqn:Hi; [|reflexivity].
  by destruct (m i).
Qed.

Definition st_same (s s' : gostate) : Prop :=
  st_known s' = st_known s /\ st_children s' = st_children s /\
  (forall c, st_slices s' c = st_slices s c).

#[export] Instance st_same_equiv : Equivalence st_same.
Proof.
  unfold st_same. split.
  - by intros s.
  - intros s1 s2 (-> & -> & Hs). split_and!; [done..|]. intros c. by rewrite Hs.
  - intros s1 s2 s3 (-> & -> & Hs) (-> & -> & Hs'). split_and!; [done..|]. intros c. by rewrite Hs', Hs.
Qed.

(** A method of the shared Ipamer that forwards to the library. *)
Lemma ipam_call {A} (op : ipamS -> ipamS * A) s r s' :
  on_IPAM (locked (on_internal op)) s = (Ret r, s') ->
  exists i x, IPAM s = Some i /\ lock i = false /\ op (internal i) = (x, r) /\
    s' = st_set_IPAM (Some (set_internal x i)) s.
Proof.
  unfold on_IPAM, locked, on_internal. destruct (IPAM s) as [i|]; [|done].
  destruct (lock i) eqn:Hl; [done|]. simpl. destruct (op (internal i)) as [x a] eqn:Hop.
  intros [= -> <-]. exists i, x. split_and!; try done. unfold set_internal, set_lock. simpl.
  by rewrite Hl.
Qed.

Lemma ipam_call_same {A} (op : ipamS -> ipamS * A) s r s' :
  on_IPAM (locked (on_internal op)) s = (Ret r, s') ->
  (forall x x', op x = (x', r) -> same_view x x') -> st_same s s'.
Proof.
  intros (i & x & Hi & _ & Hop & ->)%ipam_call Hs. apply Hs in Hop as (Hk & Hc & Hsl).
  unfold st_same, st_known, st_children, st_slices. simpl. by rewrite Hi.
Qed.

Lemma PrefixFrom_call c s r s' :
  on_IPAM (PrefixFrom c) s = (Ret r, s') ->
  st_same s s' /\ match r with inl p => pCidr p = canon c | inr _ => True end.
Proof.
  intros Hrun. split.
  - apply (ipam_call_same _ _ _ _ Hrun). intros x x' [Hv _]%lookup_one. done.
  - apply ipam_call in Hrun as (i & x & _ & _ & [_ Hr]%lookup_one & _). destruct r; [apply Hr|done].
Qed.

(** [acquired] are new prefixes, sliced only from prefixes whose name is in [K]. *)
Definition fresh (K : string -> Prop) (acquired : list Prefix) (s s' : gostate) : Prop :=
  let X : gset string := list_to_set (pCidr <$> acquired) in
  NoDup (pCidr <$> acquired) /\ X ## st_known s /\
  st_known s' = X ∪ st_known s /\ X ∪ st_children s ⊆ st_children s' /\
  (forall d, ~ K d -> st_slices s' d ⊆ st_slices s d).

Lemma fresh_nil K s s' : st_same s s' -> fresh K [] s s'.
Proof.
  intros (Hk & Hc & Hs). unfold fresh. simpl. split_and!; [constructor|set_solver..|].
  intros d _. by rewrite Hs.
Qed.

Lemma fresh_app K l1 l2 s1 s2 s3 :
  fresh K l1 s1 s2 -> fresh K l2 s2 s3 -> fresh K (l1 ++ l2) s1 s3.
Proof.
  unfold fresh. intros (Hn1 & Hd1 & Hk1 & Hc1 & Hs1) (Hn2 & Hd2 & Hk2 & Hc2 & Hs2).
  rewrite fmap_app, list_to_set_app_L. rewrite Hk1 in Hd2. split_and!.
  - apply NoDup_app. split_and!; [done| |done]. intros c H1 H2.
    apply (Hd2 c); [by apply elem_of_list_to_set|].
    apply elem_of_union_l. by apply elem_of_list_to_set.
  - set_solver.
  - rewrite Hk2, Hk1. set_solver.
  - set_solver.
  - intros d Hd. etrans; [by apply Hs2|by apply Hs1].
Qed.

Lemma fresh_same_l K l s1 s2 s3 : st_same s1 s2 -> fresh K l s2 s3 -> fresh K l s1 s3.
Proof. intros Hs Hf. by apply (fresh_app K [] l s1 s2 s3); [apply fresh_nil|]. Qed.

(** *** One prefix *)

(** What trying prefixes with canonical names in [K] gives. *)
Definition tried (K : string -> Prop) (size : Z) (s : gostate) (r : option Prefix) (s' : gostate) : Prop :=
  match r with
  | Some p => fresh K [p] s s' /\ cidr_size (pCidr p) = Some size
  | None => st_same s s'
  end.

Lemma tried_same_l K size s1 s2 r s3 :
  st_same s1 s2 -> tried K size s2 r s3 -> tried K size s1 r s3.
Proof.
  unfold tried. destruct r as [p|]; [|by intros; etrans].
  intros Hs [Hf Hp]. split; [by eapply fresh_same_l|done].
Qed.

Lemma AcquireChild_call K c size s r s' :
  K (canon c) ->
  on_IPAM (AcquireChildPrefix c size) s = (Ret r, s') ->
  tried K size s (match r with inl p => Some p | inr _ => None end) s'.
Proof.
  intros HK Hrun. destruct r as [p|e].
  2:{ apply (ipam_call_same _ _ _ _ Hrun). intros x x' Hop. by eapply AcquireChild_err. }
  apply ipam_call in Hrun as (i & x & Hi & _ & Hop & ->).
  apply AcquireChild_ok in Hop as (Hn & _ & Hsz & Hk & Hc & Hs). split; [|done].
  unfold fresh, st_known, st_children, st_slices. simpl. rewrite Hi.
  split_and!; [apply NoDup_singleton|set_solver|set_solver|set_solver|].
  intros d Hd. specialize (Hs d). rewrite decide_False in Hs by (intros ->; done). set_solver.
Qed.

Lemma try_prefixes_ok K size prefixes s r s' :
  (forall p, p ∈ prefixes -> K (canon (pCidr p))) ->
  try_prefixes size prefixes s = (Ret r, s') -> tried K size s r s'.
Proof.
  revert s. induction prefixes as [|p prefixes IH]; intros s HK Hrun; simpl in Hrun.
  { unfold retM in Hrun. injection Hrun as <- <-. simpl. reflexivity. }
  apply bindM_Ret_inv in Hrun as (q & s1 & Hq & Hrun).
  apply (AcquireChild_call K) in Hq; [|apply HK; by left].
  destruct q as [q|e].
  - unfold retM in Hrun. by injection Hrun as <- <-.
  - eapply tried_same_l; [exact Hq|]. apply IH; [|done]. intros q Hin. apply HK. by right.
Qed.

Lemma fetch_prefixes_ok cidrs s ps s' :
  fetch_prefixes cidrs s = (Ret ps, s') ->
  st_same s s' /\ (forall p, p ∈ ps -> exists c, c ∈ cidrs /\ pCidr p = canon c).
Proof.
  intros Hrun. apply (foldM_inv _ (fun done ps st =>
    st_same s st /\ (forall p, p ∈ ps -> exists c, c ∈ done /\ pCidr p = canon c)) _ _ _ _ _ Hrun).
  { split; [reflexivity|]. by intros p ?%not_elem_of_nil. }
  clear Hrun ps s'. intros done c rest ps s1 ps' s2 _ [Hs Hps] Hstep.
  apply bindM_Ret_inv in Hstep as (r & s3 & Hp & Hstep). apply PrefixFrom_call in Hp as [Hs' Hr].
  unfold retM in Hstep. injection Hstep as <- <-. split; [by etrans|].
  assert (forall p, p ∈ ps -> exists c', c' ∈ done ++ [c] /\ pCidr p = canon c') as Hold.
  { intros p Hp. destruct (Hps p Hp) as (c' & ? & ?). exists c'. rewrite elem_of_app. auto. }
  destruct r as [q|e]; [|done]. intros p [Hp|Hp%list_elem_of_singleton]%elem_of_app; [by apply Hold|].
  subst p. exists c. split; [|done]. apply elem_of_app. right. by left.
Qed.

(** The canonical names of the configured parents. *)
Definition parent_names (parentCIDRs : gmap string (list string)) : gset string :=
  canons (concat (range parentCIDRs).*2).

Lemma parent_names_elem parentCIDRs id cidrs c :
  parentCIDRs !! id = Some cidrs -> c ∈ cidrs -> canon (canon c) ∈ parent_names parentCIDRs.
Proof.
  intros Hid Hc. rewrite canon_idem. unfold parent_names, canons.
  apply elem_of_list_to_set, list_elem_of_fmap_2, list_elem_of_In, in_concat.
  exists cidrs. rewrite <- !list_elem_of_In. split; [|done].
  apply list_elem_of_fmap. exists (id, cidrs). split; [done|]. by apply elem_of_range.
Qed.

Lemma parent_prefixes_ok tmp parentCIDRs id s ps s' :
  parent_prefixes tmp parentCIDRs id s = (Ret ps, s') ->
  st_same s s' /\ (tmp !! id = None -> forall p, p ∈ ps -> canon (pCidr p) ∈ parent_names parentCIDRs).
Proof.
  unfold parent_prefixes. destruct (tmp !! id); [by intros [= _ <-]|].
  destruct (parentCIDRs !! id) as [cidrs|] eqn:Hid.
  - intros [Hs Hps]%fetch_prefixes_ok. split; [done|]. intros _ p Hp.
    destruct (Hps p Hp) as (c & Hc & ->). by eapply parent_names_elem.
  - intros [= <- <-]. split; [reflexivity|]. by intros _ p ?%not_elem_of_nil.
Qed.

(** The names an injection's candidates can have: any, or the configured ones when no
    injection of the rule is a parent. *)
Definition names_ok (K : string -> Prop) (tmp : gmap string (list Prefix))
    (parentCIDRs : gmap string (list string)) (selected : list string) : Prop :=
  (forall c, K c) \/
  (K = (.∈ parent_names parentCIDRs) /\ forall id, id ∈ selected -> tmp !! id = None).

Lemma try_parents_ok K tmp parentCIDRs size selected s r s' :
  names_ok K tmp parentCIDRs selected ->
  try_parents tmp parentCIDRs size selected s = (Ret r, s') -> tried K size s r s'.
Proof.
  revert s. induction selected as [|id selected IH]; intros s HK Hrun; simpl in Hrun.
  { unfold retM in Hrun. injection Hrun as <- <-. simpl. reflexivity. }
  apply bindM_Ret_inv in Hrun as (ps & s1 & Hps & Hrun).
  apply parent_prefixes_ok in Hps as [Hs Hps].
  apply bindM_Ret_inv in Hrun as (q & s2 & Hq & Hrun). eapply tried_same_l; [exact Hs|].
  apply (try_prefixes_ok K) in Hq.
  2:{ intros p Hp. destruct HK as [HK|[-> HK]]; [done|]. apply Hps; [|done]. apply HK. by left. }
  destruct q as [q|].
  - unfold retM in Hrun. by injection Hrun as <- <-.
  - eapply tried_same_l; [exact Hq|]. apply IH; [|done].
    destruct HK as [HK|[-> HK]]; [by left|]. right. split; [done|]. intros id' Hin. apply HK. by right.
Qed.

(** *** The loop over the injections *)

Definition add_all (raw : gmap string Prefix) (ips : list (SingleCIDRInjection * Prefix)) :
    gmap string Prefix := foldl (fun raw ip => add_raw ip.2 raw ip.1) raw ips.

(** No injection takes its CIDR from another one of the rule. *)
Definition plain (tmp : gmap string (list Prefix)) (parentCIDRs : gmap string (list string))
    (injections : list SingleCIDRInjection) : Prop :=
  forall inj id, inj ∈ injections -> id ∈ selected_parents parentCIDRs inj ->
    tmp !! id = None /\ (forall inj', inj' ∈ injections -> inj_ID inj' <> "" -> inj_ID inj' <> id).

Definition names_ok_all (K : string -> Prop) tmp parentCIDRs injections : Prop :=
  (forall c, K c) \/ (K = (.∈ parent_names parentCIDRs) /\ plain tmp parentCIDRs injections).

Definition sized_as (ip : SingleCIDRInjection * Prefix) : Prop :=
  cidr_size (pCidr ip.2) = Some (uint8 (inj_SubnetSize ip.1)).

Lemma generate_loop_ok K parentCIDRs injections raw tmp s r s' :
  names_ok_all K tmp parentCIDRs injections ->
  generate_loop parentCIDRs raw tmp injections s = (Ret r, s') ->
  exists ips s1, fresh K ips.*2 s s1 /\ Forall sized_as ips /\
    match r with
    | inl raw' => ips.*1 = injections /\ s' = s1 /\ raw' = add_all raw ips
    | inr _ => ips.*1 `prefix_of` injections /\ release_raw (add_all raw ips) s1 = (Ret tt, s')
    end.
Proof.
  revert raw tmp s. induction injections as [|inj injections IH]; intros raw tmp s HK Hrun; simpl in Hrun.
  { unfold retM in Hrun. injection Hrun as <- <-. exists [], s.
    split_and!; [by apply fresh_nil|constructor|done..]. }
  apply bindM_Ret_inv in Hrun as (q & s1 & Hq & Hrun).
  apply (try_parents_ok K) in Hq.
  2:{ destruct HK as [HK|[-> HK]]; [by left|]. right. split; [done|]. intros id Hid.
      apply (HK inj id); [by left|done]. }
  destruct q as [p|].
  - destruct Hq as [Hf Hsz]. apply IH in Hrun.
    2:{ destruct HK as [HK|[-> HK]]; [by left|]. right. split; [done|]. intros inj' id Hin Hid.
        destruct (HK inj' id) as [Htmp Hids]; [by right|done|]. split.
        - destruct (decide (inj_ID inj <> "")) as [Hne|]; [|done]. rewrite lookup_insert_ne; [done|].
          apply Hids; [by left|done].
        - intros inj2 H2. apply Hids. by right. }
    destruct Hrun as (ips & s2 & Hf2 & Hall & Hr). exists ((inj, p) :: ips), s2. split_and!.
    + rewrite fmap_cons. simpl snd. change (p :: ips.*2) with ([p] ++ ips.*2). by eapply fresh_app.
    + by constructor.
    + rewrite !fmap_cons. simpl fst. destruct r as [raw'|e].
      * by destruct Hr as (-> & -> & ->).
      * destruct Hr as [Hp Hr]. split; [by apply prefix_cons|done].
  - apply bindM_Ret_inv in Hrun as ([] & s2 & Hrel & Hrun).
    unfold retM in Hrun. injection Hrun as <- <-. exists [], s1.
    split_and!; [by apply fresh_nil|constructor|by apply prefix_nil|done].
Qed.

(** *** The map from paths to prefixes *)

Definition inj_paths (inj : SingleCIDRInjection) : list string := pws_Path <$> GetPaths inj.

Lemma add_raw_lookup p raw inj path :
  add_raw p raw inj !! path = if decide (path ∈ inj_paths inj) then Some p else raw !! path.
Proof.
  unfold add_raw, inj_paths. case_decide as Hin.
  - revert raw. induction (GetPaths inj) as [|pws l IH]; intros raw; simpl; [by apply not_elem_of_nil in Hin|].
    destruct (decide (path ∈ pws_Path <$> l)) as [Hl|Hl]; [by apply IH|].
    apply elem_of_cons in Hin as [->|Hin]; [|done].
    rewrite (foldl_insert_notin pws_Path (fun _ => p)) by done. by rewrite lookup_insert_eq.
  - by apply (foldl_insert_notin pws_Path (fun _ => p)).
Qed.

Lemma add_all_some ips raw path p :
  add_all raw ips !! path = Some p ->
  (exists inj, (inj, p) ∈ ips /\ path ∈ inj_paths inj) \/ raw !! path = Some p.
Proof.
  revert raw. induction ips as [|[inj q] ips IH]; intros raw; simpl; [by right|].
  intros [(inj' & Hin & Hp)|Hr]%IH; [left; exists inj'; split; [by right|done]|].
  rewrite add_raw_lookup in Hr. simpl in Hr. case_decide; [|by right].
  simplify_eq. left. exists inj. split; [by left|done].
Qed.

Lemma add_all_notin ips raw path :
  (forall inj p, (inj, p) ∈ ips -> path ∉ inj_paths inj) -> add_all raw ips !! path = raw !! path.
Proof.
  revert raw. induction ips as [|[inj q] ips IH]; intros raw Hni; simpl; [done|].
  rewrite IH by (intros inj' p' Hin; apply (Hni inj' p'); by right).
  rewrite add_raw_lookup, decide_False; [done|]. apply (Hni inj q). by left.
Qed.

(** The last injection with a path decides. *)
Lemma add_all_last l1 inj p l2 raw path :
  path ∈ inj_paths inj -> (forall inj' p', (inj', p') ∈ l2 -> path ∉ inj_paths inj') ->
  add_all raw (l1 ++ (inj, p) :: l2) !! path = Some p.
Proof.
  intros Hp Hl2. transitivity (add_all (add_raw p (add_all raw l1) inj) l2 !! path).
  { unfold add_all. by rewrite foldl_app. }
  rewrite add_all_notin by done. by rewrite add_raw_lookup, decide_True.
Qed.

(** *** The rollback *)

Definition released (X : gset string) (s1 : gostate) (done : list Prefix) (s : gostate) : Prop :=
  st_known s ⊆ st_known s1 /\ st_known s1 ⊆ st_known s ∪ X /\
  (forall p, p ∈ done -> pCidr p ∉ st_known s) /\ st_releasable X s.

Lemma release_call X s1 done p s r s' :
  on_IPAM (ReleaseChildPrefix p) s = (Ret r, s') -> pCidr p ∈ X ->
  released X s1 done s -> released X s1 (done ++ [p]) s'.
Proof.
  intros (i & x & Hi & _ & Hop & ->)%ipam_call Hp (Hk1 & Hk2 & Hd & Hrel).
  unfold released, st_known, st_releasable in *. simpl in *. rewrite Hi in *.
  assert (known x ⊆ known (internal i) /\ known (internal i) ⊆ known x ∪ X /\
          pCidr p ∉ known x /\ releasable X x) as (H1 & H2 & H3 & H4).
  { destruct r as [e|].
    - pose proof (Release_err _ _ _ _ Hop) as Hv.
      assert (pCidr p ∉ known (internal i)) as Hn.
      { intros Hin. assert (pCidr p ∈ children (internal i)) as Hc
          by (apply Hrel; by apply elem_of_intersection).
        apply Release_child in Hc. by rewrite Hop in Hc. }
      destruct Hv as (Hkv & Hv'). rewrite Hkv. split_and!; [done|set_solver|done|].
      by apply (releasable_same _ (internal i)).
    - pose proof (releasable_release _ _ _ _ Hop Hp Hrel) as Hrel'.
      apply Release_ok in Hop as (Hkv & _). split_and!; [set_solver| |set_solver|done].
      rewrite Hkv. intros c Hc. destruct (decide (c = pCidr p)) as [->|]; set_solver. }
  split_and!; [by etrans|set_solver| |done].
  intros q [Hq|Hq%list_elem_of_singleton]%elem_of_app; [|by subst q].
  specialize (Hd q Hq). set_solver.
Qed.

Lemma release_raw_ok X raw s s' :
  release_raw raw s = (Ret tt, s') ->
  (forall path p, raw !! path = Some p -> pCidr p ∈ X) ->
  st_releasable X s -> released X s (range raw).*2 s'.
Proof.
  intros Hrun HX Hrel.
  apply (foldM_inv _ (fun done _ st => released X s done.*2 st) _ _ _ _ _ Hrun).
  { unfold released. split_and!; [done|set_solver| |done]. by intros p ?%not_elem_of_nil. }
  clear Hrun. intros done [path p] rest [] s1 [] s2 Hl Hinv Hstep.
  apply bindM_Ret_inv in Hstep as (r & s3 & Hcall & Hstep).
  unfold retM in Hstep. injection Hstep as <-. rewrite fmap_app.
  eapply release_call; [exact Hcall| |done]. apply (HX path). apply elem_of_range.
  rewrite Hl. apply elem_of_app. right. by left.
Qed.

(** Each acquired prefix is stored under some path. *)
Definition own_paths (injections : list SingleCIDRInjection) : Prop :=
  NoDup (concat (inj_paths <$> injections)) /\ Forall (fun inj => inj_paths inj <> []) injections.

Lemma own_paths_prefix l1 l2 : l1 `prefix_of` l2 -> own_paths l2 -> own_paths l1.
Proof.
  intros [k ->] [H1 H2]. rewrite fmap_app, concat_app in H1. apply NoDup_app in H1 as [H1 _].
  apply Forall_app in H2 as [H2 _]. done.
Qed.

Lemma add_all_covers raw ips p :
  own_paths ips.*1 -> p ∈ ips.*2 -> exists path, add_all raw ips !! path = Some p.
Proof.
  intros [Hnd Hne] ([inj q] & -> & Hin)%list_elem_of_fmap. simpl.
  apply list_elem_of_split in Hin as (l1 & l2 & ->).
  rewrite !fmap_app, !fmap_cons in Hnd. rewrite !fmap_app, !fmap_cons in Hne.
  rewrite concat_app in Hnd. simpl in Hnd, Hne. apply NoDup_app in Hnd as (_ & _ & Hnd).
  apply NoDup_app in Hnd as (_ & Hnd & _).
  apply Forall_app in Hne as [_ [Hne _]%Forall_cons].
  destruct (inj_paths inj) as [|path l] eqn:Hp; [done|]. exists path.
  apply add_all_last; [rewrite Hp; by left|]. intros inj' p' Hin' Hpath.
  apply (Hnd path); [by left|]. apply list_elem_of_In, in_concat. exists (inj_paths inj').
  rewrite <- !list_elem_of_In. split; [|done]. apply list_elem_of_fmap_2.
  apply list_elem_of_fmap. by exists (inj', p').
Qed.

Lemma fresh_releasable K X acquired s s' :
  fresh K acquired s s' -> X = list_to_set (pCidr <$> acquired) ->
  (forall c, c ∈ X -> ~ K c) -> st_releasable X s'.
Proof.
  intros (Hnd & Hd & Hk & Hc & Hs) -> HK.
  unfold st_releasable, st_known, st_children, st_slices in *.
  destruct (IPAM s') as [i'|]; [|done]. split; [set_solver|]. intros c Hin.
  specialize (Hs c (HK c Hin)). destruct (IPAM s) as [i|]; [|set_solver].
  pose proof (slices_known (internal i) c). set_solver.
Qed.

(** *** generateCIDRsForInjectionRule *)

Lemma generate_inv K rule parentCIDRs s r s' :
  names_ok_all K ∅ parentCIDRs (rule_Injections rule) ->
  generateCIDRsForInjectionRule rule parentCIDRs s = (Ret r, s') ->
  exists ips s1, fresh K ips.*2 s s1 /\ Forall sized_as ips /\
    match r with
    | inl m => ips.*1 = rule_Injections rule /\ s' = s1 /\
               (forall path, m !! path = pCidr <$> add_all ∅ ips !! path)
    | inr _ => ips.*1 `prefix_of` rule_Injections rule /\ release_raw (add_all ∅ ips) s1 = (Ret tt, s')
    end.
Proof.
  intros HK Hrun. unfold generateCIDRsForInjectionRule in Hrun.
  apply bindM_Ret_inv in Hrun as (q & s1 & Hl & Hrun).
  apply (generate_loop_ok K) in Hl as (ips & s2 & Hf & Hall & Hr); [|done].
  unfold retM in Hrun. injection Hrun as <- <-. exists ips, s2. split_and!; [done..|].
  destruct q as [raw|e]; [|done]. destruct Hr as (H1 & -> & ->). split_and!; [done..|].
  intros path. rewrite (ProjectMapToMap_id _ (fun _ v => pCidr v)).
  rewrite map_lookup_imap. by destruct (add_all ∅ ips !! path).
Qed.

Lemma generate_only_ipam rule parentCIDRs : preserves only_ipam (generateCIDRsForInjectionRule rule parentCIDRs).
Proof.
  pose proof @on_IPAM_only_ipam as Hon.
  assert (forall size ps, preserves only_ipam (try_prefixes size ps)) as Htp.
  { intros size ps. induction ps; simpl; go_struct. }
  assert (forall tmp pc size sel, preserves only_ipam (try_parents tmp pc size sel)) as Hsel.
  { intros tmp pc size sel. induction sel; simpl; [go_struct|].
    unfold parent_prefixes, fetch_prefixes. go_struct. }
  unfold generateCIDRsForInjectionRule. go_struct.
  generalize (∅ : gmap string Prefix) (∅ : gmap string (list Prefix)).
  induction (rule_Injections rule); intros; simpl; unfold release_raw; go_struct.
Qed.

(** C7: A successful generateCIDRsForInjectionRule acquires one CIDR per injection: pairwise
    distinct, unknown to the IPAM before, and after the call the IPAM knows exactly the old ones
    and these; the i-th CIDR has the i-th injection's subnet size (as a uint8) and is the one
    the returned map has at each path of that injection, unless a later injection of the rule
    has the same path; the map has no other entries. *)
Theorem generate_correct rule parentCIDRs s m s' :
  generateCIDRsForInjectionRule rule parentCIDRs s = (Ret (inl m), s') ->
  only_ipam s s' /\
  exists acquired : list string,
    length acquired = length (rule_Injections rule) /\
    NoDup acquired /\ list_to_set acquired ## st_known s /\
    st_known s' = list_to_set acquired ∪ st_known s /\
    (forall i inj, rule_Injections rule !! i = Some inj ->
       exists c, acquired !! i = Some c /\ cidr_size c = Some (uint8 (inj_SubnetSize inj)) /\
         forall path, path ∈ inj_paths inj ->
           (forall j inj', rule_Injections rule !! j = Some inj' -> (i < j)%nat -> path ∉ inj_paths inj') ->
           m !! path = Some c) /\
    (forall path c, m !! path = Some c ->
       exists i inj, rule_Injections rule !! i = Some inj /\ acquired !! i = Some c /\ path ∈ inj_paths inj).
Proof.
  intros Hrun. split; [apply (preserves_run _ _ _ _ _ (generate_only_ipam rule parentCIDRs) Hrun)|].
  apply (generate_inv (fun _ => True)) in Hrun as (ips & s1 & Hf & Hall & Hr); [|by left].
  destruct Hr as (<- & -> & Hm). destruct Hf as (Hnd & Hd & Hk & _).
  exists (pCidr <$> ips.*2). split_and!; [by rewrite !length_fmap|done..| |].
  - intros i inj Hi. rewrite list_lookup_fmap in Hi.
    destruct (ips !! i) as [[inj1 p]|] eqn:Hip; simplify_eq/=. exists (pCidr p).
    split_and!; [by rewrite !list_lookup_fmap, Hip| |].
    + rewrite Forall_forall in Hall. apply (Hall (inj, p)). by eapply list_elem_of_lookup_2.
    + intros path Hp Hlast. rewrite Hm. apply list_elem_of_split_length in Hip as (l1 & l2 & -> & ->).
      rewrite add_all_last; [done|done|]. intros inj' p' Hin. apply list_elem_of_lookup in Hin as [j Hj].
      apply (Hlast (length l1 + S j)%nat); [|lia].
      rewrite list_lookup_fmap, lookup_app_r by lia.
      replace (length l1 + S j - length l1)%nat with (S j) by lia. simpl. by rewrite Hj.
  - intros path c. rewrite Hm. intros (p & Hp & ->)%fmap_Some.
    apply add_all_some in Hp as [(inj & Hin & Hpath)|Hp]; [|by rewrite lookup_empty in Hp].
    apply list_elem_of_lookup in Hin as [i Hi]. exists i, inj.
    by rewrite !list_lookup_fmap, Hi.
Qed.


(** *** In any case nothing known before is lost *)

Lemma release_raw_bound (X : gset string) raw s s' :
  release_raw raw s = (Ret tt, s') ->
  (forall path p, raw !! path = Some p -> pCidr p ∈ X) -> st_known s ⊆ st_known s' ∪ X.
Proof.
  intros Hrun HX.
  apply (foldM_inv _ (fun _ _ st => st_known s ⊆ st_known st ∪ X) _ _ _ _ _ Hrun); [set_solver|].
  clear Hrun s'. intros done [path p] rest [] s1 [] s2 Hl Hinv Hstep.
  apply bindM_Ret_inv in Hstep as (r & s3 & Hcall & Hstep).
  unfold retM in Hstep. injection Hstep as <-.
  assert (pCidr p ∈ X) as Hp.
  { apply (HX path). apply elem_of_range. rewrite Hl. apply elem_of_app. right. by left. }
  apply ipam_call in Hcall as (i & x & Hi & _ & Hop & ->).
  unfold st_known in *. simpl in *. rewrite Hi in Hinv. destruct r as [e|].
  - apply Release_err in Hop as (-> & _). done.
  - apply Release_ok in Hop as (-> & _). intros c Hc. specialize (Hinv c Hc).
    destruct (decide (c = pCidr p)) as [->|]; set_solver.
Qed.

(** The CIDRs of a generated map are new. *)
Lemma generate_fresh rule parentCIDRs s r s' :
  generateCIDRsForInjectionRule rule parentCIDRs s = (Ret r, s') ->
  st_known s ⊆ st_known s' /\
  match r with
  | inl m => forall path c, m !! path = Some c ->
      c ∈ st_known s' /\ c ∉ st_known s /\ exists inj, inj ∈ rule_Injections rule /\ path ∈ inj_paths inj
  | inr _ => True
  end.
Proof.
  intros (ips & s1 & (_ & Hd & Hk & _) & _ & Hr)%(generate_inv (fun _ => True)); [|by left].
  assert (forall path p, add_all ∅ ips !! path = Some p -> exists inj, (inj, p) ∈ ips /\ path ∈ inj_paths inj) as Hin.
  { intros path p [?|Hp]%add_all_some; [done|by rewrite lookup_empty in Hp]. }
  assert (forall inj p, (inj, p) ∈ ips -> pCidr p ∈ (list_to_set (pCidr <$> ips.*2) : gset string)) as HX.
  { intros inj p Hp. apply elem_of_list_to_set, list_elem_of_fmap_2.
    apply list_elem_of_fmap. by exists (inj, p). }
  destruct r as [m|e].
  - destruct Hr as (Hips & -> & Hm). split; [set_solver|]. intros path c. rewrite Hm.
    intros (p & (inj & Hp & Hpath)%Hin & ->)%fmap_Some. apply HX in Hp as Hpx.
    split_and!; [set_solver|set_solver|]. exists inj. split; [|done]. rewrite <- Hips.
    apply list_elem_of_fmap. by exists (inj, p).
  - destruct Hr as [_ Hrel]. split; [|done].
    apply (release_raw_bound (list_to_set (pCidr <$> ips.*2))) in Hrel; [set_solver|].
    intros path p (inj & Hp & _)%Hin. by eapply HX.
Qed.
End calls.
