(* ===== verification/ClusterManage.v ===== *)
(** * ManageInjections: path normalisation, the rule loop, the resulting annotation *)

From stdpp Require Import base list strings gmap.
From S2P Require Import Prelude GoStd GoJson Types Externals Runtime Utils Restore RestoreCheck ClusterController ClusterGenerate.
Open Scope list_scope.
Open Scope Z_scope.

(** ** Normalising the paths of a rule *)

Section normalize.
Context {OM : OpenMCP} {GI : GoIpam} {KA : K8sApi} {CU : CtrlUtils} {GO : GoMapOrder}.

(** A run without a conflict or conversion error: every path converted, all of them
    new within the rule and unused by other rules. *)
Definition clean (injectedPaths : gset string) (n0 n : norm_acc) (paths : list string) : Prop :=
  NoDup paths /\ (forall p, p ∈ paths -> p ∉ n_paths n0 /\ p ∉ injectedPaths) /\
  n_paths n = list_to_set paths ∪ n_paths n0.

Lemma clean_nil I n : clean I n n [].
Proof.
  unfold clean. split_and!; [constructor|by intros p ?%not_elem_of_nil|]. set_solver.
Qed.

Lemma clean_app I n1 n2 n3 l1 l2 : clean I n1 n2 l1 -> clean I n2 n3 l2 -> clean I n1 n3 (l1 ++ l2).
Proof.
  unfold clean. intros (Hn1 & H1 & Hp1) (Hn2 & H2 & Hp2). rewrite Hp1 in H2. split_and!.
  - apply NoDup_app. split_and!; [done| |done]. intros p Hp Hp'.
    destruct (H2 p Hp') as [H _]. apply H, elem_of_union_l. by apply elem_of_list_to_set.
  - intros p [Hp|Hp]%elem_of_app; [by apply H1|]. destruct (H2 p Hp). set_solver.
  - rewrite Hp2, Hp1, list_to_set_app_L. set_solver.
Qed.

(** The paths the loop leaves in the injection, one for each of its sources. *)
Fixpoint set_paths (inj : SingleCIDRInjection) (l : list (PathWithSource * string)) : SingleCIDRInjection :=
  match l with
  | [] => inj
  | (pws, path) :: l => set_paths (inj_set_path pws path inj) l
  end.

Lemma normalize_paths_clean I pwss inj n inj' n' :
  normalize_paths I pwss inj n = (inj', n') ->
  (n_issue n <> None -> n_issue n' <> None) /\ (length (n_errs n) <= length (n_errs n'))%nat /\
  (n_issue n' = None -> length (n_errs n') = length (n_errs n) ->
   exists paths, Forall2 (fun pws p => ConvertPath (pws_Path pws) = inl p) pwss paths /\
     inj' = set_paths inj (zip pwss paths) /\ clean I n n' paths).
Proof.
  revert inj n. induction pwss as [|pws pwss IH]; intros inj n Hrun; cbn [normalize_paths] in Hrun.
  { injection Hrun as <- <-. split_and!; [done|lia|]. intros _ _. exists [].
    split_and!; [constructor|done|apply clean_nil]. }
  destruct (ConvertPath (pws_Path pws)) as [path|e] eqn:Hc.
  2:{ apply IH in Hrun as (H1 & H2 & H3). simpl in *. rewrite length_app in *. simpl in *.
      split_and!; [done|lia|lia]. }
  cbv zeta in Hrun. case_decide as Hin; [by injection Hrun as <- <-|].
  case_decide as Hinj; [by injection Hrun as <- <-|].
  apply IH in Hrun as (H1 & H2 & H3). simpl in *. split_and!; [done|done|].
  intros Hi He. destruct (H3 Hi He) as (paths & Hf & -> & Hcl). exists (path :: paths).
  split_and!; [by constructor|done|]. eapply (clean_app I n _ n' [path] paths); [|exact Hcl].
  unfold clean. simpl. split_and!; [apply NoDup_singleton| |set_solver].
  intros p Hp%list_elem_of_singleton. by subst p.
Qed.

(** Setting the entries of [Paths] one after the other. *)
Lemma set_paths_list inj (l1 l2 conv : list string) :
  inj_Paths inj = l1 ++ l2 -> length conv = length l2 ->
  set_paths inj (zip (imap (fun i p => {| pws_Path := p; pws_Index := Z.of_nat (length l1 + i) |}) l2) conv) =
  {| inj_ID := inj_ID inj; inj_Path := inj_Path inj; inj_Paths := l1 ++ conv;
     inj_Parents := inj_Parents inj; inj_SubnetSize := inj_SubnetSize inj |}.
Proof.
  revert inj l1 conv. induction l2 as [|p l2 IH]; intros inj l1 [|c conv] Hp Hl; try done.
  - destruct inj; simpl in *. by subst.
  - rewrite imap_cons. cbn [zip zip_with set_paths].
    rewrite (imap_ext _ (fun i p => {| pws_Path := p; pws_Index := Z.of_nat (length (l1 ++ [c]) + i) |})).
    2:{ intros i q _. simpl. rewrite length_app. simpl. do 2 f_equal. lia. }
    assert (inj_set_path {| pws_Path := p; pws_Index := Z.of_nat (length l1 + 0) |} c inj =
      {| inj_ID := inj_ID inj; inj_Path := inj_Path inj; inj_Paths := (l1 ++ [c]) ++ l2;
         inj_Parents := inj_Parents inj; inj_SubnetSize := inj_SubnetSize inj |}) as ->.
    { unfold inj_set_path. simpl. destruct (Z.ltb_spec (Z.of_nat (length l1 + 0)) 0); [lia|].
      rewrite Hp, Nat2Z.id, insert_app_r, <- app_assoc. done. }
    rewrite IH by (simpl in *; lia || done). simpl. by rewrite <- app_assoc.
Qed.

(** Afterwards the injection's paths are the converted ones (an empty one disappears). *)
Lemma set_paths_inj_paths inj paths :
  length paths = length (GetPaths inj) ->
  inj_paths (set_paths inj (zip (GetPaths inj) paths)) `sublist_of` paths.
Proof.
  intros Hlen.
  assert (forall inj', inj_paths inj' = (if decide (inj_Path inj' = "") then [] else [inj_Path inj']) ++ inj_Paths inj') as Hip.
  { intros inj'. unfold inj_paths, GetPaths. rewrite fmap_app, fmap_imap.
    rewrite (imap_ext _ (fun _ p => p)) by done. f_equal; [by case_decide|].
    induction (inj_Paths inj') as [|p l IH]; [done|]. rewrite imap_cons. f_equal. exact IH. }
  unfold GetPaths in *. destruct (decide (inj_Path inj = "")) as [He|He]; simpl in *.
  - rewrite length_imap in Hlen. pose proof (set_paths_list inj [] (inj_Paths inj) paths eq_refl Hlen) as Hs.
    simpl in Hs. rewrite Hs, Hip. simpl. by rewrite decide_True.
  - destruct paths as [|c paths]; [done|]. simpl in *. rewrite length_imap in Hlen.
    set (inj1 := inj_set_path _ c inj).
    pose proof (set_paths_list inj1 [] (inj_Paths inj) paths eq_refl ltac:(lia)) as Hs.
    simpl in Hs. rewrite Hs, Hip. simpl. case_decide; simpl; [by apply sublist_cons|done].
Qed.

Lemma normalize_injections_clean I injs n injs' n' :
  normalize_injections I injs n = (injs', n') ->
  (n_issue n <> None -> n_issue n' <> None) /\ (length (n_errs n) <= length (n_errs n'))%nat /\
  (n_issue n' = None -> length (n_errs n') = length (n_errs n) ->
   exists paths, concat (inj_paths <$> injs') `sublist_of` paths /\ clean I n n' paths).
Proof.
  revert n injs' n'. induction injs as [|inj injs IH]; intros n injs' n' Hrun; simpl in Hrun.
  { injection Hrun as <- <-. split_and!; [done|lia|]. intros _ _. exists []. split; [done|apply clean_nil]. }
  destruct (normalize_paths I (GetPaths inj) inj n) as [inj1 n1] eqn:H1.
  destruct (normalize_injections I injs n1) as [injs1 n2] eqn:H2. injection Hrun as <- <-.
  apply normalize_paths_clean in H1 as (Ha1 & Ha2 & Ha3).
  apply IH in H2 as (Hb1 & Hb2 & Hb3). split_and!; [auto|lia|]. intros Hi He.
  assert (n_issue n1 = None) as Hi1.
  { destruct (n_issue n1); [|done]. by destruct Hb1. }
  destruct Ha3 as (paths1 & Hf & -> & Hc1); [done|lia|].
  destruct Hb3 as (paths2 & Hs & Hc2); [done|lia|].
  exists (paths1 ++ paths2). split; [|by eapply clean_app]. simpl.
  apply sublist_app; [|done]. apply set_paths_inj_paths. symmetry. by eapply Forall2_length.
Qed.
End normalize.

(** ** The rule loop *)

Section manage.
Context {OM : OpenMCP} {GI : GoIpam} {KA : K8sApi} {CU : CtrlUtils} {GO : GoMapOrder}.
Context {GL : GoIpamLaws} {CL : CtrlUtilsLaws}.

Definition creates_of (res : InjectionManagementResult) : list ClusterConfig :=
  ClusterConfigsToCreate (im_Instruction res).

Definition grows (s s' : gostate) : Prop := only_ipam s s' /\ st_known s ⊆ st_known s'.

#[export] Instance grows_preorder : PreOrder grows.
Proof.
  unfold grows. split; [by intros s; split; [reflexivity|]|].
  intros s1 s2 s3 [H1 K1] [H2 K2]. split; by etrans.
Qed.

(** The CIDRs of [m] are known in [s'] and were not in [s]. *)
Definition new_cidrs (m : gmap string string) (s s' : gostate) : Prop :=
  forall path c, m !! path = Some c -> c ∈ st_known s' /\ c ∉ st_known s.

(** The three ways a rule can go: skipped, refused (an issue or an error), applied. *)
Definition rule_skipped (A : AppliedRulesAnnotation) (rule : CIDRInjection)
    (res res' : InjectionManagementResult) (more : list error) (s s' : gostate) : Prop :=
  is_Some (A !! rule_ID rule) /\ s' = s /\ more = [] /\
  AnnotationToApply res' = AnnotationToApply res /\ creates_of res' = creates_of res /\
  rule_ID rule ∈ SkippedBecauseAlreadyAppliedRules res'.

Definition rule_refused (A : AppliedRulesAnnotation) (rule : CIDRInjection)
    (res res' : InjectionManagementResult) (more : list error) (s s' : gostate) : Prop :=
  A !! rule_ID rule = None /\ grows s s' /\
  AnnotationToApply res' = AnnotationToApply res /\ creates_of res' = creates_of res /\
  (rule_ID rule ∈ dom (RulesWithIssues res') \/ more <> []).

Definition rule_applied (cl : Cluster) (injectedPaths : gset string) (A : AppliedRulesAnnotation)
    (rule : CIDRInjection) (res res' : InjectionManagementResult) (more : list error) (s s' : gostate) : Prop :=
  A !! rule_ID rule = None /\ grows s s' /\
  exists m, AnnotationToApply res' = <[rule_ID rule := Some m]> (AnnotationToApply res) /\
    new_cidrs m s s' /\
    (more = [] ->
     (forall path, is_Some (m !! path) -> path ∉ injectedPaths) /\
     exists n, GenerateClusterConfigForInjectionList cl (rule_ID rule) m s' = (Ret (inl n), s') /\
       creates_of res' = creates_of res ++
         (if decide (Name (cc_meta n) <> EmptyClusterNamePlaceholder) then [n] else [])) /\
    (exists l, creates_of res' = creates_of res ++ l /\
     forall n, n ∈ l -> GenerateClusterConfigForInjectionList cl (rule_ID rule) m s' = (Ret (inl n), s')).

(** The paths of a rule that passed the normalisation are unused. *)
Lemma normalized_unused injectedPaths injs injs' n inj path :
  normalize_injections injectedPaths injs {| n_paths := ∅; n_issue := None; n_errs := [] |} = (injs', n) ->
  n_issue n = None -> n_errs n = [] -> inj ∈ injs' -> path ∈ inj_paths inj -> path ∉ injectedPaths.
Proof.
  intros (_ & _ & Hc)%normalize_injections_clean Hi He Hin Hp.
  destruct Hc as (paths & Hsub & _ & Hnot & _); [done|by rewrite He|].
  apply Hnot. eapply sublist_subseteq; [exact Hsub|].
  apply list_elem_of_In, in_concat. exists (inj_paths inj).
  rewrite <- !list_elem_of_In. split; [|done]. by apply list_elem_of_fmap_2.
Qed.

Lemma evaluate_rule_inv cl cfg A injectedPaths res errs rule s res' errs' s' :
  evaluate_rule cl cfg A injectedPaths (res, errs) rule s = (Ret (res', errs'), s') ->
  exists more, errs' = errs ++ more /\
    ClusterConfigsToUpdate (im_Instruction res') = ClusterConfigsToUpdate (im_Instruction res) /\
    dom (RulesWithIssues res) ⊆ dom (RulesWithIssues res') /\
    SkippedBecauseAlreadyAppliedRules res ⊆ SkippedBecauseAlreadyAppliedRules res' /\
    (rule_skipped A rule res res' more s s' \/ rule_refused A rule res res' more s s' \/
     rule_applied cl injectedPaths A rule res res' more s s').
Proof.
  unfold evaluate_rule. cbv zeta. intros Hrun.
  destruct (A !! rule_ID rule) as [v|] eqn:HA.
  { injection Hrun as <- <- <-. exists []. rewrite app_nil_r. split_and!; [done..|set_solver|].
    left. unfold rule_skipped. simpl. split_and!; [by exists v|done..|set_solver]. }
  destruct (normalize_injections _ _ _) as [injs n] eqn:Hn.
  set (issues := match n_issue n with Some issue => _ | None => _ end) in Hrun.
  assert (dom (RulesWithIssues res) ⊆ dom issues) as Hiss.
  { subst issues. destruct (n_issue n); [rewrite dom_insert_L; set_solver|done]. }
  destruct (issues !! rule_ID rule) eqn:Hir.
  { injection Hrun as <- <- <-. exists (n_errs n). split_and!; [done..|].
    right. left. unfold rule_refused. split_and!; [done|reflexivity|done..|].
    left. simpl. by apply elem_of_dom_2 in Hir. }
  destruct cfg as [cfg|]; [|done].
  apply bindM_Ret_inv in Hrun as (g & s1 & Hg & Hrun).
  pose proof (preserves_run _ _ _ _ _ (generate_only_ipam _ _) Hg) as Ho.
  apply generate_fresh in Hg as [Hk Hm].
  destruct g as [m|e].
  2:{ injection Hrun as <- <- <-. exists (n_errs n ++ [Errorf "error generating CIDRs for injection rule" (Some e)]).
      rewrite app_assoc. split_and!; [done..|]. right. left.
      unfold rule_refused. split_and!; [done|by split|done..|]. right. by destruct (n_errs n). }
  assert (n_errs n = [] -> forall path, is_Some (m !! path) -> path ∉ injectedPaths) as Hpaths.
  { intros He path [c Hc]. destruct (Hm path c Hc) as (_ & _ & inj & Hin & Hp). simpl in Hin.
    eapply normalized_unused; [exact Hn| |done..].
    subst issues. destruct (n_issue n); [|done]. by rewrite lookup_insert_eq in Hir. }
  assert (new_cidrs m s s1) as Hnew.
  { intros path c Hc. destruct (Hm path c Hc) as (? & ? & _). done. }
  simpl in Hrun.
  apply bindM_Ret_inv in Hrun as (g & s2 & Hg & Hrun). pose proof (Generate_state _ _ _ _ _ _ Hg) as ->.
  destruct g as [newCC|e].
  2:{ injection Hrun as <- <- <-.
      exists (n_errs n ++ [Errorf "error generating ClusterConfig for injection rule" (Some e)]).
      rewrite app_assoc. split_and!; [done..|]. right. right.
      split_and!; [done|by split|]. exists m. split_and!; [done..| |exists []; split; [by rewrite app_nil_r|by intros ? ?%not_elem_of_nil]].
      intros He. by destruct (n_errs n). }
  case_decide as Hp; injection Hrun as <- <- <-; exists (n_errs n); (split_and!; [done..|]); right; right;
    (split_and!; [done|by split|]); exists m; (split_and!; [done..| |]).
  - intros He. split; [by apply Hpaths|]. exists newCC. by rewrite decide_True.
  - exists [newCC]. split; [done|]. by intros n' ->%list_elem_of_singleton.
  - intros He. split; [by apply Hpaths|]. exists newCC. rewrite decide_False by tauto. by rewrite app_nil_r.
  - exists []. split; [by rewrite app_nil_r|by intros ? ?%not_elem_of_nil].
Qed.

(** *** What the existing ClusterConfigs contribute *)

Definition ann_map (a : AppliedRulesAnnotation) (r : string) : gmap string string :=
  nil_map (default None (a !! r)).

(** Nothing recorded is changed. *)
Definition keeps (a b : AppliedRulesAnnotation) : Prop :=
  forall r path cidr, ann_map a r !! path = Some cidr -> ann_map b r !! path = Some cidr.

#[export] Instance keeps_preorder : PreOrder keeps.
Proof. unfold keeps. split; [by intros a|]. intros a b c Hab Hbc r path cidr H. by apply Hbc, Hab. Qed.

Lemma record_patches_inv injected errs ps s injected' errs' s' :
  record_patches injected errs ps s = (Ret (injected', errs'), s') ->
  s' = s /\ nil_map injected ⊆ nil_map injected' /\
  exists more, errs' = errs ++ more /\
    (more = [] -> forall p, p ∈ ps -> is_Some (nil_map injected' !! p_Path p)).
Proof.
  revert injected errs. induction ps as [|p ps IH]; intros injected errs Hrun; simpl in Hrun.
  { unfold retM in Hrun. injection Hrun as <- <- <-. split_and!; [done..|]. exists [].
    rewrite app_nil_r. split; [done|]. by intros _ p ?%not_elem_of_nil. }
  destruct (nil_map injected !! p_Path p) as [c|] eqn:Hp.
  { apply IH in Hrun as (-> & Hsub & more & -> & Hm). split_and!; [done..|]. exists more. split; [done|].
    intros He q [->|Hq]%elem_of_cons; [|by apply Hm]. exists c. eapply lookup_weaken; [exact Hp|done]. }
  destruct (p_Value p) as [raw|]; [|done].
  destruct (json_Unmarshal_string "" raw) as [pval|].
  2:{ apply IH in Hrun as (-> & Hsub & more & -> & Hm). split_and!; [done..|].
      rewrite <- app_assoc. eexists. split; [done|]. simpl. intros [=]. }
  destruct injected as [m|]; [|done].
  apply IH in Hrun as (-> & Hsub & more & -> & Hm). simpl in *. split_and!; [done| |].
  - etrans; [|exact Hsub]. by apply insert_subseteq.
  - exists more. split; [done|]. intros He q [->|Hq]%elem_of_cons; [|by apply Hm].
    exists pval. eapply lookup_weaken; [|exact Hsub]. by rewrite lookup_insert_eq.
Qed.

Lemma record_loop ccs a errs s a' errs' s' :
  foldM record_cc (a, errs) (range ccs) s = (Ret (a', errs'), s') ->
  s' = s /\ keeps a a' /\ (forall r, is_Some (a' !! r) <-> is_Some (a !! r) \/ is_Some (ccs !! r)) /\
  (errs' = [] -> errs = [] /\ forall r cc p, ccs !! r = Some cc -> p ∈ cc_Patches cc ->
     is_Some (ann_map a' r !! p_Path p)).
Proof.
  intros Hrun.
  pose (Inv := fun (done : list (string * ClusterConfig)) (acc : AppliedRulesAnnotation * list error) (st : gostate) =>
    st = s /\ keeps a acc.1 /\ (forall r, is_Some (acc.1 !! r) <-> is_Some (a !! r) \/ r ∈ done.*1) /\
    (acc.2 = [] -> errs = [] /\ forall r cc p, (r, cc) ∈ done -> p ∈ cc_Patches cc ->
       is_Some (ann_map acc.1 r !! p_Path p))).
  assert (Inv (range ccs) (a', errs') s') as (-> & Hk & Hd & He).
  { apply (foldM_inv _ Inv _ _ _ _ _ Hrun); clear Hrun a' errs' s'.
    { split_and!; [done|simpl; reflexivity| |].
      - intros r. simpl. rewrite elem_of_nil. naive_solver.
      - intros He. split; [done|]. by intros r cc p ?%not_elem_of_nil. }
    intros done [r cc] rest [b be] st [b' be'] st' Hl (-> & Hk & Hd & He) Hstep. simpl in *.
    apply bindM_Ret_inv in Hstep as ([inj errs1] & st1 & Hp & Hstep).
    unfold retM in Hstep. injection Hstep as <- <- <-.
    apply record_patches_inv in Hp as (-> & Hsub & more & -> & Hm).
    assert (nil_map (match b !! r with Some m => m | None => Some ∅ end) = ann_map b r) as Hn.
    { unfold ann_map. by destruct (b !! r). }
    rewrite Hn in Hsub.
    assert (keeps b (<[r := inj]> b)) as Hkb.
    { intros r' path c Hc. unfold ann_map. destruct (decide (r' = r)) as [->|Hne].
      - rewrite lookup_insert_eq. simpl. by eapply lookup_weaken.
      - by rewrite lookup_insert_ne. }
    split_and!; [done| | |]; simpl.
    - intros r' path c Hc. by apply Hkb, Hk.
    - intros r'. rewrite lookup_insert_is_Some, Hd, fmap_app, elem_of_app, fmap_cons.
      simpl. rewrite list_elem_of_singleton. destruct (decide (r' = r)); naive_solver.
    - intros [He1 He2]%app_eq_nil. destruct (He He1) as [He0 Hold]. split; [done|].
      intros r' cc' p [Hin|Hin%list_elem_of_singleton]%elem_of_app Hp.
      + destruct (Hold r' cc' p Hin Hp) as [c Hc]. exists c. by apply Hkb.
      + simplify_eq. unfold ann_map. rewrite lookup_insert_eq. simpl. by apply Hm. }
  simpl in *. split_and!; [done|done| |].
  - intros r. rewrite Hd, elem_of_range_keys. done.
  - intros He'. destruct (He He') as [H1 H2]. split; [done|].
    intros r cc p Hcc%elem_of_range Hp. by eapply H2.
Qed.

(** The other way round: what is recorded was recorded before or is patched in. *)
Definition patched (ccs : gmap string ClusterConfig) (r path c : string) : Prop :=
  exists cc p, ccs !! r = Some cc /\ p ∈ cc_Patches cc /\ p_Path p = path /\ patch_cidr p = Some c.

Lemma record_patches_from injected errs ps s injected' errs' s' :
  record_patches injected errs ps s = (Ret (injected', errs'), s') ->
  forall path c, nil_map injected' !! path = Some c ->
    nil_map injected !! path = Some c \/ exists p, p ∈ ps /\ p_Path p = path /\ patch_cidr p = Some c.
Proof.
  revert injected errs. induction ps as [|p ps IH]; intros injected errs Hrun path c Hc; simpl in Hrun.
  { unfold retM in Hrun. simplify_eq. by left. }
  assert (forall (P : Prop), P \/ (exists q, q ∈ ps /\ p_Path q = path /\ patch_cidr q = Some c) ->
    P \/ exists q, q ∈ p :: ps /\ p_Path q = path /\ patch_cidr q = Some c) as Hmore.
  { intros P [?|(q & Hq & ?)]; [by left|right; exists q; split; [by right|done]]. }
  destruct (nil_map injected !! p_Path p); [by eapply Hmore, IH|]. unfold patch_cidr in *.
  destruct (p_Value p) as [raw|] eqn:Hv; [|done].
  destruct (json_Unmarshal_string "" raw) as [pval|] eqn:Hu; [|by eapply Hmore, IH].
  destruct injected as [m|]; [|done]. destruct (IH _ _ Hrun path c Hc) as [Hm|Hm]; [|by apply Hmore; right].
  simpl in Hm. apply lookup_insert_Some in Hm as [[<- <-]|[_ Hm]]; [right|by left].
  exists p. split_and!; [by left|done|]. by rewrite Hv.
Qed.

Lemma record_loop_from ccs a errs s a' errs' s' :
  foldM record_cc (a, errs) (range ccs) s = (Ret (a', errs'), s') ->
  forall r path c, ann_map a' r !! path = Some c -> ann_map a r !! path = Some c \/ patched ccs r path c.
Proof.
  intros Hrun. change (forall r path c, ann_map (a', errs').1 r !! path = Some c ->
    ann_map a r !! path = Some c \/ patched ccs r path c).
  refine (foldM_inv _ (fun _ acc _ => forall r path c, ann_map acc.1 r !! path = Some c ->
    ann_map a r !! path = Some c \/ patched ccs r path c) _ _ _ _ _ Hrun _ _); [by left|].
  intros done [r cc] rest [b be] st [b' be'] st' Hl Hb Hstep r' path c. simpl in *.
  assert (ccs !! r = Some cc) as Hcc.
  { apply elem_of_range. rewrite Hl. apply elem_of_app. right. by left. }
  apply bindM_Ret_inv in Hstep as ([inj errs1] & st1 & Hp & Hstep). unfold retM in Hstep. injection Hstep as <- _ _.
  unfold ann_map at 1. destruct (decide (r' = r)) as [->|Hne]; [|rewrite lookup_insert_ne by done; apply Hb].
  rewrite lookup_insert_eq. simpl. intros Hc. eapply record_patches_from in Hp as [Hp|(p & Hin & Hpath & Hv)]; [| |exact Hc].
  - apply Hb. unfold ann_map. by destruct (b !! r).
  - right. by exists cc, p.
Qed.

(** *** The loop *)

(** A rule applied by this call: new CIDRs and, without errors, unused paths and a
    ClusterConfig that is created (or the placeholder). *)
Definition applied_now (cl : Cluster) (injectedPaths : gset string) (create : list ClusterConfig)
    (errs : list error) (s0 st : gostate) (r : string) (m : gmap string string) : Prop :=
  new_cidrs m s0 st /\
  (errs = [] ->
   (forall path, is_Some (m !! path) -> path ∉ injectedPaths) /\
   exists n st1, GenerateClusterConfigForInjectionList cl r m st1 = (Ret (inl n), st1) /\
     (Name (cc_meta n) = EmptyClusterNamePlaceholder \/ n ∈ create)).

Definition disjoint_rules (A b : AppliedRulesAnnotation) : Prop :=
  forall r1 r2 p1 p2 c, r1 <> r2 -> A !! r1 = None -> A !! r2 = None ->
    ann_map b r1 !! p1 = Some c -> ann_map b r2 !! p2 = Some c -> False.

Definition accounted (A : AppliedRulesAnnotation) (res : InjectionManagementResult) (errs : list error) (id : string) : Prop :=
  id ∈ SkippedBecauseAlreadyAppliedRules res \/ id ∈ dom (RulesWithIssues res) \/
  (A !! id = None /\ is_Some (AnnotationToApply res !! id)) \/ errs <> [].

Definition loop_inv (cl : Cluster) (injectedPaths : gset string) (A : AppliedRulesAnnotation)
    (ri : RestorationInstruction) (s0 : gostate) (done : list CIDRInjection)
    (acc : InjectionManagementResult * list error) (st : gostate) : Prop :=
  let '(res, errs) := acc in
  grows s0 st /\
  (exists l, creates_of res = ClusterConfigsToCreate ri ++ l) /\
  ClusterConfigsToUpdate (im_Instruction res) = ClusterConfigsToUpdate ri /\
  (forall r, is_Some (A !! r) -> AnnotationToApply res !! r = A !! r) /\
  (forall r v, A !! r = None -> AnnotationToApply res !! r = Some v ->
     exists m, v = Some m /\ applied_now cl injectedPaths (creates_of res) errs s0 st r m) /\
  disjoint_rules A (AnnotationToApply res) /\
  (forall rule, rule ∈ done -> accounted A res errs (rule_ID rule)).

Lemma new_cidrs_grows m s0 s1 s2 : new_cidrs m s0 s1 -> grows s1 s2 -> new_cidrs m s0 s2.
Proof. intros Hn [_ Hk] path c Hc. destruct (Hn path c Hc). split; [by apply Hk|done]. Qed.

Lemma applied_now_mono cl I create create' errs more s0 st st' r m :
  applied_now cl I create errs s0 st r m -> grows st st' -> create ⊆ create' ->
  applied_now cl I create' (errs ++ more) s0 st' r m.
Proof.
  intros [Hn He] Hg Hc. split; [by eapply new_cidrs_grows|].
  intros [Hz _]%app_eq_nil. destruct (He Hz) as (Hp & n & st1 & Hgen & Hin). split; [done|].
  exists n, st1. split; [done|]. destruct Hin as [?|Hin]; [by left|right; by apply Hc].
Qed.

Lemma accounted_mono A res res' errs more id :
  SkippedBecauseAlreadyAppliedRules res ⊆ SkippedBecauseAlreadyAppliedRules res' ->
  dom (RulesWithIssues res) ⊆ dom (RulesWithIssues res') ->
  (is_Some (AnnotationToApply res !! id) -> is_Some (AnnotationToApply res' !! id)) ->
  accounted A res errs id -> accounted A res' (errs ++ more) id.
Proof.
  intros Hs Hi Ha [H|[H|[[HA H]|H]]]; unfold accounted.
  - left. by apply Hs.
  - right. left. by apply Hi.
  - right. right. left. split; [done|by apply Ha].
  - do 3 right. intros [? _]%app_eq_nil. done.
Qed.

Lemma disjoint_rules_insert A b r m s0 st st' :
  disjoint_rules A b -> A !! r = None ->
  (forall r' m', A !! r' = None -> b !! r' = Some (Some m') -> new_cidrs m' s0 st) ->
  (forall r', A !! r' = None -> b !! r' <> Some None) ->
  new_cidrs m st st' -> disjoint_rules A (<[r := Some m]> b).
Proof.
  intros Hd HA Hold Hnn Hnew.
  assert (forall r' p c, r' <> r -> A !! r' = None ->
            ann_map b r' !! p = Some c -> c ∈ st_known st) as Hk.
  { intros r' p c Hne Hr' Hc. unfold ann_map in Hc.
    destruct (b !! r') as [[m'|]|] eqn:Hb; [|by apply Hnn in Hb|done].
    by apply (Hold r' m' Hr' Hb p c). }
  assert (forall r' p c, ann_map (<[r := Some m]> b) r' !! p = Some c ->
            if decide (r' = r) then m !! p = Some c else ann_map b r' !! p = Some c) as Hins.
  { intros r' p c. unfold ann_map. case_decide as Hr; [subst r'; by rewrite lookup_insert_eq|].
    by rewrite lookup_insert_ne. }
  intros r1 r2 p1 p2 c Hne H1 H2 Hc1%Hins Hc2%Hins.
  destruct (decide (r1 = r)) as [->|Hr1], (decide (r2 = r)) as [->|Hr2]; [done| | |by eapply (Hd r1 r2)].
  - destruct (Hnew p1 c Hc1) as [_ Hx]. by eapply Hx, (Hk r2).
  - destruct (Hnew p2 c Hc2) as [_ Hx]. by eapply Hx, (Hk r1).
Qed.

Lemma loop_step cl cfg I A ri s0 done rule acc st acc' st' :
  loop_inv cl I A ri s0 done acc st ->
  evaluate_rule cl cfg A I acc rule st = (Ret acc', st') ->
  loop_inv cl I A ri s0 (done ++ [rule]) acc' st'.
Proof.
  destruct acc as [res errs], acc' as [res' errs'].
  intros (Hg & (l & Hcr) & Hup & Hold & Hnew & Hdis & Hacc) Hrun.
  apply evaluate_rule_inv in Hrun as (more & -> & Hup' & Hiss & Hskip & Hcase).
  assert (grows st st') as Hg'.
  { destruct Hcase as [(_ & -> & _)|[(_ & ? & _)|(_ & ? & _)]]; [reflexivity|done..]. }
  assert (exists l', creates_of res' = creates_of res ++ l') as [l' Hcr'].
  { destruct Hcase as [(_ & _ & _ & _ & -> & _)|[(_ & _ & _ & -> & _)|(_ & _ & m & _ & _ & _ & (l' & ? & _))]];
      [exists []; by rewrite app_nil_r..|by exists l']. }
  assert (creates_of res ⊆ creates_of res') as Hsub by (rewrite Hcr'; apply list_subseteq_app_l; done).
  assert (forall r v, A !! r = None -> AnnotationToApply res !! r = Some v ->
     exists m, v = Some m /\ applied_now cl I (creates_of res') (errs ++ more) s0 st' r m) as Hnew'.
  { intros r v HA Hv. destruct (Hnew r v HA Hv) as (m & -> & Hm). exists m. split; [done|].
    by eapply applied_now_mono. }
  assert (forall id, is_Some (AnnotationToApply res !! id) -> is_Some (AnnotationToApply res' !! id)) as Hann.
  { intros id Hid. destruct Hcase as [(_ & _ & _ & -> & _)|[(_ & _ & -> & _)|(_ & _ & m & -> & _)]]; [done..|].
    apply lookup_insert_is_Some'. by right. }
  assert (accounted A res' (errs ++ more) (rule_ID rule)) as Hrule.
  { destruct Hcase as [(_ & _ & _ & _ & _ & ?)|[(_ & _ & _ & _ & [?|?])|(HA & _ & m & Hm & _)]]; unfold accounted.
    - by left.
    - right. by left.
    - do 3 right. by intros [_ ?]%app_eq_nil.
    - right. right. left. rewrite Hm, lookup_insert_eq. split; [done|by eexists]. }
  unfold loop_inv. split_and!.
  - by etrans.
  - exists (l ++ l'). by rewrite Hcr', Hcr, app_assoc.
  - by rewrite Hup'.
  - intros r Hr. destruct Hcase as [(_ & _ & _ & -> & _)|[(_ & _ & -> & _)|(HA & _ & m & -> & _)]];
      [by apply Hold..|]. rewrite lookup_insert_ne; [by apply Hold|]. intros <-. rewrite HA in Hr. by destruct Hr.
  - destruct Hcase as [(_ & _ & _ & -> & _)|[(_ & _ & -> & _)|(HA & _ & m & -> & Hnc & He & _)]]; [done..|].
    intros r v HAr. destruct (decide (r = rule_ID rule)) as [->|Hne].
    2:{ rewrite lookup_insert_ne by done. by apply Hnew'. }
    rewrite lookup_insert_eq. intros [= <-]. exists m. split; [done|]. split.
    + intros path c Hc. destruct (Hnc path c Hc) as [H1 H2]. split; [done|].
      intros Hin. by apply H2, Hg.
    + intros [_ Hz]%app_eq_nil. destruct (He Hz) as (Hp & n & Hgen & Hcre). split; [done|].
      exists n, st'. split; [done|]. rewrite Hcre.
      destruct (decide (Name (cc_meta n) <> EmptyClusterNamePlaceholder)) as [Hn|Hn].
      * right. apply elem_of_app. right. by left.
      * left. by apply dec_stable.
  - destruct Hcase as [(_ & _ & _ & -> & _)|[(_ & _ & -> & _)|(HA & _ & m & -> & Hnc & _)]]; [done..|].
    apply (disjoint_rules_insert _ _ _ _ s0 st st'); try done.
    + intros r' m' Hr' Hb. destruct (Hnew r' _ Hr' Hb) as (m2 & Hm2 & Hn & _). by simplify_eq.
    + intros r' Hr' Hb. by destruct (Hnew r' _ Hr' Hb) as (m2 & Hm2 & _).
  - intros rule' [Hin|Hin%list_elem_of_singleton]%elem_of_app; [|by subst rule'].
    eapply accounted_mono; [done|done|apply Hann|]. by apply Hacc.
Qed.

(** *** ManageInjections *)

Lemma errors_Join_all errs : errors_Join (Some <$> errs) = None <-> errs = [].
Proof.
  unfold errors_Join. assert (omap id (Some <$> errs) = errs) as ->.
  { induction errs as [|e errs IH]; [done|]. simpl. by f_equal. }
  by destruct errs.
Qed.

Lemma elem_of_injected_paths (A : AppliedRulesAnnotation) path :
  path ∈ injected_paths A <-> exists r, is_Some (ann_map A r !! path).
Proof.
  unfold injected_paths.
  destruct (AggregateMap_fold A (fun _ v aggregated => aggregated ∪ dom (nil_map v)) (∅ : gset string)) as (l & Hl & ->).
  assert (forall X : gset string, path ∈ foldl (fun acc (kv : string * option (gmap string string)) => acc ∪ dom (nil_map kv.2)) X l <->
            path ∈ X \/ exists kv, kv ∈ l /\ path ∈ dom (nil_map kv.2)) as Hf.
  { clear Hl. induction l as [|kv l IH]; intros X; simpl.
    - setoid_rewrite elem_of_nil. naive_solver.
    - rewrite IH, elem_of_union. setoid_rewrite elem_of_cons. naive_solver. }
  rewrite Hf. split.
  - intros [Hp%elem_of_empty|([r v] & Hin & Hp)]; [done|]. exists r. apply elem_of_dom in Hp.
    rewrite Hl in Hin. apply elem_of_map_to_list in Hin. unfold ann_map. by rewrite Hin.
  - intros (r & Hr). right. unfold ann_map in Hr. destruct (A !! r) as [v|] eqn:Hv.
    + exists (r, v). split; [|by apply elem_of_dom]. by rewrite Hl, elem_of_map_to_list.
    + simpl in Hr. rewrite lookup_empty in Hr. by destruct Hr.
Qed.

Lemma Check_state cl a ccs s r s' :
  CheckClusterConfigsForCluster cl (Some a) (Some ccs) s = (Ret (inl r), s') -> s' = s.
Proof. by intros [-> _]%check_spec. Qed.

(** The rule loop from its start. *)
Definition loop_start (ri : RestorationInstruction) (A : AppliedRulesAnnotation) : InjectionManagementResult :=
  {| im_Instruction := ri; AnnotationToApply := A;
     RulesWithIssues := ∅; SkippedBecauseAlreadyAppliedRules := ∅ |}.

(** The parts of a ManageInjections that comes with a result. *)
Lemma Manage_run cl cfg rules ccs s res act err s' :
  ManageInjections cl cfg rules ccs s = (Ret (Some res, act, err), s') ->
  exists a A ri errs, parse_applied_rules cl = inl a /\
    foldM record_cc (a, []) (range ccs) s = (Ret (A, []), s) /\
    CheckClusterConfigsForCluster cl (Some A) (Some ccs) s = (Ret (inl ri), s) /\
    err = errors_Join (Some <$> errs) /\
    foldM (evaluate_rule cl cfg A (injected_paths A)) (loop_start ri A, []) rules s = (Ret (res, errs), s').
Proof.
  unfold ManageInjections. destruct (parse_applied_rules cl) as [a|e]; [|done]. intros Hrun.
  apply bindM_Ret_inv in Hrun as ([A errs0] & s1 & Hrec & Hrun).
  pose proof Hrec as (-> & _)%record_loop.
  destruct (errors_Join (Some <$> errs0)) eqn:Hj; [done|]. apply errors_Join_all in Hj as ->. cbv zeta in Hrun.
  apply bindM_Ret_inv in Hrun as (ir & s1 & Hc & Hrun). destruct ir as [ri|e]; [|done].
  pose proof (Check_state _ _ _ _ _ _ Hc) as ->.
  apply bindM_Ret_inv in Hrun as ([res1 errs] & s1 & Hloop & Hrun).
  unfold retM in Hrun. injection Hrun as <- <- <- <-. by exists a, A, ri, errs.
Qed.

Lemma rules_loop_inv cl cfg A ri rules s res errs s' :
  foldM (evaluate_rule cl cfg A (injected_paths A)) (loop_start ri A, []) rules s = (Ret (res, errs), s') ->
  loop_inv cl (injected_paths A) A ri s rules (res, errs) s'.
Proof.
  intros Hloop. apply (foldM_inv _ (loop_inv cl (injected_paths A) A ri s) _ _ _ _ _ Hloop).
  - unfold loop_inv. simpl. split_and!; try done.
    + exists []. by rewrite app_nil_r.
    + intros r v HA Hv. congruence.
    + intros r1 r2 p1 p2 c _ H1 _ Hc1. unfold ann_map in Hc1. rewrite H1 in Hc1. simpl in Hc1.
      by rewrite lookup_empty in Hc1.
    + by intros rule ?%not_elem_of_nil.
  - intros done rule rest acc st acc' st' _. apply loop_step.
Qed.

Lemma Manage_inv cl cfg rules ccs s res act err s' :
  ManageInjections cl cfg rules ccs s = (Ret (Some res, act, err), s') ->
  exists a A ri errs, parse_applied_rules cl = inl a /\ keeps a A /\
    (forall r, is_Some (A !! r) <-> is_Some (a !! r) \/ is_Some (ccs !! r)) /\
    (forall r cc p, ccs !! r = Some cc -> p ∈ cc_Patches cc -> is_Some (ann_map A r !! p_Path p)) /\
    CheckClusterConfigsForCluster cl (Some A) (Some ccs) s = (Ret (inl ri), s) /\
    err = errors_Join (Some <$> errs) /\
    foldM (evaluate_rule cl cfg A (injected_paths A)) (loop_start ri A, []) rules s = (Ret (res, errs), s') /\
    loop_inv cl (injected_paths A) A ri s rules (res, errs) s'.
Proof.
  intros (a & A & ri & errs & Ha & Hrec & Hc & He & Hloop)%Manage_run.
  apply record_loop in Hrec as (_ & Hk & Hd & Hp). destruct (Hp eq_refl) as [_ Hpatches].
  exists a, A, ri, errs. split_and!; [done..|by eapply rules_loop_inv].
Qed.

(** C16: What is recorded in a cluster's annotation stays: the annotation ManageInjections wants
    written contains every entry (rule, path, CIDR) of the one parsed, with the same CIDR, and
    has an entry for every path that a ClusterConfig of the cluster already injects for a rule.
    *)
Theorem Manage_annotation_immutable cl cfg rules ccs s res act err s' a :
  ManageInjections cl cfg rules ccs s = (Ret (Some res, act, err), s') ->
  parse_applied_rules cl = inl a ->
  keeps a (AnnotationToApply res) /\
  (forall r cc p, ccs !! r = Some cc -> p ∈ cc_Patches cc ->
     is_Some (ann_map (AnnotationToApply res) r !! p_Path p)).
Proof.
  intros (a' & A & ri & errs & Ha' & Hk & Hd & Hp & _ & _ & _ & Hinv)%Manage_inv Ha. rewrite Ha in Ha'. injection Ha' as <-.
  destruct Hinv as (_ & _ & _ & Hold & _).
  assert (forall r path c, ann_map A r !! path = Some c -> ann_map (AnnotationToApply res) r !! path = Some c) as HA.
  { intros r path c Hc. unfold ann_map in *. destruct (A !! r) as [v|] eqn:Hv.
    - by rewrite (Hold r), Hv by (by eexists).
    - simpl in Hc. by rewrite lookup_empty in Hc. }
  split.
  - intros r path c Hc. by apply HA, Hk.
  - intros r cc p Hcc Hin. destruct (Hp r cc p Hcc Hin) as [c Hc]. exists c. by apply HA.
Qed.

(** C5: One run of ManageInjections never hands out a CIDR that is in use: for every rule that
    had neither an annotation entry nor a ClusterConfig, the CIDRs recorded for it were unknown
    to the IPAM before and are known after; two such rules never share a CIDR; nothing known
    before is forgotten, and no request is sent nor anything but the IPAM instance changed. *)
Theorem Manage_allocations_fresh cl cfg rules ccs s res act err s' a :
  ManageInjections cl cfg rules ccs s = (Ret (Some res, act, err), s') ->
  parse_applied_rules cl = inl a ->
  (forall r, a !! r = None -> ccs !! r = None -> new_cidrs (ann_map (AnnotationToApply res) r) s s') /\
  (forall r1 r2 p1 p2 c, r1 <> r2 -> a !! r1 = None -> ccs !! r1 = None -> a !! r2 = None -> ccs !! r2 = None ->
     ann_map (AnnotationToApply res) r1 !! p1 = Some c ->
     ann_map (AnnotationToApply res) r2 !! p2 = Some c -> False) /\
  st_known s ⊆ st_known s' /\ only_ipam s s'.
Proof.
  intros (a' & A & ri & errs & Ha' & Hk & Hd & Hp & _ & _ & _ & Hinv)%Manage_inv Ha. rewrite Ha in Ha'. injection Ha' as <-.
  destruct Hinv as ([Ho Hgk] & _ & _ & Hold & Hnew & Hdis & _).
  assert (forall r, a !! r = None -> ccs !! r = None -> A !! r = None) as HA.
  { intros r H1 H2. apply eq_None_not_Some. rewrite Hd, H1, H2. by intros [[]|[]]. }
  split_and!; [| |done|done].
  - intros r H1 H2. unfold ann_map. destruct (AnnotationToApply res !! r) as [v|] eqn:Hv.
    + destruct (Hnew r v (HA r H1 H2) Hv) as (m & -> & Hm & _). exact Hm.
    + intros path c Hc. simpl in Hc. by rewrite lookup_empty in Hc.
  - intros r1 r2 p1 p2 c Hne H1 H2 H3 H4. apply Hdis; auto.
Qed.

(** C22: When ManageInjections returns no error, every rule it was given is accounted for: it is
    listed as already applied, or as having issues, or it is recorded in the annotation with an
    injection map, none of whose paths was injected before (by the annotation or by an existing
    ClusterConfig), and a ClusterConfig generated from that map is returned for creation (unless
    its name is the webhook's placeholder). *)
Theorem Manage_accounts_for_rules cl cfg rules ccs s res act s' a rule :
  ManageInjections cl cfg rules ccs s = (Ret (Some res, act, None), s') ->
  parse_applied_rules cl = inl a ->
  rule ∈ rules ->
  rule_ID rule ∈ SkippedBecauseAlreadyAppliedRules res \/
  rule_ID rule ∈ dom (RulesWithIssues res) \/
  exists m, AnnotationToApply res !! rule_ID rule = Some (Some m) /\
    (forall path r, is_Some (m !! path) -> ann_map a r !! path = None) /\
    (forall path r cc p, is_Some (m !! path) -> ccs !! r = Some cc -> p ∈ cc_Patches cc -> p_Path p <> path) /\
    exists n st, GenerateClusterConfigForInjectionList cl (rule_ID rule) m st = (Ret (inl n), st) /\
      (Name (cc_meta n) = EmptyClusterNamePlaceholder \/ n ∈ ClusterConfigsToCreate (im_Instruction res)).
Proof.
  intros (a' & A & ri & errs & Ha' & Hk & Hd & Hp & _ & He & _ & Hinv)%Manage_inv Ha Hr.
  rewrite Ha in Ha'. injection Ha' as <-.
  symmetry in He. apply errors_Join_all in He as ->.
  destruct Hinv as (_ & _ & _ & _ & Hnew & _ & Hacc).
  destruct (Hacc rule Hr) as [?|[?|[[HA [v Hv]]|?]]]; [by left|right; by left| |done].
  destruct (Hnew _ v HA Hv) as (m & -> & _ & Hm). destruct (Hm eq_refl) as [Hpaths (n & st & Hg & Hin)].
  right. right. exists m. split_and!; [done| | |by exists n, st].
  - intros path r Hpath. apply eq_None_not_Some. intros [c Hc]. apply (Hpaths path Hpath).
    apply elem_of_injected_paths. exists r, c. by apply Hk.
  - intros path r cc p Hpath Hcc Hin' <-. apply (Hpaths _ Hpath).
    apply elem_of_injected_paths. exists r. by eapply Hp.
Qed.

Lemma evaluate_known cl cfg A I rules res errs s :
  (forall rule, rule ∈ rules -> is_Some (A !! rule_ID rule)) ->
  exists res', foldM (evaluate_rule cl cfg A I) (res, errs) rules s = (Ret (res', errs), s) /\
    AnnotationToApply res' = AnnotationToApply res /\ im_Instruction res' = im_Instruction res /\
    RulesWithIssues res' = RulesWithIssues res.
Proof.
  revert res. induction rules as [|rule rules IH]; intros res HA; [by exists res|]. simpl.
  destruct (HA rule) as [v Hv]; [by left|].
  destruct (IH (im_set res (ClusterConfigsToCreate (im_Instruction res)) (AnnotationToApply res) (RulesWithIssues res)
              ({[rule_ID rule]} ∪ SkippedBecauseAlreadyAppliedRules res))) as (res' & Hrun & H1 & H2 & H3).
  { intros r Hr. apply HA. by right. }
  exists res'. split_and!; [|done| |done].
  - unfold bindM at 1. unfold evaluate_rule at 1. rewrite Hv. exact Hrun.
  - rewrite H2. by destruct res as [[]].
Qed.

(** If every rule passed in is already in the cluster's annotation or has a ClusterConfig,
    ManageInjections does not change the process state at all (no CIDR acquired, no request),
    returns no error and no rule with issues, and the instruction it returns is the one the
    integrity check alone gives for the annotation. *)
Theorem Manage_idempotent cl cfg rules ccs s res act err s' a :
  ManageInjections cl cfg rules ccs s = (Ret (Some res, act, err), s') ->
  parse_applied_rules cl = inl a ->
  (forall rule, rule ∈ rules -> is_Some (a !! rule_ID rule) \/ is_Some (ccs !! rule_ID rule)) ->
  s' = s /\ err = None /\ RulesWithIssues res = ∅ /\
  exists A, keeps a A /\ AnnotationToApply res = A /\
    CheckClusterConfigsForCluster cl (Some A) (Some ccs) s = (Ret (inl (im_Instruction res)), s).
Proof.
  intros (a' & A & ri & errs & Ha' & Hk & Hd & Hp & Hc & He & Hloop & _)%Manage_inv Ha Hr.
  rewrite Ha in Ha'. injection Ha' as <-.
  edestruct (evaluate_known cl cfg A (injected_paths A) rules) as (res' & Hrun & H1 & H2 & H3).
  { intros rule Hin. apply Hd. by apply Hr. }
  rewrite Hrun in Hloop. injection Hloop as <- <- <-.
  rewrite He, H1, H2, H3. split_and!; [done..|]. by exists A.
Qed.
End manage.
