(* ===== verification/ClusterLeak.v ===== *)
(** * ManageInjections: every CIDR it takes is recorded

    The other half of freshness: what the IPAM knows afterwards is what it knew before
    and the CIDRs of the annotation's new entries, so that none is lost from the books. *)

From stdpp Require Import base list strings gmap.
From S2P Require Import Prelude GoStd GoJson Types Externals Runtime Utils Restore RestoreCheck ClusterController ClusterGenerate ClusterManage.
Open Scope list_scope.
Open Scope Z_scope.

Section leak.
Context {OM : OpenMCP} {GI : GoIpam} {KA : K8sApi} {CU : CtrlUtils} {GO : GoMapOrder}.
Context {GL : GoIpamLaws} {CL : CtrlUtilsLaws}.

Definition has_paths (injections : list SingleCIDRInjection) : Prop :=
  Forall (fun inj => inj_paths inj <> []) injections.

(** Only the empty path converts to the empty path. *)
Hypothesis ConvertPath_nonempty : forall p q, ConvertPath p = inl q -> q = "" -> p = "".

Lemma inj_paths_nil inj : inj_paths inj = [] <-> inj_Path inj = "" /\ inj_Paths inj = [].
Proof.
  unfold inj_paths, GetPaths. rewrite fmap_app, fmap_imap. split.
  - intros [H1 H2]%app_eq_nil. case_decide; [|done]. split; [done|]. by destruct (inj_Paths inj).
  - intros [-> ->]. by rewrite decide_True.
Qed.

Lemma set_paths_nonempty inj paths :
  Forall2 (fun pws p => ConvertPath (pws_Path pws) = inl p) (GetPaths inj) paths ->
  inj_paths inj <> [] -> inj_paths (set_paths inj (zip (GetPaths inj) paths)) <> [].
Proof.
  intros Hf Hne Hn. apply Hne, inj_paths_nil. apply inj_paths_nil in Hn. revert Hf Hn.
  unfold GetPaths. destruct (decide (inj_Path inj = "")) as [He|He]; simpl.
  - intros Hlen%Forall2_length. rewrite length_imap in Hlen.
    pose proof (set_paths_list inj [] (inj_Paths inj) paths eq_refl ltac:(done)) as Hs.
    simpl in Hs. rewrite Hs. simpl. intros [_ ->]. by destruct (inj_Paths inj).
  - intros (c & paths' & Hc & Hlen%Forall2_length & ->)%Forall2_cons_inv_l. rewrite length_imap in Hlen. simpl.
    set (inj1 := inj_set_path _ c inj).
    pose proof (set_paths_list inj1 [] (inj_Paths inj) paths' eq_refl ltac:(done)) as Hs.
    simpl in Hs. rewrite Hs. simpl. intros [Hcn _]. by apply ConvertPath_nonempty in Hc.
Qed.

Lemma normalize_has_paths I injs n injs' n' :
  normalize_injections I injs n = (injs', n') -> n_issue n' = None -> length (n_errs n') = length (n_errs n) ->
  has_paths injs -> has_paths injs'.
Proof.
  revert n injs' n'. induction injs as [|inj injs IH]; intros n injs' n' Hrun Hi He Hp; simpl in Hrun.
  { by injection Hrun as <- <-. }
  destruct (normalize_paths I (GetPaths inj) inj n) as [inj1 n1] eqn:H1.
  destruct (normalize_injections I injs n1) as [injs1 n2] eqn:H2. injection Hrun as <- <-.
  apply normalize_paths_clean in H1 as (_ & Hl1 & H1).
  pose proof H2 as (Hb1 & Hl2 & _)%normalize_injections_clean.
  apply Forall_cons in Hp as [Hp Hps].
  assert (n_issue n1 = None) as Hi1 by (destruct (n_issue n1); [by destruct Hb1|done]).
  destruct H1 as (paths & Hf & -> & _); [done|lia|]. constructor.
  - by apply set_paths_nonempty.
  - eapply IH; [exact H2|done|lia|done].
Qed.

Lemma normalize_own_paths I injs injs' n' :
  normalize_injections I injs {| n_paths := ∅; n_issue := None; n_errs := [] |} = (injs', n') ->
  n_issue n' = None -> n_errs n' = [] -> has_paths injs -> own_paths injs'.
Proof.
  intros Hrun Hi He Hp. split.
  - pose proof Hrun as (_ & _ & H)%normalize_injections_clean.
    destruct H as (paths & Hs & Hnd & _); [done|by rewrite He|]. by eapply sublist_NoDup.
  - eapply normalize_has_paths; [exact Hrun|done|by rewrite He|done].
Qed.

(** What a generated map contains is what was acquired. *)
Lemma generate_exact rule parentCIDRs s m s' :
  own_paths (rule_Injections rule) ->
  generateCIDRsForInjectionRule rule parentCIDRs s = (Ret (inl m), s') ->
  forall c, c ∈ st_known s' <-> c ∈ st_known s \/ exists path, m !! path = Some c.
Proof.
  intros Hown (ips & s1 & (_ & _ & Hk & _) & _ & Hips & -> & Hm)%(generate_inv (fun _ => True)) c; [|by left].
  rewrite Hk, elem_of_union, elem_of_list_to_set, list_elem_of_fmap. split.
  - intros [(p & -> & Hp)|?]; [right|by left].
    destruct (add_all_covers ∅ ips p) as [path Hpath]; [by rewrite Hips|done|].
    exists path. by rewrite Hm, Hpath.
  - intros [?|(path & Hp)]; [by right|left]. rewrite Hm in Hp. apply fmap_Some in Hp as (p & Hp & ->).
    exists p. split; [done|].
    apply add_all_some in Hp as [(inj & Hin & _)|Hp]; [|by rewrite lookup_empty in Hp].
    apply list_elem_of_fmap. by exists (inj, p).
Qed.

(** One rule without an error: nothing happens, or a new entry with what was acquired. *)
Lemma evaluate_rule_exact cl cfg A I res errs rule s res' s' :
  evaluate_rule cl cfg A I (res, errs) rule s = (Ret (res', errs), s') ->
  has_paths (rule_Injections rule) ->
  (AnnotationToApply res' = AnnotationToApply res /\ s' = s) \/
  exists m, A !! rule_ID rule = None /\
    AnnotationToApply res' = <[rule_ID rule := Some m]> (AnnotationToApply res) /\
    forall c, c ∈ st_known s' <-> c ∈ st_known s \/ exists path, m !! path = Some c.
Proof.
  unfold evaluate_rule. cbv zeta. intros Hrun Hp.
  destruct (A !! rule_ID rule) as [v|] eqn:HA; [injection Hrun as <- <-; by left|].
  destruct (normalize_injections _ _ _) as [injs n] eqn:Hn.
  destruct (match n_issue n with Some issue => _ | None => _ end !! rule_ID rule) eqn:Hir;
    [injection Hrun as <- _ <-; by left|].
  destruct cfg as [cfg|]; [|done].
  assert (n_issue n = None) as Hi by (destruct (n_issue n); [by rewrite lookup_insert_eq in Hir|done]).
  assert (forall e, errs <> (errs ++ n_errs n) ++ [e]) as Hno.
  { intros e He. apply (f_equal length) in He. rewrite !length_app in He. simpl in He. lia. }
  apply bindM_Ret_inv in Hrun as ([m|e] & s1 & Hg & Hrun); [|injection Hrun as _ He _; by destruct (Hno _ (eq_sym He))].
  simpl in Hrun. apply bindM_Ret_inv in Hrun as (g & s2 & Hcc & Hrun).
  pose proof (Generate_state _ _ _ _ _ _ Hcc) as ->. right. exists m. split; [done|].
  destruct g as [newCC|e]; [|injection Hrun as _ He _; by destruct (Hno _ (eq_sym He))].
  assert (n_errs n = [] /\ s' = s1 /\ AnnotationToApply res' = <[rule_ID rule := Some m]> (AnnotationToApply res))
    as (He & -> & Hann).
  { case_decide; injection Hrun as <- He <-; (split_and!; [|done..]);
      apply (f_equal length) in He; rewrite length_app in He; apply nil_length_inv; lia. }
  split; [done|]. eapply generate_exact; [|exact Hg]. by eapply normalize_own_paths.
Qed.

Definition new_entry (A ann : AppliedRulesAnnotation) (c : string) : Prop :=
  exists r path, A !! r = None /\ ann_map ann r !! path = Some c.

Definition leak_inv (A : AppliedRulesAnnotation) (s0 : gostate) (done : list CIDRInjection)
    (acc : InjectionManagementResult * list error) (st : gostate) : Prop :=
  acc.2 = [] ->
  (forall c, c ∈ st_known st <-> c ∈ st_known s0 \/ new_entry A (AnnotationToApply acc.1) c) /\
  (forall r, A !! r = None -> is_Some (AnnotationToApply acc.1 !! r) -> r ∈ rule_ID <$> done).

Lemma leak_step cl cfg A I s0 done rule acc st acc' st' :
  leak_inv A s0 done acc st ->
  evaluate_rule cl cfg A I acc rule st = (Ret acc', st') ->
  has_paths (rule_Injections rule) -> rule_ID rule ∉ rule_ID <$> done ->
  leak_inv A s0 (done ++ [rule]) acc' st'.
Proof.
  destruct acc as [res errs], acc' as [res' errs']. intros Hinv Hrun Hp Hnew Hz. simpl in Hz. subst errs'.
  pose proof Hrun as (more & Hm & _)%evaluate_rule_inv. symmetry in Hm. apply app_eq_nil in Hm as [-> _].
  destruct (Hinv eq_refl) as [Hk Hd]. clear Hinv. simpl in *. rewrite fmap_app.
  apply evaluate_rule_exact in Hrun as [[-> ->]|(m & HA & -> & Hc)]; [|..|done].
  { split; [done|]. intros r HA Hr. apply elem_of_app. left. by apply Hd. }
  split.
  - intros c. rewrite Hc, Hk. unfold new_entry, ann_map.
    assert (AnnotationToApply res !! rule_ID rule = None) as Hnone.
    { apply eq_None_not_Some. intros Hs. by apply Hnew, Hd. }
    split.
    + intros [[?|(r & path & Hr & Hl)]|(path & Hl)]; [by left|right..].
      * exists r, path. rewrite lookup_insert_ne; [done|]. intros <-. rewrite Hnone in Hl. simpl in Hl.
        by rewrite lookup_empty in Hl.
      * exists (rule_ID rule), path. by rewrite lookup_insert_eq.
    + intros [?|(r & path & Hr & Hl)]; [by left; left|].
      destruct (decide (rule_ID rule = r)) as [<-|Hne].
      * rewrite lookup_insert_eq in Hl. right. by exists path.
      * rewrite lookup_insert_ne in Hl by done. left. right. by exists r, path.
  - intros r HA' Hr. apply elem_of_app. destruct (decide (rule_ID rule = r)) as [<-|Hne]; [right; by left|left].
    rewrite lookup_insert_ne in Hr by done. by apply Hd.
Qed.

(** C8: No CIDR is taken and forgotten: when ManageInjections returns no error, the IPAM knows
    afterwards what it knew before and the CIDRs recorded in the annotation for rules that had
    neither an annotation entry nor a ClusterConfig, and nothing else. The rules have different
    IDs and each injection has a path, as the validation webhook demands. *)
Theorem Manage_no_leak cl cfg rules ccs s res act s' a :
  ManageInjections cl cfg rules ccs s = (Ret (Some res, act, None), s') ->
  parse_applied_rules cl = inl a ->
  NoDup (rule_ID <$> rules) ->
  Forall (fun rule => has_paths (rule_Injections rule)) rules ->
  forall c, c ∈ st_known s' <->
    c ∈ st_known s \/
    exists r path, a !! r = None /\ ccs !! r = None /\ ann_map (AnnotationToApply res) r !! path = Some c.
Proof.
  intros (a' & A & ri & errs & Ha' & _ & Hd & _ & _ & He & Hloop & _)%Manage_inv Ha Hnd Hp c.
  rewrite Ha in Ha'. injection Ha' as <-. symmetry in He. apply errors_Join_all in He as ->.
  assert (leak_inv A s rules (res, []) s') as Hinv.
  { apply (foldM_inv _ (leak_inv A s) _ _ _ _ _ Hloop).
    - intros _. split; [|intros r HA [v Hv]; simpl in Hv; congruence]. intros c'. split; [by left|].
      intros [?|(r & path & HA & Hl)]; [done|]. unfold ann_map in Hl. simpl in Hl. rewrite HA in Hl. simpl in Hl.
      by rewrite lookup_empty in Hl.
    - intros done rule rest acc st acc' st' Hr Hinv Hstep.
      rewrite Hr, fmap_app, fmap_cons in Hnd. rewrite Hr in Hp.
      apply NoDup_app in Hnd as (_ & Hnd & _). apply Forall_app in Hp as [_ [Hp _]%Forall_cons].
      eapply leak_step; [exact Hinv|exact Hstep|done|]. intros Hin. apply (Hnd _ Hin). by left. }
  destruct (Hinv eq_refl) as [Hk _]. rewrite Hk. unfold new_entry. simpl.
  assert (forall r, A !! r = None <-> a !! r = None /\ ccs !! r = None) as HA.
  { intros r. rewrite !eq_None_not_Some, Hd. tauto. }
  setoid_rewrite HA. naive_solver.
Qed.
End leak.
