(* ===== verification/ClusterReconcile.v ===== *)
(** * The cluster controller's handlers: annotation, deletion, reconciliation, locks *)

From stdpp Require Import base list strings gmap.
From S2P Require Import Prelude GoStd GoJson Types Externals Runtime Utils Restore RestoreCheck RestoreIpam RestoreState ClusterController ClusterGenerate ClusterManage.
Open Scope list_scope.
Open Scope Z_scope.

(** ** Nothing blocks, and the IPAM lock is free again *)

Section live.
Context {OM : OpenMCP} {GI : GoIpam} {KA : K8sApi} {CU : CtrlUtils} {GO : GoMapOrder}.

Lemma ipam_op_live {A} (op : ipamS -> ipamS * A) : live lock_free (on_IPAM (locked (on_internal op))).
Proof. auto with go. Qed.

Lemma try_prefixes_live size ps : live lock_free (try_prefixes size ps).
Proof. induction ps; simpl; unfold AcquireChildPrefix; pose proof @ipam_op_live; go_struct. Qed.

Lemma try_parents_live tmp pc size sel : live lock_free (try_parents tmp pc size sel).
Proof.
  induction sel; simpl; unfold parent_prefixes, fetch_prefixes, PrefixFrom;
    pose proof @ipam_op_live; pose proof try_prefixes_live; go_struct.
Qed.

Lemma generate_loop_live pc raw tmp injs : live lock_free (generate_loop pc raw tmp injs).
Proof.
  revert raw tmp. induction injs; intros; simpl; unfold release_raw, ReleaseChildPrefix;
    pose proof @ipam_op_live; pose proof try_parents_live; go_struct.
Qed.

Lemma record_patches_live (I : gostate -> Prop) injected errs ps : live I (record_patches injected errs ps).
Proof. revert injected errs. induction ps; intros; simpl; go_struct. Qed.

Lemma evaluate_rule_live cl cfg A I acc rule : live lock_free (evaluate_rule cl cfg A I acc rule).
Proof.
  unfold evaluate_rule, generateCIDRsForInjectionRule. pose proof generate_loop_live.
  pose proof (Generate_live_gen lock_free). go_struct.
Qed.

Lemma ManageInjections_live cl cfg rules ccs : live lock_free (ManageInjections cl cfg rules ccs).
Proof.
  unfold ManageInjections, record_cc. pose proof evaluate_rule_live.
  pose proof (record_patches_live lock_free).
  pose proof (Check_live_gen lock_free (fun _ => request_live_free)). go_struct.
Qed.

Lemma handleCreateOrUpdate_live er rr cl rules : live lock_free (handleCreateOrUpdate er rr cl rules).
Proof.
  unfold handleCreateOrUpdate, apply_annotation, report_issues, warn, client_PatchCluster.
  pose proof ManageInjections_live.
  pose proof (FetchClusterConfigsForCluster_live_gen lock_free (fun _ => request_live_free)).
  pose proof (Apply_live_gen lock_free (fun _ => request_live_free)). go_struct.
Qed.

Lemma handleDelete_live ns name : live lock_free (handleDelete ns name).
Proof.
  unfold handleDelete, delete_cc, client_DeleteClusterConfig.
  pose proof (FetchClusterConfigsForCluster_live_gen lock_free (fun _ => request_live_free)). go_struct.
Qed.

Lemma reconcile_cluster_live er cl : live lock_free (reconcile_cluster er cl).
Proof. unfold reconcile_cluster. pose proof handleCreateOrUpdate_live. go_struct. Qed.

Lemma Reconcile_live er ns name : live lock_free (Reconcile er ns name).
Proof.
  unfold Reconcile, reconcile, client_GetCluster, client_RemoveClusterAnnotation.
  pose proof reconcile_cluster_live. pose proof handleDelete_live. go_struct.
Qed.
End live.

#[export] Hint Resolve Reconcile_live : go.

(** ** Requests and no more *)

Section inactive.
Context {OM : OpenMCP} {GI : GoIpam} {KA : K8sApi} {CU : CtrlUtils} {GO : GoMapOrder}.

(** A cluster is left alone (one get request, no error, no other effect) if it carries the
    "ignore" operation annotation, or if it does not carry "reconcile" and no rule of the stored
    config selects it or no config is stored. *)
Theorem Reconcile_left_alone er ns name s cl :
  api_GetCluster (calls s) ns name = inl cl ->
  Annotations (cl_meta cl) !! OperationAnnotation = Some OperationAnnotationValueIgnore \/
  (Annotations (cl_meta cl) !! OperationAnnotation <> Some OperationAnnotationValueReconcile /\
   match config s with None => True | Some cfg => relevant cfg cl = false end) ->
  Reconcile er ns name s = (Ret None, st_set_calls (CallGetCluster ns name :: calls s) s).
Proof.
  intros Hget Hwhy. unfold Reconcile, reconcile, client_GetCluster, request, bindM. rewrite Hget.
  destruct Hwhy as [->|[Hann Hrel]]; [by rewrite decide_True|].
  assert (reconcile_cluster er cl (st_set_calls (CallGetCluster ns name :: calls s) s) =
    (Ret no_result, st_set_calls (CallGetCluster ns name :: calls s) s)) as Hnone.
  { unfold reconcile_cluster, GetConfig, bindM, getM, retM. simpl.
    destruct (config s) as [cfg|]; [|done]. rewrite decide_True; [done|].
    unfold relevant in Hrel. induction (InjectionRules (Spec cfg)) as [|rule rules IH]; [done|].
    simpl in Hrel. apply orb_false_iff in Hrel as [Hr Hrel].
    rewrite filter_cons, decide_False by congruence. by apply IH. }
  destruct (Annotations (cl_meta cl) !! OperationAnnotation) as [op|]; [|by rewrite Hnone].
  case_decide; [done|]. rewrite decide_False by congruence. by rewrite Hnone.
Qed.

(** C39: A cluster selected by a rule whose applied-rules annotation is not valid JSON makes its
    reconciliation panic, as soon as its ClusterConfigs can be listed: the result of
    ManageInjections is nil and is dereferenced. *)
Theorem Reconcile_malformed_annotation_panics er ns name s cl cfg ccs e :
  api_GetCluster (calls s) ns name = inl cl ->
  Annotations (cl_meta cl) !! OperationAnnotation = None ->
  config s = Some cfg -> relevant cfg cl = true ->
  parse_applied_rules cl = inr e ->
  (FetchClusterConfigsForCluster cl (st_set_calls (CallGetCluster ns name :: calls s) s)).1 = Ret (inl ccs) ->
  exists why, (Reconcile er ns name s).1 = Panic why.
Proof.
  intros Hget Hann Hcfg Hrel Hparse Hf. unfold Reconcile, reconcile, client_GetCluster, request, bindM.
  rewrite Hget, Hann. unfold reconcile_cluster, GetConfig, bindM, getM, retM. simpl. rewrite Hcfg.
  rewrite decide_False.
  2:{ unfold relevant in Hrel. apply existsb_exists in Hrel as (rule & Hin & Hr).
      intros Hz%nil_length_inv. apply (not_elem_of_nil rule). rewrite <- Hz.
      apply list_elem_of_filter. split; [done|]. by apply list_elem_of_In. }
  unfold handleCreateOrUpdate, GetConfig, bindM, getM, retM. simpl.
  destruct (FetchClusterConfigsForCluster cl _) as [o s1]. simpl in Hf. subst o.
  unfold ManageInjections. rewrite Hparse. unfold retM. simpl.
  unfold warn, Eventf. destruct er; simpl; by eexists.
Qed.
End inactive.

(** ** The annotation the next reconciliation will read *)

Section annotation.
Context {OM : OpenMCP} {GI : GoIpam} {KA : K8sApi} {CU : CtrlUtils} {GO : GoMapOrder}.

Lemma parse_marshalled cl a :
  valid_annotation a ->
  Annotations (cl_meta cl) !! AppliedRulesAnnotationKey = Some (json_Marshal_map2 a) ->
  parse_applied_rules cl = inl a.
Proof.
  intros Hv Ha. unfold parse_applied_rules, FromAnnotation. by rewrite Ha, json_map2_roundtrip.
Qed.

Lemma marshalled_nonempty (a : AppliedRulesAnnotation) : json_Marshal_map2 a <> "".
Proof. unfold json_Marshal_map2, json_Marshal_map. simpl. by repeat case_match. Qed.

(** C21: The annotation handleCreateOrUpdate writes is the one the next reconciliation parses:
    after applying a non-empty set of applied rules to the cluster, parsing the annotation of
    the resulting cluster yields that set; either the annotation was already so and no request
    is sent, or the patch sent to the API server carries the new annotation, and a failed patch
    is reported. *)
Theorem apply_annotation_roundtrip er ir errs cl s errs' cl' s' :
  apply_annotation er ir errs cl s = (Ret (errs', cl'), s') ->
  size (AnnotationToApply ir) <> 0%nat ->
  valid_annotation (AnnotationToApply ir) ->
  (forall old new c, api_PatchCluster (calls s) old new = inl c ->
     Annotations (cl_meta c) !! AppliedRulesAnnotationKey = Annotations (cl_meta new) !! AppliedRulesAnnotationKey) ->
  parse_applied_rules cl' = inl (AnnotationToApply ir) /\
  ((s' = s /\ cl' = cl /\ errs' = errs) \/
   exists new, parse_applied_rules new = inl (AnnotationToApply ir) /\
     calls s' = CallPatchCluster cl new :: calls s /\
     match api_PatchCluster (calls s) cl new with inl _ => errs' = errs | inr _ => errs' <> None end).
Proof.
  unfold apply_annotation. intros Hrun Hsz Hv Hapi. rewrite decide_False in Hrun by done.
  apply bindM_Ret_inv in Hrun as (? & ? & [= <- <-] & Hrun). cbv zeta in Hrun.
  case_decide as Hold.
  - unfold retM in Hrun. injection Hrun as <- <- <-. split; [|by left].
    apply parse_marshalled; [done|].
    destruct (Annotations (cl_meta cl) !! AppliedRulesAnnotationKey) as [o|]; simpl in Hold; [by subst o|].
    by apply marshalled_nonempty in Hold.
  - set (new := cl_set_Annotations _ cl) in Hrun.
    assert (parse_applied_rules new = inl (AnnotationToApply ir)) as Hnew.
    { apply parse_marshalled; [done|]. subst new. simpl. by rewrite lookup_insert_eq. }
    apply bindM_Ret_inv in Hrun as (r & s1 & [= <- <-] & Hrun).
    destruct (api_PatchCluster (calls s) cl new) as [c|e] eqn:Hp.
    + unfold retM in Hrun. injection Hrun as <- <- <-. split.
      * apply parse_marshalled; [done|]. rewrite (Hapi _ _ _ Hp). subst new. simpl. by rewrite lookup_insert_eq.
      * right. exists new. split_and!; [done|done|]. by rewrite Hp.
    + apply bindM_Ret_inv in Hrun as ([] & s2 & Hw & Hrun). unfold retM in Hrun. injection Hrun as <- <- <-.
      split; [done|]. right. exists new. split_and!; [done| |].
      * unfold warn, Eventf in Hw. destruct er; by injection Hw as <-.
      * rewrite Hp. apply errors_Join_some.
Qed.
End annotation.

(** ** A deleted cluster *)

Section delete.
Context {OM : OpenMCP} {GI : GoIpam} {KA : K8sApi} {CU : CtrlUtils} {GO : GoMapOrder}.
Context {GL : GoIpamLaws} {CL : CtrlUtilsLaws}.

Definition all_cidrs (ccs : list ClusterConfig) : gset string :=
  patch_cidrs (concat (cc_Patches <$> ccs)).

Lemma all_cidrs_cons cc ccs : all_cidrs (cc :: ccs) = patch_cidrs (cc_Patches cc) ∪ all_cidrs ccs.
Proof.
  unfold all_cidrs, patch_cidrs. simpl. by rewrite omap_app, fmap_app, list_to_set_app_L.
Qed.

(** A successful release of some of the prefixes of [X] leaves the rest releasable. *)
Lemma release_patches_releasable X ps x x' r :
  release_patches ps x = (r, x') -> patch_cidrs ps ⊆ X -> releasable X x -> releasable X x'.
Proof.
  revert x. induction ps as [|p ps IH]; intros x Hrun HX Hrel; simpl in Hrun.
  { unfold retM in Hrun. by injection Hrun as <- <-. }
  rewrite patch_cidrs_cons in HX. unfold patch_cidr in HX.
  destruct (p_Value p) as [raw|]; [|by apply (IH x)].
  destruct (json_Unmarshal_string "" raw) as [c|]; [|unfold retM in Hrun; by injection Hrun as <- <-].
  assert (canon c ∈ X /\ patch_cidrs ps ⊆ X) as [Hc HX'] by set_solver.
  destruct (ipam_PrefixFrom c x) as [x1 q] eqn:Hp.
  apply lookup_one in Hp as (Hv & Hq). apply (releasable_same _ _ _ Hv) in Hrel.
  destruct q as [q|e].
  - destruct Hq as [Hq _]. destruct (ipam_ReleaseChildPrefix q x1) as [x2 [e|]] eqn:Hr.
    + apply Release_err in Hr. apply (releasable_same _ _ _ Hr) in Hrel.
      destruct (negb (is_not_found e)); [by injection Hrun as <- <-|by apply (IH x2)].
    + apply (releasable_release X) in Hr; [by apply (IH x2)| |done]. by rewrite Hq.
  - destruct (negb (is_not_found e)); [by injection Hrun as <- <-|by apply (IH x1)].
Qed.

Lemma Release_run cc s cc' s' :
  ReleaseCIDRsForClusterConfig cc s = (Ret (None, cc'), s') ->
  forall X, patch_cidrs (cc_Patches cc) ⊆ X -> st_releasable X s ->
  st_known s' = st_known s ∖ patch_cidrs (cc_Patches cc) /\ st_releasable X s' /\
  exists l, calls s' = l ++ calls s.
Proof.
  intros (i & s1 & Hi & Hl & Hr & ->)%with_IPAM_lock_Ret X HX Hrel.
  pose proof Hr as (i' & y & Hi' & Hs1 & (x & Hv & Hp) & Hcalls)%release_internal_inv.
  simpl in Hi'. injection Hi' as <-.
  apply release_internal_ok in Hr as [Hk Hc].
  2:{ unfold st_releasable in *. simpl. rewrite Hi in Hrel. by eapply releasable_mono. }
  rewrite st_known_unlock, st_releasable_unlock, Hk. split_and!.
  - unfold st_known. simpl. by rewrite Hi.
  - rewrite Hs1. unfold st_releasable in *. simpl. rewrite Hi in Hrel.
    eapply release_patches_releasable; [exact Hp|done|]. by apply (releasable_same _ (internal i)).
  - simpl. rewrite Hc. simpl. case_decide; [by exists [finalizer_patch cc]|by exists []].
Qed.

Lemma delete_cc_ok errs cc s s' :
  delete_cc errs cc s = (Ret None, s') ->
  errs = None /\
  (forall X, patch_cidrs (cc_Patches cc) ⊆ X -> st_releasable X s ->
   st_known s' = st_known s ∖ patch_cidrs (cc_Patches cc) /\ st_releasable X s').
Proof.
  unfold delete_cc. intros Hrun. apply bindM_Ret_inv in Hrun as ([err cc'] & s1 & Hrel & Hrun).
  apply bindM_Ret_inv in Hrun as (e & s2 & Hdel & Hrun). unfold retM in Hrun. injection Hrun as Hres <-.
  injection Hdel as <- <-.
  destruct (IgnoreNotFound _); [by apply errors_Join_some in Hres|].
  destruct err; [by apply errors_Join_some in Hres|]. split; [done|]. intros X HX HrX.
  destruct (Release_run _ _ _ _ Hrel X HX HrX) as (Hk & Hr & _). done.
Qed.

Lemma delete_loop l errs s1 s' :
  foldM delete_cc errs l s1 = (Ret None, s') ->
  errs = None /\
  forall X, all_cidrs l ⊆ X -> st_releasable X s1 -> st_known s' = st_known s1 ∖ all_cidrs l.
Proof.
  revert errs s1. induction l as [|cc l IH]; intros errs s1 Hrun; simpl in Hrun.
  - unfold retM in Hrun. injection Hrun as -> <-. split; [done|]. intros X _ _.
    unfold all_cidrs, patch_cidrs. simpl. set_solver.
  - apply bindM_Ret_inv in Hrun as (e & s2 & Hd & Hrun).
    destruct (IH _ _ Hrun) as [-> Hx]. apply delete_cc_ok in Hd as [-> Hd]. split; [done|].
    intros X HX Hrel. rewrite all_cidrs_cons in *.
    destruct (Hd X) as [Hk Hrel2]; [set_solver|done|].
    rewrite (Hx X), Hk; [set_solver|set_solver|done].
Qed.

(** C25: A handleDelete that returns no error has listed the ClusterConfigs of the cluster by
    its labels in its namespace, has treated one ClusterConfig of each rule label found, and has
    freed exactly the CIDRs in the patches of those, when the known ones among them are
    releasable. *)
Theorem handleDelete_frees_all ns name s s' :
  handleDelete ns name s = (Ret None, s') ->
  exists items ccs,
    api_ListClusterConfigs (calls s) (labels_of (providerName s) (environment s) (Some (bare_cluster ns name)) "")
      (Some ns) = inl items /\
    (forall cc, cc ∈ ccs -> cc ∈ items) /\
    (forall item, item ∈ items -> exists cc, cc ∈ ccs /\ rule_label cc = rule_label item) /\
    (st_releasable (all_cidrs ccs) s -> st_known s' = st_known s ∖ all_cidrs ccs).
Proof.
  unfold handleDelete, FetchClusterConfigsForCluster, client_ListClusterConfigs. intros Hrun.
  apply bindM_Ret_inv in Hrun as (r & s1 & Hf & Hrun).
  apply bindM_Ret_inv in Hf as (labels & s0 & [-> ->]%ClusterConfigLabels_run & Hf).
  apply bindM_Ret_inv in Hf as (res & s2 & [= <- <-] & Hf). simpl in Hf.
  destruct (api_ListClusterConfigs _ _ _) as [items|e]; unfold retM in Hf; injection Hf as <- <-; [|by go_run].
  set (m := ProjectSliceToMap _ _) in Hrun.
  exists items, (range m).*2. split_and!; [done| | |].
  - intros cc (k & Hk)%elem_of_range_values. apply ProjectSliceToMap_sound in Hk.
    apply list_elem_of_fmap in Hk as (cc' & ? & ?). by simplify_eq.
  - intros item Hin. destruct (ProjectSliceToMap_complete items (fun cc =>
        (default "" (Labels (cc_meta cc) !! InjectionRuleLabel), cc)) (rule_label item)) as [cc Hcc].
    { apply list_elem_of_fmap. exists (rule_label item, item). split; [done|].
      apply list_elem_of_fmap. by exists item. }
    exists cc. split; [apply elem_of_range_values; by exists (rule_label item)|].
    apply ProjectSliceToMap_sound, list_elem_of_fmap in Hcc as (cc' & ? & ?). by simplify_eq.
  - set (s1 := st_set_calls _ s) in Hrun. change (st_known s) with (st_known s1).
    change (st_releasable (all_cidrs (range m).*2) s) with (st_releasable (all_cidrs (range m).*2) s1).
    intros Hrel. by apply (delete_loop _ _ _ _ Hrun) with (X := all_cidrs (range m).*2).
Qed.
End delete.
