(* ===== verification/AnnotationText.v ===== *)
(** * The annotation ManageInjections writes consists of valid strings

    The round trip of the annotation is exact for valid UTF-8 only, since encoding/json
    replaces anything else. What is read from an annotation or a patch is valid whatever its
    bytes are; here the rest: the IDs and paths of the rules, the labels and paths of the
    ClusterConfigs, the CIDRs of the IPAM. *)

From stdpp Require Import base list strings gmap.
From S2P Require Import Prelude GoStd GoJson Types Externals Runtime Utils Restore RestoreCheck RestoreState ClusterController ClusterGenerate ClusterManage ClusterReconcile.
Open Scope list_scope.
Open Scope Z_scope.

Notation text s := (valid_utf8 s = true).

Section text.
Context {OM : OpenMCP} {GI : GoIpam} {KA : K8sApi} {CU : CtrlUtils} {GO : GoMapOrder}.
Context {GL : GoIpamLaws} {CL : CtrlUtilsLaws}.

Definition text_injection (inj : SingleCIDRInjection) : Prop := Forall (fun p => text p) (inj_paths inj).
Definition text_rule (rule : CIDRInjection) : Prop :=
  text (rule_ID rule) /\ Forall text_injection (rule_Injections rule).
Definition text_cc (cc : ClusterConfig) : Prop :=
  text (rule_label cc) /\ Forall (fun p => text (p_Path p)) (cc_Patches cc).

(** Converting a path keeps it a text; the CIDR of an acquired prefix is one. *)
Hypothesis ConvertPath_text : forall p q, ConvertPath p = inl q -> text p -> text q.
Hypothesis Acquire_text : forall c n x x' p, ipam_AcquireChildPrefix c n x = (x', inl p) -> text (pCidr p).

(** ** What the IPAM learns *)

(** A CIDR that was not known before is a valid string in canonical form. *)
Definition plainly (s s' : gostate) : Prop :=
  forall c, c ∈ st_known s' -> c ∈ st_known s \/ (text c /\ canon c = c).

#[local] Instance plainly_preorder : PreOrder plainly.
Proof.
  split; [by left|]. intros s1 s2 s3 H12 H23 c Hc. destruct (H23 c Hc) as [?|?]; [by apply H12|by right].
Qed.

Lemma ipam_plainly {A} (op : ipamS -> ipamS * A) :
  (forall x c, c ∈ known (op x).1 -> c ∈ known x \/ (text c /\ canon c = c)) ->
  preserves plainly (on_IPAM (locked (on_internal op))).
Proof.
  intros Hop s c. unfold on_IPAM, locked, on_internal, st_known. destruct (IPAM s) as [i|] eqn:Hi; simpl; [|by rewrite Hi; left].
  destruct (lock i); simpl; [by left|]. specialize (Hop (internal i) c).
  destruct (op (internal i)) as [x r]. simpl in *. exact Hop.
Qed.

Lemma Acquire_plainly c n : preserves plainly (on_IPAM (AcquireChildPrefix c n)).
Proof.
  apply ipam_plainly. intros x d. destruct (ipam_AcquireChildPrefix c n x) as [x' [p|e]] eqn:Hr; simpl.
  - pose proof (Acquire_text _ _ _ _ _ Hr). apply AcquireChild_ok in Hr as (_ & Hc & _ & -> & _).
    intros [->%elem_of_singleton|?]%elem_of_union; [by right|by left].
  - apply AcquireChild_err in Hr as (-> & _). by left.
Qed.

Lemma PrefixFrom_plainly c : preserves plainly (on_IPAM (PrefixFrom c)).
Proof. apply ipam_plainly. intros x d. destruct (PrefixFrom_same c x) as (-> & _). by left. Qed.

Lemma Release_plainly p : preserves plainly (on_IPAM (ReleaseChildPrefix p)).
Proof.
  apply ipam_plainly. intros x d. destruct (ipam_ReleaseChildPrefix p x) as [x' [e|]] eqn:Hr; simpl.
  - apply Release_err in Hr as (-> & _). by left.
  - apply Release_ok in Hr as (-> & _). intros [? _]%elem_of_difference. by left.
Qed.

Lemma only_calls_plainly {A} (m : M A) : preserves only_calls m -> preserves plainly m.
Proof. intros Hm s. specialize (Hm s). intros c. rewrite Hm. by left. Qed.

Lemma generate_plainly rule parentCIDRs : preserves plainly (generateCIDRsForInjectionRule rule parentCIDRs).
Proof.
  pose proof Acquire_plainly. pose proof PrefixFrom_plainly. pose proof Release_plainly.
  assert (forall size ps, preserves plainly (try_prefixes size ps)) as Htp.
  { intros size ps. induction ps; simpl; go_struct. }
  assert (forall tmp pc size sel, preserves plainly (try_parents tmp pc size sel)) as Hsel.
  { intros tmp pc size sel. induction sel; simpl; unfold parent_prefixes, fetch_prefixes; go_struct. }
  assert (forall pc raw tmp injs, preserves plainly (generate_loop pc raw tmp injs)) as Hloop.
  { intros pc raw tmp injs. revert raw tmp. induction injs; intros; simpl; unfold release_raw; go_struct. }
  unfold generateCIDRsForInjectionRule. go_struct.
Qed.

Lemma evaluate_rule_plainly cl cfg A I acc rule : preserves plainly (evaluate_rule cl cfg A I acc rule).
Proof.
  unfold evaluate_rule. pose proof generate_plainly.
  pose proof (fun cl r inj => only_calls_plainly _ (Generate_only_calls cl r inj)). go_struct.
Qed.

Lemma ManageInjections_plainly cl cfg rules found : preserves plainly (ManageInjections cl cfg rules found).
Proof.
  unfold ManageInjections, record_cc. pose proof evaluate_rule_plainly.
  pose proof (fun cl a ccs => only_calls_plainly _ (Check_only_calls cl a ccs)).
  assert (forall injected errs ps, preserves plainly (record_patches injected errs ps)) as Hrec.
  { intros injected errs ps. revert injected errs. induction ps; intros; simpl; go_struct. }
  go_struct.
Qed.

Lemma valid_annotation_insert a r v :
  valid_annotation a -> text r -> valid_inner v -> valid_annotation (<[r := v]> a).
Proof. intros Ha Hr Hv. by apply map_Forall_insert_2. Qed.

(** ** The existing ClusterConfigs *)

Lemma record_patches_valid injected errs ps s injected' errs' s' :
  record_patches injected errs ps s = (Ret (injected', errs'), s') ->
  valid_inner injected -> Forall (fun p => text (p_Path p)) ps -> valid_inner injected'.
Proof.
  revert injected errs. induction ps as [|p ps IH]; intros injected errs Hrun Hi Hps; simpl in Hrun.
  { unfold retM in Hrun. by simplify_eq. }
  apply Forall_cons in Hps as [Hp Hps].
  destruct (nil_map injected !! p_Path p); [by eapply IH|]. destruct (p_Value p) as [raw|]; [|done].
  destruct (json_Unmarshal_string "" raw) as [v|] eqn:Hv; [|by eapply IH].
  destruct injected as [m|]; [|done]. eapply IH; [exact Hrun| |done].
  apply Unmarshal_string_valid in Hv; [|done]. by apply map_Forall_insert_2.
Qed.

Lemma record_loop_valid ccs a errs s a' errs' s' :
  foldM record_cc (a, errs) (range ccs) s = (Ret (a', errs'), s') ->
  valid_annotation a -> (forall r cc, ccs !! r = Some cc -> text r /\ text_cc cc) -> valid_annotation a'.
Proof.
  intros Hrun Ha Hccs. change (valid_annotation (a', errs').1).
  refine (foldM_inv _ (fun _ acc _ => valid_annotation acc.1) _ _ _ _ _ Hrun Ha _).
  intros done [r cc] rest [b be] st [b' be'] st' Hl Hb Hstep. simpl in *.
  assert (ccs !! r = Some cc) as (Hr & _ & Hps)%Hccs.
  { apply elem_of_range. rewrite Hl. apply elem_of_app. right. by left. }
  apply bindM_Ret_inv in Hstep as ([inj errs1] & st1 & Hp & Hstep). unfold retM in Hstep. simplify_eq.
  apply valid_annotation_insert; [done..|]. eapply record_patches_valid; [exact Hp| |done].
  destruct (b !! r) as [m|] eqn:Hm; [|apply map_Forall_empty]. by apply (map_Forall_lookup_1 _ _ _ _ Hb Hm).
Qed.

(** ** The rules *)

Lemma inj_set_path_text pws path inj :
  text path -> text_injection inj -> text_injection (inj_set_path pws path inj).
Proof.
  unfold text_injection, inj_paths, GetPaths. rewrite !fmap_app, !fmap_imap, !Forall_app.
  assert (forall l : list string, imap (fun i p => pws_Path {| pws_Path := p; pws_Index := Z.of_nat i |}) l = l) as Himap.
  { intros l. induction l as [|x l IH]; [done|]. rewrite imap_cons. f_equal. exact IH. }
  unfold compose in *. rewrite !Himap. intros Hp [H1 H2]. unfold inj_set_path. destruct (pws_Index pws <? 0); simpl; split.
  - clear H1. case_decide; simpl; [constructor|]. by apply Forall_cons.
  - done.
  - done.
  - by apply Forall_insert.
Qed.

Lemma normalize_paths_text I pwss inj n inj' n' :
  normalize_paths I pwss inj n = (inj', n') ->
  Forall (fun pws => text (pws_Path pws)) pwss -> text_injection inj -> text_injection inj'.
Proof.
  revert inj n. induction pwss as [|pws pwss IH]; intros inj n Hrun Hps Hi; cbn [normalize_paths] in Hrun.
  { by simplify_eq. }
  apply Forall_cons in Hps as [Hp Hps].
  destruct (ConvertPath (pws_Path pws)) as [path|e] eqn:Hc; [|by eapply IH].
  apply ConvertPath_text in Hc; [|done]. cbv zeta in Hrun.
  assert (text_injection (inj_set_path pws path inj)) as Hi' by by apply inj_set_path_text.
  case_decide; [by simplify_eq|]. case_decide; [by simplify_eq|]. by eapply IH.
Qed.

Lemma normalize_injections_text I injs n injs' n' :
  normalize_injections I injs n = (injs', n') -> Forall text_injection injs -> Forall text_injection injs'.
Proof.
  revert n injs' n'. induction injs as [|inj injs IH]; intros n injs' n' Hrun Hi; simpl in Hrun.
  { by simplify_eq. }
  apply Forall_cons in Hi as [Hi Hinjs].
  destruct (normalize_paths I (GetPaths inj) inj n) as [inj1 n1] eqn:H1.
  destruct (normalize_injections I injs n1) as [injs1 n2] eqn:H2. simplify_eq. apply Forall_cons. split.
  - eapply normalize_paths_text; [exact H1| |done]. unfold text_injection, inj_paths in Hi. by rewrite Forall_fmap in Hi.
  - by eapply IH.
Qed.

Lemma evaluate_rule_valid cl cfg A I res errs rule s res' errs' s' :
  evaluate_rule cl cfg A I (res, errs) rule s = (Ret (res', errs'), s') ->
  text_rule rule ->
  valid_annotation (AnnotationToApply res) -> valid_annotation (AnnotationToApply res').
Proof.
  intros Hrun [Hid Hinj] Ha. pose proof (preserves_run _ _ _ _ _ (evaluate_rule_plainly _ _ _ _ _ _) Hrun) as Hp.
  unfold evaluate_rule in Hrun. cbv zeta in Hrun.
  destruct (A !! rule_ID rule) as [v|]; [by injection Hrun as <- _ _|].
  destruct (normalize_injections _ _ _) as [injs n] eqn:Hn. apply normalize_injections_text in Hn; [|done].
  destruct (_ !! rule_ID rule); [by injection Hrun as <- _ _|]. destruct cfg as [cfg|]; [|done].
  apply bindM_Ret_inv in Hrun as (g & s1 & Hg & Hrun). apply generate_fresh in Hg as [_ Hm].
  destruct g as [m|e]; [|by injection Hrun as <- _ _]. simpl in *.
  apply bindM_Ret_inv in Hrun as (g & s2 & Hg & Hrun). pose proof (Generate_state _ _ _ _ _ _ Hg) as ->.
  assert (s' = s1 /\ AnnotationToApply res' = <[rule_ID rule := Some m]> (AnnotationToApply res)) as [-> ->].
  { destruct g; [case_decide|]; by injection Hrun as <- _ <-. }
  apply valid_annotation_insert; [done..|]. intros path c Hc.
  destruct (Hm path c Hc) as (Hk & Hnew & inj & Hin & Hpath). split; [|by destruct (Hp c Hk) as [?|[? _]]].
  rewrite Forall_forall in Hn. specialize (Hn inj Hin). unfold text_injection in Hn.
  rewrite Forall_forall in Hn. by apply Hn.
Qed.

(** ** ManageInjections *)

Lemma evaluate_loop_valid cl cfg A I rules acc s acc' s' :
  foldM (evaluate_rule cl cfg A I) acc rules s = (Ret acc', s') ->
  Forall text_rule rules -> valid_annotation (AnnotationToApply acc.1) -> valid_annotation (AnnotationToApply acc'.1).
Proof.
  intros Hrun Hr Ha. refine (foldM_inv _ (fun _ acc _ => valid_annotation (AnnotationToApply acc.1)) _ _ _ _ _ Hrun Ha _).
  intros done rule rest [res errs] st [res' errs'] st' -> Hv Hstep. apply Forall_app in Hr as [_ [Hr _]%Forall_cons].
  simpl in *. eapply evaluate_rule_valid; [exact Hstep|done..].
Qed.

(** For rules and ClusterConfigs made of valid strings, so is the annotation. *)
Lemma Manage_valid cl cfg rules ccs s res act err s' :
  ManageInjections cl cfg rules ccs s = (Ret (Some res, act, err), s') ->
  Forall text_rule rules -> (forall r cc, ccs !! r = Some cc -> text r /\ text_cc cc) ->
  valid_annotation (AnnotationToApply res).
Proof.
  unfold ManageInjections. destruct (parse_applied_rules cl) as [a|e] eqn:Ha; [|done]. intros Hrun Hrules Hccs.
  apply parse_valid in Ha. apply bindM_Ret_inv in Hrun as ([A errs0] & s1 & Hrec & Hrun).
  apply record_loop_valid in Hrec; [|done..]. destruct (errors_Join (Some <$> errs0)); [done|]. cbv zeta in Hrun.
  apply bindM_Ret_inv in Hrun as (ir & s2 & Hc & Hrun). destruct ir as [ri|e]; [|done].
  apply bindM_Ret_inv in Hrun as ([res1 errs] & s3 & Hloop & Hrun). unfold retM in Hrun. simplify_eq.
  by apply evaluate_loop_valid in Hloop.
Qed.
End text.
