(* ===== verification/Settle.v ===== *)
(** * A reconciliation that succeeds leaves nothing to do

    Against an API server that keeps its clusters and ClusterConfigs ([ClusterStore]): after
    a Reconcile without an error the cluster's annotation and its ClusterConfigs agree
    ([settled]), and another Reconcile of the cluster only reads. *)

From stdpp Require Import base list strings gmap.
From S2P Require Import Prelude GoStd GoJson Types Externals Runtime Utils Restore RestoreCheck RestoreIpam RestoreState RestoreDurable ClusterController ClusterGenerate ClusterManage ClusterReconcile AnnotationText.
Open Scope list_scope.
Open Scope Z_scope.

(** The metadata the integrity check writes and looks at. *)
Definition same_lifecycle (a x : ClusterConfig) : Prop :=
  same_content a x /\ Finalizers (cc_meta x) = Finalizers (cc_meta a) /\
  DeletionTimestamp (cc_meta x) = DeletionTimestamp (cc_meta a).

(** What the program reads of a cluster: its metadata and what selectors look at. *)
Definition same_cluster (a x : Cluster) : Prop :=
  cl_meta x = cl_meta a /\ cl_Purposes x = cl_Purposes a.

Lemma same_lifecycle_wants `{OpenMCP} a x : same_lifecycle a x -> wants_finalizer x = wants_finalizer a.
Proof. unfold wants_finalizer. by intros (_ & -> & ->). Qed.

(** ** An API server that keeps what it is sent, clusters included *)

Class ClusterStore `{AS : ApiStore} : Type := {
  server_clusters : list api_call -> gmap (string * string) Cluster;
  stored_Get h ns name cl :
    api_GetCluster h ns name = inl cl ->
    server_clusters h !! (ns, name) = Some cl /\
    Namespace (cl_meta cl) = ns /\ Name (cl_meta cl) = name /\ name <> "";
  (** only a patch writes a cluster: the object sent, but for what the server or a
      mutating webhook adds to its spec *)
  stored_PatchCluster h old new cl : api_PatchCluster h old new = inl cl ->
    same_cluster new cl /\
    server_clusters (CallPatchCluster old new :: h) = <[(Namespace (cl_meta new), Name (cl_meta new)) := cl]> (server_clusters h);
  stored_cluster_other h c : match c with CallPatchCluster _ _ | CallRemoveClusterAnnotation _ _ _ => False | _ => True end ->
    server_clusters (c :: h) = server_clusters h;
  (** a patch of a cluster is none of a ClusterConfig *)
  stored_ccs_PatchCluster h old new : server_ccs (CallPatchCluster old new :: h) = server_ccs h;
  (** ClusterConfigs keep their finalizers and are not deleted by anybody else *)
  stored_Create_lifecycle h cc : api_CreateClusterConfig h cc = None ->
    exists x, same_lifecycle cc x /\ server_ccs (CallCreateClusterConfig cc :: h) = <[key cc := x]> (server_ccs h);
  stored_Update_lifecycle h cc : api_UpdateClusterConfig h cc = None ->
    exists x, same_lifecycle cc x /\ server_ccs (CallUpdateClusterConfig cc :: h) = <[key cc := x]> (server_ccs h) }.
#[global] Arguments ClusterStore {OM KA} AS.

Section settle.
Context {OM : OpenMCP} {GI : GoIpam} {KA : K8sApi} {CU : CtrlUtils} {GO : GoMapOrder}.
Context {GL : GoIpamLaws} {CL : CtrlUtilsLaws} {OL : OpenMCPLaws} {AS : ApiStore} {CS : ClusterStore AS}.

(** ** What a settled cluster is *)

(** The patches of the ClusterConfig are for exactly the paths the annotation has for the
    rule, and the finalizer is there, or can no longer be added. *)
Definition covers (A : AppliedRulesAnnotation) (r : string) (x : ClusterConfig) : Prop :=
  is_Some (A !! r) /\
  (forall path, has_path path (cc_Patches x) = true <-> is_Some (ann_map A r !! path)) /\
  wants_finalizer x = false.

(** The ClusterConfigs of the cluster among those on the server. *)
Definition mine (s : gostate) (cl : Cluster) (x : ClusterConfig) : Prop :=
  server_ccs (calls s) !! key x = Some x /\ ours s x /\ belongs_to cl x = true.

(** The rules are all in the annotation, which is as it would be written again; each
    ClusterConfig of the cluster covers its rule, and each rule that injects something has
    one. *)
Definition settled (s : gostate) (cl : Cluster) (rules : list CIDRInjection) : Prop :=
  exists A, parse_applied_rules cl = inl A /\
    (A = ∅ \/ Annotations (cl_meta cl) !! AppliedRulesAnnotationKey = Some (json_Marshal_map2 A)) /\
    (forall rule, rule ∈ rules -> is_Some (A !! rule_ID rule)) /\
    (forall x, mine s cl x -> covers A (rule_label x) x) /\
    (forall r path, is_Some (ann_map A r !! path) -> exists x, mine s cl x /\ rule_label x = r).

(** ** Nothing to do *)

Lemma has_path_elem p ps : p ∈ ps -> has_path (p_Path p) ps = true.
Proof. intros Hp. apply has_path_true. by exists p. Qed.

Lemma record_patches_noop injected errs ps s :
  (forall p, p ∈ ps -> is_Some (nil_map injected !! p_Path p)) ->
  record_patches injected errs ps s = (Ret (injected, errs), s).
Proof.
  induction ps as [|p ps IH]; intros Hp; [done|]. simpl. destruct (Hp p) as [c ->]; [by left|].
  apply IH. intros q Hq. apply Hp. by right.
Qed.

Lemma record_noop A l s :
  (forall r cc, (r, cc) ∈ l -> covers A r cc) -> foldM record_cc (A, []) l s = (Ret (A, []), s).
Proof.
  induction l as [|[r cc] l IH]; intros Hl; [done|]. simpl.
  destruct (Hl r cc) as ([v Hv] & Hp & _); [by left|]. rewrite Hv.
  rewrite (bindM_Ret _ _ s (A, []) s); [apply IH; intros r' cc' Hin; apply Hl; by right|].
  rewrite (bindM_Ret _ _ s (v, []) s); [unfold retM; by rewrite insert_id|].
  apply record_patches_noop. intros p Hin%has_path_elem. apply Hp in Hin. unfold ann_map in Hin. by rewrite Hv in Hin.
Qed.

Lemma covered_nothing_missing A found r :
  (forall cc, found !! r = Some cc -> covers A r cc) ->
  (forall path, is_Some (ann_map A r !! path) -> is_Some (found !! r)) -> missing A found r = ∅.
Proof.
  intros Hc Hf. apply map_eq. intros path. rewrite missing_lookup, lookup_empty.
  destruct (found !! r) as [cc|] eqn:Hcc.
  - destruct (Hc cc eq_refl) as (_ & Hp & _). destruct (has_path path (cc_Patches cc)) eqn:Hh; [done|].
    apply eq_None_not_Some. intros Hs. apply Hp in Hs. congruence.
  - apply eq_None_not_Some. intros Hs. apply Hf in Hs. by destruct Hs.
Qed.

Lemma Manage_noop cl cfg rules found A s :
  parse_applied_rules cl = inl A ->
  (forall rule, rule ∈ rules -> is_Some (A !! rule_ID rule)) ->
  (forall r cc, found !! r = Some cc -> covers A r cc) ->
  (forall r path, is_Some (ann_map A r !! path) -> is_Some (found !! r)) ->
  exists res, ManageInjections cl cfg rules found s = (Ret (Some res, EventActionCIDRGeneration, None), s) /\
    AnnotationToApply res = A /\ RulesWithIssues res = ∅ /\
    im_Instruction res = {| ClusterConfigsToCreate := []; ClusterConfigsToUpdate := [] |}.
Proof.
  intros Ha Hr Hc Hf. unfold ManageInjections. rewrite Ha.
  rewrite (bindM_Ret _ _ s (A, []) s) by (apply record_noop; intros r cc Hin%elem_of_range; by apply Hc).
  cbn [errors_Join omap list_omap fmap list_fmap]. cbv zeta.
  rewrite (bindM_Ret _ _ s (inl {| ClusterConfigsToCreate := []; ClusterConfigsToUpdate := [] |}) s).
  2:{ apply check_noop; [|by intros r cc (_ & _ & Hw)%Hc]. intros r.
      apply covered_nothing_missing; [intros cc; apply Hc|apply Hf]. }
  edestruct (evaluate_known cl cfg A (injected_paths A) rules) as (res & Hrun & H1 & H2 & H3); [exact Hr|].
  exists res. split; [by rewrite (bindM_Ret _ _ _ _ _ Hrun)|]. rewrite H1, H2, H3. done.
Qed.

Lemma FetchFor_run cl s found s' :
  FetchClusterConfigsForCluster cl s = (Ret (inl found), s') ->
  let labels := labels_of (providerName s) (environment s) (Some cl) "" in
  let c := CallListClusterConfigs labels (Some (Namespace (cl_meta cl))) in
  s' = st_set_calls (c :: calls s) s /\ forall r cc, found !! r = Some cc -> rule_label cc = r.
Proof.
  unfold FetchClusterConfigsForCluster, client_ListClusterConfigs, request. intros Hrun.
  apply bindM_Ret_inv in Hrun as (labels & s1 & [-> ->]%ClusterConfigLabels_run & Hrun).
  apply bindM_Ret_inv in Hrun as (res & s2 & [= <- <-] & Hrun).
  destruct (api_ListClusterConfigs _ _ _) as [items|e]; unfold retM in Hrun; simplify_eq. split; [done|].
  intros r cc Hcc. apply ProjectSliceToMap_sound in Hcc.
  apply list_elem_of_fmap in Hcc as (y & [= -> ->] & _). done.
Qed.

(** ** What the rules leave behind *)

(** A ClusterConfig generated for the rule's injections. *)
Definition born (cl : Cluster) (s : gostate) (r : string) (m : gmap string string) (n : ClusterConfig) : Prop :=
  generated_for cl r s n /\
  (forall path, has_path path (cc_Patches n) = true <-> is_Some (m !! path)) /\ wants_finalizer n = false.

Lemma has_path_injections (m : gmap string string) ps path :
  ps ≡ₚ injection_patches (range m) -> has_path path ps = true <-> is_Some (m !! path).
Proof.
  intros Hps. rewrite has_path_true. setoid_rewrite Hps. setoid_rewrite injection_patches_elem. split.
  - intros (p & (path' & cidr & Hm & ->) & <-). by exists cidr.
  - intros [cidr Hm]. exists (injection_patch path cidr). split; [by exists path, cidr|done].
Qed.

Lemma Generate_born cl r m s n s' :
  GenerateClusterConfigForInjectionList cl r m s = (Ret (inl n), s') -> born cl s r m n.
Proof.
  intros Hg. split_and!; [by eapply Generate_generated| |].
  - intros path. by apply has_path_injections, (Generate_patches _ _ _ _ _ _ Hg).
  - unfold GenerateClusterConfigForInjectionList in Hg.
    destruct (GenerateClusterConfigName _ _); go_run. unfold wants_finalizer. simpl. by rewrite bool_decide_true by by left.
Qed.

Lemma born_same cl s s' r m n :
  providerName s' = providerName s -> environment s' = environment s -> born cl s' r m n -> born cl s r m n.
Proof. unfold born, generated_for. by intros -> ->. Qed.

Lemma born_covers cl s r m n A : A !! r = Some (Some m) -> born cl s r m n -> covers A r n.
Proof. unfold covers, ann_map. intros -> (_ & Hp & Hw). by split_and!. Qed.

(** The rule loop, while there is no error: old entries stay, a new entry comes with its
    ClusterConfig, and each further ClusterConfig belongs to a new entry. *)
Definition exact_inv (cl : Cluster) (A : AppliedRulesAnnotation) (ri : RestorationInstruction) (s0 : gostate)
    (done : list CIDRInjection) (acc : InjectionManagementResult * list error) (st : gostate) : Prop :=
  let '(res, errs) := acc in let ann := AnnotationToApply res in
  only_ipam s0 st /\ (errs = [] ->
  (forall r, is_Some (A !! r) -> ann !! r = A !! r) /\
  (forall r v, A !! r = None -> ann !! r = Some v -> r ∈ rule_ID <$> done /\
     exists m n, v = Some m /\ born cl s0 r m n /\ n ∈ creates_of res) /\
  (forall n, n ∈ creates_of res -> n ∈ ClusterConfigsToCreate ri \/
     exists r m, A !! r = None /\ ann !! r = Some (Some m) /\ born cl s0 r m n) /\
  (forall rule, rule ∈ done -> is_Some (ann !! rule_ID rule) \/ rule_ID rule ∈ dom (RulesWithIssues res))).

Lemma exact_step cl cfg I A ri s0 done rule acc st acc' st' :
  (forall r, named_rule cl r) -> rule_ID rule ∉ rule_ID <$> done ->
  exact_inv cl A ri s0 done acc st ->
  evaluate_rule cl cfg A I acc rule st = (Ret acc', st') ->
  exact_inv cl A ri s0 (done ++ [rule]) acc' st'.
Proof.
  intros Hname Hnew. destruct acc as [res errs], acc' as [res' errs']. intros [Ho Hinv] Hrun.
  apply evaluate_rule_inv in Hrun as (more & -> & _ & Hiss & _ & Hcase).
  assert (only_ipam st st') as Ho'.
  { destruct Hcase as [(_ & -> & _)|[(_ & [? _] & _)|(_ & [? _] & _)]]; [reflexivity|done..]. }
  split; [by etrans|]. intros [-> ->]%app_eq_nil. destruct (Hinv eq_refl) as (H1 & H2 & H3 & H4). clear Hinv.
  assert (forall r, r ∈ rule_ID <$> done -> r ∈ rule_ID <$> done ++ [rule]) as Hdone by set_solver.
  assert (forall (P : CIDRInjection -> Prop), (forall x, x ∈ done -> P x) -> P rule ->
    forall x, x ∈ done ++ [rule] -> P x) as Hall.
  { intros P HP Hr x [Hx| ->%list_elem_of_singleton]%elem_of_app; auto. }
  destruct Hcase as [(HA & -> & _ & -> & -> & _)|[(HA & _ & -> & -> & Hi)|(HA & _ & m & Hann & _ & He & _)]].
  - split_and!; [done| |done|].
    + intros r v Hr Hv. destruct (H2 r v Hr Hv) as [? ?]. auto.
    + apply Hall; [|left; by rewrite H1]. intros x [?|?]%H4; [by left|right; by apply Hiss].
  - destruct Hi as [Hi|Hi]; [|done]. split_and!; [done| |done|].
    + intros r v Hr Hv. destruct (H2 r v Hr Hv) as [? ?]. auto.
    + apply Hall; [|by right]. intros x [?|?]%H4; [by left|right; by apply Hiss].
  - destruct (He eq_refl) as (_ & n & Hg & Hcr). pose proof (Generate_born _ _ _ _ _ _ Hg) as Hb.
    assert (born cl s0 (rule_ID rule) m n) as Hb0 by (apply (born_same _ _ st'); [by rewrite (transitivity Ho Ho')..|done]).
    rewrite decide_True in Hcr by (by apply (Hname (rule_ID rule)); apply Hb).
    assert (forall r v, ann_map (AnnotationToApply res) r = v -> r <> rule_ID rule ->
      AnnotationToApply res' !! r = AnnotationToApply res !! r) as Hne.
    { intros r v _ Hne. rewrite Hann. by apply lookup_insert_ne. }
    split_and!.
    + intros r Hr. erewrite Hne; [by apply H1|done|]. intros ->. rewrite HA in Hr. by destruct Hr.
    + intros r v Hr Hv. destruct (decide (r = rule_ID rule)) as [->|Hner].
      * rewrite Hann, lookup_insert_eq in Hv. simplify_eq. split; [set_solver|]. exists m, n.
        split_and!; [done..|]. rewrite Hcr. set_solver.
      * erewrite Hne in Hv by done. destruct (H2 r v Hr Hv) as [? (m' & n' & -> & ? & ?)]. split; [auto|].
        exists m', n'. split_and!; [done..|]. rewrite Hcr. set_solver.
    + intros x. rewrite Hcr. intros [Hx|Hx%list_elem_of_singleton]%elem_of_app.
      * destruct (H3 x Hx) as [?|(r & m' & Hr & Hv & Hbx)]; [by left|right]. exists r, m'. split_and!; [done| |done].
        erewrite Hne; [done..|]. intros ->. by destruct (H2 _ _ Hr Hv).
      * subst x. right. exists (rule_ID rule), m. by rewrite Hann, lookup_insert_eq.
    + apply Hall; [|left; rewrite Hann, lookup_insert_eq; by eexists].
      intros x [Hx|?]%H4; [left|right; by apply Hiss]. rewrite Hann. apply lookup_insert_is_Some'. by right.
Qed.

Lemma same_object_covers A r x y : same_lifecycle x y -> covers A r x -> covers A r y.
Proof.
  intros Hs (Hr & Hp & Hw). pose proof Hs as ((_ & Hps) & _). unfold covers.
  by rewrite Hps, (same_lifecycle_wants x y Hs).
Qed.

(** An entry of the check's update list is as the check wants it. *)
Lemma updated_covers A found cc r u :
  found !! r = Some cc -> updated_of cc (missing A found r) = Some u ->
  is_Some (A !! r) -> (forall p, p ∈ cc_Patches cc -> is_Some (ann_map A r !! p_Path p)) ->
  same_object cc (SortPatches u) /\ covers A r (SortPatches u).
Proof.
  intros Hcc (Hp & _ & Hm & _)%updated_of_shape Hr Hpaths. split.
  { unfold same_object. simpl. rewrite Hm. by destruct (wants_finalizer cc). }
  split_and!; [done|..].
  - intros path. rewrite has_path_true. setoid_rewrite SortPatches_elem. rewrite Hp.
    setoid_rewrite elem_of_app. setoid_rewrite injection_patches_elem. split.
    + intros (p & [Hin|(path' & c & Hc & ->)] & <-); [by apply Hpaths|]. simpl.
      rewrite missing_lookup, Hcc in Hc. destruct (has_path _ _); [done|]. by exists c.
    + intros [c Hc]. destruct (has_path path (cc_Patches cc)) eqn:Hh.
      * apply has_path_true in Hh as (p & Hin & <-). exists p. split; [by left|done].
      * exists (injection_patch path c). split; [right|done]. exists path, c. split; [|done].
        by rewrite missing_lookup, Hcc, Hh.
  - unfold wants_finalizer in *. simpl. rewrite Hm.
    destruct (bool_decide (CIDRManagementFinalizer ∈ Finalizers (cc_meta cc))) eqn:Hf; simpl; [by rewrite Hf|].
    destruct (bool_decide (DeletionTimestamp (cc_meta cc) = None)) eqn:Hd; simpl; [|by rewrite Hf, Hd].
    rewrite bool_decide_true; [done|]. apply elem_of_app. right. by left.
Qed.

Lemma not_updated_covers A found cc r :
  found !! r = Some cc -> updated_of cc (missing A found r) = None ->
  is_Some (A !! r) -> (forall p, p ∈ cc_Patches cc -> is_Some (ann_map A r !! p_Path p)) -> covers A r cc.
Proof.
  unfold updated_of. intros Hcc Hu Hr Hpaths. case_decide as Hm; [|done].
  destruct (wants_finalizer cc) eqn:Hw; [done|]. split_and!; [done| |done]. intros path. split.
  - intros (p & Hp & <-)%has_path_true. by apply Hpaths.
  - intros [c Hc]. pose proof (missing_lookup A found r path) as Hl. rewrite Hm, lookup_empty, Hcc in Hl.
    destruct (has_path path (cc_Patches cc)); [done|]. unfold ann_map in Hc. congruence.
Qed.

Lemma covers_ann A ann r x : ann !! r = A !! r -> covers A r x -> covers ann r x.
Proof. unfold covers, ann_map. by intros ->. Qed.

(** The result of a ManageInjections without error or issue: what is to be created or
    updated covers the annotation, and so does what is left as it is. *)
Record consistent (cl : Cluster) (rules : list CIDRInjection) (found : gmap string ClusterConfig) (s : gostate)
    (ann : AppliedRulesAnnotation) (ri : RestorationInstruction) : Prop := {
  c_rules rule : rule ∈ rules -> is_Some (ann !! rule_ID rule);
  c_found r cc : found !! r = Some cc -> covers ann r cc \/
    exists u, u ∈ ClusterConfigsToUpdate ri /\ same_object cc u;
  c_update u : u ∈ ClusterConfigsToUpdate ri ->
    exists r cc, found !! r = Some cc /\ same_object cc u /\ covers ann r u;
  c_create n : n ∈ ClusterConfigsToCreate ri -> exists r, generated_for cl r s n /\ covers ann r n;
  c_complete r path : is_Some (ann_map ann r !! path) -> is_Some (found !! r) \/
    exists n, n ∈ ClusterConfigsToCreate ri /\ generated_for cl r s n }.

Lemma Manage_consistent cl cfg rules found s res act s' :
  ManageInjections cl cfg rules found s = (Ret (Some res, act, None), s') ->
  (forall r, named_rule cl r) -> NoDup (rule_ID <$> rules) -> RulesWithIssues res = ∅ ->
  consistent cl rules found s (AnnotationToApply res) (im_Instruction res).
Proof.
  intros (a & A & ri & errs & _ & _ & HA & Hpaths & Hcheck & He & Hloop & Hinv)%Manage_inv Hname Hnd Hiss.
  symmetry in He. apply errors_Join_all in He as ->.
  assert (exact_inv cl A ri s rules (res, []) s') as [_ Hex].
  { apply (foldM_inv _ (exact_inv cl A ri s) _ _ _ _ _ Hloop).
    - split; [reflexivity|]. intros _. simpl. split_and!; [done|congruence|by left|by intros ? ?%not_elem_of_nil].
    - intros done rule rest acc st acc' st' Hl Hi Hstep. eapply exact_step; [done| |exact Hi|exact Hstep].
      rewrite Hl, fmap_app, fmap_cons in Hnd. apply NoDup_app in Hnd as (_ & Hnd & _).
      intros Hin. apply (Hnd _ Hin). by left. }
  destruct (Hex eq_refl) as (Hold & Hnew & Hcr & Hrules). clear Hex.
  destruct Hinv as (_ & (l & Hcl) & Hup & _).
  destruct (check_spec _ _ _ _ _ _ Hcheck) as (_ & new & upd & Hc & Hu & Hupd & Hcreate).
  assert (forall r cc, found !! r = Some cc -> is_Some (A !! r)) as HfA by (intros r cc Hcc; apply HA; right; by exists cc).
  assert (forall r cc, found !! r = Some cc -> AnnotationToApply res !! r = A !! r) as Hsame.
  { intros r cc Hcc. apply Hold. by eapply HfA. }
  assert (forall u, u ∈ ClusterConfigsToUpdate (im_Instruction res) <-> exists r v, upd !! r = Some v /\ u = SortPatches v) as Hupdates.
  { intros u. rewrite Hup, Hu, list_elem_of_fmap. setoid_rewrite elem_of_range_values. naive_solver. }
  assert (forall r, found !! r = None -> missing A found r = ann_map A r) as Hmiss.
  { intros r Hr. apply map_eq. intros path. by rewrite missing_lookup, Hr. }
  split.
  - intros rule Hr. destruct (Hrules rule Hr) as [?|Hi]; [done|]. rewrite Hiss, dom_empty_L in Hi. by apply elem_of_empty in Hi.
  - intros r cc Hcc. specialize (Hupd r). rewrite Hcc in Hupd. simpl in Hupd.
    destruct (updated_of cc (missing A found r)) as [u|] eqn:Hof.
    + right. exists (SortPatches u). split; [apply Hupdates; by exists r, u|].
      eapply updated_covers; [exact Hcc|exact Hof|by eapply HfA|intros p; by apply Hpaths].
    + left. eapply covers_ann; [by eapply Hsame|]. eapply not_updated_covers; [done..|by eapply HfA|intros p; by apply Hpaths].
  - intros u (r & v & Hv & ->)%Hupdates. specialize (Hupd r). rewrite Hv in Hupd. symmetry in Hupd.
    apply bind_Some in Hupd as (cc & Hcc & Hof). exists r, cc. split; [done|].
    eapply updated_covers in Hof as [Ho Hcov]; [|done|by eapply HfA|intros p; by apply Hpaths].
    split; [done|]. eapply covers_ann; [by eapply Hsame|done].
  - intros n [Hn|(r & m & _ & Hr & Hb)]%Hcr; [|exists r; split; [apply Hb|by eapply born_covers]].
    rewrite Hc in Hn. apply elem_of_range_values in Hn as [r Hn]. specialize (Hcreate r). rewrite Hn in Hcreate.
    case_decide as Hd; [|done]. destruct Hd as [Hf Hm]. destruct Hcreate as (cc & Hg%Generate_born & Hcc).
    case_decide; simplify_eq. exists r. split; [apply Hg|]. rewrite Hmiss in Hg, Hm by done.
    assert (is_Some (A !! r)) as HAr.
    { destruct (A !! r) eqn:HAr; [by eexists|]. destruct Hm. unfold ann_map. by rewrite HAr. }
    eapply covers_ann; [by apply Hold|]. destruct Hg as (_ & Hp & Hw). by split_and!.
  - intros r path Hpath. destruct (A !! r) as [v|] eqn:HAr.
    + assert (AnnotationToApply res !! r = A !! r) as Heq by (apply Hold; by exists v).
      unfold ann_map in Hpath. rewrite Heq in Hpath. fold (ann_map A r) in Hpath.
      destruct (found !! r) eqn:Hf; [left; by eexists|right]. specialize (Hcreate r). rewrite decide_True in Hcreate.
      2:{ split; [done|]. rewrite Hmiss by done. intros Hem. rewrite Hem, lookup_empty in Hpath. by destruct Hpath. }
      destruct Hcreate as (n & Hg & Hn). pose proof (Generate_generated _ _ _ _ _ _ Hg) as Hgf.
      rewrite decide_False in Hn by (by apply (Hname r); apply Hgf). exists n. split; [|done].
      fold (creates_of res). rewrite Hcl, Hc. apply elem_of_app. left. apply elem_of_range_values. by exists r.
    + unfold ann_map in Hpath. destruct (AnnotationToApply res !! r) as [v|] eqn:Hv.
      * destruct (Hnew r v HAr Hv) as [_ (m & n & -> & Hb & Hn)]. right. exists n. split; [done|apply Hb].
      * simpl in Hpath. rewrite lookup_empty in Hpath. by destruct Hpath.
Qed.

(** ** What is on the server afterwards *)

Lemma stored_Create_kept h cc : api_CreateClusterConfig h cc = None ->
  server_ccs h !! key cc = None /\ exists x, same_lifecycle cc x /\
  server_ccs (CallCreateClusterConfig cc :: h) = <[key cc := x]> (server_ccs h).
Proof. intros Hc. split; [by apply stored_Create|by apply stored_Create_lifecycle]. Qed.

Definition creates_settled := creates_kept same_lifecycle stored_Create_kept.
Definition updates_settled := updates_kept same_lifecycle stored_Create_kept stored_Update_lifecycle.

Section applied.
Context (cl : Cluster) (rules : list CIDRInjection) (found : gmap string ClusterConfig) (s s3 s4 : gostate).
Context (ann : AppliedRulesAnnotation) (ri : RestorationInstruction).
Notation m := (server_ccs (calls s)).
Notation m' := (server_ccs (calls s4)).
Context (Hfound : forall r cc, found !! r = Some cc -> mine s cl cc /\ rule_label cc = r).
Context (Hall : forall x, mine s cl x -> is_Some (found !! rule_label x)).
Context (Hone : one_per_rule s m).
Context (Hcons : consistent cl rules found s ann ri).
Context (Hm : server_ccs (calls s3) = m).
Context (Happly : Apply (Some ri) s3 = (Ret None, s4)).
Context (Hnames : providerName s4 = providerName s /\ environment s4 = environment s).

Lemma mine_found x : mine s cl x -> found !! rule_label x = Some x.
Proof.
  intros Hx. destruct (Hall x Hx) as [cc Hcc]. rewrite Hcc. apply Hfound in Hcc as [(Hcs & Hco & Hcb) Hl].
  destruct Hx as (Hxs & Hxo & Hxb). unfold belongs_to in Hcb, Hxb.
  apply andb_true_iff in Hcb as [Hcn%bool_decide_eq_true Hct%bool_decide_eq_true].
  apply andb_true_iff in Hxb as [Hxn%bool_decide_eq_true Hxt%bool_decide_eq_true].
  assert (key cc = key x) as Hk by (eapply Hone; [done..|congruence|unfold target; congruence|done]).
  rewrite Hk in Hcs. congruence.
Qed.

(** The key of an update is that of the ClusterConfig it stems from. *)
Lemma update_of u :
  u ∈ ClusterConfigsToUpdate ri ->
  exists cc, mine s cl cc /\ same_object cc u /\ covers ann (rule_label u) u.
Proof.
  intros (r & cc & [Hcc Hl]%Hfound & Ho & Hcov)%(c_update _ _ _ _ _ _ Hcons). exists cc. split_and!; [done..|].
  by rewrite (same_object_rule cc u Ho), Hl.
Qed.

Lemma stored_from k x :
  m' !! k = Some x ->
  (m !! k = Some x /\ k ∉ (fun cc => key cc) <$> ClusterConfigsToUpdate ri) \/
  exists y, (y ∈ ClusterConfigsToCreate ri \/ y ∈ ClusterConfigsToUpdate ri) /\ same_lifecycle y x.
Proof.
  destruct (apply_stored _ _ _ Happly) as (-> & Hc & Hu).
  apply creates_settled in Hc as (_ & _ & Hout). rewrite Hm in Hout.
  destruct (updates_settled _ _ Hu k) as [[Hk ->]|(u & y & Hin & <- & Hy & ->)].
  - intros [Hk'|(n & Hn & Hs)]%Hout; [by left|right; exists n; split; [by left|done]].
  - intros [= <-]. right. exists u. split; [by right|done].
Qed.

Lemma stored_still x : mine s cl x -> exists y, m' !! key x = Some y /\ same_object x y.
Proof.
  intros Hx. destruct (apply_stored _ _ _ Happly) as (-> & Hc & Hu).
  apply creates_settled in Hc as (Hsub & _ & _). rewrite Hm in Hsub.
  pose proof (lookup_weaken _ _ _ _ (proj1 Hx) Hsub) as Hk.
  destruct (updates_settled _ _ Hu (key x)) as [[_ ->]|(u & y & Hin & Hku & [Hy _] & ->)]; [by exists x|].
  exists y. split; [done|]. destruct (update_of u Hin) as (cc & [Hcc _] & Ho & _).
  rewrite <- (same_object_key cc u Ho), Hku, (proj1 Hx) in Hcc. simplify_eq. etrans; [exact Ho|apply Hy].
Qed.

Lemma stored_created n : n ∈ ClusterConfigsToCreate ri -> exists y, m' !! key n = Some y /\ same_object n y.
Proof.
  intros Hn. destruct (apply_stored _ _ _ Happly) as (-> & Hc & Hu).
  apply creates_settled in Hc as (_ & Hin & _). rewrite Hm in Hin.
  destruct (Hin n Hn) as (Hnone & y & [[Hy _] _] & Hst). exists y. split; [|done].
  destruct (updates_settled _ _ Hu (key n)) as [[_ ->]|(u & z & Huin & Hku & _)]; [done|].
  destruct (update_of u Huin) as (cc & [Hcc _] & Ho & _).
  rewrite <- (same_object_key cc u Ho), Hku in Hcc. congruence.
Qed.

Lemma ours_after x : ours s4 x <-> ours s x.
Proof. unfold ours. by destruct Hnames as [-> ->]. Qed.

Lemma mine_after x y : mine s cl x -> m' !! key x = Some y -> same_object x y -> mine s4 cl y.
Proof.
  intros (_ & Ho & Hb) Hy Hs. split_and!.
  - by rewrite (same_object_key x y Hs).
  - apply ours_after. unfold ours in *. by destruct Hs as (_ & _ & ->).
  - by rewrite (same_object_belongs cl x y Hs).
Qed.

Lemma generated_after r n y : generated_for cl r s n -> m' !! key n = Some y -> same_object n y -> mine s4 cl y /\ rule_label y = r.
Proof.
  intros Hg Hy Hs. pose proof (generated_same _ _ _ _ _ Hs Hg) as (Ho & Hb & Hl & _)%generated_facts.
  split; [|done]. split_and!; [by rewrite (same_object_key n y Hs)|by apply ours_after|done].
Qed.

(** Every ClusterConfig of the cluster covers its rule. *)
Lemma settled_each x : mine s4 cl x -> covers ann (rule_label x) x.
Proof.
  intros (Hx & Ho%ours_after & Hb). apply stored_from in Hx as [[Hx Hno]|(y & [Hy|Hy] & Hs)].
  - assert (found !! rule_label x = Some x) as Hf by by apply mine_found.
    destruct (c_found _ _ _ _ _ _ Hcons _ _ Hf) as [?|(u & Hu & Hso)]; [done|]. destruct Hno.
    rewrite <- (same_object_key x u Hso). by apply (list_elem_of_fmap_2 (fun cc => key cc)).
  - destruct (c_create _ _ _ _ _ _ Hcons y Hy) as (r & Hg & Hcov).
    pose proof (generated_same _ _ _ _ _ (proj1 (proj1 Hs)) Hg) as (_ & _ & -> & _)%generated_facts.
    by eapply same_object_covers.
  - destruct (update_of y Hy) as (cc & _ & _ & Hcov). rewrite (same_object_rule y x (proj1 (proj1 Hs))).
    by eapply same_object_covers.
Qed.

(** Every rule that injects something has one. *)
Lemma settled_all r path : is_Some (ann_map ann r !! path) -> exists x, mine s4 cl x /\ rule_label x = r.
Proof.
  intros [[cc Hcc]|(n & Hn & Hg)]%(c_complete _ _ _ _ _ _ Hcons).
  - apply Hfound in Hcc as [Hmine Hl]. destruct (stored_still cc Hmine) as (y & Hy & Hs). exists y.
    split; [by eapply mine_after|]. by rewrite (same_object_rule cc y Hs).
  - destruct (stored_created n Hn) as (y & Hy & Hs). exists y. by eapply generated_after.
Qed.
End applied.

(** ** A handleCreateOrUpdate without an error *)

Lemma Eventf_run er ty r a s u s' : Eventf er ty r a s = (Ret u, s') -> exists ev, s' = st_set_events ev s.
Proof.
  destruct er; intros [= <- <-]; [by eexists|]. exists (events s). by destruct s.
Qed.

Lemma events_run {A} er ty r a (l : list A) s u s' :
  foldM (fun (_ : unit) _ => Eventf er ty r a) tt l s = (Ret u, s') -> exists ev, s' = st_set_events ev s.
Proof.
  intros Hrun. apply (foldM_inv _ (fun _ _ st => exists ev, st = st_set_events ev s)) in Hrun; [done|..].
  - exists (events s). by destruct s.
  - intros done x rest _ st _ st' _ [ev ->] [ev' ->]%Eventf_run. by exists ev'.
Qed.

Lemma apply_annotation_None er ir errs cl s cl' s' :
  apply_annotation er ir errs cl s = (Ret (None, cl'), s') ->
  errs = None /\
  ((s' = s /\ cl' = cl /\ (AnnotationToApply ir = ∅ \/
      Annotations (cl_meta cl) !! AppliedRulesAnnotationKey = Some (json_Marshal_map2 (AnnotationToApply ir)))) \/
   let new := cl_set_Annotations (<[AppliedRulesAnnotationKey := json_Marshal_map2 (AnnotationToApply ir)]>
                (Annotations (cl_meta cl))) cl in
   api_PatchCluster (calls s) cl new = inl cl' /\ s' = st_set_calls (CallPatchCluster cl new :: calls s) s).
Proof.
  unfold apply_annotation. case_decide as Hz.
  { intros [= -> -> <-]. split; [done|]. left. split_and!; [done..|]. left. by apply map_size_empty_iff. }
  intros Hrun. apply bindM_Ret_inv in Hrun as (? & ? & [= <- <-] & Hrun). cbv zeta in Hrun.
  case_decide as Hold.
  - unfold retM in Hrun. injection Hrun as -> -> <-. split; [done|]. left. split_and!; [done..|]. right.
    destruct (Annotations (cl_meta cl') !! AppliedRulesAnnotationKey) as [o|]; simpl in Hold; [by rewrite Hold|].
    by apply marshalled_nonempty in Hold.
  - set (new := cl_set_Annotations _ cl) in Hrun.
    apply bindM_Ret_inv in Hrun as (r & s1 & [= <- <-] & Hrun).
    destruct (api_PatchCluster (calls s) cl new) as [c|e] eqn:Hp.
    + unfold retM in Hrun. injection Hrun as -> -> <-. split; [done|]. by right.
    + apply bindM_Ret_inv in Hrun as ([] & s2 & _ & Hrun). unfold retM in Hrun. injection Hrun as Herr _ _.
      by apply errors_Join_some in Herr.
Qed.

Lemma report_issues_None er issues errs s s' :
  report_issues er issues errs s = (Ret None, s') -> errs = None /\ issues = ∅ /\ s' = s.
Proof.
  unfold report_issues. intros Hrun.
  assert (range issues = []) as Hnil.
  { destruct (range issues) as [|ri l] eqn:Hl using rev_ind; [done|].
    rewrite foldM_app in Hrun. apply bindM_Ret_inv in Hrun as (e & s1 & _ & Hrun).
    apply bindM_Ret_inv in Hrun as (e' & s2 & Hstep & Hrun). unfold retM in Hrun. simplify_eq.
    apply bindM_Ret_inv in Hstep as (? & ? & _ & Hstep). unfold retM in Hstep. injection Hstep as Herr _.
    by apply errors_Join_some in Herr. }
  rewrite Hnil in Hrun. injection Hrun as -> <-. split_and!; [done| |done].
  apply map_to_list_empty_iff, Permutation_nil. rewrite <- Hnil. apply range_perm.
Qed.

Lemma handle_success er rr cl rules s rr' s' :
  handleCreateOrUpdate er rr cl rules s = (Ret rr', s') -> rr_Error rr' = None ->
  exists found s1 res act s2 cl' s3 s4 ev,
    FetchClusterConfigsForCluster cl s = (Ret (inl found), s1) /\
    ManageInjections cl (config s) rules found s1 = (Ret (Some res, act, None), s2) /\
    apply_annotation er res None cl s2 = (Ret (None, cl'), s3) /\
    Apply (Some (im_Instruction res)) s3 = (Ret None, s4) /\
    RulesWithIssues res = ∅ /\ s' = st_set_events ev s4 /\ rr_Cluster rr' = Some cl'.
Proof.
  unfold handleCreateOrUpdate. intros Hrun Herr.
  apply bindM_Ret_inv in Hrun as (cfg & s0 & [= <- <-] & Hrun).
  apply bindM_Ret_inv in Hrun as ([found|e] & s1 & Hf & Hrun); [|unfold retM in Hrun; by simplify_eq].
  apply bindM_Ret_inv in Hrun as ([[ir act] err] & s2 & Hm & Hrun).
  apply bindM_Ret_inv in Hrun as ([] & s2' & Hw & Hrun). destruct ir as [res|]; [|done].
  apply bindM_Ret_inv in Hrun as ([errs cl'] & s3 & Ha & Hrun).
  apply bindM_Ret_inv in Hrun as (aerr & s4 & Happ & Hrun). cbv zeta in Hrun.
  apply bindM_Ret_inv in Hrun as (errs' & s5 & Hr & Hrun).
  apply bindM_Ret_inv in Hrun as ([] & s6 & Hev & Hrun). unfold retM in Hrun. injection Hrun as <- <-.
  simpl in Herr. subst errs'. apply report_issues_None in Hr as (Hr & Hiss & ->).
  destruct aerr as [e|]; [by apply errors_Join_some in Hr|]. subst errs.
  pose proof Ha as [-> _]%apply_annotation_None. rewrite decide_False in Hw by (by intros []).
  unfold retM in Hw. injection Hw as <-. apply events_run in Hev as [ev ->].
  by exists found, s1, res, act, s2, cl', s3, s4, ev.
Qed.

(** ** Handling a settled cluster *)

Definition list_call (s : gostate) (cl : Cluster) : api_call :=
  CallListClusterConfigs (labels_of (providerName s) (environment s) (Some cl) "") (Some (Namespace (cl_meta cl))).

(** The list of the cluster's ClusterConfigs is answered. *)
Definition listed (s : gostate) (cl : Cluster) : Prop :=
  exists items, api_ListClusterConfigs (calls s) (labels_of (providerName s) (environment s) (Some cl) "")
    (Some (Namespace (cl_meta cl))) = inl items.

Definition named (s : gostate) : Prop := providerName s <> "" /\ environment s <> "".

Lemma Fetch_named cl s r s' : FetchClusterConfigsForCluster cl s = (Ret r, s') -> named s.
Proof.
  unfold FetchClusterConfigsForCluster. intros (labels & s1 & Hl & _)%bindM_Ret_inv.
  unfold ClusterConfigLabels, ProviderName, Environment in Hl. go_run. repeat (case_decide; go_run); done.
Qed.

Lemma Fetch_total cl s :
  named s -> listed s cl ->
  exists found, FetchClusterConfigsForCluster cl s = (Ret (inl found), st_set_calls (list_call s cl :: calls s) s).
Proof.
  intros [Hp He] [items Hl]. unfold FetchClusterConfigsForCluster.
  assert (ClusterConfigLabels (Some cl) "" s = (Ret (labels_of (providerName s) (environment s) (Some cl) ""), s)) as Hlab.
  { unfold ClusterConfigLabels, ProviderName, Environment, bindM, getM, retM. rewrite !decide_False by done. reflexivity. }
  rewrite (bindM_Ret _ _ _ _ _ Hlab). unfold client_ListClusterConfigs, request, bindM. rewrite Hl. by eexists.
Qed.

Lemma events_total {A} er ty r a (l : list A) s :
  exists ev, foldM (fun (_ : unit) _ => Eventf er ty r a) tt l s = (Ret tt, st_set_events ev s).
Proof.
  revert s. induction l as [|x l IH]; intros s; simpl; [exists (events s); by destruct s|].
  assert (exists ev, Eventf er ty r a s = (Ret tt, st_set_events ev s)) as [ev Hev].
  { destruct er; [by eexists|]. exists (events s). by destruct s. }
  rewrite (bindM_Ret _ _ _ _ _ Hev). destruct (IH (st_set_events ev s)) as [ev' ->]. by exists ev'.
Qed.


Lemma handle_settled er rr cl rules s :
  Name (cl_meta cl) <> "" -> named s -> listed s cl -> settled s cl rules ->
  exists ev, handleCreateOrUpdate er rr cl rules s =
    (Ret {| rr_Cluster := Some cl; rr_EventAction := rr_EventAction rr; rr_Error := None |},
     st_set_events ev (st_set_calls (list_call s cl :: calls s) s)).
Proof.
  intros Hname Hn Hl (A & Ha & Hann & Hrules & Heach & Hall).
  destruct (Fetch_total cl s Hn Hl) as [found Hf]. set (s1 := st_set_calls _ s) in *.
  pose proof Hf as (_ & Hf1 & Hf2)%FetchFor_stored; [|done]. pose proof Hf as (_ & Hkey)%FetchFor_run.
  edestruct (Manage_noop cl (config s1) rules found A s1) as (res & Hm & H1 & H2 & H3); [done..| | |].
  { intros r cc Hcc. rewrite <- (Hkey r cc Hcc). apply Heach, Hf1. apply elem_of_range_values. by exists r. }
  { intros r path (x & (Hx & Ho & Hb) & Hr)%Hall. destruct (Hf2 _ _ Hx Ho Hb) as (cc & Hcc & Hcl).
    apply elem_of_range_values in Hcc as [r' Hcc]. rewrite <- Hr, <- Hcl, (Hkey r' cc Hcc). by exists cc. }
  unfold handleCreateOrUpdate. rewrite (bindM_Ret _ _ s (config s) s) by done.
  rewrite (bindM_Ret _ _ _ _ _ Hf). rewrite (bindM_Ret _ _ _ _ _ Hm).
  rewrite (bindM_Ret _ _ s1 tt s1) by done.
  assert (apply_annotation er res None cl s1 = (Ret (None, cl), s1)) as Hap.
  { unfold apply_annotation. rewrite H1. case_decide as Hz; [done|].
    rewrite (bindM_Ret _ _ s1 (json_Marshal_map2 A, None) s1) by done.
    destruct Hann as [->|Hann]; [by rewrite map_size_empty in Hz|]. rewrite Hann. simpl. by rewrite decide_True. }
  rewrite (bindM_Ret _ _ _ _ _ Hap). rewrite (bindM_Ret _ _ s1 None s1) by (rewrite H3; done).
  rewrite (bindM_Ret _ _ s1 None s1) by (unfold report_issues; rewrite H2, range_empty; done).
  destruct (events_total er "Normal" EventReasonCIDRManagementError EventActionEvaluatingRulesToApply
    (elements (SkippedBecauseAlreadyAppliedRules res)) s1) as [ev Hev].
  rewrite (bindM_Ret _ _ _ _ _ Hev). by exists ev.
Qed.

(** ** From a success to a settled cluster *)

Definition not_about_clusters (c : api_call) : Prop :=
  match c with CallPatchCluster _ _ | CallRemoveClusterAnnotation _ _ _ => False | _ => True end.

Lemma clusters_kept {A} (f : A -> api_call) l h :
  (forall x, not_about_clusters (f x)) -> server_clusters (rev (f <$> l) ++ h) = server_clusters h.
Proof.
  intros Hf. revert h. induction l as [|x l IH]; intros h; [done|]. simpl. rewrite <- app_assoc, IH. simpl.
  apply stored_cluster_other. by apply Hf.
Qed.

(** The cluster after its annotation was written. *)
Definition annotated (cl cl' : Cluster) : Prop :=
  cl' = cl \/ exists v, same_cluster (cl_set_Annotations (<[AppliedRulesAnnotationKey := v]> (Annotations (cl_meta cl))) cl) cl'.

Lemma annotated_meta cl cl' :
  annotated cl cl' -> Name (cl_meta cl') = Name (cl_meta cl) /\ Namespace (cl_meta cl') = Namespace (cl_meta cl) /\
  Labels (cl_meta cl') = Labels (cl_meta cl) /\ cl_Purposes cl' = cl_Purposes cl /\
  forall k, k <> AppliedRulesAnnotationKey -> Annotations (cl_meta cl') !! k = Annotations (cl_meta cl) !! k.
Proof.
  intros [->|(v & -> & ->)]; [done|]. simpl. split_and!; [done..|]. intros k Hk. by apply lookup_insert_ne.
Qed.

Lemma mine_calls s s' cl cl' x :
  providerName s' = providerName s -> environment s' = environment s ->
  server_ccs (calls s') = server_ccs (calls s) -> annotated cl cl' -> mine s' cl' x <-> mine s cl x.
Proof.
  unfold mine, ours, belongs_to. intros -> -> -> (-> & -> & _)%annotated_meta. done.
Qed.

Lemma Manage_annotation_empty cl cfg rules found s res act err s' :
  ManageInjections cl cfg rules found s = (Ret (Some res, act, err), s') ->
  AnnotationToApply res = ∅ -> parse_applied_rules cl = inl ∅.
Proof.
  intros (a & A & ri & errs & -> & _ & HA & _ & _ & _ & _ & Hinv)%Manage_inv Hz.
  destruct Hinv as (_ & _ & _ & Hold & _). rewrite Hz in Hold. f_equal. apply map_eq. intros r.
  rewrite lookup_empty. destruct (a !! r) eqn:Hr; [|done].
  assert (is_Some (A !! r)) as [v Hv] by (apply HA; left; by eexists).
  specialize (Hold r). rewrite Hv, lookup_empty in Hold. by discriminate Hold.
Qed.

Lemma consistent_calls cl rules found s s' ann ri :
  consistent cl rules found s' ann ri ->
  providerName s' = providerName s -> environment s' = environment s -> consistent cl rules found s ann ri.
Proof.
  intros [H1 H2 H3 H4 H5] Hp He.
  assert (forall r n, generated_for cl r s' n <-> generated_for cl r s n) as Hg by (intros; unfold generated_for; by rewrite Hp, He).
  split; [done..| |].
  - intros n (r & Hr & Hc)%H4. exists r. by rewrite <- Hg.
  - intros r path [?|(n & Hn & Hr)]%H5; [by left|right]. exists n. by rewrite <- Hg.
Qed.

(** The steps before the ClusterConfigs are sent. *)
Lemma Fetch_mine cl s found s1 :
  Name (cl_meta cl) <> "" -> FetchClusterConfigsForCluster cl s = (Ret (inl found), s1) ->
  s1 = st_set_calls (list_call s cl :: calls s) s /\
  (forall r cc, found !! r = Some cc -> mine s cl cc /\ rule_label cc = r) /\
  (forall x, mine s cl x -> is_Some (found !! rule_label x)).
Proof.
  intros Hname Hf. pose proof Hf as (_ & Hf1 & Hf2)%FetchFor_stored; [|done].
  apply FetchFor_run in Hf as [Hs1 Hkey]. split_and!; [done| |].
  - intros r cc Hcc. split; [|by apply Hkey]. apply Hf1. apply elem_of_range_values. by exists r.
  - intros x (Hx & Hox & Hb). destruct (Hf2 _ _ Hx Hox Hb) as (cc & Hcc & <-).
    apply elem_of_range_values in Hcc as [r' Hcc]. rewrite (Hkey r' cc Hcc). by exists cc.
Qed.

Lemma Manage_only_ipam cl cfg rules found s res act err s' :
  ManageInjections cl cfg rules found s = (Ret (Some res, act, err), s') -> only_ipam s s'.
Proof. intros (? & ? & ? & ? & _ & _ & _ & _ & _ & _ & _ & [Ho _] & _)%Manage_inv. exact Ho. Qed.

Lemma annotation_stored er res cl s cl' s' :
  apply_annotation er res None cl s = (Ret (None, cl'), s') ->
  server_clusters (calls s) !! (Namespace (cl_meta cl), Name (cl_meta cl)) = Some cl ->
  annotated cl cl' /\ server_ccs (calls s') = server_ccs (calls s) /\
  server_clusters (calls s') !! (Namespace (cl_meta cl), Name (cl_meta cl)) = Some cl' /\
  (AnnotationToApply res = ∅ /\ cl' = cl \/
   Annotations (cl_meta cl') !! AppliedRulesAnnotationKey = Some (json_Marshal_map2 (AnnotationToApply res))) /\
  only_calls s s'.
Proof.
  intros [_ [(-> & -> & Ha)|[Hp ->]]]%apply_annotation_None Hst.
  - split_and!; [by left|done..|destruct Ha; [left|right]; done|reflexivity].
  - apply stored_PatchCluster in Hp as [Hsame Hcl]. simpl. rewrite stored_ccs_PatchCluster, Hcl. simpl.
    rewrite lookup_insert_eq. split_and!; [right; by eexists|done..| |done]. right. destruct Hsame as [-> _]. simpl.
    by rewrite lookup_insert_eq.
Qed.

Section success.
(** Paths converted by controller-utils stay valid strings, and so are acquired CIDRs. *)
Hypothesis ConvertPath_text : forall p q, ConvertPath p = inl q -> text p -> text q.
Hypothesis Acquire_text : forall c n x x' p, ipam_AcquireChildPrefix c n x = (x', inl p) -> text (pCidr p).

(** What the theorem asks of its inputs: different rules have different IDs, a rule has at
    most one ClusterConfig, no generated name is the webhook's placeholder, and the strings
    of rules and ClusterConfigs are valid UTF-8. *)
Record orderly (s : gostate) (cl : Cluster) (rules : list CIDRInjection) : Prop := {
  o_ids : NoDup (rule_ID <$> rules);
  o_one : one_per_rule s (server_ccs (calls s));
  o_named r : named_rule cl r;
  o_rules : Forall text_rule rules;
  o_ccs x : mine s cl x -> text_cc x }.

Lemma handle_settles er rr cl rules s rr' s' :
  handleCreateOrUpdate er rr cl rules s = (Ret rr', s') -> rr_Error rr' = None ->
  server_clusters (calls s) !! (Namespace (cl_meta cl), Name (cl_meta cl)) = Some cl -> Name (cl_meta cl) <> "" ->
  orderly s cl rules ->
  exists cl', annotated cl cl' /\ settled s' cl' rules /\
    server_clusters (calls s') !! (Namespace (cl_meta cl), Name (cl_meta cl)) = Some cl' /\
    named s' /\ config s' = config s.
Proof.
  intros Hrun Herr Hst Hname [Hnd Hone Hnr Htr Htc].
  apply handle_success in Hrun as (found & s1 & res & act & s2 & cl' & s3 & s4 & ev & Hf & Hm & Ha & Happ & Hiss & -> & _); [|done].
  pose proof (Fetch_named _ _ _ _ Hf) as Hn. apply Fetch_mine in Hf as (Hs1 & Hfound & Hall); [|done].
  pose proof (Manage_consistent _ _ _ _ _ _ _ _ Hm Hnr Hnd Hiss) as Hcons.
  apply (consistent_calls _ _ _ s) in Hcons; [|by rewrite Hs1..].
  pose proof (Manage_only_ipam _ _ _ _ _ _ _ _ _ Hm) as Ho2.
  assert (server_clusters (calls s2) = server_clusters (calls s) /\ server_ccs (calls s2) = server_ccs (calls s)) as [Hcl2 Hcc2].
  { rewrite Ho2, Hs1. split; [by apply stored_cluster_other|by apply stored_read]. }
  rewrite <- Hcl2 in Hst. apply annotation_stored in Ha as (Hann & Hccs & Hcls & Hwr & Ho3); [|done].
  assert (only_calls s3 s4) as Ho4 by (eapply preserves_run; [apply Apply_only_calls|exact Happ]).
  assert (providerName s4 = providerName s /\ environment s4 = environment s /\ config s4 = config s) as (Hp4 & He4 & Hg4).
  { rewrite Ho4, Ho3, Ho2, Hs1. done. }
  assert (valid_annotation (AnnotationToApply res)) as Hv.
  { eapply (Manage_valid ConvertPath_text Acquire_text _ _ _ _ _ _ _ _ _ Hm Htr).
    intros r cc [Hmine <-]%Hfound. apply Htc in Hmine. split; [apply Hmine|done]. }
  rewrite Hcc2 in Hccs. exists cl'. split_and!; [done| | |unfold named; simpl; by rewrite Hp4, He4|done].
  - exists (AnnotationToApply res). split_and!; [|destruct Hwr as [[? _]|?]; auto|by eapply c_rules| |].
    + destruct Hwr as [[Hz ->]|Hw]; [|by apply parse_marshalled]. rewrite Hz. by eapply Manage_annotation_empty.
    + intros x Hx. eapply (settled_each cl rules found s s3 s4); try done.
      by apply (mine_calls s4 (st_set_events ev s4) cl cl' x).
    + intros r path Hpath. eapply (settled_all cl rules found s s3 s4) in Hpath as (x & Hx & Hr); try done.
      exists x. split; [|done]. by apply (mine_calls s4 (st_set_events ev s4) cl cl' x).
  - destruct (apply_stored _ _ _ Happ) as (Hcalls & _ & _). simpl. rewrite Hcalls.
    rewrite !clusters_kept by done. exact Hcls.
Qed.

(** ** Reconcile, and Reconcile again *)

(** A selector looks at a cluster's name, labels and purposes, not at its annotations. *)
Hypothesis Selector_same : forall sel a x,
  Name (cl_meta x) = Name (cl_meta a) -> Namespace (cl_meta x) = Namespace (cl_meta a) ->
  Labels (cl_meta x) = Labels (cl_meta a) -> cl_Purposes x = cl_Purposes a ->
  Selector_Matches sel x = Selector_Matches sel a.
Hypothesis Operation_key : OperationAnnotation <> AppliedRulesAnnotationKey.

Definition applicable (cfg : IPAMConfig) (cl : Cluster) : list CIDRInjection :=
  filter (fun rule => rule_Matches rule cl = true) (InjectionRules (Spec cfg)).

Lemma applicable_relevant cfg cl : relevant cfg cl = true -> length (applicable cfg cl) <> 0%nat.
Proof.
  unfold relevant. intros (rule & Hin & Hr)%existsb_exists Hz%nil_length_inv.
  apply (not_elem_of_nil rule). rewrite <- Hz. apply list_elem_of_filter. split; [done|]. by apply list_elem_of_In.
Qed.

(** A reconciliation of a cluster that rules select and no operation annotation concerns. *)
Lemma Reconcile_unfold er ns name s cl cfg :
  api_GetCluster (calls s) ns name = inl cl -> Annotations (cl_meta cl) !! OperationAnnotation = None ->
  config s = Some cfg -> relevant cfg cl = true ->
  let s0 := st_set_calls (CallGetCluster ns name :: calls s) s in
  reconcile er ns name s =
    handleCreateOrUpdate er {| rr_Cluster := Some cl; rr_EventAction := ""; rr_Error := None |} cl (applicable cfg cl) s0.
Proof.
  intros Hget Hann Hcfg Hrel s0. unfold reconcile, client_GetCluster, request. rewrite (bindM_Ret _ _ s (inl cl) s0) by by rewrite Hget.
  rewrite Hann. unfold reconcile_cluster. rewrite (bindM_Ret _ _ s0 (Some cfg) s0) by by rewrite <- Hcfg.
  fold (applicable cfg cl). by rewrite decide_False by by apply applicable_relevant.
Qed.

Lemma Reconcile_success er ns name s rr s0 s' :
  reconcile er ns name s = (Ret rr, s0) -> Reconcile er ns name s = (Ret None, s') ->
  rr_Error rr = None /\ exists ev, s' = st_set_events ev s0.
Proof.
  unfold Reconcile. intros Hr. rewrite (bindM_Ret _ _ _ _ _ Hr). intros (u & s1 & Hev & Hrun)%bindM_Ret_inv.
  unfold retM in Hrun. injection Hrun as He <-. split; [done|]. rewrite He in Hev.
  destruct (rr_Cluster rr); [by apply Eventf_run in Hev|]. injection Hev as _ <-. exists (events s0). by destruct s0.
Qed.

Lemma settled_calls s s' cl rules :
  providerName s' = providerName s -> environment s' = environment s -> server_ccs (calls s') = server_ccs (calls s) ->
  settled s cl rules -> settled s' cl rules.
Proof.
  intros Hp He Hm (A & H1 & H2 & H3 & H4 & H5).
  assert (forall x, mine s' cl x <-> mine s cl x) as Hx by (intros x; apply mine_calls; [done..|by left]).
  exists A. split_and!; [done..| |].
  - intros x Hx'%Hx. by apply H4.
  - intros r path (x & Hx' & Hr)%H5. exists x. by rewrite Hx.
Qed.

(** C4: A reconciliation that succeeds leaves nothing to do: after a Reconcile without error of
    a cluster that some rule selects and that has no operation annotation, the cluster on the
    server has an annotation with an entry for each rule that selects it, every ClusterConfig of
    the cluster has patches for exactly the paths that the annotation has for its rule, every
    rule with such paths has a ClusterConfig, and none lacks its finalizer; and reconciling the
    cluster again returns no error, only sends the two requests that read, and changes nothing
    in the process (but for recorded events). Assumed: nobody else writes the objects, rule IDs
    are distinct, and a rule has at most one ClusterConfig. *)
Theorem Reconcile_settles er ns name s s' cl cfg :
  Reconcile er ns name s = (Ret None, s') ->
  api_GetCluster (calls s) ns name = inl cl -> Annotations (cl_meta cl) !! OperationAnnotation = None ->
  config s = Some cfg -> relevant cfg cl = true ->
  orderly s cl (applicable cfg cl) ->
  exists cl', server_clusters (calls s') !! (ns, name) = Some cl' /\ settled s' cl' (applicable cfg cl) /\
    forall er' again, api_GetCluster (calls s') ns name = inl again ->
      listed (st_set_calls (CallGetCluster ns name :: calls s') s') again ->
      exists ev, Reconcile er' ns name s' =
        (Ret None, st_set_events ev (st_set_calls (list_call s' again :: CallGetCluster ns name :: calls s') s')).
Proof.
  intros Hrun Hget Hop Hcfg Hrel Hord. set (s0 := st_set_calls (CallGetCluster ns name :: calls s) s).
  pose proof (Reconcile_unfold er _ _ _ _ _ Hget Hop Hcfg Hrel) as Hrec.
  apply stored_Get in Hget as (Hst & Hns & Hnm & Hne). subst ns name.
  assert (exists rr s1, reconcile er (Namespace (cl_meta cl)) (Name (cl_meta cl)) s = (Ret rr, s1)) as (rr & s1 & Hr).
  { unfold Reconcile in Hrun. apply bindM_Ret_inv in Hrun as (rr & s1 & Hr & _). by exists rr, s1. }
  pose proof (Reconcile_success _ _ _ _ _ _ _ Hr Hrun) as [Herr [ev ->]]. rewrite Hrec in Hr.
  eapply handle_settles in Hr as (cl' & Hann & Hset & Hst' & Hn & Hg); [|done|simpl; by rewrite stored_cluster_other|done|].
  2:{ destruct Hord as [H1 H2 H3 H4 H5]. split; try done; simpl.
      - by rewrite stored_read.
      - intros x Hx. apply H5. apply (mine_calls s0 s cl cl x); [done..| |by left|done]. simpl. by rewrite stored_read. }
  pose proof (annotated_meta _ _ Hann) as (Hnm' & Hns' & Hl' & Hp' & Ha').
  exists cl'. split_and!; [done|by apply (settled_calls s1)|]. intros er' again Hget Hlist.
  pose proof Hget as (Hst2 & _)%stored_Get. simpl in Hst2. rewrite Hst' in Hst2. injection Hst2 as <-.
  assert (forall rule, rule_Matches rule cl' = rule_Matches rule cl) as Hmatch by (intros; by apply Selector_same).
  assert (applicable cfg cl' = applicable cfg cl) as Happ.
  { unfold applicable. apply list_filter_iff. intros rule. by rewrite Hmatch. }
  set (s2 := st_set_calls _ _) in Hlist.
  destruct (handle_settled er' {| rr_Cluster := Some cl'; rr_EventAction := ""; rr_Error := None |} cl' (applicable cfg cl') s2)
    as [ev' Hhandle]; [by rewrite Hnm'|exact Hn|exact Hlist| |].
  { rewrite Happ. apply (settled_calls s1); [done|done|simpl; by rewrite stored_read|done]. }
  unfold Reconcile. erewrite bindM_Ret.
  2:{ erewrite Reconcile_unfold; [exact Hhandle|exact Hget|by rewrite Ha'|simpl; rewrite Hg; exact Hcfg|].
      rewrite <- Hrel. unfold relevant. clear -Hmatch.
      induction (InjectionRules (Spec cfg)) as [|rule l IH]; [done|]. simpl. by rewrite Hmatch, IH. }
  destruct er'; by eexists.
Qed.
End success.
End settle.
