(* ===== verification/Exclusive.v ===== *)
(** * No CIDR in two places

    What is on the API server, and not only what one call returns: the CIDRs that the stored
    annotations and ClusterConfigs use ([uses]). Every request the program sends adds uses
    that are allowed ([good_request]), so that at each point of the history, whichever
    requests were accepted so far, a CIDR is used by one cluster and one rule only. *)

From stdpp Require Import base list strings gmap.
From S2P Require Import Prelude GoStd GoJson Types Externals Runtime Utils Restore RestoreCheck RestoreIpam RestoreState RestoreDurable ClusterController ClusterGenerate ClusterManage ClusterReconcile AnnotationText Settle.
Open Scope list_scope.
Open Scope Z_scope.

Notation cluster_key cl := (Namespace (cl_meta cl), Name (cl_meta cl)).

(** ** An API server on which nobody else writes *)

(** Nothing changed that rules and the applied-rules annotation depend on. *)
Definition same_rules `{OpenMCP} (a x : Cluster) : Prop :=
  Name (cl_meta x) = Name (cl_meta a) /\ Namespace (cl_meta x) = Namespace (cl_meta a) /\
  Labels (cl_meta x) = Labels (cl_meta a) /\ cl_Purposes x = cl_Purposes a /\
  Annotations (cl_meta x) !! AppliedRulesAnnotationKey = Annotations (cl_meta a) !! AppliedRulesAnnotationKey.

(** After a request, accepted or not, an object is as before in what the program reads of
    it, or it is the one that was sent. *)
Class FaithfulStore `{CS : ClusterStore} : Prop := {
  ccs_after h c k x :
    match c with CallPatchClusterConfig old new => same_content old new | _ => True end ->
    server_ccs (c :: h) !! k = Some x ->
    exists y, same_content y x /\
      (server_ccs h !! k = Some y \/ c = CallCreateClusterConfig y \/ c = CallUpdateClusterConfig y);
  clusters_after h c k x :
    match c with CallRemoveClusterAnnotation _ _ key => key <> AppliedRulesAnnotationKey | _ => True end ->
    server_clusters (c :: h) !! k = Some x ->
    exists y, server_clusters h !! k = Some y /\
      (same_rules y x \/ exists old new, c = CallPatchCluster old new /\ k = cluster_key new /\ same_cluster new x);
  clusters_persist h c k : is_Some (server_clusters h !! k) -> is_Some (server_clusters (c :: h) !! k);
  (** reading a cluster, and the answer to the removal of an annotation *)
  Get_not_found h ns name e : api_GetCluster h ns name = inr e -> is_not_found e = true -> server_clusters h !! (ns, name) = None;
  stored_RemoveAnnotation h cl key x : api_RemoveClusterAnnotation h cl key = inl x ->
    server_clusters (CallRemoveClusterAnnotation (Namespace (cl_meta cl)) (Name (cl_meta cl)) key :: h) !!
      (Namespace (cl_meta cl), Name (cl_meta cl)) = Some x;
  clusters_named h k cl : server_clusters h !! k = Some cl -> k = cluster_key cl /\ Name (cl_meta cl) <> "";
  stored_ListClusters h all cl :
    api_ListClusters h = inl all -> cl ∈ all <-> server_clusters h !! cluster_key cl = Some cl }.
#[global] Arguments FaithfulStore {OM KA AS} CS.

Section exclusive.
Context {OM : OpenMCP} {GI : GoIpam} {KA : K8sApi} {CU : CtrlUtils} {GO : GoMapOrder}.
Context {GL : GoIpamLaws} {CL : CtrlUtilsLaws} {OL : OpenMCPLaws}.
Context {AS : ApiStore} {CS : ClusterStore AS} {FS : FaithfulStore CS}.

(** A selector looks at a cluster's name, labels and purposes, not at its annotations. *)
Hypothesis Selector_same : forall sel a x,
  Name (cl_meta x) = Name (cl_meta a) -> Namespace (cl_meta x) = Namespace (cl_meta a) ->
  Labels (cl_meta x) = Labels (cl_meta a) -> cl_Purposes x = cl_Purposes a ->
  Selector_Matches sel x = Selector_Matches sel a.

(** The process: its names and its config; [managed] is the set of clusters that a rule of
    the config selects. Clusters are not deleted meanwhile, and keep their labels. *)
Context (provider env : string) (cfg : IPAMConfig) (managed : string * string -> Prop).

(** ** Who uses a CIDR *)

(** Namespace and name of a cluster, and a rule. *)
Definition owner : Type := string * string * string.

Definition our_cc (x : ClusterConfig) : Prop := labels_of provider env None "" ⊆ Labels (cc_meta x).
Definition owner_of (x : ClusterConfig) : owner := (Namespace (cc_meta x), target x, rule_label x).

(** An owner uses a CIDR for a path: by a patch of a ClusterConfig or by the annotation. *)
Inductive uses (h : list api_call) : owner -> string -> string -> Prop :=
  | uses_cc x p c :
      server_ccs h !! key x = Some x -> our_cc x -> p ∈ cc_Patches x -> patch_cidr p = Some c ->
      uses h (owner_of x) (p_Path p) c
  | uses_annotation cl a r path c :
      server_clusters h !! cluster_key cl = Some cl -> managed (cluster_key cl) ->
      parse_applied_rules cl = inl a -> ann_map a r !! path = Some c -> uses h (cluster_key cl, r) path c.

(** One CIDR for each path of an owner, and one owner for each CIDR. *)
Definition exclusive (G : owner -> string -> string -> Prop) : Prop :=
  (forall o path c1 c2, G o path c1 -> G o path c2 -> c1 = c2) /\
  (forall o1 o2 p1 p2 c1 c2, G o1 p1 c1 -> G o2 p2 c2 -> canon c1 = canon c2 -> o1 = o2).

(** The IPAM knows what is used. *)
Definition accounted_for (G : owner -> string -> string -> Prop) (s : gostate) : Prop :=
  forall o path c, G o path c -> canon c ∈ st_known s.

(** ** Objects as the program writes them *)

Definition good_cc (x : ClusterConfig) : Prop :=
  text_cc x /\ (forall p, p ∈ cc_Patches x -> p_Op p = ADD /\ is_Some (patch_cidr p)) /\
  GenerateClusterConfigName (Some (bare_cluster (Namespace (cc_meta x)) (target x))) (rule_label x) =
    inl (Name (cc_meta x)).

Record tidy (h : list api_call) : Prop := {
  t_cc k x : server_ccs h !! k = Some x -> our_cc x -> good_cc x;
  t_ours k x : server_ccs h !! k = Some x -> our_cc x -> managed (Namespace (cc_meta x), target x);
  t_managed k : managed k <-> exists cl, server_clusters h !! k = Some cl /\ relevant cfg cl = true }.

(** A request that only adds uses in [G]. *)
Definition good_request (G : owner -> string -> string -> Prop) (c : api_call) : Prop :=
  match c with
  | CallCreateClusterConfig x | CallUpdateClusterConfig x =>
      our_cc x -> good_cc x /\ managed (Namespace (cc_meta x), target x) /\
      forall p c, p ∈ cc_Patches x -> patch_cidr p = Some c -> G (owner_of x) (p_Path p) c
  | CallPatchClusterConfig old new => same_content old new
  | CallPatchCluster old new =>
      managed (cluster_key new) /\ relevant cfg new = true /\
      forall a r path c, parse_applied_rules new = inl a -> ann_map a r !! path = Some c -> G (cluster_key new, r) path c
  | CallRemoveClusterAnnotation _ _ key => key <> AppliedRulesAnnotationKey
  | _ => True
  end.

Lemma same_content_good x y : same_content x y -> good_cc x -> good_cc y.
Proof.
  intros [Ho Hp] ([Hr Ht] & Ha & Hn). unfold good_cc, text_cc.
  rewrite (same_object_rule x y Ho), (same_object_target x y Ho), Hp. destruct Ho as (-> & -> & _). done.
Qed.

Lemma same_content_ours x y : same_content x y -> our_cc y -> our_cc x.
Proof. unfold our_cc. by intros [(_ & _ & ->) _]. Qed.

Lemma same_content_owner x y : same_content x y -> owner_of y = owner_of x.
Proof.
  intros [Ho _]. unfold owner_of. rewrite (same_object_rule x y Ho), (same_object_target x y Ho).
  by destruct Ho as (-> & _).
Qed.

Lemma relevant_same a x :
  Name (cl_meta x) = Name (cl_meta a) -> Namespace (cl_meta x) = Namespace (cl_meta a) ->
  Labels (cl_meta x) = Labels (cl_meta a) -> cl_Purposes x = cl_Purposes a ->
  relevant cfg x = relevant cfg a.
Proof.
  intros Hn Hns Hl Hp. unfold relevant. induction (InjectionRules (Spec cfg)) as [|rule l IH]; [done|].
  simpl. rewrite IH. f_equal. by apply Selector_same.
Qed.

Lemma parse_same a x :
  Annotations (cl_meta x) !! AppliedRulesAnnotationKey = Annotations (cl_meta a) !! AppliedRulesAnnotationKey ->
  parse_applied_rules x = parse_applied_rules a.
Proof. unfold parse_applied_rules. by intros ->. Qed.

(** ** One request *)

Section request.
Context (G : owner -> string -> string -> Prop) (h : list api_call) (c : api_call).
Context (Htidy : tidy h) (Hgood : good_request G c) (Huses : forall o path cidr, uses h o path cidr -> G o path cidr).

Lemma stored_before k x :
  server_ccs (c :: h) !! k = Some x -> our_cc x ->
  good_cc x /\ managed (Namespace (cc_meta x), target x) /\
    forall p cidr, p ∈ cc_Patches x -> patch_cidr p = Some cidr -> G (owner_of x) (p_Path p) cidr.
Proof.
  intros Hx Hour. pose proof Hx as Hk%stored_key. apply ccs_after in Hx as (y & Hs & Hy); [|by destruct c].
  apply (same_content_ours _ _ Hs) in Hour. pose proof (same_content_owner _ _ Hs) as Ho.
  assert (good_cc y /\ managed (Namespace (cc_meta y), target y) /\
    forall p cidr, p ∈ cc_Patches y -> patch_cidr p = Some cidr -> G (owner_of y) (p_Path p) cidr) as (Hg & Hm & Hc).
  { destruct Hy as [Hy|[->| ->]]; [|by apply Hgood..]. split_and!; [by eapply t_cc|by eapply t_ours|].
    intros p cidr Hp Hcid. apply Huses. apply (uses_cc h y); try done.
    pose proof Hy as <-%stored_key. done. }
  split; [by eapply same_content_good|]. rewrite Ho. unfold owner_of in Ho. injection Ho as -> -> _.
  destruct Hs as [_ ->]. done.
Qed.

Lemma cluster_before k x :
  server_clusters (c :: h) !! k = Some x ->
  (managed k -> relevant cfg x = true) /\ (relevant cfg x = true -> managed k) /\
  (managed k -> forall a r path cidr, parse_applied_rules x = inl a -> ann_map a r !! path = Some cidr -> G (k, r) path cidr).
Proof.
  intros Hx. apply clusters_after in Hx as (y & Hy & Hcase); [|by destruct c].
  pose proof Hy as [Hk _]%clusters_named. destruct Hcase as [(Hn & Hns & Hl & Hp & Ha)|(old & new & -> & -> & Hs)].
  - rewrite (relevant_same y x Hn Hns Hl Hp), (parse_same y x Ha). split_and!.
    + intros (cl & Hcl & Hr)%(t_managed _ Htidy). congruence.
    + intros Hr. apply (t_managed _ Htidy). by exists y.
    + intros Hm a r path cidr Hpa Hc. apply Huses. subst k. by apply (uses_annotation h y a).
  - destruct Hgood as (Hm & Hr & Hc). destruct Hs as [Hmeta Hp].
    rewrite (relevant_same new x), (parse_same new x) by by rewrite ?Hmeta. done.
Qed.

Lemma tidy_request : tidy (c :: h).
Proof.
  split.
  - intros k x Hx Ho. by apply (stored_before k x).
  - intros k x Hx Ho. by apply (stored_before k x).
  - intros k. split.
    + intros Hm. pose proof Hm as (cl & Hcl & _)%(t_managed _ Htidy).
      destruct (clusters_persist h c k) as [x Hx]; [by exists cl|]. exists x. split; [done|]. by apply (cluster_before k x).
    + intros (x & Hx & Hr). by apply (cluster_before k x).
Qed.

Lemma uses_request o path cidr : uses (c :: h) o path cidr -> G o path cidr.
Proof.
  intros [x p d Hx Ho Hp Hd|cl a r path' d Hcl Hm Ha Hd].
  - destruct (stored_before _ _ Hx Ho) as (_ & _ & Hc). by apply Hc.
  - destruct (cluster_before _ _ Hcl) as (_ & _ & Hc). by apply (Hc Hm a).
Qed.
End request.

(** Any number of good requests. *)
Lemma good_requests G h l :
  tidy h -> (forall o path c, uses h o path c -> G o path c) -> Forall (good_request G) l ->
  tidy (l ++ h) /\ forall o path c, uses (l ++ h) o path c -> G o path c.
Proof.
  intros Ht Hu. induction 1 as [|c l Hc _ [IHt IHu]]; [done|]. simpl.
  split; [by eapply tidy_request|]. intros o path cidr. by apply uses_request.
Qed.

Lemma exclusive_sub (G G' : owner -> string -> string -> Prop) :
  (forall o path c, G' o path c -> G o path c) -> exclusive G -> exclusive G'.
Proof. intros Hs [Hp Ho]. split; [eauto|]. intros. eapply Ho; eauto. Qed.
End exclusive.
