(* ===== verification/ExclusiveReconcile.v ===== *)
(** * No CIDR in two places: the requests of a reconciliation

    Whatever a Reconcile returns, the requests it has sent are good for the uses before it
    and the entries of the annotation it wants written; and these together are still
    exclusive, because what is new was unknown to the IPAM. *)

From stdpp Require Import base list strings gmap.
From S2P Require Import Prelude GoStd GoJson Types Externals Runtime Utils Restore RestoreCheck RestoreIpam RestoreState RestoreDurable ClusterController ClusterGenerate ClusterManage ClusterReconcile AnnotationText Settle Exclusive Returns.
Open Scope list_scope.
Open Scope Z_scope.

Section reconcile.
Context {OM : OpenMCP} {GI : GoIpam} {KA : K8sApi} {CU : CtrlUtils} {GO : GoMapOrder}.
Context {GL : GoIpamLaws} {CL : CtrlUtilsLaws} {OL : OpenMCPLaws}.
Context {AS : ApiStore} {CS : ClusterStore AS} {FS : FaithfulStore CS}.

(** ** The ClusterConfigs that ManageInjections wants created *)

Definition made (cl : Cluster) (s : gostate) (r : string) (m : gmap string string) (n : ClusterConfig) : Prop :=
  generated_for cl r s n /\ cc_Patches n ≡ₚ injection_patches (range m).

Lemma Generate_made cl r m s n s' :
  GenerateClusterConfigForInjectionList cl r m s = (Ret (inl n), s') -> made cl s r m n.
Proof. intros Hg. split; [by eapply Generate_generated|by eapply Generate_patches]. Qed.

Lemma made_same cl s s' r m n :
  providerName s' = providerName s -> environment s' = environment s -> made cl s' r m n -> made cl s r m n.
Proof. unfold made, generated_for. by intros -> ->. Qed.

(** Each is the check's, or made from a new entry, with or without errors. *)
Definition creates_inv (cl : Cluster) (A : AppliedRulesAnnotation) (ri : RestorationInstruction) (s0 : gostate)
    (done : list CIDRInjection) (acc : InjectionManagementResult * list error) (st : gostate) : Prop :=
  let ann := AnnotationToApply acc.1 in
  only_ipam s0 st /\
  (forall r v, A !! r = None -> ann !! r = Some v -> r ∈ rule_ID <$> done) /\
  (forall n, n ∈ creates_of acc.1 -> n ∈ ClusterConfigsToCreate ri \/
     exists r m, A !! r = None /\ ann !! r = Some (Some m) /\ made cl s0 r m n).

Lemma creates_step cl cfg I A ri s0 done rule acc st acc' st' :
  rule_ID rule ∉ rule_ID <$> done -> creates_inv cl A ri s0 done acc st ->
  evaluate_rule cl cfg A I acc rule st = (Ret acc', st') -> creates_inv cl A ri s0 (done ++ [rule]) acc' st'.
Proof.
  intros Hnew. destruct acc as [res errs], acc' as [res' errs']. intros (Ho & Hd & Hc) Hrun. simpl in *.
  assert (forall r, r ∈ rule_ID <$> done -> r ∈ rule_ID <$> done ++ [rule]) as Hdone by set_solver.
  apply evaluate_rule_inv in Hrun as (more & -> & _ & _ & _ & Hcase).
  destruct Hcase as [(_ & -> & _ & Ha & Hcr & _)|[(_ & [Ho' _] & Ha & Hcr & _)|(HA & [Ho' _] & m & Ha & _ & _ & l & Hcr & Hl)]];
    unfold creates_inv; simpl; rewrite Ha, Hcr; (split; [first [done | by etrans]|]); [by eauto..|].
  assert (forall r v, A !! r = None -> AnnotationToApply res !! r = Some v -> r <> rule_ID rule) as Hne.
  { intros r v Hr Hv ->. by apply Hnew, (Hd _ v). }
  split.
  - intros r v Hr [[<- _]|[_ Hv]]%lookup_insert_Some; [set_solver|by eauto].
  - intros n [Hn|Hn]%elem_of_app.
    + destruct (Hc n Hn) as [?|(r & m' & Hr & Hv & Hm)]; [by left|right]. exists r, m'.
      rewrite lookup_insert_ne by (apply not_eq_sym; by eapply Hne). done.
    + right. exists (rule_ID rule), m. rewrite lookup_insert_eq. split_and!; [done..|].
      apply (made_same _ _ st'); [by rewrite (transitivity Ho Ho')..|]. by eapply Generate_made, Hl.
Qed.

Lemma creates_loop cl cfg I A ri rules s res errs s' :
  foldM (evaluate_rule cl cfg A I) (loop_start ri A, []) rules s = (Ret (res, errs), s') ->
  NoDup (rule_ID <$> rules) -> creates_inv cl A ri s rules (res, errs) s'.
Proof.
  intros Hrun Hnd. apply (foldM_inv _ (creates_inv cl A ri s) _ _ _ _ _ Hrun).
  - split_and!; [reflexivity|simpl; congruence|by left].
  - intros done rule rest acc st acc' st' Hl Hi Hstep. eapply creates_step; [|exact Hi|exact Hstep].
    rewrite Hl, fmap_app, fmap_cons in Hnd. apply NoDup_app in Hnd as (_ & Hnd & _).
    intros Hin. apply (Hnd _ Hin). by left.
Qed.

(** ** The objects of the instruction *)

Definition text_entries (m : gmap string string) : Prop := map_Forall (fun path c => text path /\ text c) m.

Lemma injection_good m p :
  text_entries m -> p ∈ injection_patches (range m) ->
  p_Op p = ADD /\ text (p_Path p) /\ exists c, m !! p_Path p = Some c /\ patch_cidr p = Some c.
Proof.
  intros Hm (path & c & Hc & ->)%injection_patches_elem. destruct (map_Forall_lookup_1 _ _ _ _ Hm Hc) as [Hpath Htc].
  split_and!; [done|done|]. exists c. split; [done|]. unfold patch_cidr.
  pose proof (injection_patch_value path c Htc) as Hv. simpl in *. by simplify_eq.
Qed.

Lemma name_of cl cl' r :
  Name (cl_meta cl') = Name (cl_meta cl) -> GenerateClusterConfigName (Some cl') r = GenerateClusterConfigName (Some cl) r.
Proof. unfold GenerateClusterConfigName. by intros ->. Qed.

Lemma generated_owner cl r s x :
  generated_for cl r s x -> owner_of x = (cluster_key cl, r) /\ our_cc (providerName s) (environment s) x /\
  GenerateClusterConfigName (Some (bare_cluster (Namespace (cc_meta x)) (target x))) (rule_label x) = inl (Name (cc_meta x)).
Proof.
  intros Hg. pose proof Hg as (Ho & Hb & Hr & _)%generated_facts. destruct Hg as (Hns & Hn & _).
  unfold belongs_to in Hb. apply andb_true_iff in Hb as [_ Ht%bool_decide_eq_true].
  unfold owner_of, target. rewrite Hr, Hns, Ht. split_and!; [done|exact Ho|].
  rewrite (name_of cl); [exact Hn|done].
Qed.

(** A ClusterConfig made from an entry carries that entry. *)
Lemma made_good cl s r m n :
  made cl s r m n -> text r -> text_entries m ->
  good_cc n /\ owner_of n = (cluster_key cl, r) /\
  forall p c, p ∈ cc_Patches n -> patch_cidr p = Some c -> m !! p_Path p = Some c.
Proof.
  intros [Hg Hp] Hr Hm. pose proof (generated_owner _ _ _ _ Hg) as (Ho & _ & Hname).
  assert (forall p, p ∈ cc_Patches n -> p_Op p = ADD /\ text (p_Path p) /\ exists c, m !! p_Path p = Some c /\ patch_cidr p = Some c) as Hps.
  { intros p. rewrite Hp. by apply injection_good. }
  unfold good_cc, text_cc. split_and!; [| | |done|done|].
  - unfold owner_of in Ho. injection Ho as _ _ ->. done.
  - apply Forall_forall. intros p Hin. by apply Hps.
  - intros p (? & _ & c & _ & ?)%Hps. split; [done|by eexists].
  - intros p c (_ & _ & c' & Hc & Hv)%Hps. congruence.
Qed.

(** An updated ClusterConfig carries what it carried and what was missing. *)
Lemma updated_good found A cc r u :
  found !! r = Some cc -> good_cc cc -> text_entries (ann_map A r) -> updated_of cc (missing A found r) = Some u ->
  good_cc (SortPatches u) /\ owner_of (SortPatches u) = owner_of cc /\
  forall p, p ∈ cc_Patches (SortPatches u) -> p ∈ cc_Patches cc \/ exists c, ann_map A r !! p_Path p = Some c /\ patch_cidr p = Some c.
Proof.
  intros Hcc ([Hr Htp] & Hps & Hname) Hm (Hp & _ & Hmeta & _)%updated_of_shape.
  assert (Namespace (cc_meta u) = Namespace (cc_meta cc) /\ Name (cc_meta u) = Name (cc_meta cc) /\
    Labels (cc_meta u) = Labels (cc_meta cc)) as (Hns & Hn & Hl) by (rewrite Hmeta; by destruct (wants_finalizer cc)).
  assert (text_entries (missing A found r)) as Hmt.
  { intros path c Hc. rewrite missing_lookup, Hcc in Hc. destruct (has_path _ _); [done|]. by apply (map_Forall_lookup_1 _ _ _ _ Hm Hc). }
  assert (forall p, p ∈ cc_Patches (SortPatches u) -> p ∈ cc_Patches cc \/ p ∈ injection_patches (range (missing A found r))) as Hin.
  { intros p. rewrite SortPatches_elem, Hp, elem_of_app. done. }
  rewrite Forall_forall in Htp. unfold good_cc, text_cc, owner_of, target, rule_label in *. simpl. rewrite Hns, Hn, Hl. split_and!; try done.
  - apply Forall_forall. intros p [?|?%injection_good]%Hin; [by apply Htp|naive_solver|done].
  - intros p [?|?%injection_good]%Hin; [by apply Hps|naive_solver|done].
  - intros p [?|(_ & _ & c & Hc & Hv)%injection_good]%Hin; [by left|right|done].
    exists c. split; [|done]. rewrite missing_lookup, Hcc in Hc. by destruct (has_path _ _).
Qed.

(** Where the objects of the integrity check come from. *)
Lemma check_creates cl A found s ri s1 n :
  CheckClusterConfigsForCluster cl (Some A) (Some found) s = (Ret (inl ri), s1) -> n ∈ ClusterConfigsToCreate ri ->
  exists r, is_Some (A !! r) /\ made cl s r (ann_map A r) n.
Proof.
  intros (_ & new & upd & Hc & _ & _ & Hnew)%check_spec. rewrite Hc. intros [r Hn]%elem_of_range_values.
  specialize (Hnew r). rewrite Hn in Hnew. case_decide as Hd; [|done]. destruct Hd as [Hf Hm].
  destruct Hnew as (cc & Hg%Generate_made & Hcc). case_decide; simplify_eq. exists r.
  assert (missing A found r = ann_map A r) as Heq by (apply map_eq; intros path; by rewrite missing_lookup, Hf).
  rewrite Heq in Hm, Hg. split; [|done]. destruct (A !! r) eqn:HA; [by eexists|]. destruct Hm. unfold ann_map. by rewrite HA.
Qed.

Lemma check_updates cl A found s ri s1 u :
  CheckClusterConfigsForCluster cl (Some A) (Some found) s = (Ret (inl ri), s1) -> u ∈ ClusterConfigsToUpdate ri ->
  exists r cc v, u = SortPatches v /\ found !! r = Some cc /\ updated_of cc (missing A found r) = Some v.
Proof.
  intros (_ & new & upd & _ & Hup & Hupd & _)%check_spec. rewrite Hup.
  intros (v & -> & (r & Hv)%elem_of_range_values)%list_elem_of_fmap.
  specialize (Hupd r). rewrite Hv in Hupd. symmetry in Hupd. apply bind_Some in Hupd as (cc & Hcc & Hof).
  by exists r, cc, v.
Qed.

(** They are good requests where [G] allows the entries of the annotation. *)
Section allowed.
Context (p e : string) (cfg : IPAMConfig) (managed : string * string -> Prop) (G : owner -> string -> string -> Prop).
Context (k : string * string) (r : string) (Hman : managed k).

Lemma owner_managed x : owner_of x = (k, r) -> managed (Namespace (cc_meta x), target x).
Proof. unfold owner_of. intros Ho. by injection Ho as -> _. Qed.

Lemma made_request cl s m n :
  made cl s r m n -> cluster_key cl = k -> text r -> text_entries m ->
  (forall path c, m !! path = Some c -> G (k, r) path c) -> good_request p e cfg managed G (CallCreateClusterConfig n).
Proof.
  intros Hm Hk Hr Ht HG _. destruct (made_good cl s r m n Hm Hr Ht) as (Hg & Ho & Hp). rewrite Hk in Ho.
  split_and!; [done|by apply owner_managed|]. intros q c Hq Hc. rewrite Ho. by apply HG, Hp.
Qed.

Lemma updated_request found A cc v :
  found !! r = Some cc -> updated_of cc (missing A found r) = Some v ->
  good_cc cc -> owner_of cc = (k, r) -> text_entries (ann_map A r) ->
  (forall q c, q ∈ cc_Patches cc -> patch_cidr q = Some c -> G (k, r) (p_Path q) c) ->
  (forall path c, ann_map A r !! path = Some c -> G (k, r) path c) ->
  good_request p e cfg managed G (CallUpdateClusterConfig (SortPatches v)).
Proof.
  intros Hcc Hv Hg Hown Ht HG1 HG2 _. destruct (updated_good found A cc r v Hcc Hg Ht Hv) as (Hg' & Ho & Hp).
  rewrite Hown in Ho. split_and!; [done|by apply owner_managed|]. intros q c Hq Hc. rewrite Ho.
  destruct (Hp q Hq) as [Hin|(c' & Hc' & Hv')]; [by apply HG1|apply HG2; congruence].
Qed.
End allowed.

(** ** A server in order, seen by one reconciliation *)

(** Paths converted by controller-utils stay valid strings, and so are acquired CIDRs. *)
Hypothesis ConvertPath_text : forall p q, ConvertPath p = inl q -> text p -> text q.
Hypothesis Acquire_text : forall c n x x' p, ipam_AcquireChildPrefix c n x = (x', inl p) -> text (pCidr p).

Context (cfg : IPAMConfig) (managed : string * string -> Prop).

Notation here s := (uses (providerName s) (environment s) managed (calls s)).

(** The process has no other config. *)
Definition configured (s : gostate) : Prop := forall c, config s = Some c -> Spec c = Spec cfg.

(** The uses on the server are exclusive and known to the IPAM. *)
Record in_order (s : gostate) : Prop := {
  io_tidy : tidy (providerName s) (environment s) cfg managed (calls s);
  io_exclusive : exclusive (here s);
  io_accounted : accounted_for (here s) s;
  io_config : configured s }.

Lemma tidy_one_per_rule s : tidy (providerName s) (environment s) cfg managed (calls s) -> one_per_rule s (server_ccs (calls s)).
Proof.
  intros Ht k1 k2 x y Hx Hy Hox Hoy Hns Htar Hr.
  destruct (t_cc _ _ _ _ _ Ht _ _ Hx Hox) as (_ & _ & Hnx). destruct (t_cc _ _ _ _ _ Ht _ _ Hy Hoy) as (_ & _ & Hny).
  rewrite Hns, Htar, Hr, Hny in Hnx. injection Hnx as Hn.
  rewrite <- (stored_key _ _ _ Hx), <- (stored_key _ _ _ Hy). unfold objectKey. by rewrite Hns, Hn.
Qed.

(** The server's part of it. *)
Definition sound (p e : string) (h : list api_call) : Prop :=
  tidy p e cfg managed h /\ exclusive (uses p e managed h).

(** From a state in order the program comes to one, and whenever it is interrupted on the
    way, the requests sent so far leave the server sound. *)
Definition keeps (s s' : gostate) : Prop :=
  in_order s ->
  providerName s' = providerName s /\ environment s' = environment s /\ in_order s' /\
  calls s `suffix_of` calls s' /\
  forall h, calls s `suffix_of` h -> h `suffix_of` calls s' -> sound (providerName s) (environment s) h.

#[export] Instance keeps_preorder : PreOrder keeps.
Proof.
  split.
  - intros s Ho. split_and!; [done..|]. intros h Hh1 Hh2. assert (h = calls s) as ->.
    { apply (suffix_length_eq _ _ Hh2). by apply suffix_length. }
    split; apply Ho.
  - intros s1 s2 s3 H12 H23 Ho. apply H12 in Ho as (Hp & He & (Hp' & He' & Ho' & Hs' & Hb')%H23 & Hs & Hb).
    split_and!; [congruence..|done|by etrans|]. intros h Hh1 Hh3.
    destruct (suffix_weak_total h (calls s2) (calls s3) Hh3 Hs') as [Hh2|Hh2]; [by apply Hb|].
    rewrite <- Hp, <- He. by apply Hb'.
Qed.

Section manage.
Context (cl : Cluster) (rules : list CIDRInjection) (found : gmap string ClusterConfig) (s s' : gostate).
Context (cfg0 : option IPAMConfig) (res : InjectionManagementResult) (act : string) (err : option error).
Context (Horder : in_order s).
Context (Hcl : server_clusters (calls s) !! cluster_key cl = Some cl).
Context (Hman : managed (cluster_key cl)).
Context (Hfound : forall r cc, found !! r = Some cc -> mine s cl cc /\ rule_label cc = r).
Context (Hall : forall x, mine s cl x -> is_Some (found !! rule_label x)).
Context (Hids : NoDup (rule_ID <$> rules)) (Htext : Forall text_rule rules).
Context (Hrun : ManageInjections cl cfg0 rules found s = (Ret (Some res, act, err), s')).

Notation ann := (AnnotationToApply res).

Lemma found_good r cc : found !! r = Some cc -> good_cc cc /\ owner_of cc = (cluster_key cl, r) /\ our_cc (providerName s) (environment s) cc.
Proof.
  intros [(Hst & Ho & Hb) Hr]%Hfound. split; [by eapply t_cc; [apply Horder|..]|]. split; [|exact Ho].
  unfold belongs_to in Hb. apply andb_true_iff in Hb as [Hns%bool_decide_eq_true Ht%bool_decide_eq_true].
  unfold owner_of, target. by rewrite Hns, Ht, Hr.
Qed.

Lemma found_uses r cc p c :
  found !! r = Some cc -> p ∈ cc_Patches cc -> patch_cidr p = Some c -> here s (cluster_key cl, r) (p_Path p) c.
Proof.
  intros Hcc Hp Hc. pose proof (found_good r cc Hcc) as (_ & Hown & Ho). rewrite <- Hown.
  apply Hfound in Hcc as [(Hst & _ & _) _]. by eapply uses_cc.
Qed.

(** What the cluster's rules use is what was recorded for them. *)
Lemma recorded_uses A a s1 errs :
  parse_applied_rules cl = inl a -> foldM record_cc (a, []) (range found) s = (Ret (A, errs), s1) -> errs = [] ->
  forall r path c, here s (cluster_key cl, r) path c <-> ann_map A r !! path = Some c.
Proof.
  intros Ha Hrec He.
  assert (forall r path c, ann_map A r !! path = Some c -> here s (cluster_key cl, r) path c) as Hfrom.
  { intros r path c [Hc|(cc & p & Hcc & Hp & <- & Hv)]%(record_loop_from _ _ _ _ _ _ _ Hrec).
    - by apply (uses_annotation _ _ _ _ cl a).
    - by eapply found_uses. }
  apply record_loop in Hrec as (_ & Hk & _ & Hps). destruct (Hps He) as [_ Hpaths]. intros r path c. split; [|apply Hfrom].
  intros Hu. assert (is_Some (ann_map A r !! path)) as [c' Hc'].
  { remember (cluster_key cl, r) as o eqn:Hown. revert Hown.
    destruct Hu as [x p d Hx Ho Hp Hd|cl' a' r' path' d Hcl' _ Ha' Hd].
    - unfold owner_of. intros [= H1 H2 <-]. assert (mine s cl x) as Hmine.
      { split_and!; [done|done|]. unfold belongs_to. fold (target x). by rewrite H1, H2, !bool_decide_true. }
      eapply Hpaths; [|exact Hp]. apply (mine_found cl found s Hfound Hall (tidy_one_per_rule s (io_tidy s Horder)) x Hmine).
    - intros [= Hns Hn ->]. rewrite Hns, Hn, Hcl in Hcl'. injection Hcl' as <-. exists d. apply Hk. congruence. }
  destruct (io_exclusive s Horder) as [Hone _]. by rewrite (Hone _ _ _ _ Hu (Hfrom _ _ _ Hc')).
Qed.

(** What the server may use after the reconciliation. *)
Definition allowed (o : owner) (path c : string) : Prop :=
  here s o path c \/ (o.1 = cluster_key cl /\ ann_map ann o.2 !! path = Some c).

Lemma ann_valid : valid_annotation ann.
Proof.
  eapply (Manage_valid ConvertPath_text Acquire_text _ _ _ _ _ _ _ _ _ Hrun Htext).
  intros r cc Hcc. pose proof (found_good r cc Hcc) as ([Ht _] & _). apply Hfound in Hcc as [_ <-].
  split; [apply Ht|done].
Qed.

Lemma ann_text r : text_entries (ann_map ann r) /\ (is_Some (ann !! r) -> text r).
Proof.
  pose proof ann_valid as Hv. unfold ann_map. destruct (ann !! r) as [v|] eqn:Hr.
  - apply (map_Forall_lookup_1 _ _ _ _ Hv) in Hr as [Hr Hm]. split; [|done]. simpl.
    destruct v; [exact Hm|apply map_Forall_empty].
  - split; [apply map_Forall_empty|by intros []].
Qed.

(** The entries of the new annotation, by where they come from. *)
Record entries (A : AppliedRulesAnnotation) (ri : RestorationInstruction) : Prop := {
  en_recorded r path c : here s (cluster_key cl, r) path c <-> ann_map A r !! path = Some c;
  en_check : CheckClusterConfigsForCluster cl (Some A) (Some found) s = (Ret (inl ri), s);
  en_old r : is_Some (A !! r) -> ann !! r = A !! r;
  en_new r path c : A !! r = None -> ann_map ann r !! path = Some c -> c ∈ st_known s' /\ c ∉ st_known s /\ canon c = c;
  en_disjoint : disjoint_rules A ann;
  en_known : st_known s ⊆ st_known s';
  en_updates : ClusterConfigsToUpdate (im_Instruction res) = ClusterConfigsToUpdate ri;
  en_creates n : n ∈ creates_of res -> n ∈ ClusterConfigsToCreate ri \/
     exists r m, A !! r = None /\ ann !! r = Some (Some m) /\ made cl s r m n }.

Lemma Manage_entries : exists A ri, entries A ri.
Proof.
  pose proof (preserves_run _ _ _ _ _ (ManageInjections_plainly Acquire_text _ _ _ _) Hrun) as Hplain.
  pose proof Hrun as (a & A & ri & errs & Ha & Hrec & Hc & _ & Hloop)%Manage_run.
  pose proof (creates_loop _ _ _ _ _ _ _ _ _ _ Hloop Hids) as (_ & _ & Hcr).
  apply rules_loop_inv in Hloop as ([_ Hg] & _ & Hup & Hold & Hnew & Hdis & _).
  exists A, ri. split; try done; [by eapply recorded_uses|].
  intros r path c HA Hpath. unfold ann_map in Hpath. destruct (ann !! r) as [v|] eqn:Hv.
  - destruct (Hnew r v HA Hv) as (m & -> & Hm & _). destruct (Hm path c Hpath) as [Hk Hn].
    split_and!; [done..|]. by destruct (Hplain c Hk) as [?|[_ ?]].
  - simpl in Hpath. by rewrite lookup_empty in Hpath.
Qed.

Lemma recorded_kept A ri r path c : entries A ri -> ann_map A r !! path = Some c -> ann_map ann r !! path = Some c.
Proof.
  intros He Hc. unfold ann_map in *. rewrite (en_old A ri He); [done|].
  destruct (A !! r); [by eexists|]. simpl in Hc. by rewrite lookup_empty in Hc.
Qed.

Lemma entry_cases A ri r path c :
  entries A ri -> ann_map ann r !! path = Some c ->
  here s (cluster_key cl, r) path c \/ (A !! r = None /\ c ∈ st_known s' /\ c ∉ st_known s /\ canon c = c).
Proof.
  intros He Hc. destruct (A !! r) as [v|] eqn:HA; [left|right; split; [done|by eapply en_new]].
  apply (en_recorded A ri He). unfold ann_map in *. rewrite (en_old A ri He) in Hc; [done|by exists v].
Qed.

Lemma allowed_exclusive : exclusive allowed.
Proof.
  destruct Manage_entries as (A & ri & He). destruct (io_exclusive s Horder) as [Hone Howner]. pose proof (io_accounted s Horder) as Hacc.
  assert (forall o path c, o.1 = cluster_key cl -> here s o path c -> ann_map ann o.2 !! path = Some c) as Hkeep.
  { intros [k r] path c Hk Hu. simpl in *. subst k. eapply recorded_kept; [exact He|]. by apply (en_recorded A ri He). }
  split.
  - intros o path c1 c2 [H1|[Ho H1]] [H2|[Ho' H2]]; [by eapply Hone| | |congruence].
    + apply Hkeep in H1; [|done]. congruence.
    + apply Hkeep in H2; [|done]. congruence.
  - intros o1 o2 p1 p2 c1 c2 H1 H2 Hc.
    assert (forall o p c, allowed o p c -> here s o p c \/
      exists r, o = (cluster_key cl, r) /\ ann_map ann r !! p = Some c /\ A !! r = None /\ c ∉ st_known s /\ canon c = c) as Hcase.
    { intros [k r] p c [Hu|[Hk Hu]]; [by left|]. simpl in *. subst k.
      destruct (entry_cases A ri r p c He Hu) as [?|(? & ? & ? & ?)]; [by left|right]. by exists r. }
    apply Hcase in H1 as [H1|(r1 & -> & H1 & HA1 & Hn1 & Hc1)]; apply Hcase in H2 as [H2|(r2 & -> & H2 & HA2 & Hn2 & Hc2)].
    + by eapply Howner.
    + apply Hacc in H1. by rewrite Hc, Hc2 in H1.
    + apply Hacc in H2. by rewrite <- Hc, Hc1 in H2.
    + destruct (decide (r1 = r2)) as [->|Hne]; [done|]. destruct (en_disjoint A ri He r1 r2 p1 p2 c1); [done..|].
      congruence.
Qed.

Lemma allowed_accounted : accounted_for allowed s'.
Proof.
  destruct Manage_entries as (A & ri & He). pose proof (io_accounted s Horder) as Hacc.
  intros [k r] path c [Hu|[Hk Hu]]; [by apply (en_known A ri He), (Hacc _ _ _ Hu)|]. simpl in *.
  destruct (entry_cases A ri r path c He Hu) as [H|(_ & H & _ & ->)]; [|done]. by apply (en_known A ri He), (Hacc _ _ _ H).
Qed.

Lemma allowed_entry r path c : ann_map ann r !! path = Some c -> allowed (cluster_key cl, r) path c.
Proof. by right. Qed.

Lemma creates_good n : n ∈ creates_of res -> good_request (providerName s) (environment s) cfg managed allowed (CallCreateClusterConfig n).
Proof.
  destruct Manage_entries as (A & ri & He). intros Hn.
  assert (exists r, is_Some (ann !! r) /\ made cl s r (ann_map ann r) n) as (r & Hr & Hm).
  { apply (en_creates A ri He) in Hn as [Hn|(r & m & HA & Hr & Hm)].
    - apply (check_creates _ _ _ _ _ _ _ (en_check A ri He)) in Hn as (r & HA & Hm). exists r.
      unfold ann_map in *. by rewrite (en_old A ri He).
    - exists r. unfold ann_map. rewrite Hr. split; [by eexists|done]. }
  destruct (ann_text r) as [Ht Htr]. eapply made_request; [exact Hman|exact Hm|done|by apply Htr|exact Ht|].
  apply allowed_entry.
Qed.

Lemma updates_good u : u ∈ ClusterConfigsToUpdate (im_Instruction res) ->
  good_request (providerName s) (environment s) cfg managed allowed (CallUpdateClusterConfig u).
Proof.
  destruct Manage_entries as (A & ri & He). rewrite (en_updates A ri He). intros Hu.
  apply (check_updates _ _ _ _ _ _ _ (en_check A ri He)) in Hu as (r & cc & v & -> & Hcc & Hof).
  pose proof (found_good r cc Hcc) as (Hg & Ho & _).
  assert (forall path c, ann_map A r !! path = Some c -> ann_map ann r !! path = Some c) as Hkeep by (intros; by eapply recorded_kept).
  eapply updated_request; [exact Hman|exact Hcc|exact Hof|exact Hg|exact Ho|..].
  - intros path c Hc. destruct (ann_text r) as [Ht _]. apply (map_Forall_lookup_1 _ _ _ _ Ht). by apply Hkeep.
  - intros q c Hq Hc. left. by eapply found_uses.
  - intros path c Hc. by apply allowed_entry, Hkeep.
Qed.
End manage.

(** ** The requests of handleCreateOrUpdate, whatever it returns *)

Lemma Fetch_listed cl s r s' :
  FetchClusterConfigsForCluster cl s = (Ret r, s') ->
  s' = st_set_calls (list_call s cl :: calls s) s /\
  match r with
  | inl found => forall rule cc, found !! rule = Some cc ->
      server_ccs (calls s) !! key cc = Some cc /\ ours s cc /\
      (Namespace (cc_meta cc), target cc) = cluster_key cl
  | inr _ => True
  end.
Proof.
  unfold FetchClusterConfigsForCluster, client_ListClusterConfigs, request. intros Hrun.
  apply bindM_Ret_inv in Hrun as (labels & s2 & [-> ->]%ClusterConfigLabels_run & Hrun).
  apply bindM_Ret_inv in Hrun as (res & s3 & [= <- <-] & Hrun).
  destruct (api_ListClusterConfigs _ _ _) as [items|e] eqn:Hl; injection Hrun as <- <-; (split; [done|]); [|done].
  intros rule cc Hcc. apply ProjectSliceToMap_sound, list_elem_of_fmap in Hcc as (y & [= _ ->] & Hy).
  pose proof (proj1 (stored_List _ _ _ _ y Hl) Hy) as (Hst & Hsub & Hns). split; [done|].
  split; [unfold ours; etrans; [by apply (labels_of_mono _ _ cl "")|done]|]. rewrite Hns. f_equal. unfold target.
  rewrite labels_of_cluster, map_subseteq_spec in Hsub.
  by rewrite (Hsub ClusterTargetLabel (Name (cl_meta cl))) by apply lookup_insert_eq.
Qed.

Lemma report_issues_run er issues errs s r s' :
  report_issues er issues errs s = (Ret r, s') -> exists ev, s' = st_set_events ev s.
Proof.
  unfold report_issues. intros Hrun. apply (foldM_inv _ (fun _ _ st => exists ev, st = st_set_events ev s)) in Hrun; [done|..].
  - exists (events s). by destruct s.
  - intros done x rest b st b' st' _ [ev ->] (u & st1 & [ev' ->]%Eventf_run & Hret)%bindM_Ret_inv.
    unfold retM in Hret. simplify_eq. by exists ev'.
Qed.

Definition annotation_patch (cl : Cluster) (ann : AppliedRulesAnnotation) : api_call :=
  CallPatchCluster cl (cl_set_Annotations (<[AppliedRulesAnnotationKey := json_Marshal_map2 ann]> (Annotations (cl_meta cl))) cl).

Lemma apply_annotation_run er ir errs cl s r s' :
  apply_annotation er ir errs cl s = (Ret r, s') ->
  exists ev l, s' = st_set_events ev (st_set_calls (l ++ calls s) s) /\
    (l = [] \/ l = [annotation_patch cl (AnnotationToApply ir)]).
Proof.
  assert (s = st_set_events (events s) (st_set_calls (calls s) s)) as Hsame by by destruct s.
  unfold apply_annotation. case_decide.
  { intros [= _ <-]. exists (events s), []. split; [done|by left]. }
  intros (? & ? & [= <- <-] & Hrun)%bindM_Ret_inv. cbv zeta in Hrun. case_decide.
  { injection Hrun as _ <-. exists (events s), []. split; [done|by left]. }
  apply bindM_Ret_inv in Hrun as (a & s1 & [= <- <-] & Hrun). fold (annotation_patch cl (AnnotationToApply ir)) in Hrun.
  set (s2 := st_set_calls _ s) in Hrun. assert (exists ev, s' = st_set_events ev s2) as [ev ->].
  { destruct (api_PatchCluster _ _ _).
    - injection Hrun as _ <-. by exists (events s).
    - apply bindM_Ret_inv in Hrun as (u & s3 & [ev ->]%Eventf_run & Hrun). injection Hrun as _ <-. by exists ev. }
  exists ev, [annotation_patch cl (AnnotationToApply ir)]. split; [done|by right].
Qed.

(** The requests that ManageInjections' result stands for. *)
Definition requested (cl : Cluster) (res : InjectionManagementResult) (c : api_call) : Prop :=
  c = annotation_patch cl (AnnotationToApply res) \/
  (exists n, n ∈ creates_of res /\ c = CallCreateClusterConfig n) \/
  (exists u, u ∈ ClusterConfigsToUpdate (im_Instruction res) /\ c = CallUpdateClusterConfig u).

Lemma handle_trace er rr cl rules s rr' s' :
  handleCreateOrUpdate er rr cl rules s = (Ret rr', s') ->
  (exists ev, s' = st_set_events ev (st_set_calls (list_call s cl :: calls s) s)) \/
  exists found res act err s2 ev l,
    FetchClusterConfigsForCluster cl s = (Ret (inl found), st_set_calls (list_call s cl :: calls s) s) /\
    ManageInjections cl (config s) rules found (st_set_calls (list_call s cl :: calls s) s) = (Ret (Some res, act, err), s2) /\
    s' = st_set_events ev (st_set_calls (l ++ calls s2) s2) /\ Forall (requested cl res) l.
Proof.
  unfold handleCreateOrUpdate. intros Hrun. apply bindM_Ret_inv in Hrun as (? & ? & [= <- <-] & Hrun).
  apply bindM_Ret_inv in Hrun as ([found|e] & s1 & Hf & Hrun).
  2:{ left. injection Hrun as _ <-. apply Fetch_listed in Hf as [-> _]. by exists (events s). }
  right. pose proof Hf as [-> _]%FetchFor_run. fold (list_call s cl) in *.
  apply bindM_Ret_inv in Hrun as ([[ir act] err] & s2 & Hm & Hrun).
  apply bindM_Ret_inv in Hrun as ([] & s2' & Hw & Hrun).
  assert (exists ev, s2' = st_set_events ev s2) as [ev ->].
  { case_decide; [by apply Eventf_run in Hw|]. injection Hw as <-. exists (events s2). by destruct s2. }
  destruct ir as [res|]; [|done]. apply bindM_Ret_inv in Hrun as ([errs cl'] & s3 & Ha & Hrun).
  apply apply_annotation_run in Ha as (ev' & l & -> & Hl).
  apply bindM_Ret_inv in Hrun as (aerr & s4 & Happ & Hrun). cbv zeta in Hrun.
  destruct (Apply_sends_everything (im_Instruction res) (st_set_events ev' (st_set_calls (l ++ calls (st_set_events ev s2)) (st_set_events ev s2))))
    as (aerr' & Happ' & _).
  rewrite Happ in Happ'. injection Happ' as _ ->.
  apply bindM_Ret_inv in Hrun as (errs' & s5 & [ev1 ->]%report_issues_run & Hrun).
  apply bindM_Ret_inv in Hrun as ([] & s6 & [ev2 ->]%events_run & Hrun). injection Hrun as _ <-. simpl.
  eexists found, res, act, err, s2, ev2, _. split_and!; [done|done|by rewrite app_assoc|].
  apply Forall_app. split.
  - apply Forall_rev, Forall_app. split; apply Forall_fmap, Forall_forall; intros x Hx; right; [left|right]; by exists x.
  - destruct Hl as [->| ->]; [done|]. by repeat constructor.
Qed.

(** ** One Reconcile *)

Hypothesis Selector_same : forall sel a x,
  Name (cl_meta x) = Name (cl_meta a) -> Namespace (cl_meta x) = Namespace (cl_meta a) ->
  Labels (cl_meta x) = Labels (cl_meta a) -> cl_Purposes x = cl_Purposes a ->
  Selector_Matches sel x = Selector_Matches sel a.

(** The rules of the config, as the validation webhook admits them. *)
Hypothesis cfg_ids : NoDup (rule_ID <$> InjectionRules (Spec cfg)).
Hypothesis cfg_text : Forall text_rule (InjectionRules (Spec cfg)).

(** From [s] to [s'] good requests were sent: the uses stay within an exclusive set that the
    IPAM of [s'] knows. *)
Definition sent (s s' : gostate) : Prop :=
  providerName s' = providerName s /\ environment s' = environment s /\ config s' = config s /\
  exists G l, calls s' = l ++ calls s /\ Forall (good_request (providerName s) (environment s) cfg managed G) l /\
    (forall o path c, here s o path c -> G o path c) /\ exclusive G /\ accounted_for G s'.

(** At each point of the history since [s] the uses are exclusive. *)
Lemma sent_between s s' l1 h :
  in_order s -> sent s s' -> calls s' = l1 ++ h -> calls s `suffix_of` h ->
  tidy (providerName s) (environment s) cfg managed h /\ exclusive (uses (providerName s) (environment s) managed h) /\
  accounted_for (uses (providerName s) (environment s) managed h) s'.
Proof.
  intros [Ht _ _ _] (_ & _ & _ & G & l & Hc & Hg & Hu & Hex & Hacc) Hs' [l2 Hh].
  assert (l = l1 ++ l2) as ->.
  { rewrite Hc, Hh, app_assoc in Hs'. by apply app_inv_tail in Hs'. }
  apply Forall_app in Hg as [_ Hg]. rewrite Hh.
  destruct (good_requests Selector_same _ _ _ _ _ _ _ Ht Hu Hg) as [Ht' Hu']. split_and!; [done| |].
  - by eapply exclusive_sub.
  - intros o path c Ho. by apply (Hacc o path c), Hu'.
Qed.

Lemma sent_in_order s s' : in_order s -> sent s s' -> in_order s'.
Proof.
  intros Ho Hs. destruct (sent_between s s' [] (calls s') Ho Hs eq_refl) as (H1 & H2 & H3).
  { destruct Hs as (_ & _ & _ & G & l & -> & _). by exists l. }
  destruct Hs as (Hp & He & Hc & _). split; rewrite ?Hp, ?He; [done..|]. unfold configured. rewrite Hc. apply Ho.
Qed.

Lemma sent_keeps s s' : sent s s' -> keeps s s'.
Proof.
  intros Hs Ho. pose proof Hs as (Hp & He & _ & G & l & Hl & _). split_and!; [done..|by eapply sent_in_order| |].
  - exists l. exact Hl.
  - intros h Hh [l1 Hl1]. destruct (sent_between s s' l1 h Ho Hs Hl1 Hh) as (? & ? & _). by split.
Qed.

(** Reading leaves the server as it is. *)
Lemma read_good p e G c : is_read c = true -> good_request p e cfg managed G c.
Proof. by destruct c. Qed.

(** One request that adds nothing. *)
Lemma sent_one s c ev :
  in_order s -> good_request (providerName s) (environment s) cfg managed (here s) c ->
  sent s (st_set_events ev (st_set_calls (c :: calls s) s)).
Proof.
  intros Ho Hc. split_and!; [done..|]. exists (here s), [c]. split_and!; [done|by repeat constructor|done|apply Ho|].
  exact (io_accounted s Ho).
Qed.

Lemma sent_read s c ev : in_order s -> is_read c = true -> sent s (st_set_events ev (st_set_calls (c :: calls s) s)).
Proof. intros Ho Hc. apply sent_one; [done|]. by apply read_good. Qed.

Lemma keeps_request s c :
  (in_order s -> good_request (providerName s) (environment s) cfg managed (here s) c) ->
  keeps s (st_set_calls (c :: calls s) s).
Proof. intros Hc Ho. apply (sent_keeps s); [|done]. apply (sent_one s c (events s) Ho). by apply Hc. Qed.

Lemma keeps_events s ev : keeps s (st_set_events ev s).
Proof.
  intros Ho. destruct (reflexivity (R := keeps) s Ho) as (_ & _ & [Ht Hx Ha Hc] & Hs & Hb). by split_and!.
Qed.

Lemma uses_same p e h h' o path c :
  server_ccs h' = server_ccs h -> server_clusters h' = server_clusters h ->
  uses p e managed h o path c -> uses p e managed h' o path c.
Proof.
  intros Hcc Hcl [x q d Hx Ho Hq Hd|cl a r path' d Hc Hm Ha Hd].
  - apply uses_cc; [by rewrite Hcc|done..].
  - eapply uses_annotation; [by rewrite Hcl|done..].
Qed.

Lemma applicable_sublist cl : applicable cfg cl `sublist_of` InjectionRules (Spec cfg).
Proof. apply sublist_filter. Qed.

Lemma handle_sent er rr cl s rr' s' :
  handleCreateOrUpdate er rr cl (applicable cfg cl) s = (Ret rr', s') ->
  in_order s -> server_clusters (calls s) !! cluster_key cl = Some cl -> relevant cfg cl = true -> sent s s'.
Proof.
  intros Hrun Ho Hcl Hrel. pose proof Hcl as [_ Hname]%clusters_named.
  apply handle_trace in Hrun as [[ev ->]|(found & res & act & err & s2 & ev & l & Hf & Hm & -> & Hl)]; [by apply sent_read|].
  set (s1 := st_set_calls (list_call s cl :: calls s) s) in *.
  assert (in_order s1) as Ho1 by (apply (sent_in_order s); [done|]; by apply (sent_read s _ (events s))).
  assert (server_ccs (calls s1) = server_ccs (calls s) /\ server_clusters (calls s1) = server_clusters (calls s)) as [Hcc Hcls].
  { split; [by apply stored_read|by apply stored_cluster_other]. }
  apply Fetch_mine in Hf as (_ & Hfound & Hall); [|done].
  assert (forall x, mine s1 cl x <-> mine s cl x) as Hmine by (intros; apply mine_calls; [done..|by left]).
  assert (managed (cluster_key cl)) as Hman by (apply (t_managed _ _ _ _ _ (io_tidy s Ho)); by exists cl).
  assert (NoDup (rule_ID <$> applicable cfg cl)) as Hids.
  { eapply sublist_NoDup; [exact cfg_ids|]. apply fmap_sublist, applicable_sublist. }
  assert (Forall text_rule (applicable cfg cl)) as Htext.
  { apply Forall_forall. intros rule Hr. eapply Forall_forall; [exact cfg_text|]. by apply list_elem_of_filter in Hr as [_ ?]. }
  rewrite <- Hcls in Hcl. setoid_rewrite <- Hmine in Hfound. setoid_rewrite <- Hmine in Hall.
  pose proof (Manage_only_ipam _ _ _ _ _ _ _ _ _ Hm) as Ho2.
  split_and!; [by rewrite Ho2..|]. exists (allowed cl s1 res), (l ++ [list_call s cl]). split_and!.
  - simpl. rewrite Ho2. simpl. by rewrite <- app_assoc.
  - apply Forall_app. split; [|repeat constructor]. eapply Forall_impl; [exact Hl|].
    intros c [->|[(n & Hn & ->)|(u & Hu & ->)]].
    + simpl. split_and!; [done|by rewrite (relevant_same Selector_same cfg cl)|]. intros a r path c Ha Hc. right. split; [done|]. simpl.
      rewrite (parse_marshalled _ (AnnotationToApply res)) in Ha; [by simplify_eq| |simpl; apply lookup_insert_eq].
      by eapply ann_valid.
    + by eapply (creates_good cl _ found s1 s2).
    + by eapply (updates_good cl _ found s1 s2).
  - intros o path c Hu. left. by eapply uses_same.
  - by eapply (allowed_exclusive cl _ found s1 s2).
  - intros o path c Hu. by eapply (allowed_accounted cl _ found s1 s2).
Qed.

(** ** A run that does not return *)

(** ManageInjections does not get to the allocation then. *)
Lemma record_cc_same acc rc : preserves eq (record_cc acc rc).
Proof.
  unfold record_cc. assert (forall injected errs ps, preserves eq (record_patches injected errs ps)).
  { intros injected errs ps. revert injected errs. induction ps; intros; simpl; go_struct. }
  go_struct.
Qed.

Lemma Manage_stops cl c rules found s o s' :
  ManageInjections cl (Some c) rules found s = (o, s') -> ready false s ->
  (exists res act err, o = Ret (Some res, act, err) /\ ready false s') \/ s' = s.
Proof.
  unfold ManageInjections. destruct (parse_applied_rules cl) as [a|e]; [|intros [= _ <-]; by right]. intros Hrun Hready.
  pose proof (preserves_foldM eq record_cc (range found) record_cc_same (a, []) s) as Hsame.
  apply bindM_cases in Hrun as [([A errs] & s1 & Hrec & Hrun)|(o1 & Hrec & _)];
    rewrite Hrec in Hsame; simpl in Hsame; subst; [|by right].
  destruct (errors_Join _); [injection Hrun as _ <-; by right|].
  apply bindM_cases in Hrun as [([ri|e] & s2 & ->%Check_same & Hrun)|(o1 & ->%Check_same & _)];
    [|injection Hrun as _ <-; by right|by right].
  left. assert (returns (ready false) (fun _ => True) (foldM (evaluate_rule cl (Some c) A (injected_paths A))
    ({| im_Instruction := ri; AnnotationToApply := A; RulesWithIssues := ∅; SkippedBecauseAlreadyAppliedRules := ∅ |}, errs) rules)) as Hloop.
  { apply (returns_foldM _ _ (fun _ => True)); [done|]. intros acc rule _ _. apply evaluate_rule_returns. }
  destruct (Hloop _ Hready) as ([res errs'] & s2 & Hl & Hready' & _).
  rewrite (bindM_Ret _ _ _ _ _ Hl) in Hrun. injection Hrun as <- <-. by eexists _, _, _.
Qed.

Lemma handle_stops er rr cl rules s o s' c :
  handleCreateOrUpdate er rr cl rules s = (o, s') -> config s = Some c -> ready false s -> is_ret o = false ->
  exists ev, s' = st_set_events ev (st_set_calls (list_call s cl :: calls s) s).
Proof.
  unfold handleCreateOrUpdate, report_issues. intros Hrun Hcfg Hready Ho.
  rewrite (bindM_Ret _ _ s (Some c) s) in Hrun by (unfold GetConfig, bindM, getM, retM; by rewrite Hcfg).
  destruct (FetchFor_ends false cl s Hready) as (r & s1 & Hf & Hready1 & _). rewrite (bindM_Ret _ _ _ _ _ Hf) in Hrun.
  apply Fetch_listed in Hf as [-> _]. destruct r as [found|e]; [|injection Hrun as <- _; done].
  set (s1 := st_set_calls _ s) in *. assert (s1 = st_set_events (events s1) s1) as Hs1 by done.
  apply bindM_cases in Hrun as [([[ir act] err] & s2 & Hm & Hrun)|(o1 & Hm & Ho1 & _)].
  2:{ apply Manage_stops in Hm as [(res & act & err & -> & _)| ->]; [done| |done]. by eexists. }
  assert (ready false s2 /\ (ir = None -> s2 = s1)) as [Hready2 Hnone].
  { destruct (Manage_stops _ _ _ _ _ _ _ Hm Hready1) as [(res & act' & err' & [= -> -> ->] & H)| ->]; [by split|done]. }
  apply bindM_cases in Hrun as [(u & s3 & Hev & Hrun)|(o1 & Hev & Ho1 & _)].
  2:{ case_decide; [|by injection Hev as <- _]. unfold warn, Eventf in Hev. by destruct er; injection Hev as <- _. }
  destruct ir as [res|].
  - exfalso. assert (ready false s3) as Hready3.
    { case_decide; [|by injection Hev as _ <-]. unfold warn in Hev. by apply Eventf_run in Hev as [ev ->]. }
    pose proof (apply_annotation_returns er res). pose proof (Apply_returns false).
    match type of Hrun with ?m _ = _ => assert (returns (ready false) (fun _ => True) m) as Hret by go_returns end.
    destruct (Hret _ Hready3) as (a & s4 & Hr & _). rewrite Hr in Hrun. by injection Hrun as <- _.
  - rewrite Hnone in Hev by done. injection Hrun as _ <-. case_decide; [|injection Hev as _ <-; by eexists].
    unfold warn in Hev. apply Eventf_run in Hev as [ev ->]. by exists ev.
Qed.

(** ** One Reconcile *)

Hypothesis Operation_key : OperationAnnotation <> AppliedRulesAnnotationKey.

(** The ClusterConfigs of a cluster that is gone: there are none. *)
Lemma handleDelete_keeps ns name s o s' :
  handleDelete ns name s = (o, s') -> ready false s -> server_clusters (calls s) !! (ns, name) = None -> keeps s s'.
Proof.
  unfold handleDelete. intros Hrun Hready Hno Ho. destruct (FetchFor_ends false (bare_cluster ns name) s Hready) as (r & s1 & Hf & _).
  rewrite (bindM_Ret _ _ _ _ _ Hf) in Hrun. apply Fetch_listed in Hf as [-> Hf].
  assert (s' = st_set_calls (list_call s (bare_cluster ns name) :: calls s) s) as ->; [|by apply keeps_request].
  destruct r as [found|e]; [|by injection Hrun as _ <-]. assert (found = ∅) as ->.
  { apply map_empty. intros rule. destruct (found !! rule) as [cc|] eqn:Hcc; [|done].
    apply Hf in Hcc as (Hst & Hour & Hk). pose proof (t_ours _ _ _ _ _ (io_tidy s Ho) _ _ Hst Hour) as Hm.
    rewrite Hk in Hm. apply (t_managed _ _ _ _ _ (io_tidy s Ho)) in Hm as (cl & Hcl & _). simpl in Hcl. congruence. }
  rewrite range_empty in Hrun. by injection Hrun as _ <-.
Qed.

Lemma reconcile_cluster_keeps er cl s o s' :
  reconcile_cluster er cl s = (o, s') -> ready false s -> server_clusters (calls s) !! cluster_key cl = Some cl -> keeps s s'.
Proof.
  unfold reconcile_cluster. intros Hrun Hready Hcl. rewrite (bindM_Ret _ _ s (config s) s) in Hrun by done.
  destruct (config s) as [c|] eqn:Hc; [|by injection Hrun as _ <-].
  cbv zeta in Hrun. change (filter _ _) with (applicable c cl) in Hrun.
  case_decide as Hz; [by injection Hrun as _ <-|]. intros Ho.
  assert (applicable c cl = applicable cfg cl) as Happ by (unfold applicable; by rewrite (io_config s Ho c)).
  rewrite Happ in Hz, Hrun. apply (sent_keeps s); [|done]. destruct (is_ret o) eqn:Hr.
  - destruct o as [rr| |]; [|done..]. eapply handle_sent; [exact Hrun|done..|].
    unfold relevant. apply existsb_exists. unfold applicable in Hz.
    destruct (filter _ _) as [|rule l] eqn:Hl; [done|].
    assert (rule ∈ filter (fun rule => rule_Matches rule cl = true) (InjectionRules (Spec cfg))) as Hin by (rewrite Hl; by left).
    apply list_elem_of_filter in Hin as [Hm Hin]. exists rule. by rewrite <- list_elem_of_In.
  - destruct (handle_stops _ _ _ _ _ _ _ c Hrun Hc Hready Hr) as [ev ->]. by apply sent_read.
Qed.

Lemma reconcile_keeps er ns name s o s' :
  reconcile er ns name s = (o, s') -> ready false s -> keeps s s'.
Proof.
  unfold reconcile. intros Hrec Hready.
  rewrite (bindM_Ret _ _ s (api_GetCluster (calls s) ns name) (st_set_calls (CallGetCluster ns name :: calls s) s)) in Hrec by done.
  etrans; [by apply (keeps_request s (CallGetCluster ns name))|].
  set (s0 := st_set_calls _ s) in *. assert (server_clusters (calls s0) = server_clusters (calls s)) as Hsame by by apply stored_cluster_other.
  assert (ready false s0) as Hready0 by done.
  destruct (api_GetCluster (calls s) ns name) as [cl|e] eqn:Hget.
  2:{ destruct (is_not_found e) eqn:Hnf; [|by injection Hrec as _ <-].
      apply Get_not_found in Hget; [|done]. rewrite <- Hsame in Hget.
      apply bindM_cases in Hrec as [(err & s2 & Hdel & Hret)|(o1 & Hdel & _)];
        [injection Hret as _ <-|]; by eapply handleDelete_keeps. }
  apply stored_Get in Hget as (Hst & Hns & Hnm & _). subst ns name.
  assert (forall o1, reconcile_cluster er cl s0 = (o1, s') -> keeps s0 s') as Hgo.
  { intros o1 Hr. eapply reconcile_cluster_keeps; [exact Hr|done|by rewrite Hsame]. }
  destruct (Annotations (cl_meta cl) !! OperationAnnotation) as [op|]; [|by eapply Hgo].
  case_decide; [by injection Hrec as _ <-|]. case_decide; [|by eapply Hgo].
  set (c := CallRemoveClusterAnnotation (Namespace (cl_meta cl)) (Name (cl_meta cl)) OperationAnnotation).
  rewrite (bindM_Ret _ _ s0 (api_RemoveClusterAnnotation (calls s0) cl OperationAnnotation) (st_set_calls (c :: calls s0) s0)) in Hrec by done.
  etrans; [by apply (keeps_request s0 c)|].
  destruct (api_RemoveClusterAnnotation _ _ _) as [cl'|e] eqn:Hrem; [|by injection Hrec as _ <-]. apply stored_RemoveAnnotation in Hrem.
  pose proof Hrem as [Hk _]%clusters_named. eapply reconcile_cluster_keeps; [exact Hrec|done|]. rewrite <- Hk. exact Hrem.
Qed.

Lemma Reconcile_in_order er ns name s o s' :
  Reconcile er ns name s = (o, s') -> ready false s -> keeps s s'.
Proof.
  unfold Reconcile. intros Hrun Hready. apply bindM_cases in Hrun as [(rr & s1 & Hrec & Hrun)|(o1 & Hrec & _)]; [|by eapply reconcile_keeps].
  etrans; [by eapply reconcile_keeps|]. clear Hrec.
  apply bindM_cases in Hrun as [(u & s2 & Hev & Hret)|(o1 & Hev & Ho1 & _)]; [injection Hret as _ <-|].
  - repeat case_match; try (apply Eventf_run in Hev as [ev ->]; apply keeps_events). by injection Hev as _ <-.
  - unfold Eventf in Hev. by repeat case_match; injection Hev as <- _.
Qed.
End reconcile.
