(* ===== verification/ExclusiveRestore.v ===== *)
(** * No CIDR in two places: the requests of a restore

    A restore only writes what the stored annotations already use, and if it succeeds, the
    IPAM knows everything that the server uses. *)

From stdpp Require Import base list strings gmap.
From S2P Require Import Prelude GoStd GoJson Types Externals Runtime Utils Restore RestoreCheck RestoreIpam RestoreState RestoreDurable ClusterController ClusterGenerate ClusterManage ClusterReconcile AnnotationText Settle Exclusive ExclusiveReconcile.
Open Scope list_scope.
Open Scope Z_scope.

Section restore.
Context {OM : OpenMCP} {GI : GoIpam} {KA : K8sApi} {CU : CtrlUtils} {GO : GoMapOrder}.
Context {GL : GoIpamLaws} {CL : CtrlUtilsLaws} {OL : OpenMCPLaws}.
Context {AS : ApiStore} {CS : ClusterStore AS} {FS : FaithfulStore CS}.

(** ** One cluster *)

(** What the step for the cluster asks of the server. *)
Definition restoring (cl : Cluster) (ccs : list ClusterConfig) (s : gostate) (c : api_call) : Prop :=
  is_read c = true \/
  exists a ri s1, parse_applied_rules cl = inl a /\
    CheckClusterConfigsForCluster cl (Some a)
      (Some (cluster_ccs (filter (fun cc => belongs_to cl cc = true) ccs))) s = (Ret (inl ri), s1) /\
    ((exists n, n ∈ ClusterConfigsToCreate ri /\ c = CallCreateClusterConfig n) \/
     (exists u, u ∈ ClusterConfigsToUpdate ri /\ c = CallUpdateClusterConfig u)).

(** The list of a cluster's ClusterConfigs, however it ends. *)
Lemma Fetch_sends cl s o s' :
  FetchClusterConfigsForCluster cl s = (o, s') -> s' = s \/ s' = st_set_calls (list_call s cl :: calls s) s.
Proof.
  intros Hrun. destruct (is_ret o) eqn:Ho; [destruct o as [r| |]; [|done..]; right; by apply Fetch_listed in Hrun as [-> _]|left].
  unfold FetchClusterConfigsForCluster in Hrun.
  assert (preserves eq (ClusterConfigLabels (Some cl) "")) as Hp by (unfold ClusterConfigLabels, ProviderName, Environment; go_struct).
  specialize (Hp s). apply bindM_cases in Hrun as [(l & s1 & Hl & Hrun)|(o1 & Hl & _)]; rewrite Hl in Hp; simpl in Hp; [|done].
  apply bindM_cases in Hrun as [(res & s2 & Hres & Hrun)|(o1 & Hres & Ho1 & _)]; [|by injection Hres as <- _].
  destruct res; injection Hrun as <- _; done.
Qed.

Lemma restore_cluster_requests acc cl s o s' :
  restore_cluster acc cl s = (o, s') ->
  exists l, calls s' = l ++ calls s /\ Forall (restoring cl (r_ccs acc) s) l.
Proof.
  unfold restore_cluster. cbv zeta. set (mine := filter _ _). change (foldl _ ∅ mine) with (cluster_ccs mine).
  intros [(ir & s1 & Hcheck & Hrun)|(o1 & ->%Check_same & _)]%bindM_cases; [|by exists []]. pose proof Hcheck as ->%Check_same.
  destruct ir as [ri|e]; [|injection Hrun as _ <-; by exists []].
  assert (exists a, parse_applied_rules cl = inl a /\
    CheckClusterConfigsForCluster cl (Some a) (Some (cluster_ccs mine)) s = (Ret (inl ri), s)) as (a & Ha & Hcheck').
  { unfold CheckClusterConfigsForCluster in Hcheck |- *. destruct (parse_applied_rules cl) as [a|e]; [by exists a|done]. }
  destruct (Size (Some ri)) as [c u]. cbv iota beta in Hrun.
  destruct ((_ || _)%bool); [|injection Hrun as _ <-; by exists []].
  destruct (Apply_sends_everything ri s) as (err & Happ & _). rewrite (bindM_Ret _ _ _ _ _ Happ) in Hrun.
  set (l := rev _) in *. assert (Forall (restoring cl (r_ccs acc) s) l) as Hl.
  { apply Forall_rev, Forall_app. split; apply Forall_fmap, Forall_forall; intros x Hx; right; exists a, ri, s;
      (split; [done|]; split; [done|]); [left|right]; by exists x. }
  destruct err; [injection Hrun as _ <-; by exists l|].
  assert (exists s2 o2, FetchClusterConfigsForCluster cl (st_set_calls (l ++ calls s) s) = (o2, s2) /\ s' = s2) as (s2 & o2 & Hf & ->).
  { apply bindM_cases in Hrun as [(f & s3 & Hf & Hrun)|(o1 & Hf & _)]; [|by eexists _, _].
    exists s3, (Ret f). split; [done|]. by destruct f; injection Hrun as _ <-. }
  apply Fetch_sends in Hf as [->| ->]; [by exists l|].
  exists ([list_call (st_set_calls (l ++ calls s) s) cl] ++ l). split; [done|].
  apply Forall_app. split; [|done]. repeat constructor.
Qed.

Context (cfg : IPAMConfig) (managed : string * string -> Prop).

(** From here on [h0] are the requests before the restore. *)
Section from.
Context (p e : string) (h0 : list api_call).
Context (Htidy : tidy p e cfg managed h0).
Notation G := (uses p e managed h0).

(** ClusterConfigs of the process, as they were listed. *)
Definition listed_ccs (ccs : list ClusterConfig) : Prop :=
  Forall (fun cc => server_ccs h0 !! key cc = Some cc /\ our_cc p e cc) ccs.

Lemma annotation_text a r cl : parse_applied_rules cl = inl a -> text_entries (ann_map a r) /\ (is_Some (a !! r) -> text r).
Proof.
  intros Hv%parse_valid. unfold ann_map. destruct (a !! r) as [v|] eqn:Hr.
  - apply (map_Forall_lookup_1 _ _ _ _ Hv) in Hr as [Hr Hm]. split; [|done]. simpl. destruct v; [exact Hm|apply map_Forall_empty].
  - split; [apply map_Forall_empty|by intros []].
Qed.

Lemma restoring_good cl ccs s c :
  restoring cl ccs s c -> server_clusters h0 !! cluster_key cl = Some cl -> managed (cluster_key cl) ->
  listed_ccs ccs -> good_request p e cfg managed G c.
Proof.
  intros [Hr|(a & ri & s1 & Ha & Hcheck & Hc)] Hcl Hman Hccs; [by apply read_good|].
  assert (forall r path cidr, ann_map a r !! path = Some cidr -> G (cluster_key cl, r) path cidr) as Hann
    by (intros; by eapply uses_annotation).
  destruct Hc as [(n & Hn & ->)|(u & Hu & ->)].
  - apply (check_creates _ _ _ _ _ _ _ Hcheck) in Hn as (r & HA & Hm). destruct (annotation_text a r cl Ha) as [Ht Htr].
    eapply made_request; [exact Hman|exact Hm|done|by apply Htr|exact Ht|by apply Hann].
  - apply (check_updates _ _ _ _ _ _ _ Hcheck) in Hu as (r & cc & v & -> & Hcc & Hof).
    pose proof Hcc as [Hin <-]%ccs_mine. apply list_elem_of_filter in Hin as [Hb Hin].
    unfold listed_ccs in Hccs. rewrite Forall_forall in Hccs. apply Hccs in Hin as [Hst Ho].
    assert (owner_of cc = (cluster_key cl, rule_label cc)) as Hown.
    { unfold belongs_to in Hb. apply andb_true_iff in Hb as [Hns%bool_decide_eq_true Ht%bool_decide_eq_true].
      unfold owner_of, target. by rewrite Hns, Ht. }
    eapply updated_request; [exact Hman|exact Hcc|exact Hof|by eapply t_cc|exact Hown|by apply (annotation_text a _ cl)| |by apply Hann].
    intros q c Hq Hc. rewrite <- Hown. by eapply uses_cc.
Qed.

(** ** The loop *)

Lemma loop_good clusters ccs s o s' :
  foldM restore_cluster {| r_ccs := ccs; r_handled := ∅; r_errs := None |} clusters s = (o, s') ->
  (forall cl, cl ∈ clusters -> server_clusters h0 !! cluster_key cl = Some cl /\ managed (cluster_key cl)) ->
  listed_ccs ccs ->
  only_calls s s' /\ exists l, calls s' = l ++ calls s /\ Forall (good_request p e cfg managed G) l.
Proof.
  intros Hrun Hcls Hccs.
  set (J st := only_calls s st /\ exists l, calls st = l ++ calls s /\ Forall (good_request p e cfg managed G) l).
  apply (foldM_cases _ (fun acc st => listed_ccs (r_ccs acc) /\ J st) J _ _ _ _ _ Hrun).
  { split; [done|]. split; [done|]. by exists []. }
  { by intros acc st [_ ?]. }
  clear Hrun o s'. intros acc cl st o st' Hin (Hacc & Ho & l & Hc & Hg) Hstep.
  destruct (Hcls cl Hin) as [Hcl Hman].
  pose proof (restore_cluster_requests _ _ _ _ _ Hstep) as (l' & Hc' & Hl').
  assert (J st') as HJ.
  { split; [etrans; [exact Ho|]; eapply preserves_run; [apply restore_cluster_only_calls|exact Hstep]|].
    exists (l' ++ l). split; [by rewrite Hc', Hc, app_assoc|]. apply Forall_app. split; [|done].
    eapply Forall_impl; [exact Hl'|]. intros c Hres. by eapply restoring_good. }
  split; [done|]. intros acc' ->. split; [|done].
  apply restore_cluster_shape in Hstep as [Hr _]. unfold listed_ccs in *. rewrite Hr.
  apply Forall_forall. intros cc [_ Hcc]%list_elem_of_filter. rewrite Forall_forall in Hacc. by apply Hacc.
Qed.
End from.

(** ** The end *)

(** Without leftover ClusterConfigs nothing is sent or released. *)
Lemma finish_quiet c acc s o s' :
  restore_finish c acc s = (o, s') -> (r_errs acc = None -> r_ccs acc = []) ->
  calls s' = calls s /\ same_vars s s' /\ (o <> Ret None -> st_known s' = st_known s).
Proof.
  unfold restore_finish. intros Hrun Hnil. destruct (r_errs acc); [by injection Hrun as _ <-|].
  rewrite Hnil in Hrun by done. rewrite (decide_True (P := [] = [])) in Hrun by done.
  rewrite (bindM_Ret _ _ s (r_handled acc, None) s) in Hrun by done.
  destruct (ipamFromClusterConfigs c _) as [[x|e']|w|]; [|by injection Hrun as _ <-..].
  unfold on_IPAM, modifyM, bindM, retM in Hrun. destruct (IPAM s) as [i|]; [|by injection Hrun as _ <-].
  injection Hrun as <- <-. split_and!; [done..|]. by intros [].
Qed.

(** ** After the lists *)

Hypothesis Selector_same : forall sel a x,
  Name (cl_meta x) = Name (cl_meta a) -> Namespace (cl_meta x) = Namespace (cl_meta a) ->
  Labels (cl_meta x) = Labels (cl_meta a) -> cl_Purposes x = cl_Purposes a ->
  Selector_Matches sel x = Selector_Matches sel a.

(** No generated name is the webhook's placeholder. *)
Hypothesis all_named : forall cl r, managed (cluster_key cl) -> named_rule cl r.

Notation here s := (uses (providerName s) (environment s) managed (calls s)).
Notation sound_at s := (sound cfg managed (providerName s) (environment s) (calls s)).

(** What a restore does: it sends good requests, and a success accounts for all uses. *)
Definition restores (s : gostate) (o : outcome (option error)) (s' : gostate) : Prop :=
  same_vars s s' /\
  (exists l, calls s' = l ++ calls s /\ Forall (good_request (providerName s) (environment s) cfg managed (here s)) l) /\
  match o with Ret None => accounted_for (here s) s' | _ => st_known s' = st_known s end.

Section after_lists.
Context (c : IPAMConfig) (s s2 s' : gostate) (all : list Cluster) (ccs : list ClusterConfig) (acc : restore_acc).
Notation labels := (labels_of (providerName s) (environment s) None "").
Notation s1 := (st_set_calls (CallListClusterConfigs labels None :: CallListClusters :: calls s) s).
Context (Hspec : Spec c = Spec cfg) (Hsound : sound_at s).
Context (Hall : api_ListClusters (calls s) = inl all).
Context (Hlist : api_ListClusterConfigs (CallListClusters :: calls s) labels None = inl ccs).
Notation loop := (foldM restore_cluster {| r_ccs := ccs; r_handled := ∅; r_errs := None |}
                    (filter (fun cl => relevant c cl = true) all) s1).

Lemma relevant_spec cl : relevant c cl = relevant cfg cl.
Proof. unfold relevant. by rewrite Hspec. Qed.

Lemma listed_cluster cl :
  cl ∈ all /\ relevant c cl = true -> server_clusters (calls s) !! cluster_key cl = Some cl /\ managed (cluster_key cl).
Proof.
  intros [Hin Hrel]. apply (stored_ListClusters _ _ cl Hall) in Hin. split; [done|].
  apply (t_managed _ _ _ _ _ (proj1 Hsound)). exists cl. by rewrite <- relevant_spec.
Qed.

Lemma managed_listed k : managed k -> exists cl, cl ∈ all /\ relevant c cl = true /\ cluster_key cl = k /\
  server_clusters (calls s) !! k = Some cl.
Proof.
  intros (cl & Hcl & Hrel)%(t_managed _ _ _ _ _ (proj1 Hsound)). pose proof Hcl as [-> _]%clusters_named.
  exists cl. rewrite relevant_spec, (stored_ListClusters _ _ cl Hall). done.
Qed.

Lemma same_server : server_ccs (calls s1) = server_ccs (calls s).
Proof. simpl. by rewrite !stored_read. Qed.

Lemma listed_cc cc : cc ∈ ccs <-> server_ccs (calls s1) !! key cc = Some cc /\ ours s1 cc.
Proof. rewrite same_server, (stored_List _ _ _ _ cc Hlist), stored_read by done. unfold ours. simpl. naive_solver. Qed.

Lemma server_one_per_rule : one_per_rule s1 (server_ccs (calls s1)).
Proof. rewrite same_server. exact (tidy_one_per_rule cfg managed s (proj1 Hsound)). Qed.

Lemma owner_cluster x :
  server_ccs (calls s1) !! key x = Some x -> ours s1 x ->
  exists cl, cl ∈ all /\ relevant c cl = true /\ belongs_to cl x = true.
Proof.
  rewrite same_server. intros Hx Ho. pose proof (t_ours _ _ _ _ _ (proj1 Hsound) _ _ Hx Ho) as Hm.
  apply managed_listed in Hm as (cl & Hin & Hrel & [= Hns Hn] & _). exists cl. split_and!; [done..|].
  unfold belongs_to. fold (target x). by rewrite Hns, Hn, !bool_decide_true.
Qed.

Lemma all_facts : NoDup ((fun cl => cluster_key cl) <$> all) /\ forall cl, cl ∈ all -> Name (cl_meta cl) <> "".
Proof. exact (ListClusters_named _ _ Hall). Qed.

(** The loop over the clusters, however it ends. *)
Lemma loop_restores o st :
  loop = (o, st) -> same_vars s st /\ st_known st = st_known s /\
  exists l, calls st = l ++ calls s /\ Forall (good_request (providerName s) (environment s) cfg managed (here s)) l.
Proof.
  intros Hloop. destruct (loop_good (providerName s) (environment s) (calls s) (proj1 Hsound) _ _ _ _ _ Hloop) as (Ho & l & Hl & Hg).
  { intros cl [Hrel Hin]%list_elem_of_filter. by apply listed_cluster. }
  { apply Forall_forall. intros cc Hcc%listed_cc. by rewrite same_server in Hcc. }
  unfold only_calls in Ho. split; [by rewrite Ho|]. split; [by rewrite Ho|].
  exists (l ++ [CallListClusterConfigs labels None; CallListClusters]). split; [by rewrite Hl, <- app_assoc|].
  apply Forall_app. split; [done|]. by repeat constructor.
Qed.

Context (Hloop : loop = (Ret acc, s2)).

Lemma nothing_left : r_errs acc = None -> r_ccs acc = [].
Proof.
  destruct all_facts as [Hnd Hnm]. intros Herr.
  pose proof (loop_durable c all ccs s1 s2 acc Hnd Hnm listed_cc server_one_per_rule Hloop Herr) as Hd.
  destruct (r_ccs acc) as [|cc rest] eqn:Hr; [done|].
  assert (cc ∈ r_ccs acc) as Hin by (rewrite Hr; by left).
  pose proof (d_rest0 _ _ _ _ _ Hd cc Hin) as Hst. apply (d_rest _ _ _ _ _ Hd) in Hin as (_ & Ho & Hno).
  destruct (owner_cluster cc Hst Ho) as (cl & Hcl & Hrel & Hb). rewrite Hno in Hb; [done|]. by apply list_elem_of_filter.
Qed.

Lemma good_adds x p d : server_ccs (calls s) !! key x = Some x -> ours s x -> p ∈ cc_Patches x -> patch_cidr p = Some d -> adds x d.
Proof.
  intros Hx Ho Hp Hd. exists p. split_and!; [done| |done].
  by destruct (t_cc _ _ _ _ _ (proj1 Hsound) _ _ Hx Ho) as (_ & Hps & _); apply Hps.
Qed.

Lemma uses_known : restore_finish c acc s2 = (Ret None, s') -> accounted_for (here s) s'.
Proof.
  destruct all_facts as [Hnd Hnm]. intros Hfin o path d Hu.
  pose proof (finished_knows c all ccs s1 s2 s' acc Hnd Hnm listed_cc server_one_per_rule Hloop Hfin) as Hknows.
  rewrite same_server in Hknows.
  assert (forall x p d, server_ccs (calls s) !! key x = Some x -> ours s x -> p ∈ cc_Patches x -> patch_cidr p = Some d ->
    canon d ∈ st_known s') as Hcc.
  { intros x p d' Hx Ho Hp Hd. destruct (owner_cluster x) as (cl & Hcl & Hrel & Hb); [by rewrite same_server|done|].
    destruct (Hknows cl Hcl Hrel) as [Hk _]. eapply Hk; [exact Hx|exact Ho|exact Hb|]. by eapply good_adds. }
  destruct Hu as [x p d Hx Ho Hp Hd|cl a r' path d Hcl Hm Ha Hd]; [by eapply Hcc|].
  pose proof Hm as (cl' & Hin & Hrel & _ & Hcl')%managed_listed. rewrite Hcl in Hcl'. injection Hcl' as <-.
  destruct (Hknows cl Hin Hrel) as [_ Hk]. destruct (Hk a r' path d Ha (all_named cl r' Hm) Hd) as [?|(k & x & Hx & Ho & Hb & Hr & Hp)]; [done|].
  assert (owner_of x = (cluster_key cl, r')) as Hown.
  { unfold belongs_to in Hb. apply andb_true_iff in Hb as [Hns%bool_decide_eq_true Ht%bool_decide_eq_true].
    unfold owner_of, target. by rewrite Hns, Ht, Hr. }
  pose proof Hx as <-%stored_key. apply existsb_exists in Hp as (q & Hq%list_elem_of_In & Hpath).
  apply bool_decide_eq_true in Hpath.
  destruct (t_cc _ _ _ _ _ (proj1 Hsound) _ _ Hx Ho) as (_ & Hps & _). destruct (Hps q Hq) as [_ [d' Hd']].
  assert (here s (cluster_key cl, r') path d') as Hu' by (rewrite <- Hown, <- Hpath; by apply uses_cc).
  assert (here s (cluster_key cl, r') path d) as Hu by by eapply uses_annotation.
  rewrite (proj1 (proj2 Hsound) _ _ _ _ Hu Hu'). by eapply Hcc.
Qed.

Lemma after_restores o : restore_finish c acc s2 = (o, s') -> restores s o s'.
Proof.
  intros Hfin. pose proof (finish_quiet _ _ _ _ _ Hfin nothing_left) as (Hc & Hv & Hk).
  destruct (loop_restores _ _ Hloop) as (Hv2 & Hk2 & l & Hl & Hg). split_and!.
  - unfold same_vars in *. naive_solver congruence.
  - exists l. by rewrite Hc.
  - destruct o as [[err|]| |]; [|by apply uses_known|..]; rewrite Hk; done.
Qed.
End after_lists.

(** ** The whole restore *)

Lemma good_request_mono p e (G G' : owner -> string -> string -> Prop) c :
  (forall o path d, G o path d -> G' o path d) -> good_request p e cfg managed G c -> good_request p e cfg managed G' c.
Proof. intros HG. destruct c; simpl; naive_solver. Qed.

Lemma read_server h c : is_read c = true -> server_ccs (c :: h) = server_ccs h /\ server_clusters (c :: h) = server_clusters h.
Proof. intros Hc. split; [by apply stored_read|by apply stored_cluster_other; destruct c]. Qed.

Lemma restores_after c s o s' :
  is_read c = true -> restores (st_set_calls (c :: calls s) s) o s' -> restores s o s'.
Proof.
  intros Hc (Hv & (l & Hl & Hg) & Hr). destruct (read_server (calls s) c Hc) as [H1 H2]. simpl in *. split_and!; [done| |].
  - exists (l ++ [c]). split; [by rewrite Hl, <- app_assoc|]. apply Forall_app. split; [|repeat constructor; by apply read_good].
    eapply Forall_impl; [exact Hg|]. intros d. apply good_request_mono. intros who path x. by apply uses_same.
  - destruct o as [[err|]| |]; [done| |done..]. intros who path x Hu. apply (Hr who path x). by apply (uses_same managed _ _ (calls s)).
Qed.

Lemma restores_nothing s o : o <> Ret None -> restores s o s.
Proof. intros Ho. split_and!; [done|by exists []|by destruct o as [[]| |]]. Qed.

(** The lock and the new instance make no difference. *)
Lemma restores_locked s s0 o s1 s' :
  st_known s0 = st_known s -> same_vars s s0 -> calls s0 = calls s -> restores s0 o s1 ->
  st_known s' = st_known s1 -> same_vars s1 s' -> calls s' = calls s1 -> restores s o s'.
Proof.
  unfold restores. intros Hk0 (Hc0 & Hw0 & Hp0 & He0) Hcalls Hr Hk Hv Hcalls'.
  rewrite Hp0, He0, Hcalls in Hr. destruct Hr as (Hv0 & (l & Hl & Hg) & Hr). rewrite Hcalls'. split_and!.
  - unfold same_vars in *. naive_solver congruence.
  - by exists l.
  - destruct o as [[err|]| |]; [congruence| |congruence..]. intros who path d Hu. rewrite Hk. by eapply Hr.
Qed.

Lemma sound_read c s : is_read c = true -> sound_at s -> sound_at (st_set_calls (c :: calls s) s).
Proof.
  intros Hc [Ht Hx]. destruct (read_server (calls s) c Hc) as [H1 H2]. split.
  - destruct Ht as [Ha Hb Hm]. split; simpl; by rewrite ?H1, ?H2.
  - eapply exclusive_sub; [|exact Hx]. intros o path d. by apply uses_same.
Qed.

Hypothesis GetConfig_spec : forall h name c, api_GetConfig h name = inl c -> Spec c = Spec cfg.

(** Reading the config. *)
Lemma load_config_restores s o s0 :
  (match config s with
   | None => let! name := ProviderName in let! cfg := client_GetConfig name in
       retM match cfg with inl cfg => inl cfg | inr err => inr (Errorf "error loading config" (Some (Lib err))) end
   | Some cfg => retM (inl cfg)
   end : M (IPAMConfig + error)) s = (o, s0) ->
  configured cfg s -> sound_at s ->
  sound_at s0 /\ (forall o' s', restores s0 o' s' -> restores s o' s') /\ forall c, o = Ret (inl c) -> Spec c = Spec cfg.
Proof.
  intros Hget Hcfg Hs. unfold configured in Hcfg. destruct (config s) as [c|].
  { injection Hget as <- <-. split_and!; [done..|]. intros c' [= <-]. by apply Hcfg. }
  assert (forall s1 o1, ProviderName s = (o1, s1) -> s1 = s) as Hname.
  { intros s1 o1. unfold ProviderName, bindM, getM, retM. by case_decide; intros [= _ <-]. }
  apply bindM_cases in Hget as [(name & s1 & ->%Hname & Hget)|(o1 & ->%Hname & _ & Ho)].
  2:{ split_and!; [done..|]. by intros c ->. }
  unfold client_GetConfig, request in Hget.
  rewrite (bindM_Ret _ _ s (api_GetConfig (calls s) name) (st_set_calls (CallGetConfig name :: calls s) s)) in Hget by done.
  injection Hget as <- <-. split_and!; [by apply sound_read|by intros ? ?; apply restores_after|].
  intros c. destruct (api_GetConfig _ _) as [c'|] eqn:Hc; [|done]. intros [= <-]. by eapply GetConfig_spec.
Qed.

Lemma restore_body_restores s o s' : restore_body s = (o, s') -> configured cfg s -> sound_at s -> restores s o s'.
Proof.
  unfold restore_body. intros Hrun Hcfg Hs. rewrite (bindM_Ret _ _ s s s) in Hrun by done.
  apply bindM_cases in Hrun as [(rc & s0 & Hget & Hrun)|(o1 & Hget & Ho1 & Ho)];
    apply load_config_restores in Hget as (Hs0 & Hgo & Hspec); try done.
  2:{ apply (Hgo o). apply restores_nothing. by intros ->. }
  apply (Hgo o). clear Hgo Hs Hcfg. destruct rc as [c|err]; [|injection Hrun as <- <-; by apply restores_nothing].
  apply bindM_cases in Hrun as [(rcl & s1 & Hcl & Hrun)|(o1 & Hcl & Ho1 & _)].
  2:{ unfold FetchRelevantClusters, client_ListClusters, request, bindM in Hcl.
      destruct (api_ListClusters _); by injection Hcl as <- _. }
  destruct rcl as [clusters|err].
  2:{ injection Hrun as <- <-. unfold FetchRelevantClusters, client_ListClusters, request in Hcl.
      apply bindM_Ret_inv in Hcl as (x & s2 & [= <- <-] & Hcl).
      destruct (api_ListClusters _); [done|]. injection Hcl as _ <-. apply (restores_after CallListClusters); [done|by apply restores_nothing]. }
  apply FetchRelevant_run in Hcl as (all & Hall & -> & ->).
  set (s1 := st_set_calls (CallListClusters :: calls s0) s0) in *.
  apply bindM_cases in Hrun as [(rccs & s2 & Hccs & Hrun)|(o1 & Hccs & Ho1 & Ho)].
  2:{ assert (s' = s1) as ->; [|apply (restores_after CallListClusters); [done|]; apply restores_nothing; by intros ->].
      unfold FetchClusterConfigs in Hccs.
      apply bindM_cases in Hccs as [(labels & s3 & _ & Hccs)|(o2 & Hl & _)].
      - unfold client_ListClusterConfigs, request, bindM in Hccs. destruct (api_ListClusterConfigs _ _ _); by injection Hccs as <- _.
      - assert (preserves eq (ClusterConfigLabels None "")) as Hp by (unfold ClusterConfigLabels, ProviderName, Environment; go_struct).
        specialize (Hp s1). by rewrite Hl in Hp. }
  destruct rccs as [ccs|err].
  2:{ injection Hrun as <- <-. unfold FetchClusterConfigs, client_ListClusterConfigs, request in Hccs.
      apply bindM_Ret_inv in Hccs as (labels & s3 & [-> ->]%ClusterConfigLabels_run & Hccs).
      apply bindM_Ret_inv in Hccs as (x & s4 & [= <- <-] & Hccs).
      destruct (api_ListClusterConfigs _ _ _); [done|]. injection Hccs as _ <-.
      apply (restores_after CallListClusters); [done|]. eapply restores_after; [|by apply restores_nothing]. done. }
  apply FetchClusterConfigs_run in Hccs as [Hlist ->].
  apply bindM_cases in Hrun as [(acc & s4 & Hloop & Hfin)|(o1 & Hloop & Ho1 & Ho)].
  - by apply (after_restores c s0 s4 s' all ccs acc); [apply Hspec|..].
  - destruct (loop_restores c s0 all ccs (Hspec c eq_refl) Hs0 Hall Hlist _ _ Hloop) as (Hv & Hk & Hl).
    split_and!; [done..|]. by destruct o.
Qed.

(** A restore keeps the server sound, at each point of it and however it ends. After it the
    state is in order if it succeeded, or was in order before. *)
Lemma Restore_sound s o s' :
  RestoreIPAMFromClusterState s = (o, s') -> configured cfg s -> sound_at s ->
  same_vars s s' /\ calls s `suffix_of` calls s' /\
  (forall h, calls s `suffix_of` h -> h `suffix_of` calls s' -> sound cfg managed (providerName s) (environment s) h) /\
  (o = Ret None \/ in_order cfg managed s -> in_order cfg managed s').
Proof.
  intros (s0 & Hk & Hv & Hc & s1 & Hbody & Hk' & Hv' & Hc')%Restore_cases Hcfg Hs.
  pose proof Hv as (Hv1 & _ & Hv3 & Hv4).
  assert (restores s o s') as (Hvars & (l & Hl & Hg) & Hr).
  { eapply restores_locked; [exact Hk|exact Hv|exact Hc| |exact Hk'|exact Hv'|exact Hc'].
    destruct Hbody as [Hbody|[Ho ->]]; [|apply restores_nothing; by intros ->].
    apply restore_body_restores; [done|unfold configured; by rewrite Hv1|]. by rewrite Hv3, Hv4, Hc. }
  clear Hv1 Hv3 Hv4. destruct Hs as [Ht Hx].
  assert (forall l1 l2, l = l1 ++ l2 -> tidy (providerName s) (environment s) cfg managed (l2 ++ calls s) /\
    forall o path d, uses (providerName s) (environment s) managed (l2 ++ calls s) o path d -> here s o path d) as Hgood.
  { intros l1 l2 ->. apply Forall_app in Hg as [_ Hg]. by apply (good_requests Selector_same). }
  split_and!; [done|by exists l| |].
  - intros h [l2 ->] [l1 Hl1]. rewrite Hl, app_assoc in Hl1. apply app_inv_tail in Hl1.
    destruct (Hgood l1 l2 Hl1) as [Ht' Hu]. split; [done|]. by eapply exclusive_sub.
  - intros Ho. pose proof Hvars as (_ & _ & Hp & He). destruct (Hgood [] l eq_refl) as [Ht' Hu]. rewrite <- Hl in Ht', Hu.
    split; rewrite ?Hp, ?He; [done|by eapply exclusive_sub| |unfold configured; by destruct Hvars as (-> & _)]. intros who path d Hd%Hu.
    destruct Ho as [->|Ho]; [by eapply Hr|].
    destruct o as [[err|]| |]; [| by eapply Hr| |]; rewrite Hr; by eapply (io_accounted _ _ s Ho).
Qed.
End restore.
