(* ===== verification/ConfigController.v ===== *)
(** * internal/controllers/config/controller.go *)

From stdpp Require Import base list strings gmap.
From S2P Require Import Prelude GoStd Types Externals Runtime Utils Restore RestoreState.
Open Scope list_scope.
Open Scope Z_scope.

(** ** Durations: 64-bit nanoseconds *)

Definition second_ns : Z := 1000000000.

(** The wrap-around of a 64-bit signed operation. *)
Definition wrap64 (n : Z) : Z := (n + 2 ^ 63) mod 2 ^ 64 - 2 ^ 63.

(** [t.Sub(u)]: the nearest duration. *)
Definition time_Sub (t u : Z) : Z := Z.max min_int64 (Z.min max_int64 (t - u)).

(** The readings of [time.Now()] during one reconciliation: for the refresh check, after
    the refresh, and inside [time.Since]. *)
Record clock : Type := { t_check : Z; t_refreshed : Z; t_since : Z }.

Record IPAMConfigController : Type := {
  ctl_ProviderName : string;
  ctl_er : bool;
  lastRefreshTime : Z }.

Definition set_lastRefreshTime (t : Z) (c : IPAMConfigController) : IPAMConfigController :=
  {| ctl_ProviderName := ctl_ProviderName c; ctl_er := ctl_er c; lastRefreshTime := t |}.

Section config_controller.
Context {OM : OpenMCP} {GI : GoIpam} {KA : K8sApi} {CU : CtrlUtils} {GO : GoMapOrder}.

(** The config, [RequeueAfter], the error; and the controller afterwards. *)
Definition result : Type := option IPAMConfig * Z * option error * IPAMConfigController.

Definition failed (c : IPAMConfigController) (what : string) (err : error) : result :=
  (None, 0, Some (Errorf what (Some err)), c).

Definition validate_rules (rules : list CIDRInjection) : option error :=
  foldl (fun errs rule =>
    match Selector_Validate (rule_Selector rule) with
    | Some err => errors_Join [errs; Some (Errorf "injection rule is invalid" (Some (Lib err)))]
    | None => errs
    end) None rules.

Definition rules_changed (oldCfg : option IPAMConfig) (cfg : IPAMConfig) : bool :=
  match oldCfg with
  | None => true
  | Some oldCfg => negb (bool_decide (InjectionRules (Spec oldCfg) = InjectionRules (Spec cfg)))
  end.

Definition refresh_enabled (cfg : IPAMConfig) : option Z :=
  match InternalStateRefreshCycleDuration (Spec cfg) with
  | Some d => if 0 <? d then Some d else None
  | None => None
  end.

Definition requeue_after (d : Z) (now last : Z) : Z :=
  let r := wrap64 (wrap64 (d - time_Sub now last) + second_ns) in
  if r <=? 0 then second_ns else r.

(** From "Config refreshed" to the end. *)
Definition finish (t : clock) (c : IPAMConfigController) (cfg : IPAMConfig) : M result :=
  match refresh_enabled cfg with
  | None => retM (Some cfg, 0, None, c)
  | Some d =>
      let! (err, c) :=
        if lastRefreshTime c + d <? t_check t then
          let! err := RestoreIPAMFromClusterState in
          match err with
          | Some err => retM (Some err, c)
          | None => retM (None, set_lastRefreshTime (t_refreshed t) c)
          end
        else retM (None, c) in
      match err with
      | Some err => retM (failed c "error refreshing internal IPAM state" err)
      | None => retM (Some cfg, requeue_after d (t_since t) (lastRefreshTime c), None, c)
      end
  end.

(** [shared.ClusterWatch <- ...] for each cluster. *)
Definition queue_clusters (clusters : list Cluster) : M unit :=
  foldM (fun _ cluster =>
    modifyM (fun s => st_set_ClusterWatch (ClusterWatch s ++ [cluster]) s)) tt clusters.

(** The part behind the operation annotation. *)
Definition reconcile_config (t : clock) (c : IPAMConfigController) (cfg : IPAMConfig) : M result :=
  if decide (DeletionTimestamp (cfg_meta cfg) = None) then
    match validate_rules (InjectionRules (Spec cfg)) with
    | Some errs => retM (failed c "config is invalid" errs)
    | None =>
        let! oldCfg := GetConfig in
        let! err :=
          if rules_changed oldCfg cfg then
            let! affectedClusters := FetchRelevantClusters (Some cfg) in
            match affectedClusters with
            | inr err => retM (Some err)
            | inl affectedClusters => queue_clusters affectedClusters ;;; retM None
            end
          else retM None in
        match err with
        | Some err => retM (failed c "error fetching affected clusters" err)
        | None => SetConfig (Some cfg) ;;; finish t c cfg
        end
    end
  else SetConfig None ;;; finish t c cfg.

Definition reconcile_cfg (t : clock) (c : IPAMConfigController) (name : string) : M result :=
  if decide (name <> ctl_ProviderName c) then retM (None, 0, None, c)
  else
    let! cfg := client_GetConfig name in
    match cfg with
    | inr err =>
        (if is_not_found err then SetConfig None else retM tt) ;;;
        retM (failed c "error fetching GardenerIPAMConfig" (Lib err))
    | inl cfg =>
        match Annotations (cfg_meta cfg) !! OperationAnnotation with
        | None => reconcile_config t c cfg
        | Some op =>
            if decide (op = OperationAnnotationValueIgnore) then retM (None, 0, None, c)
            else if decide (op = OperationAnnotationValueReconcile) then
              let! r := client_RemoveConfigAnnotation cfg OperationAnnotation in
              match r with
              | inr err => retM (failed c "error removing operation annotation" (Lib err))
              | inl cfg => reconcile_config t c cfg
              end
            else reconcile_config t c cfg
        end
    end.

Definition Reconcile_cfg (t : clock) (c : IPAMConfigController) (name : string) :
    M (Z * option error * IPAMConfigController) :=
  let! (cfg, requeue, err, c) := reconcile_cfg t c name in
  match cfg, err with
  | None, _ => retM tt
  | Some _, Some _ => Eventf (ctl_er c) "Warning" "ReconcileError" "Reconcile"
  | Some _, None => Eventf (ctl_er c) "Normal" "ReconcileSuccess" "Reconcile"
  end ;;;
  retM (requeue, err, c).
End config_controller.

(** ** Theorems: requeueing *)

Lemma wrap64_range n : min_int64 <= wrap64 n <= max_int64.
Proof. unfold wrap64, min_int64, max_int64. pose proof (Z.mod_pos_bound (n + 2 ^ 63) (2 ^ 64) ltac:(lia)). lia. Qed.

Lemma wrap64_id n : min_int64 <= n <= max_int64 -> wrap64 n = n.
Proof. unfold wrap64, min_int64, max_int64. intros Hn. rewrite Z.mod_small; lia. Qed.

(** C36: The requeue delay after a refresh, in 64-bit nanosecond arithmetic: when a second can
    be added to the interval without overflow and the last refresh lies in the past, it is the
    remaining time plus a second, or a second if more than that has passed; before the interval
    is over it lies between a second and the interval plus a second; and for all inputs,
    overflowing ones included, it is positive and fits 64 bits. *)
Theorem requeue_after_bounds d now last :
  0 < d -> 0 <= now - last <= max_int64 -> d + second_ns <= max_int64 ->
  requeue_after d now last =
    (if now - last <? d + second_ns then d - (now - last) + second_ns else second_ns) /\
  (now - last <= d -> second_ns <= requeue_after d now last <= d + second_ns) /\
  (forall d' now' last', 0 < requeue_after d' now' last' <= max_int64).
Proof.
  intros Hd He Hmax. unfold second_ns in *.
  assert (requeue_after d now last =
    (if now - last <? d + 1000000000 then d - (now - last) + 1000000000 else 1000000000)) as Heq.
  { unfold requeue_after, second_ns. cbv zeta.
    assert (time_Sub now last = now - last) as ->
      by (unfold time_Sub, min_int64, max_int64 in *; lia).
    rewrite (wrap64_id (d - (now - last))) by (unfold min_int64, max_int64 in *; lia).
    rewrite wrap64_id by (unfold min_int64, max_int64 in *; lia).
    destruct (Z.leb_spec (d - (now - last) + 1000000000) 0), (Z.ltb_spec (now - last) (d + 1000000000)); lia. }
  split_and!; [done| |].
  - intros Hle. rewrite Heq. destruct (Z.ltb_spec (now - last) (d + 1000000000)); lia.
  - intros d' now' last'. unfold requeue_after, second_ns. cbv zeta.
    set (w := wrap64 (d' - time_Sub now' last') + 1000000000).
    pose proof (wrap64_range w). unfold max_int64 in *.
    destruct (Z.leb_spec (wrap64 w) 0); lia.
Qed.

(** ** Theorems: the stored config *)

Section stored_config.
Context {OM : OpenMCP} {GI : GoIpam} {KA : K8sApi} {CU : CtrlUtils} {GO : GoMapOrder}.

(** *** Restoring the IPAM does not touch the config *)

Definition same_config (s s' : gostate) : Prop := config s' = config s.

#[export] Instance same_config_preorder : PreOrder same_config.
Proof. unfold same_config. split; [by intros s|]. intros s1 s2 s3. by intros -> ->. Qed.

Lemma request_same_config {A} c (answer : list api_call -> A) : preserves same_config (request c answer).
Proof. by intros s. Qed.
Lemma on_IPAM_same_config {A} (m : goM Ipamer A) : preserves same_config (on_IPAM m).
Proof. intros s. unfold on_IPAM. destruct (IPAM s); [|done]. by destruct (m _). Qed.
Lemma with_IPAM_lock_same_config {A} (body : M A) :
  preserves same_config body -> preserves same_config (with_IPAM_lock body).
Proof.
  intros Hb s. unfold with_IPAM_lock. destruct (IPAM s) as [i|]; [|done]. destruct (lock i); [done|].
  specialize (Hb (st_set_IPAM (Some (set_lock true i)) s)).
  by destruct (body _) as [[] s'].
Qed.
Lemma only_calls_same_config {A} (m : M A) : preserves only_calls m -> preserves same_config m.
Proof. intros Hm s. specialize (Hm s). unfold only_calls in Hm. by rewrite Hm. Qed.
Hint Resolve request_same_config on_IPAM_same_config with_IPAM_lock_same_config : go.

Lemma Restore_same_config : preserves same_config RestoreIPAMFromClusterState.
Proof.
  pose proof (fun cfg => only_calls_same_config _ (FetchRelevant_only_calls cfg)).
  pose proof (only_calls_same_config _ FetchClusterConfigs_only_calls).
  pose proof (fun acc cl => only_calls_same_config _ (restore_cluster_only_calls acc cl)).
  assert (forall cc, preserves same_config (releaseCIDRsForClusterConfig_internal cc)).
  { intros cc. unfold releaseCIDRsForClusterConfig_internal, IPAM_internal, client_PatchClusterConfig.
    go_struct; by intros s. }
  assert (forall acc cc, preserves same_config (handle_orphan acc cc)).
  { intros acc cc. unfold handle_orphan, client_GetCluster, client_DeleteClusterConfig. go_struct. }
  assert (forall cfg acc, preserves same_config (restore_finish cfg acc)).
  { intros cfg acc. unfold restore_finish, handleOrphanedClusterConfigs_internal. go_struct; by intros s. }
  assert (preserves same_config restore_body).
  { unfold restore_body, client_GetConfig, ProviderName. go_struct. }
  unfold RestoreIPAMFromClusterState. go_struct; by intros s.
Qed.
Hint Resolve Restore_same_config : go.

Lemma finish_same_config t c cfg : preserves same_config (finish t c cfg).
Proof. unfold finish. go_struct. Qed.

(** *** The invariant of the stored config *)

Definition valid_config (s : gostate) : Prop :=
  match config s with
  | Some cfg => validate_rules (InjectionRules (Spec cfg)) = None
  | None => True
  end.

(** Whatever the outcome of the call. *)
Definition keeps_valid (s s' : gostate) : Prop := valid_config s -> valid_config s'.

#[export] Instance keeps_valid_preorder : PreOrder keeps_valid.
Proof. unfold keeps_valid. split; [by intros s|]. intros s1 s2 s3. auto. Qed.

Lemma same_config_valid {A} (m : M A) : preserves same_config m -> preserves keeps_valid m.
Proof. intros Hm s. specialize (Hm s). unfold same_config in Hm. unfold keeps_valid, valid_config. by rewrite Hm. Qed.

Lemma SetConfig_valid cfg :
  match cfg with Some cfg => validate_rules (InjectionRules (Spec cfg)) = None | None => True end ->
  preserves keeps_valid (SetConfig cfg).
Proof. intros Hc s _. unfold valid_config. simpl. by destruct cfg. Qed.

Lemma queue_clusters_same_config l : preserves same_config (queue_clusters l).
Proof. unfold queue_clusters. go_struct; by intros s. Qed.

Lemma reconcile_config_valid t c cfg : preserves keeps_valid (reconcile_config t c cfg).
Proof.
  unfold reconcile_config.
  pose proof (fun cfg => same_config_valid _ (only_calls_same_config _ (FetchRelevant_only_calls cfg))).
  pose proof (fun l => same_config_valid _ (queue_clusters_same_config l)).
  pose proof (fun cfg => same_config_valid _ (finish_same_config t c cfg)).
  pose proof (SetConfig_valid None I). pose proof (SetConfig_valid (Some cfg)) as HS.
  destruct (validate_rules _) eqn:Hv.
  - unfold GetConfig. go_struct.
  - specialize (HS Hv). unfold GetConfig. go_struct.
Qed.

(** C28: The config stored in the process always passes the controller's own rule validation:
    whatever a reconciliation of the IPAMConfig does (deletion, API errors, operation
    annotations, invalid rules, a failed restore), a valid or absent stored config is afterwards
    again valid or absent. *)
Theorem Reconcile_cfg_keeps_valid t c name s :
  valid_config s -> valid_config (Reconcile_cfg t c name s).2.
Proof.
  assert (preserves keeps_valid (Reconcile_cfg t c name)) as Hp; [|by apply Hp].
  pose proof reconcile_config_valid. pose proof (SetConfig_valid None I).
  pose proof (fun A c (an : list api_call -> A) => same_config_valid _ (request_same_config c an)).
  assert (forall er ty r a, preserves keeps_valid (Eventf er ty r a)).
  { intros er ty r a. apply same_config_valid. by destruct er. }
  unfold Reconcile_cfg, reconcile_cfg, client_GetConfig, client_RemoveConfigAnnotation. go_struct.
Qed.

(** *** What a config change does *)

Lemma queue_clusters_run l s :
  queue_clusters l s = (Ret tt, st_set_ClusterWatch (ClusterWatch s ++ l) s).
Proof.
  unfold queue_clusters. revert s. induction l as [|cl l IH]; intros s; simpl.
  - unfold retM. rewrite app_nil_r. by destruct s.
  - unfold bindM at 1, modifyM at 1. rewrite IH. simpl. by rewrite <- app_assoc.
Qed.

(** The state in which the last part of the reconciliation starts. *)
Definition stored (cfg : IPAMConfig) (s : gostate) (watch : list Cluster) (h : list api_call) : gostate :=
  st_set_config (Some cfg) (st_set_ClusterWatch (ClusterWatch s ++ watch) (st_set_calls h s)).

End stored_config.
