(* ===== verification/Interplay.v ===== *)
(** * The controllers together: what a config change does not do

    The config controller stores a changed config but does not register its parent CIDRs
    with the IPAM instance (only a restore does); the cluster controller slices from
    registered parents only. *)

From stdpp Require Import base list strings gmap.
From S2P Require Import Prelude GoStd Types Externals Runtime Utils Restore RestoreIpam RestoreState ClusterController ClusterGenerate ConfigController.
Open Scope list_scope.
Open Scope Z_scope.

Section interplay.
Context {OM : OpenMCP} {GI : GoIpam} {KA : K8sApi} {CU : CtrlUtils} {GO : GoMapOrder}.
Context {GL : GoIpamLaws} {CL : CtrlUtilsLaws}.

(** No CIDR of the list is registered. *)
Definition unregistered (cidrs : list string) (s : gostate) : Prop :=
  Forall (fun c => canon c ∉ st_known s) cidrs.

Lemma unregistered_same cidrs s s' : st_same s s' -> unregistered cidrs s -> unregistered cidrs s'.
Proof. intros (Hk & _). unfold unregistered. by rewrite Hk. Qed.

Lemma PrefixFrom_unregistered c s r s' :
  canon c ∉ st_known s -> on_IPAM (PrefixFrom c) s = (Ret r, s') -> (exists e, r = inr e) /\ st_same s s'.
Proof.
  intros Hc Hrun. pose proof (PrefixFrom_call _ _ _ _ Hrun) as [Hs _]. split; [|done].
  apply ipam_call in Hrun as (i & x & Hi & _ & Hop & _). destruct r as [p|e]; [|by exists e].
  destruct (PrefixFrom_found c (internal i) p) as [_ Hin]; [by rewrite Hop|].
  destruct Hc. unfold st_known. by rewrite Hi.
Qed.

Lemma fetch_unregistered cidrs s ps s' :
  unregistered cidrs s -> fetch_prefixes cidrs s = (Ret ps, s') -> ps = [] /\ st_same s s'.
Proof.
  intros Hc Hrun. unfold fetch_prefixes in Hrun.
  apply (foldM_inv _ (fun _ ps st => ps = [] /\ st_same s st) _ _ _ _ _ Hrun); [by split|].
  intros done c rest ps1 s1 ps2 s2 Hl [-> Hs] Hstep.
  apply bindM_Ret_inv in Hstep as (r & s3 & Hp & Hstep).
  apply PrefixFrom_unregistered in Hp as [[e ->] Hs3]; [go_run; split; [done|by etrans]|].
  apply (unregistered_same _ _ _ Hs) in Hc. unfold unregistered in Hc. rewrite Hl in Hc.
  by apply Forall_app in Hc as [_ [Hc _]%Forall_cons].
Qed.

Lemma try_parents_unregistered parents size selected s r s' :
  (forall id cidrs, parents !! id = Some cidrs -> unregistered cidrs s) ->
  try_parents ∅ parents size selected s = (Ret r, s') -> r = None /\ st_same s s'.
Proof.
  revert s. induction selected as [|id selected IH]; intros s Hp Hrun; simpl in Hrun; [by go_run|].
  apply bindM_Ret_inv in Hrun as (ps & s1 & Hps & Hrun).
  assert (ps = [] /\ st_same s s1) as [-> Hs1].
  { unfold parent_prefixes in Hps. rewrite lookup_empty in Hps.
    destruct (parents !! id) as [cidrs|] eqn:Hid; [|by go_run].
    eapply fetch_unregistered; [by eapply Hp|done]. }
  apply bindM_Ret_inv in Hrun as (r0 & s2 & [= <- <-] & Hrun).
  apply IH in Hrun as [-> Hs]; [split; [done|by etrans]|].
  intros id' cidrs Hid. eapply unregistered_same; [done|by eapply Hp].
Qed.

Lemma generate_unregistered rule parents s g s' :
  rule_Injections rule <> [] -> (forall id cidrs, parents !! id = Some cidrs -> unregistered cidrs s) ->
  generateCIDRsForInjectionRule rule parents s = (Ret g, s') -> (exists err, g = inr err) /\ st_same s s'.
Proof.
  intros Hne Hp Hrun. unfold generateCIDRsForInjectionRule in Hrun.
  destruct (rule_Injections rule) as [|inj injs]; [done|]. cbn [generate_loop] in Hrun.
  apply bindM_Ret_inv in Hrun as (r & s1 & Hloop & Hrun).
  apply bindM_Ret_inv in Hloop as (p & s2 & Htry & Hloop).
  apply try_parents_unregistered in Htry as [-> Hs]; [|done].
  assert (range (∅ : gmap string Prefix) = []) as Hr.
  { apply Permutation_nil_r. rewrite range_perm. by rewrite map_to_list_empty. }
  unfold release_raw in Hloop. rewrite Hr in Hloop. simpl in Hloop. go_run. split; [by eexists|done].
Qed.

(** Without a periodic refresh a reconciliation of the config leaves the instance alone. *)
Lemma reconcile_config_same_IPAM t c cfg :
  refresh_enabled cfg = None -> preserves (fun s s' => IPAM s' = IPAM s) (reconcile_config t c cfg).
Proof.
  intros Href. assert (PreOrder (fun s s' : gostate => IPAM s' = IPAM s)) as Hpre.
  { split; [by intros s|]. intros s1 s2 s3. by intros -> ->. }
  assert (forall A (m : M A), preserves only_calls m -> preserves (fun s s' => IPAM s' = IPAM s) m) as Hoc.
  { intros A m Hm s. specialize (Hm s). unfold only_calls in Hm. by rewrite Hm. }
  pose proof (fun cfg => Hoc _ _ (FetchRelevant_only_calls cfg)).
  assert (forall x, preserves (fun s s' => IPAM s' = IPAM s) (SetConfig x)) by (by intros x s).
  assert (forall l, preserves (fun s s' => IPAM s' = IPAM s) (queue_clusters l)).
  { intros l. unfold queue_clusters. go_struct; by intros s. }
  unfold reconcile_config, finish, GetConfig. rewrite Href. go_struct.
Qed.

(** C38: A parent CIDR added to the config while the process runs cannot be used until the next
    restore: without a periodic refresh, a reconciliation of the changed config stores it but
    registers nothing with the IPAM instance, and generating CIDRs for a rule then fails, and
    changes nothing, if none of the config's parent CIDRs was registered before. *)
Theorem new_parents_unused t c cfg s res s1 rule g s2 :
  refresh_enabled cfg = None ->
  (forall id cidrs, ParentCIDRs (Spec cfg) !! id = Some cidrs -> unregistered cidrs s) ->
  rule_Injections rule <> [] ->
  reconcile_config t c cfg s = (Ret res, s1) ->
  generateCIDRsForInjectionRule rule (ParentCIDRs (Spec cfg)) s1 = (Ret g, s2) ->
  (exists err, g = inr err) /\ st_known s2 = st_known s.
Proof.
  intros Href Hp Hne Hrec Hgen.
  pose proof (preserves_run _ _ _ _ _ (reconcile_config_same_IPAM t c cfg Href) Hrec) as HI. simpl in HI.
  assert (st_known s1 = st_known s) as Hk by (unfold st_known; by rewrite HI).
  apply generate_unregistered in Hgen as [Hg (Hk2 & _)]; [|done|].
  - split; [done|]. by rewrite Hk2.
  - intros id cidrs Hid. unfold unregistered. rewrite Hk. by apply (Hp id).
Qed.
End interplay.
