(* ===== verification/Events.v ===== *)
(** * Which events the controllers react to

    The SetupWithManager functions of internal/controllers/cluster/controller.go and
    internal/controllers/config/controller.go. The predicates come from
    controller-runtime and controller-utils ([CtrlPredicates]); the laws
    ([CtrlPredicatesLaws]) say what those do on the events the theorems are about. *)

From stdpp Require Import base list strings gmap.
From S2P Require Import Prelude GoStd Types Externals Runtime Utils RestoreState ConfigController.
Open Scope list_scope.
Open Scope Z_scope.

Section events.
Context {OM : OpenMCP} {GI : GoIpam} {KA : K8sApi} {CU : CtrlUtils}.

(** ** Objects and events *)

(** A [client.Object] of one of the watched kinds. *)
Inductive Object : Type :=
  | OCluster (cl : Cluster)
  | OClusterConfig (cc : ClusterConfig)
  | OIPAMConfig (cfg : IPAMConfig).

Definition obj_meta (o : Object) : ObjectMeta :=
  match o with
  | OCluster cl => cl_meta cl
  | OClusterConfig cc => cc_meta cc
  | OIPAMConfig cfg => cfg_meta cfg
  end.

Inductive event : Type :=
  | ECreate (o : Object)
  | EUpdate (old new : Object)
  | EDelete (o : Object)
  | EGeneric (o : Object).

(** What a predicate on objects looks at: for an update the new object. *)
Definition event_object (ev : event) : Object :=
  match ev with ECreate o | EUpdate _ o | EDelete o | EGeneric o => o end.

Definition has_annotation (key value : string) (o : Object) : bool :=
  bool_decide (Annotations (obj_meta o) !! key = Some value).
Definition has_label (key value : string) (o : Object) : bool :=
  bool_decide (Labels (obj_meta o) !! key = Some value).

Class CtrlPredicates : Type := {
  predicate : Type;
  (** the Create, Update, Delete and Generic methods of a predicate *)
  accepts : predicate -> event -> M bool;
  pred_And : list predicate -> predicate;
  pred_Or : list predicate -> predicate;
  pred_Not : predicate -> predicate;
  NewPredicateFuncs : (Object -> M bool) -> predicate;
  GenerationChangedPredicate : predicate;
  OnCreatePredicate : predicate;
  OnUpdatePredicate : predicate;
  OnDeletePredicate : predicate;
  DeletionTimestampChangedPredicate : predicate;
  ExactNamePredicate : string -> string -> predicate;
  HasLabelPredicate : string -> string -> predicate;
  HasAnnotationPredicate : string -> string -> predicate;
  GotAnnotationPredicate : string -> string -> predicate;
  LostAnnotationPredicate : string -> string -> predicate }.

(** Evaluating [p] on [ev] in the state [s] gives [b] and changes nothing. *)
Definition answers `{CtrlPredicates} (s : gostate) (ev : event) (p : predicate) (b : bool) : Prop :=
  accepts p ev s = (Ret b, s).

Class CtrlPredicatesLaws `{CtrlPredicates} : Prop := {
  answers_And s ev ps bs : Forall2 (answers s ev) ps bs -> answers s ev (pred_And ps) (forallb id bs);
  answers_Or s ev ps bs : Forall2 (answers s ev) ps bs -> answers s ev (pred_Or ps) (existsb id bs);
  answers_Not s ev p b : answers s ev p b -> answers s ev (pred_Not p) (negb b);
  accepts_Funcs f ev : accepts (NewPredicateFuncs f) ev = f (event_object ev);
  answers_OnCreate s ev : answers s ev OnCreatePredicate (match ev with ECreate _ => true | _ => false end);
  answers_OnUpdate s ev : answers s ev OnUpdatePredicate (match ev with EUpdate _ _ => true | _ => false end);
  answers_OnDelete s ev : answers s ev OnDeletePredicate (match ev with EDelete _ => true | _ => false end);
  answers_HasLabel s ev k v : v <> "" -> answers s ev (HasLabelPredicate k v) (has_label k v (event_object ev));
  answers_HasAnnotation s ev k v : v <> "" ->
    answers s ev (HasAnnotationPredicate k v) (has_annotation k v (event_object ev));
  (** an annotation can be gained or lost in an update; on the other events only an answer
      is promised *)
  answers_Got s old new k v : v <> "" ->
    answers s (EUpdate old new) (GotAnnotationPredicate k v) (negb (has_annotation k v old) && has_annotation k v new);
  answers_Lost s old new k v : v <> "" ->
    answers s (EUpdate old new) (LostAnnotationPredicate k v) (has_annotation k v old && negb (has_annotation k v new));
  Got_answers s ev k v : exists b, answers s ev (GotAnnotationPredicate k v) b;
  Lost_answers s ev k v : exists b, answers s ev (LostAnnotationPredicate k v) b;
  GenerationChanged_answers s ev : exists b, answers s ev GenerationChangedPredicate b;
  DeletionTimestampChanged_answers s ev : exists b, answers s ev DeletionTimestampChangedPredicate b;
  answers_DeletionTimestampChanged s old new :
    DeletionTimestamp (obj_meta old) <> DeletionTimestamp (obj_meta new) ->
    answers s (EUpdate old new) DeletionTimestampChangedPredicate true;
  answers_ExactName s ev name : name <> "" ->
    answers s ev (ExactNamePredicate name "") (bool_decide (Name (obj_meta (event_object ev)) = name));
  (** two constants of the openmcp API *)
  Operation_values_nonempty : OperationAnnotationValueReconcile <> "" /\ OperationAnnotationValueIgnore <> "" }.

Context {CP : CtrlPredicates}.

(** ** What is watched *)

Inductive watched_kind : Type := KCluster | KClusterConfig | KIPAMConfig.

(** The [For], [Owns] and [WatchesRawSource] calls on the controller builder; the channel is
    [shared.ClusterWatch]. *)
Inductive watch : Type :=
  | For (k : watched_kind) (p : predicate)
  | Owns (k : watched_kind) (p : predicate)
  | WatchesClusterChannel.

Definition GotReconcile : predicate := GotAnnotationPredicate OperationAnnotation OperationAnnotationValueReconcile.
Definition LostIgnore : predicate := LostAnnotationPredicate OperationAnnotation OperationAnnotationValueIgnore.
Definition NotIgnored : predicate := pred_Not (HasAnnotationPredicate OperationAnnotation OperationAnnotationValueIgnore).

(** The function handed to NewPredicateFuncs; of the kinds watched only Cluster has
    purposes. *)
Definition selected_by_rule (obj : Object) : M bool :=
  let! cfg := GetConfig in
  match cfg with
  | None => retM false
  | Some cfg =>
      match obj with
      | OCluster pobj => retM (existsb (fun rule => rule_Matches rule pobj) (InjectionRules (Spec cfg)))
      | _ => retM false
      end
  end.

Definition cluster_predicate : predicate :=
  pred_And [NewPredicateFuncs selected_by_rule;
            pred_Or [OnCreatePredicate; OnDeletePredicate; GotReconcile; LostIgnore];
            NotIgnored].

Definition owned_predicate (provider env : string) : predicate :=
  pred_And [HasLabelPredicate ManagedByLabel provider;
            HasLabelPredicate ManagedPurposeLabel ManagedPurposeLabelValue;
            HasLabelPredicate EnvironmentLabel env;
            pred_Or [OnUpdatePredicate; OnDeletePredicate; GotReconcile; LostIgnore];
            NotIgnored].

(** IPAMClusterController.SetupWithManager, up to Complete. *)
Definition cluster_watches : M (list watch) :=
  let! provider := ProviderName in
  let! env := Environment in
  retM [For KCluster cluster_predicate;
        Owns KClusterConfig (owned_predicate provider env);
        WatchesClusterChannel].

Definition config_predicate (c : IPAMConfigController) : predicate :=
  pred_And [ExactNamePredicate (ctl_ProviderName c) "";
            pred_Or [GenerationChangedPredicate; DeletionTimestampChangedPredicate; GotReconcile; LostIgnore];
            NotIgnored].

(** IPAMConfigController.SetupWithManager, up to Complete. *)
Definition config_watches (c : IPAMConfigController) : list watch := [For KIPAMConfig (config_predicate c)].

Definition NewIPAMConfigController (providerName : string) (er : bool) (now : Z) : IPAMConfigController :=
  {| ctl_ProviderName := providerName; ctl_er := er; lastRefreshTime := now |}.

(** ** Theorems *)

Context {CPL : CtrlPredicatesLaws}.

Definition ignored : Object -> bool := has_annotation OperationAnnotation OperationAnnotationValueIgnore.
Definition to_reconcile : Object -> bool := has_annotation OperationAnnotation OperationAnnotationValueReconcile.

(** The update sets the reconcile annotation or removes the ignore annotation. *)
Definition triggered (old new : Object) : bool :=
  (negb (to_reconcile old) && to_reconcile new) || (ignored old && negb (ignored new)).

Lemma answers_NotIgnored s ev : answers s ev NotIgnored (negb (ignored (event_object ev))).
Proof. apply answers_Not, answers_HasAnnotation, Operation_values_nonempty. Qed.

Lemma answers_triggers s ev (ps : list predicate) bs :
  Forall2 (answers s ev) ps bs ->
  exists b, answers s ev (pred_Or (ps ++ [GotReconcile; LostIgnore])) (existsb id bs || b) /\
    (forall old new, ev = EUpdate old new -> b = triggered old new).
Proof.
  intros Hps. destruct Operation_values_nonempty as [Hr Hi].
  assert (exists b1 b2, answers s ev GotReconcile b1 /\ answers s ev LostIgnore b2 /\
    (forall old new, ev = EUpdate old new -> b1 || b2 = triggered old new)) as (b1 & b2 & H1 & H2 & Hb).
  { destruct ev as [o|old new|o|o].
    2: { eexists _, _. split; [by apply answers_Got|]. split; [by apply answers_Lost|]. by intros ?? [= -> ->]. }
    all: edestruct Got_answers as [b1 H1], Lost_answers as [b2 H2]; exists b1, b2; by split_and!. }
  exists (b1 || b2). split; [|done].
  replace (existsb id bs || (b1 || b2)) with (existsb id (bs ++ [b1; b2])).
  { apply answers_Or, Forall2_app; [done|]. by repeat constructor. }
  rewrite existsb_app. simpl. by rewrite orb_false_r.
Qed.

Lemma answers_all s ev ps bs : Forall2 (answers s ev) ps bs -> accepts (pred_And ps) ev s = (Ret (forallb id bs), s).
Proof. apply answers_And. Qed.

(** A rule of the stored config selects the cluster, and it is not to be ignored. *)
Definition wanted (s : gostate) (cl : Cluster) : bool :=
  match config s with
  | Some cfg => relevant cfg cl && negb (ignored (OCluster cl))
  | None => false
  end.

Lemma cluster_predicate_answers ev cl s :
  event_object ev = OCluster cl ->
  exists b, accepts cluster_predicate ev s =
      (Ret (wanted s cl && match ev with ECreate _ | EDelete _ => true | _ => b end), s) /\
    (forall old new, ev = EUpdate old new -> b = triggered old new).
Proof.
  intros Hev.
  destruct (answers_triggers s ev [OnCreatePredicate; OnDeletePredicate]
    [match ev with ECreate _ => true | _ => false end; match ev with EDelete _ => true | _ => false end])
    as (b & Hb & Ht).
  { constructor; [apply answers_OnCreate|]. constructor; [apply answers_OnDelete|constructor]. }
  exists b. split; [|done].
  assert (answers s ev (NewPredicateFuncs selected_by_rule)
    (match config s with Some cfg => relevant cfg cl | None => false end)) as Hsel.
  { unfold answers. rewrite accepts_Funcs, Hev. unfold selected_by_rule, GetConfig, bindM, getM, retM.
    by destruct (config s). }
  pose proof (answers_NotIgnored s ev) as Hn. rewrite Hev in Hn.
  unfold cluster_predicate. erewrite answers_all;
    [|constructor; [exact Hsel|]; constructor; [exact Hb|]; constructor; [exact Hn|constructor]].
  unfold wanted. simpl. f_equal. f_equal.
  destruct ev, (config s) as [cfg|]; simpl; try done;
    by destruct (relevant cfg cl), b, (ignored _).
Qed.

(** C27: The cluster controller reacts to an event of a Cluster exactly as designed: never while
    no config is stored; to a creation and to a deletion if a rule of the stored config selects
    the cluster and it does not carry the "ignore" annotation; to an update only if, besides
    that, the update added the "reconcile" annotation or removed "ignore". *)
Theorem cluster_events s cl :
  accepts cluster_predicate (ECreate (OCluster cl)) s = (Ret (wanted s cl), s) /\
  accepts cluster_predicate (EDelete (OCluster cl)) s = (Ret (wanted s cl), s) /\
  (forall old, accepts cluster_predicate (EUpdate old (OCluster cl)) s =
     (Ret (wanted s cl && triggered old (OCluster cl)), s)) /\
  (config s = None -> forall ev, event_object ev = OCluster cl -> accepts cluster_predicate ev s = (Ret false, s)).
Proof.
  split_and!.
  - destruct (cluster_predicate_answers (ECreate (OCluster cl)) cl s eq_refl) as (b & -> & _). by rewrite andb_true_r.
  - destruct (cluster_predicate_answers (EDelete (OCluster cl)) cl s eq_refl) as (b & -> & _). by rewrite andb_true_r.
  - intros old. destruct (cluster_predicate_answers (EUpdate old (OCluster cl)) cl s eq_refl) as (b & -> & Hb).
    by rewrite (Hb _ _ eq_refl).
  - intros Hc ev Hev. destruct (cluster_predicate_answers ev cl s Hev) as (b & -> & _). unfold wanted. by rewrite Hc.
Qed.

Lemma owned_predicate_answers s ev provider env :
  provider <> "" -> env <> "" ->
  exists b, accepts (owned_predicate provider env) ev s =
    (Ret (has_label ManagedByLabel provider (event_object ev) &&
          has_label ManagedPurposeLabel ManagedPurposeLabelValue (event_object ev) &&
          has_label EnvironmentLabel env (event_object ev) &&
          (match ev with EUpdate _ _ | EDelete _ => true | _ => b end) &&
          negb (ignored (event_object ev))), s).
Proof.
  intros Hp He.
  destruct (answers_triggers s ev [OnUpdatePredicate; OnDeletePredicate]
    [match ev with EUpdate _ _ => true | _ => false end; match ev with EDelete _ => true | _ => false end])
    as (b & Hb & _).
  { constructor; [apply answers_OnUpdate|]. constructor; [apply answers_OnDelete|constructor]. }
  exists b. unfold owned_predicate. erewrite answers_all;
    [|repeat (constructor; [apply answers_HasLabel; done|]); constructor; [exact Hb|]; constructor;
      [apply answers_NotIgnored|constructor]].
  simpl. f_equal. f_equal. rewrite andb_true_r, !andb_assoc. by destruct ev.
Qed.

(** The three labels of the process, as a map and one by one. *)
Lemma labels_match {HL : OpenMCPLaws} provider env o :
  has_label ManagedByLabel provider o && has_label ManagedPurposeLabel ManagedPurposeLabelValue o &&
  has_label EnvironmentLabel env o = true <-> labels_of provider env None "" ⊆ Labels (obj_meta o).
Proof.
  pose proof labels_distinct as Hd. rewrite !NoDup_cons, !not_elem_of_cons in Hd.
  destruct Hd as ((? & ? & _) & (? & _) & _). unfold has_label, labels_of.
  rewrite !andb_true_iff, !bool_decide_eq_true, decide_False by (intros []; done). split.
  - intros [[Hx Hy] Hz]. apply map_subseteq_spec. intros k v Hk.
    apply lookup_insert_Some in Hk as [[<- <-]|[_ Hk]]; [done|].
    apply lookup_insert_Some in Hk as [[<- <-]|[_ Hk]]; [done|].
    by apply lookup_singleton_Some in Hk as [<- <-].
  - intros Hsub. rewrite map_subseteq_spec in Hsub. split_and!; apply Hsub.
    + by rewrite !lookup_insert_ne, lookup_singleton_eq by done.
    + by rewrite lookup_insert_ne, lookup_insert_eq by done.
    + by rewrite lookup_insert_eq.
Qed.

(** The labels a generated ClusterConfig carries are those of the watch. *)
Lemma generated_labels `{!GoMapOrder} {HL : OpenMCPLaws} cl r inj s cc s' :
  GenerateClusterConfigForInjectionList cl r inj s = (Ret (inl cc), s') ->
  providerName s <> "" /\ environment s <> "" /\
  labels_of (providerName s) (environment s) None "" ⊆ Labels (cc_meta cc) /\
  OwnerReferences (cc_meta cc) =
    [{| or_APIVersion := ClustersGroupVersion; or_Kind := "Cluster"; or_Name := Name (cl_meta cl);
        or_UID := UID (cl_meta cl); or_Controller := Some true; or_BlockOwnerDeletion := Some false |}].
Proof.
  unfold GenerateClusterConfigForInjectionList.
  destruct (GenerateClusterConfigName _ _) as [name|]; intros Hrun; [|by go_run].
  apply bindM_Ret_inv in Hrun as (labels & s1 & Hl & Hrun).
  assert (providerName s <> "" /\ environment s <> "") as [Hp He].
  { unfold ClusterConfigLabels, ProviderName, Environment in Hl. go_run. repeat (case_decide; go_run); done. }
  apply ClusterConfigLabels_run in Hl as [-> ->].
  pose proof (labels_of_mono (providerName s) (environment s) cl r) as [Hm1 Hm2].
  go_run. split_and!; try done. by etrans.
Qed.

End events.
