(* ===== verification/ConfigValidation.v ===== *)
(** * internal/webhooks/config-validation.go *)

From stdpp Require Import base list strings gmap.
From S2P Require Import Prelude GoStd Types Externals.
Open Scope list_scope.
Open Scope Z_scope.

(** [field.Path] and the errors of package [field]. *)
Inductive pathseg : Type :=
  | PChild (s : string)
  | PIndex (i : nat)
  | PKey (k : string).

Inductive field_error : Type :=
  | FieldInvalid (fldPath : list pathseg) (value detail : string)
  | FieldDuplicate (fldPath : list pathseg) (value : string)
  | FieldRequired (fldPath : list pathseg) (detail : string).

Section validation.
Context {OM : OpenMCP} {GI : GoIpam} {GO : GoMapOrder}.

Notation V := (goM unit).

(** ** validateSpec: sizes of the parents *)

(** The loop over the CIDRs of one parent ID. *)
Fixpoint parent_sizes (fldPath : list pathseg) (i : nat) (smallest : Z) (errs : list field_error)
    (cidrs : list string) : V (Z * list field_error) :=
  match cidrs with
  | [] => retM (smallest, errs)
  | cidr :: cidrs =>
      let split := strings_Split cidr slash in
      let errs := if decide (length split <> 2%nat)
                  then errs ++ [FieldInvalid (fldPath ++ [PIndex i]) cidr "invalid CIDR format"]
                  else errs in
      match split !! 1%nat with
      | None => panicM "index out of range: split[1]"
      | Some split1 =>
          let '(size, err) := Atoi split1 in
          let errs := match err with
                      | Some _ => errs ++ [FieldInvalid (fldPath ++ [PIndex i]) cidr
                                             "CIDR size cannot be parsed as integer"]
                      | None => errs
                      end in
          parent_sizes fldPath (S i) (if smallest <? size then size else smallest) errs cidrs
      end
  end.

Definition all_parent_sizes (fldPath : list pathseg) (parentCIDRs : gmap string (list string)) :
    V (gmap string Z * list field_error) :=
  foldM (fun acc ic =>
    let! (smallest, errs) := parent_sizes (fldPath ++ [PChild "parentCIDRs"; PKey ic.1]) 0 0 acc.2 ic.2 in
    retM (<[ic.1 := smallest]> acc.1, errs)) (∅, []) (range parentCIDRs).

(** ** validateParentCIDRs *)

Definition seen_step (fldPath : list pathseg) (id : string)
    (acc : gmap string (list string) * list field_error) (ic : nat * string) :
    gmap string (list string) * list field_error :=
  let '(seenCIDRs, errs) := acc in
  let '(i, cidr) := ic in
  let overlaps := filter (fun oc => is_Some (PrefixesOverlapping [oc.1] [cidr])) (range seenCIDRs) in
  (<[cidr := default [] (seenCIDRs !! cidr) ++ [id]]> seenCIDRs,
   errs ++ ((fun _ => FieldInvalid (fldPath ++ [PChild id; PIndex i]) cidr
                        "parent cidr overlaps with another parent cidr") <$> overlaps)).

Definition validateParentCIDRs (parentCIDRs : gmap string (list string)) (fldPath : list pathseg) :
    list field_error :=
  (foldl (fun acc idc => foldl (seen_step fldPath idc.1) acc (imap (fun i c => (i, c)) idc.2))
     (∅, []) (range parentCIDRs)).2.

(** ** validateInjections *)

Record inj_acc : Type := {
  tmpIDsToSizes : gmap string Z;
  pathsToIndices : gmap string nat;
  inj_errs : list field_error }.

Definition check_ID (parentIDsToSizes : gmap string Z) (ipath : list pathseg)
    (injection : SingleCIDRInjection) (acc : inj_acc) : inj_acc :=
  if decide (inj_ID injection = "") then acc
  else
    {| tmpIDsToSizes := <[inj_ID injection := inj_SubnetSize injection]> (tmpIDsToSizes acc);
       pathsToIndices := pathsToIndices acc;
       inj_errs := inj_errs acc ++
         (match tmpIDsToSizes acc !! inj_ID injection with
          | Some _ => [FieldDuplicate (ipath ++ [PChild "id"]) (inj_ID injection)]
          | None => []
          end) ++
         (match parentIDsToSizes !! inj_ID injection with
          | Some _ => [FieldInvalid (ipath ++ [PChild "id"]) (inj_ID injection)
                         "injection ID cannot be the same as a parent CIDRs ID"]
          | None => []
          end) |}.

(** A path of the injection at index [i]; both error texts are [FieldInvalid]. *)
Definition check_path (i : nat) (fldPath : list pathseg) (acc : inj_acc) (path : string) : inj_acc :=
  match pathsToIndices acc !! path with
  | Some _ =>
      {| tmpIDsToSizes := tmpIDsToSizes acc; pathsToIndices := pathsToIndices acc;
         inj_errs := inj_errs acc ++ [FieldInvalid fldPath path "injection injects into the same path"] |}
  | None =>
      {| tmpIDsToSizes := tmpIDsToSizes acc; pathsToIndices := <[path := i]> (pathsToIndices acc);
         inj_errs := inj_errs acc |}
  end.

Definition check_parent (parentIDsToSizes : gmap string Z) (ipath : list pathseg)
    (injection : SingleCIDRInjection) (acc : inj_acc) (jp : nat * string) : inj_acc :=
  let '(j, parent) := jp in
  let ppath := ipath ++ [PChild "parents"; PIndex j] in
  let errs :=
    match parentIDsToSizes !! parent, tmpIDsToSizes acc !! parent with
    | None, None => [FieldInvalid ppath parent "parent ID is neither in the global list of parent CIDRs, nor the id of a previous injection"]
    | smallestParentSize, tmpSize =>
        (match tmpSize with
         | Some tmpSize => if inj_SubnetSize injection <=? tmpSize
                           then [FieldInvalid ppath parent "not smaller than the parent"] else []
         | None => []
         end) ++
        (match smallestParentSize with
         | Some smallest => if inj_SubnetSize injection <=? smallest
                            then [FieldInvalid ppath parent "not smaller than a possible parent CIDR"] else []
         | None => []
         end)
    end in
  {| tmpIDsToSizes := tmpIDsToSizes acc; pathsToIndices := pathsToIndices acc;
     inj_errs := inj_errs acc ++ errs |}.

Definition check_injection (parentIDsToSizes : gmap string Z) (fldPath : list pathseg) (acc : inj_acc)
    (ii : nat * SingleCIDRInjection) : inj_acc :=
  let '(i, injection) := ii in
  let ipath := fldPath ++ [PIndex i] ++
               (if decide (inj_ID injection = "") then [] else [PKey (inj_ID injection)]) in
  let acc := check_ID parentIDsToSizes ipath injection acc in
  let acc := if decide (length (GetPaths injection) = 0%nat)
             then {| tmpIDsToSizes := tmpIDsToSizes acc; pathsToIndices := pathsToIndices acc;
                     inj_errs := inj_errs acc ++ [FieldRequired ipath "at least one path must be specified, either via 'path' or via 'paths'"] |}
             else acc in
  let acc := if decide (inj_Path injection = "") then acc
             else check_path i (ipath ++ [PChild "path"]) acc (inj_Path injection) in
  let acc := foldl (fun acc jp => check_path i (ipath ++ [PChild "paths"; PIndex jp.1]) acc jp.2)
               acc (imap (fun j p => (j, p)) (inj_Paths injection)) in
  foldl (check_parent parentIDsToSizes ipath injection) acc
    (imap (fun j p => (j, p)) (inj_Parents injection)).

Definition validateInjections (injections : list SingleCIDRInjection)
    (parentIDsToSizes : gmap string Z) (fldPath : list pathseg) : list field_error :=
  inj_errs (foldl (check_injection parentIDsToSizes fldPath)
              {| tmpIDsToSizes := ∅; pathsToIndices := ∅; inj_errs := [] |}
              (imap (fun i x => (i, x)) injections)).

(** ** validateInjectionRules, validateSpec, ValidateConfig *)

Definition check_rule_id (parentIDsToSizes : gmap string Z) (fldPath : list pathseg)
    (acc : gset string * list field_error) (ir : nat * CIDRInjection) : gset string * list field_error :=
  let '(knownIDs, errs) := acc in
  let '(i, rule) := ir in
  let rpath := fldPath ++ [PIndex i; PKey (rule_ID rule)] in
  ({[rule_ID rule]} ∪ knownIDs,
   errs ++
   (if decide (rule_ID rule ∈ knownIDs) then [FieldDuplicate (rpath ++ [PChild "id"]) (rule_ID rule)] else []) ++
   validateInjections (rule_Injections rule) parentIDsToSizes (rpath ++ [PChild "injections"])).

Definition validateInjectionRules (rules : list CIDRInjection) (parentIDsToSizes : gmap string Z)
    (fldPath : list pathseg) : list field_error :=
  (foldl (check_rule_id parentIDsToSizes fldPath) (∅, []) (imap (fun i r => (i, r)) rules)).2.

Definition validateSpec (spec : IPAMConfigSpec) (fldPath : list pathseg) : V (list field_error) :=
  let! (parentIDsToSizes, errs) := all_parent_sizes fldPath (ParentCIDRs spec) in
  retM (errs ++ validateParentCIDRs (ParentCIDRs spec) (fldPath ++ [PChild "parentCIDRs"]) ++
        validateInjectionRules (InjectionRules spec) parentIDsToSizes (fldPath ++ [PChild "injectionRules"])).

(** [ToAggregate]: no error when the list is empty. *)
Definition ValidateConfig (cfg : option IPAMConfig) : outcome (list field_error) :=
  match cfg with
  | None => Ret []
  | Some cfg => (validateSpec (Spec cfg) [PChild "spec"] tt).1
  end.

Definition ValidateCreate (cfg : option IPAMConfig) : outcome (list field_error) := ValidateConfig cfg.
Definition ValidateUpdate (old new : option IPAMConfig) : outcome (list field_error) := ValidateConfig new.
Definition ValidateDelete (cfg : option IPAMConfig) : outcome (list field_error) := Ret [].
End validation.

(** ** Lemmas: what an injection list without errors is like *)

Section injections.
Context {OM : OpenMCP} {GI : GoIpam} {GO : GoMapOrder}.
Context (parentIDsToSizes : gmap string Z).

(** The paths of an injection, as [GetPaths] lists them. *)
Definition val_paths (inj : SingleCIDRInjection) : list string :=
  (if decide (inj_Path inj = "") then [] else [inj_Path inj]) ++ inj_Paths inj.

Lemma GetPaths_val_paths inj : pws_Path <$> GetPaths inj = val_paths inj.
Proof.
  unfold GetPaths, val_paths. rewrite fmap_app, fmap_imap. f_equal; [by case_decide|].
  rewrite (imap_ext _ (fun _ p => p)) by done.
  induction (inj_Paths inj) as [|p l IH]; [done|]. rewrite imap_cons. f_equal. exact IH.
Qed.

(** [acc'] extends [acc]: the errors grow, and there are no new ones exactly if [P] holds. *)
Definition errs_then (acc acc' : inj_acc) (P : Prop) : Prop :=
  exists more, inj_errs acc' = inj_errs acc ++ more /\ (more = [] <-> P).

Lemma errs_then_trans a1 a2 a3 P Q :
  errs_then a1 a2 P -> errs_then a2 a3 Q -> errs_then a1 a3 (P /\ Q).
Proof.
  intros (m1 & H1 & HP) (m2 & H2 & HQ). exists (m1 ++ m2). rewrite H2, H1, <- app_assoc.
  split; [done|]. rewrite <- HP, <- HQ. split; [apply app_eq_nil|]. by intros [-> ->].
Qed.

Lemma errs_then_iff a1 a2 (P Q : Prop) : errs_then a1 a2 P -> (P <-> Q) -> errs_then a1 a2 Q.
Proof. intros (m & H & HP) HQ. exists m. by rewrite HP. Qed.

Lemma errs_then_nil a1 a2 P : errs_then a1 a2 P -> inj_errs a2 = [] <-> inj_errs a1 = [] /\ P.
Proof.
  intros (m & -> & <-). split; [apply app_eq_nil|]. by intros [-> ->].
Qed.

Lemma errs_then_same a1 a2 (P : Prop) : inj_errs a2 = inj_errs a1 -> P -> errs_then a1 a2 P.
Proof. intros He HP. exists []. by rewrite app_nil_r. Qed.

Lemma errs_then_new a1 a2 e l (P : Prop) : inj_errs a2 = inj_errs a1 ++ e :: l -> ~ P -> errs_then a1 a2 P.
Proof. intros He HP. exists (e :: l). by split; [|split; [|intros]]. Qed.

Lemma check_path_ok i fld acc path :
  tmpIDsToSizes (check_path i fld acc path) = tmpIDsToSizes acc /\
  dom (pathsToIndices (check_path i fld acc path)) = {[path]} ∪ dom (pathsToIndices acc) /\
  errs_then acc (check_path i fld acc path) (path ∉ dom (pathsToIndices acc)).
Proof.
  unfold check_path. destruct (pathsToIndices acc !! path) as [j|] eqn:Hp; simpl.
  - apply elem_of_dom_2 in Hp. split_and!; [done|set_solver|]. by eapply errs_then_new; [|intros H].
  - split_and!; [done|by rewrite dom_insert_L|]. apply errs_then_same; [done|]. by apply not_elem_of_dom.
Qed.

(** All of them different and new. *)
Definition paths_new (l : list string) (D : gset string) : Prop := NoDup l /\ forall p, p ∈ l -> p ∉ D.

Lemma paths_new_cons p l D : p ∉ D /\ paths_new l ({[p]} ∪ D) <-> paths_new (p :: l) D.
Proof.
  unfold paths_new. rewrite NoDup_cons. split.
  - intros (Hp & Hnd & Hl). split_and!; [|done|].
    + intros Hin. specialize (Hl p Hin). set_solver.
    + intros q [->|Hq]%elem_of_cons; [done|]. specialize (Hl q Hq). set_solver.
  - intros ([Hp Hnd] & Hl). split_and!; [apply Hl; by left|done|]. intros q Hq.
    assert (q <> p) by congruence. specialize (Hl q). set_solver.
Qed.

Lemma check_paths_ok i (fld : nat * string -> list pathseg) acc l :
  let acc' := foldl (fun acc jp => check_path i (fld jp) acc jp.2) acc l in
  tmpIDsToSizes acc' = tmpIDsToSizes acc /\
  dom (pathsToIndices acc') = list_to_set l.*2 ∪ dom (pathsToIndices acc) /\
  errs_then acc acc' (paths_new l.*2 (dom (pathsToIndices acc))).
Proof.
  revert acc. induction l as [|[j p] l IH]; intros acc; simpl.
  - split_and!; [done|set_solver|]. apply errs_then_same; [done|].
    split; [constructor|]. by intros p ?%not_elem_of_nil.
  - destruct (check_path_ok i (fld (j, p)) acc p) as (Ht & Hd & He).
    destruct (IH (check_path i (fld (j, p)) acc p)) as (Ht' & Hd' & He').
    split_and!; [by rewrite Ht'|rewrite Hd', Hd; set_solver|].
    eapply errs_then_iff; [eapply errs_then_trans; [exact He|exact He']|].
    rewrite Hd. apply paths_new_cons.
Qed.

Lemma imap_pairs_snd {A} (l : list A) : (imap (fun j p => (j, p)) l).*2 = l.
Proof.
  rewrite fmap_imap. rewrite (imap_ext _ (fun _ p => p)) by done.
  induction l as [|p l IH]; [done|]. rewrite imap_cons. f_equal. exact IH.
Qed.

(** The two path loops together. *)
Lemma paths_stage i fld fld' acc inj :
  let acc1 := if decide (inj_Path inj = "") then acc else check_path i fld acc (inj_Path inj) in
  let acc' := foldl (fun acc jp => check_path i (fld' jp) acc jp.2) acc1
                (imap (fun j p => (j, p)) (inj_Paths inj)) in
  tmpIDsToSizes acc' = tmpIDsToSizes acc /\
  dom (pathsToIndices acc') = list_to_set (val_paths inj) ∪ dom (pathsToIndices acc) /\
  errs_then acc acc' (paths_new (val_paths inj) (dom (pathsToIndices acc))).
Proof.
  intros acc1 acc'.
  destruct (check_paths_ok i fld' acc1 (imap (fun j p => (j, p)) (inj_Paths inj))) as (Ht & Hd & He).
  fold acc' in Ht, Hd, He. rewrite imap_pairs_snd in Hd, He. unfold val_paths.
  subst acc1. case_decide as Hp; [by rewrite !app_nil_l|]. simpl.
  destruct (check_path_ok i fld acc (inj_Path inj)) as (Ht1 & Hd1 & He1).
  split_and!; [by rewrite Ht|rewrite Hd, Hd1; set_solver|].
  eapply errs_then_iff; [eapply errs_then_trans; [exact He1|exact He]|].
  rewrite Hd1. apply paths_new_cons.
Qed.

(** A parent an injection may have: a configured one or an injection seen before, and
    larger than what is asked for. *)
Definition parent_ok (tmp : gmap string Z) (inj : SingleCIDRInjection) (parent : string) : Prop :=
  (is_Some (parentIDsToSizes !! parent) \/ is_Some (tmp !! parent)) /\
  (forall n, parentIDsToSizes !! parent = Some n -> n < inj_SubnetSize inj) /\
  (forall n, tmp !! parent = Some n -> n < inj_SubnetSize inj).

Lemma check_parent_ok ipath inj acc j parent :
  let acc' := check_parent parentIDsToSizes ipath inj acc (j, parent) in
  tmpIDsToSizes acc' = tmpIDsToSizes acc /\ pathsToIndices acc' = pathsToIndices acc /\
  errs_then acc acc' (parent_ok (tmpIDsToSizes acc) inj parent).
Proof.
  unfold check_parent, parent_ok. simpl. split_and!; [done..|]. eexists. split; [done|].
  destruct (parentIDsToSizes !! parent) as [n|], (tmpIDsToSizes acc !! parent) as [m|]; simpl;
    repeat match goal with |- context [?a <=? ?b] => destruct (Z.leb_spec a b) end; simpl;
    (split; [intros [=]; (split_and!; [by eauto|intros ? [=]; lia..])|]);
    intros (Hk & H1 & H2); try done;
    repeat match goal with H : forall n, Some ?m = Some n -> _ |- _ => specialize (H m eq_refl) end;
    try lia; by destruct Hk as [[]|[]].
Qed.

Lemma parents_stage ipath inj acc l :
  let acc' := foldl (check_parent parentIDsToSizes ipath inj) acc l in
  tmpIDsToSizes acc' = tmpIDsToSizes acc /\ pathsToIndices acc' = pathsToIndices acc /\
  errs_then acc acc' (forall parent, parent ∈ l.*2 -> parent_ok (tmpIDsToSizes acc) inj parent).
Proof.
  revert acc. induction l as [|[j p] l IH]; intros acc; cbn [foldl]; cbv zeta; rewrite ?fmap_cons; cbn [snd].
  - split_and!; [done..|]. apply errs_then_same; [done|]. by intros p ?%not_elem_of_nil.
  - destruct (check_parent_ok ipath inj acc j p) as (Ht & Hp & He).
    destruct (IH (check_parent parentIDsToSizes ipath inj acc (j, p))) as (Ht' & Hp' & He'); cbv zeta in *.
    split_and!; [by rewrite Ht'|by rewrite Hp'|].
    eapply errs_then_iff; [eapply errs_then_trans; [exact He|exact He']|].
    rewrite Ht. setoid_rewrite elem_of_cons. naive_solver.
Qed.

Definition with_ID (tmp : gmap string Z) (inj : SingleCIDRInjection) : gmap string Z :=
  if decide (inj_ID inj = "") then tmp else <[inj_ID inj := inj_SubnetSize inj]> tmp.

Lemma check_ID_ok ipath inj acc :
  let acc' := check_ID parentIDsToSizes ipath inj acc in
  tmpIDsToSizes acc' = with_ID (tmpIDsToSizes acc) inj /\ pathsToIndices acc' = pathsToIndices acc /\
  errs_then acc acc' (inj_ID inj <> "" ->
    tmpIDsToSizes acc !! inj_ID inj = None /\ parentIDsToSizes !! inj_ID inj = None).
Proof.
  unfold check_ID, with_ID. cbv zeta. case_decide as Hid; simpl.
  - split_and!; [done..|]. by apply errs_then_same.
  - split_and!; [done..|]. eexists. split; [done|].
    destruct (tmpIDsToSizes acc !! inj_ID inj), (parentIDsToSizes !! inj_ID inj); simpl; naive_solver.
Qed.

(** One injection. *)
Definition injection_ok (acc : inj_acc) (inj : SingleCIDRInjection) : Prop :=
  (inj_ID inj <> "" -> tmpIDsToSizes acc !! inj_ID inj = None /\ parentIDsToSizes !! inj_ID inj = None) /\
  val_paths inj <> [] /\ paths_new (val_paths inj) (dom (pathsToIndices acc)) /\
  (forall parent, parent ∈ inj_Parents inj -> parent_ok (with_ID (tmpIDsToSizes acc) inj) inj parent).

Lemma check_injection_ok fldPath acc i inj :
  let acc' := check_injection parentIDsToSizes fldPath acc (i, inj) in
  tmpIDsToSizes acc' = with_ID (tmpIDsToSizes acc) inj /\
  dom (pathsToIndices acc') = list_to_set (val_paths inj) ∪ dom (pathsToIndices acc) /\
  errs_then acc acc' (injection_ok acc inj).
Proof.
  unfold check_injection. cbv zeta. set (ipath := fldPath ++ _).
  destruct (check_ID_ok ipath inj acc) as (Ht1 & Hp1 & He1).
  set (acc1 := check_ID _ _ _ _) in *.
  set (acc2 := if decide (length (GetPaths inj) = 0%nat) then _ else acc1).
  assert (tmpIDsToSizes acc2 = tmpIDsToSizes acc1 /\ pathsToIndices acc2 = pathsToIndices acc1 /\
          errs_then acc1 acc2 (val_paths inj <> [])) as (Ht2 & Hp2 & He2).
  { subst acc2. case_decide as Hl; simpl; (split_and!; [done..|]).
    - eapply errs_then_new; [done|]. intros Hn. apply Hn.
      rewrite <- GetPaths_val_paths. apply nil_length_inv. by rewrite length_fmap.
    - apply errs_then_same; [done|]. intros Hn. apply Hl.
      rewrite <- (length_fmap pws_Path), GetPaths_val_paths. by rewrite Hn. }
  destruct (paths_stage i (ipath ++ [PChild "path"]) (fun jp => ipath ++ [PChild "paths"; PIndex jp.1]) acc2 inj)
    as (Ht3 & Hp3 & He3).
  cbv zeta in Ht3, Hp3, He3. set (acc3 := foldl _ _ (imap _ (inj_Paths inj))) in *.
  destruct (parents_stage ipath inj acc3 (imap (fun j p => (j, p)) (inj_Parents inj))) as (Ht4 & Hp4 & He4).
  cbv zeta in Ht4, Hp4, He4. rewrite imap_pairs_snd in He4.
  split_and!.
  - by rewrite Ht4, Ht3, Ht2, Ht1.
  - by rewrite Hp4, Hp3, Hp2, Hp1.
  - eapply errs_then_iff.
    { eapply errs_then_trans; [exact He1|]. eapply errs_then_trans; [exact He2|].
      eapply errs_then_trans; [exact He3|exact He4]. }
    rewrite Ht3, Ht2, Hp2, Hp1, Ht1. unfold injection_ok. done.
Qed.

(** *** The whole list *)

(** The parent of an injection that comes behind [before]. *)
Definition parent_found (before : list SingleCIDRInjection) (inj : SingleCIDRInjection) (parent : string) : Prop :=
  (is_Some (parentIDsToSizes !! parent) \/ (parent <> "" /\ exists inj', inj' ∈ before /\ inj_ID inj' = parent)) /\
  (forall n, parentIDsToSizes !! parent = Some n -> n < inj_SubnetSize inj) /\
  (forall inj', inj' ∈ before -> inj_ID inj' = parent -> parent <> "" -> inj_SubnetSize inj' < inj_SubnetSize inj).

Record injections_ok (injs : list SingleCIDRInjection) : Prop := {
  ok_ids : NoDup (filter (fun id => id <> "") (inj_ID <$> injs));
  ok_ids_parents : forall inj, inj ∈ injs -> inj_ID inj <> "" -> parentIDsToSizes !! inj_ID inj = None;
  ok_paths : NoDup (concat (val_paths <$> injs));
  ok_some_path : Forall (fun inj => val_paths inj <> []) injs;
  ok_parents : forall l1 inj l2 parent, injs = l1 ++ inj :: l2 -> parent ∈ inj_Parents inj ->
    parent_found l1 inj parent }.

(** The accumulator behind [injs]. *)
Definition acc_of (injs : list SingleCIDRInjection) (acc : inj_acc) : Prop :=
  tmpIDsToSizes acc = foldl with_ID ∅ injs /\
  dom (pathsToIndices acc) = list_to_set (concat (val_paths <$> injs)).

Lemma with_ID_lookup injs id n :
  foldl with_ID ∅ injs !! id = Some n ->
  id <> "" /\ exists inj, inj ∈ injs /\ inj_ID inj = id /\ inj_SubnetSize inj = n.
Proof.
  induction injs as [|inj injs IH] using rev_ind; [simpl; by rewrite lookup_empty|].
  rewrite foldl_app. simpl. unfold with_ID at 1. setoid_rewrite elem_of_app.
  setoid_rewrite list_elem_of_singleton. case_decide as Hid; [naive_solver|].
  destruct (decide (inj_ID inj = id)) as [<-|Hne].
  - rewrite lookup_insert_eq. naive_solver.
  - rewrite lookup_insert_ne by done. naive_solver.
Qed.

Lemma with_ID_some injs inj : inj ∈ injs -> inj_ID inj <> "" -> is_Some (foldl with_ID ∅ injs !! inj_ID inj).
Proof.
  induction injs as [|inj' injs IH] using rev_ind; [by intros ?%not_elem_of_nil|].
  rewrite foldl_app, elem_of_app, list_elem_of_singleton. simpl. unfold with_ID at 1.
  intros Hin Hid. case_decide as Hid'; [naive_solver congruence|].
  rewrite lookup_insert_is_Some. destruct (decide (inj_ID inj' = inj_ID inj)); [by left|].
  right. split; [done|]. apply IH; [|done]. destruct Hin as [?|Hin]; [done|]. by subst inj'.
Qed.

Lemma with_ID_last injs inj : inj_ID inj <> "" -> foldl with_ID ∅ (injs ++ [inj]) !! inj_ID inj = Some (inj_SubnetSize inj).
Proof. intros Hid. rewrite foldl_app. simpl. unfold with_ID at 1. rewrite decide_False by done. by rewrite lookup_insert_eq. Qed.

Lemma with_ID_unique injs inj :
  NoDup (filter (fun id => id <> "") (inj_ID <$> injs)) -> inj ∈ injs -> inj_ID inj <> "" ->
  foldl with_ID ∅ injs !! inj_ID inj = Some (inj_SubnetSize inj).
Proof.
  induction injs as [|i injs IH] using rev_ind; [by intros _ ?%not_elem_of_nil|].
  rewrite fmap_app, filter_app. intros Hnd [Hin|Hin%list_elem_of_singleton]%elem_of_app Hid;
    [|subst i; by apply with_ID_last].
  apply NoDup_app in Hnd as (Hnd & Hd & _). rewrite foldl_app. simpl. unfold with_ID at 1.
  case_decide as Hi; [by apply IH|]. rewrite lookup_insert_ne; [by apply IH|]. intros Heq.
  apply (Hd (inj_ID inj)); apply list_elem_of_filter; (split; [done|]).
  - by apply list_elem_of_fmap_2.
  - rewrite <- Heq. by left.
Qed.

(** Whether an ID is new, read off the IDs seen. *)
Lemma with_ID_fresh injs inj :
  inj_ID inj <> "" ->
  foldl with_ID ∅ injs !! inj_ID inj = None <-> forall inj', inj' ∈ injs -> inj_ID inj' <> inj_ID inj.
Proof.
  intros Hid. split.
  - intros Hn inj' Hin Heq. destruct (with_ID_some injs inj' Hin) as [n Hn']; [by rewrite Heq|].
    rewrite Heq in Hn'. congruence.
  - intros Hnew. apply eq_None_not_Some. intros [n Hn]. apply with_ID_lookup in Hn as (_ & inj' & Hin & Heq & _).
    by apply (Hnew inj').
Qed.

Lemma ids_snoc (injs : list SingleCIDRInjection) inj :
  NoDup (filter (fun id => id <> "") (inj_ID <$> injs ++ [inj])) <->
  NoDup (filter (fun id => id <> "") (inj_ID <$> injs)) /\
  (inj_ID inj <> "" -> forall inj', inj' ∈ injs -> inj_ID inj' <> inj_ID inj).
Proof.
  rewrite fmap_app, filter_app. simpl. rewrite filter_cons, filter_nil. case_decide as Hid.
  2:{ rewrite app_nil_r. naive_solver. }
  rewrite NoDup_app. split.
  - intros (Hnd & Hd & _). split; [done|]. intros _ inj' Hin Heq. apply (Hd (inj_ID inj)); [|by left].
    apply list_elem_of_filter. split; [done|]. rewrite <- Heq. by apply list_elem_of_fmap_2.
  - intros (Hnd & Hnew). split_and!; [done| |apply NoDup_singleton].
    intros id Hin Hin'%list_elem_of_singleton. subst id.
    apply list_elem_of_filter in Hin as [_ Hin]. apply list_elem_of_fmap in Hin as (inj' & Heq & Hin).
    by apply (Hnew Hid inj').
Qed.

(** The parents of the last injection, whose own ID is new. *)
Lemma parent_ok_found injs inj parent :
  NoDup (filter (fun id => id <> "") (inj_ID <$> injs)) ->
  (inj_ID inj <> "" -> (forall inj', inj' ∈ injs -> inj_ID inj' <> inj_ID inj) /\ parentIDsToSizes !! inj_ID inj = None) ->
  parent_ok (with_ID (foldl with_ID ∅ injs) inj) inj parent <-> parent_found injs inj parent.
Proof.
  intros Hi Hnew. rewrite <- (foldl_snoc with_ID). unfold parent_ok, parent_found. split.
  - intros (Hk & Hsz & Htmp). split_and!.
    + destruct Hk as [?|[n Hn]]; [by left|]. apply with_ID_lookup in Hn as Hn'.
      destruct Hn' as (Hne & inj' & Hin & Hid & Hs'). right. split; [done|].
      apply elem_of_app in Hin as [Hin|Hin%list_elem_of_singleton]; [by exists inj'|].
      subst inj'. specialize (Htmp _ Hn). lia.
    + done.
    + intros inj' Hin Hid Hne. assert (inj_ID inj <> parent) as Hdiff.
      { intros Heq. destruct Hnew as [Hnew _]; [by rewrite Heq|]. apply (Hnew inj'); congruence. }
      apply Htmp. rewrite foldl_snoc. unfold with_ID at 1. subst parent.
      case_decide; [|rewrite lookup_insert_ne by done]; by apply with_ID_unique.
  - intros (Hk & Hsz & Htmp). split_and!; [|done|].
    + destruct Hk as [?|(Hne & inj' & Hin & Heq)]; [by left|]. right. subst parent. apply with_ID_some; [|done].
      apply elem_of_app. by left.
    + intros n Hn. apply with_ID_lookup in Hn as (Hne & inj' & Hin & Hid & <-).
      apply elem_of_app in Hin as [Hin|Hin%list_elem_of_singleton]; [by apply Htmp|]. subst inj' parent.
      destruct (Hnew Hne) as [Hno Hnone]. destruct Hk as [Hk|(_ & inj' & Hin & Heq)].
      * rewrite Hnone in Hk. by destruct Hk.
      * by destruct (Hno inj' Hin).
Qed.

Lemma injections_ok_snoc injs inj acc :
  acc_of injs acc -> injections_ok injs /\ injection_ok acc inj <-> injections_ok (injs ++ [inj]).
Proof.
  intros [Ht Hd]. unfold injection_ok. rewrite Ht, Hd. split.
  - intros ([Hi Hip Hp Hs Hpar] & H1 & H2 & [H3 H4] & H5).
    assert (inj_ID inj <> "" -> (forall inj', inj' ∈ injs -> inj_ID inj' <> inj_ID inj) /\
              parentIDsToSizes !! inj_ID inj = None) as Hnew.
    { intros Hid. destruct (H1 Hid) as [Hn ?]. by rewrite <- with_ID_fresh. }
    split.
    + apply ids_snoc. split; [done|]. intros Hid. by apply Hnew.
    + intros inj' [Hin|Hin%list_elem_of_singleton]%elem_of_app Hid; [by apply Hip|]. subst inj'. by apply H1.
    + rewrite fmap_app, concat_app. simpl. rewrite app_nil_r. apply NoDup_app. split_and!; [done| |done].
      intros p Hin Hin'. apply (H4 p Hin'). by apply elem_of_list_to_set.
    + apply Forall_app. split; [done|]. by constructor.
    + intros l1 inj' l2 parent Heq Hparent. destruct l2 as [|y l2 _] using rev_ind.
      * apply app_inj_tail in Heq as [<- <-]. apply parent_ok_found; [done..|]. by apply H5.
      * rewrite app_comm_cons, app_assoc in Heq. apply app_inj_tail in Heq as [-> _]. by eapply Hpar.
  - intros [[Hi Hnew]%ids_snoc Hip Hp Hs Hpar].
    rewrite fmap_app, concat_app in Hp. simpl in Hp. rewrite app_nil_r in Hp.
    apply NoDup_app in Hp as (Hp1 & Hp2 & Hp3). apply Forall_app in Hs as [Hs [Hs' _]%Forall_cons].
    assert (inj_ID inj <> "" -> parentIDsToSizes !! inj_ID inj = None) as Hnone.
    { intros Hid. apply Hip; [|done]. apply elem_of_app. right. by left. }
    split; [split|split_and!]; [done| |done|done| | |done| |].
    + intros inj' Hin. apply Hip. apply elem_of_app. by left.
    + intros l1 inj' l2 parent -> Hparent. apply (Hpar l1 inj' (l2 ++ [inj])); [|done].
      by rewrite <- app_assoc.
    + intros Hid. split; [|by apply Hnone]. apply with_ID_fresh; [done|]. by apply Hnew.
    + split; [done|]. intros p Hin Hin'. apply (Hp2 p); [|done]. by apply elem_of_list_to_set in Hin'.
    + intros parent Hparent. apply parent_ok_found; [done|naive_solver|]. by apply (Hpar injs inj []).
Qed.

(** An injection list without errors. *)
Lemma validateInjections_ok injs fldPath :
  validateInjections injs parentIDsToSizes fldPath = [] <-> injections_ok injs.
Proof.
  unfold validateInjections. set (acc0 := {| tmpIDsToSizes := ∅; pathsToIndices := ∅; inj_errs := [] |}).
  set (Inv := fun (done : list (nat * SingleCIDRInjection)) acc =>
    acc_of done.*2 acc /\ (inj_errs acc = [] <-> injections_ok done.*2)).
  assert (Inv (imap (fun i x => (i, x)) injs)
            (foldl (check_injection parentIDsToSizes fldPath) acc0 (imap (fun i x => (i, x)) injs))) as [_ Hok].
  { apply foldl_inv.
    - split; [split; [done|simpl; by rewrite dom_empty_L]|]. split; [intros _|done].
      split; simpl; [constructor|by intros ? ?%not_elem_of_nil|constructor|constructor|].
      by intros [] ? ? ? ?.
    - intros done [i inj] rest acc _ [[Ht Hd] Hok].
      destruct (check_injection_ok fldPath acc i inj) as (Ht' & Hd' & He).
      cbv zeta in Ht', Hd', He. unfold Inv. rewrite fmap_app, fmap_cons, fmap_nil. cbn [snd]. split.
      + split.
        * by rewrite Ht', Ht, foldl_snoc.
        * rewrite Hd', Hd, fmap_app, concat_app. simpl. rewrite app_nil_r, list_to_set_app_L. set_solver.
      + rewrite (errs_then_nil _ _ _ He), Hok. by apply injections_ok_snoc. }
  by rewrite imap_pairs_snd in Hok.
Qed.
End injections.

(** ** Theorems: which configs are accepted *)

Section accepted.
Context {OM : OpenMCP} {GI : GoIpam} {GO : GoMapOrder}.

(** *** Rules *)

Lemma validateInjectionRules_ok rules sizes fldPath :
  validateInjectionRules rules sizes fldPath = [] <->
  NoDup (rule_ID <$> rules) /\ Forall (fun rule => injections_ok sizes (rule_Injections rule)) rules.
Proof.
  unfold validateInjectionRules.
  set (Inv := fun (done : list (nat * CIDRInjection)) (acc : gset string * list field_error) =>
    acc.1 = list_to_set (rule_ID <$> done.*2) /\
    (acc.2 = [] <-> NoDup (rule_ID <$> done.*2) /\
       Forall (fun rule => injections_ok sizes (rule_Injections rule)) done.*2)).
  assert (Inv (imap (fun i r => (i, r)) rules)
    (foldl (check_rule_id sizes fldPath) (∅, []) (imap (fun i r => (i, r)) rules))) as [_ Hok].
  { apply foldl_inv.
    - split; [done|]. split; [|done]. intros _. split; constructor.
    - intros done [i rule] rest [known errs] _ [Hk Hok]. simpl in Hk, Hok.
      unfold Inv, check_rule_id. rewrite !fmap_app, !fmap_cons, !fmap_nil. cbn [fst snd].
      rewrite list_to_set_app_L, Hk. split; [simpl; set_solver|].
      rewrite !app_nil, Hok, validateInjections_ok, NoDup_app, Forall_app, Forall_singleton.
      assert ((if decide (rule_ID rule ∈ (list_to_set (rule_ID <$> done.*2) : gset string))
               then [FieldDuplicate ((fldPath ++ [PIndex i; PKey (rule_ID rule)]) ++ [PChild "id"]) (rule_ID rule)]
               else []) = [] <-> rule_ID rule ∉ rule_ID <$> done.*2) as ->.
      { rewrite <- (elem_of_list_to_set (C := gset string)). by case_decide. }
      split.
      + intros ([Hnd Hall] & Hni & Hinj). split_and!; [done| |apply NoDup_singleton|done..].
        by intros id Hin ->%list_elem_of_singleton.
      + intros ((Hnd & Hni & _) & Hall & Hinj). split_and!; [done|done| |done].
        intros Hin. apply (Hni (rule_ID rule) Hin). by left. }
  by rewrite imap_pairs_snd in Hok.
Qed.

(** *** Parent CIDRs: sizes *)

(** The largest prefix length, starting from [sm]. *)
Definition max_size (sm : Z) (cidrs : list string) : Z :=
  foldl (fun sm c => match cidr_size c with Some n => if sm <? n then n else sm | None => sm end) sm cidrs.

Lemma max_size_lt sm cidrs k :
  max_size sm cidrs < k <-> sm < k /\ forall c n, c ∈ cidrs -> cidr_size c = Some n -> n < k.
Proof.
  unfold max_size. revert sm. induction cidrs as [|c cidrs IH]; intros sm; simpl.
  { split; [|by intros [? _]]. intros Hs. split; [done|]. by intros c n ?%not_elem_of_nil. }
  rewrite IH. setoid_rewrite elem_of_cons. destruct (cidr_size c) as [n|] eqn:Hc.
  - destruct (Z.ltb_spec sm n); split; intros [H1 H2]; (split; [|naive_solver lia]);
      try lia. specialize (H2 c n). naive_solver lia.
  - naive_solver.
Qed.

Lemma parent_sizes_run fldPath i sm errs cidrs :
  (forall c, c ∈ cidrs -> is_Some (cidr_size c)) ->
  parent_sizes fldPath i sm errs cidrs tt = (Ret (max_size sm cidrs, errs), tt).
Proof.
  unfold max_size. revert i sm. induction cidrs as [|c cidrs IH]; intros i sm Hc; [done|]. cbn [parent_sizes foldl]. cbv zeta.
  destruct (Hc c) as [n Hn]; [by left|]. rewrite Hn. unfold cidr_size in Hn.
  destruct (strings_Split c slash) as [|s0 [|s1 []]]; simplify_eq/=.
  destruct (Atoi s1) as [m [e|]]; simplify_eq/=. apply IH. intros c' Hin. apply Hc. by right.
Qed.

Lemma parent_sizes_ok fldPath i sm errs cidrs sm' errs' :
  parent_sizes fldPath i sm errs cidrs tt = (Ret (sm', errs'), tt) ->
  exists more, errs' = errs ++ more /\ (more = [] -> forall c, c ∈ cidrs -> is_Some (cidr_size c)).
Proof.
  revert i sm errs. induction cidrs as [|c cidrs IH]; intros i sm errs Hrun; cbn [parent_sizes] in Hrun.
  { unfold retM in Hrun. injection Hrun as <- <-. exists []. rewrite app_nil_r.
    split; [done|]. by intros _ c ?%not_elem_of_nil. }
  cbv zeta in Hrun. destruct (strings_Split c slash !! 1%nat) as [split1|] eqn:Hs; [|done].
  destruct (Atoi split1) as [n e] eqn:Ha. apply IH in Hrun as (more & -> & Hall).
  set (e1 := if decide _ then _ else errs). 
  assert (exists m1, e1 = errs ++ m1 /\ (m1 = [] -> length (strings_Split c slash) = 2%nat)) as (m1 & -> & H1).
  { subst e1. case_decide as Hl; [by eexists|]. exists []. rewrite app_nil_r. split; [done|]. lia. }
  set (e2 := match e with Some _ => _ | None => _ end).
  assert (exists m2, e2 = (errs ++ m1) ++ m2 /\ (m2 = [] -> e = None)) as (m2 & -> & H2).
  { subst e2. destruct e; [by eexists|]. exists []. by rewrite app_nil_r. }
  exists (m1 ++ m2 ++ more). rewrite !app_assoc. split; [done|].
  intros [[Hm1 Hm2]%app_eq_nil Hm]%app_eq_nil c' [->|Hin]%elem_of_cons; [|by apply Hall].
  exists n. unfold cidr_size. specialize (H1 Hm1). specialize (H2 Hm2). subst e.
  destruct (strings_Split c slash) as [|? [|? []]]; simplify_eq/=. by rewrite Ha.
Qed.

Definition sizes_parse (parentCIDRs : gmap string (list string)) : Prop :=
  forall id cidrs c, parentCIDRs !! id = Some cidrs -> c ∈ cidrs -> is_Some (cidr_size c).

Lemma all_parent_sizes_ok fldPath parentCIDRs sizes :
  all_parent_sizes fldPath parentCIDRs tt = (Ret (sizes, []), tt) -> sizes_parse parentCIDRs.
Proof.
  intros Hrun.
  set (Inv := fun (done : list (string * list string)) (acc : gmap string Z * list field_error) (_ : unit) =>
    acc.2 = [] -> forall id cidrs c, (id, cidrs) ∈ done -> c ∈ cidrs -> is_Some (cidr_size c)).
  assert (Inv (range parentCIDRs) (sizes, []) tt) as Hall.
  2:{ intros id cidrs c Hid%elem_of_range. exact (Hall eq_refl id cidrs c Hid). }
  apply (foldM_inv _ Inv _ _ _ _ _ Hrun).
  { by intros _ ? ? ? ?%not_elem_of_nil. }
  clear Hrun. intros done [id' cidrs'] rest [m errs] [] [m' errs'] [] _ Hall Hstep.
  apply bindM_Ret_inv in Hstep as ([sm e] & [] & Hp & Hstep). simpl in *.
  unfold retM in Hstep. injection Hstep as <- <-. apply parent_sizes_ok in Hp as (more & -> & Hc).
  intros [He Hm]%app_eq_nil id2 cidrs2 c2 [Hin|Hin%list_elem_of_singleton]%elem_of_app Hcin; [by eapply Hall|].
  simplify_eq. by apply Hc.
Qed.

Lemma sizes_map (parentCIDRs : gmap string (list string)) :
  foldl (fun (m : gmap string Z) ic => <[ic.1 := max_size 0 ic.2]> m) ∅ (range parentCIDRs) = max_size 0 <$> parentCIDRs.
Proof.
  assert (forall id n, foldl (fun (m : gmap string Z) ic => <[ic.1 := max_size 0 ic.2]> m) ∅ (range parentCIDRs) !! id = Some n <->
    exists cidrs, (id, cidrs) ∈ range parentCIDRs /\ n = max_size 0 cidrs) as Hm.
  { apply (foldl_inv _ (fun (done : list (string * list string)) (m : gmap string Z) =>
      forall id n, m !! id = Some n <-> exists cidrs, (id, cidrs) ∈ done /\ n = max_size 0 cidrs)).
    - intros id n. rewrite lookup_empty. setoid_rewrite elem_of_nil. naive_solver.
    - intros done [id cidrs] rest m Hl Hm id' n. pose proof (range_NoDup parentCIDRs) as Hnd.
      rewrite Hl, fmap_app, fmap_cons in Hnd. apply NoDup_app in Hnd as (_ & Hnd & _). simpl.
      setoid_rewrite elem_of_app. setoid_rewrite list_elem_of_singleton.
      destruct (decide (id = id')) as [<-|Hne].
      + rewrite lookup_insert_eq. split; [intros [= <-]; exists cidrs; auto|].
        intros (cidrs' & [Hin|[= ->]] & ->); [|done]. exfalso. apply (Hnd id); [|by left].
        apply list_elem_of_fmap. by exists (id, cidrs').
      + rewrite lookup_insert_ne, Hm by done. naive_solver. }
  apply map_eq. intros id. apply option_eq. intros n. rewrite Hm, lookup_fmap_Some.
  setoid_rewrite elem_of_range. naive_solver.
Qed.

Lemma all_parent_sizes_run fldPath parentCIDRs :
  sizes_parse parentCIDRs ->
  all_parent_sizes fldPath parentCIDRs tt = (Ret (max_size 0 <$> parentCIDRs, []), tt).
Proof.
  intros Hp. rewrite <- sizes_map. unfold all_parent_sizes.
  assert (forall ic c, ic ∈ range parentCIDRs -> c ∈ ic.2 -> is_Some (cidr_size c)) as Hc.
  { intros [id cidrs] c Hin Hcin. apply elem_of_range in Hin. by eapply Hp. }
  generalize (∅ : gmap string Z). induction (range parentCIDRs) as [|ic l IH]; intros m; [done|].
  cbn [foldM foldl]. unfold bindM at 1 2. rewrite parent_sizes_run by (intros c; apply Hc; by left).
  apply IH. intros ic' c Hin. apply Hc. by right.
Qed.

(** *** Parent CIDRs: overlaps *)

(** No CIDR of the list overlaps with an earlier one. *)
Definition no_overlaps (l : list string) : Prop :=
  forall l1 c l2 c', l = l1 ++ c :: l2 -> c' ∈ l1 -> PrefixesOverlapping [c'] [c] = None.

Lemma no_overlaps_snoc l c :
  no_overlaps l /\ (forall c', c' ∈ l -> PrefixesOverlapping [c'] [c] = None) <-> no_overlaps (l ++ [c]).
Proof.
  split.
  - intros [Hl Hc] l1 d l2 c' Heq Hin. destruct l2 as [|y l2 _] using rev_ind.
    + apply app_inj_tail in Heq as [<- <-]. by apply Hc.
    + rewrite app_comm_cons, app_assoc in Heq. apply app_inj_tail in Heq as [-> _]. by eapply Hl.
  - intros Hl. split; [|intros c'; by apply (Hl l c [])]. intros l1 d l2 c' -> Hin.
    apply (Hl l1 d (l2 ++ [c])); [by rewrite <- app_assoc|done].
Qed.

Definition seen_inv (l : list string) (acc : gmap string (list string) * list field_error) : Prop :=
  (forall c, is_Some (acc.1 !! c) <-> c ∈ l) /\ (acc.2 = [] <-> no_overlaps l).

Lemma seen_step_inv fldPath id l acc i c :
  seen_inv l acc -> seen_inv (l ++ [c]) (seen_step fldPath id acc (i, c)).
Proof.
  destruct acc as [seen errs]. intros [Hs Hn]. unfold seen_inv, seen_step. simpl in *. split.
  - intros d. rewrite lookup_insert_is_Some, elem_of_app, list_elem_of_singleton, Hs.
    destruct (decide (c = d)); naive_solver.
  - rewrite app_nil, Hn, <- no_overlaps_snoc. apply and_iff_compat_l. split.
    + intros Ho%fmap_nil_inv c' Hc'. destruct (PrefixesOverlapping [c'] [c]) as [e|] eqn:Hp; [|done]. exfalso.
      apply Hs in Hc' as [ids Hids]. apply (not_elem_of_nil (c', ids)). rewrite <- Ho. apply list_elem_of_filter.
      split; [simpl; rewrite Hp; by eexists|]. by apply elem_of_range.
    + intros Ho. destruct (filter _ (range seen)) as [|[c' ids] l'] eqn:Hf; [done|]. exfalso.
      assert ((c', ids) ∈ filter (fun oc => is_Some (PrefixesOverlapping [oc.1] [c])) (range seen)) as Hin
        by (rewrite Hf; by left).
      apply list_elem_of_filter in Hin as [[e He] Hin%elem_of_range]. simpl in He.
      rewrite Ho in He; [done|]. apply Hs. by eexists.
Qed.

Lemma seen_ids_inv fldPath id l acc cidrs :
  seen_inv l acc ->
  seen_inv (l ++ cidrs) (foldl (seen_step fldPath id) acc (imap (fun i c => (i, c)) cidrs)).
Proof.
  intros Hl.
  assert (seen_inv (l ++ (imap (fun i c => (i, c)) cidrs).*2)
    (foldl (seen_step fldPath id) acc (imap (fun i c => (i, c)) cidrs))) as Hs.
  { apply (foldl_inv _ (fun done acc => seen_inv (l ++ done.*2) acc)).
    - by rewrite app_nil_r.
    - intros done [i c] rest acc' _ Hinv. rewrite fmap_app, app_assoc. by apply seen_step_inv. }
  by rewrite imap_pairs_snd in Hs.
Qed.

Lemma validateParentCIDRs_ok parentCIDRs fldPath :
  validateParentCIDRs parentCIDRs fldPath = [] <-> no_overlaps (concat (range parentCIDRs).*2).
Proof.
  unfold validateParentCIDRs.
  assert (seen_inv (concat (range parentCIDRs).*2)
    (foldl (fun acc idc => foldl (seen_step fldPath idc.1) acc (imap (fun i c => (i, c)) idc.2))
       (∅, []) (range parentCIDRs))) as [_ Hn]; [|by apply Hn].
  apply (foldl_inv _ (fun done acc => seen_inv (concat done.*2) acc)).
  - split.
    + intros c. simpl. rewrite lookup_empty, elem_of_nil. split; [by intros []|done].
    + split; [|done]. by intros _ [] ? ? ? ?.
  - intros done [id cidrs] rest acc _ Hinv. rewrite fmap_app, concat_app. simpl.
    rewrite app_nil_r. by apply seen_ids_inv.
Qed.

(** *** ValidateConfig *)

Lemma ValidateConfig_inv cfg :
  ValidateConfig (Some cfg) = Ret [] <->
  sizes_parse (ParentCIDRs (Spec cfg)) /\ no_overlaps (concat (range (ParentCIDRs (Spec cfg))).*2) /\
  NoDup (rule_ID <$> InjectionRules (Spec cfg)) /\
  Forall (fun rule => injections_ok (max_size 0 <$> ParentCIDRs (Spec cfg)) (rule_Injections rule))
    (InjectionRules (Spec cfg)).
Proof.
  unfold ValidateConfig, validateSpec. split.
  - intros Hv. destruct (bindM _ _ tt) as [o []] eqn:Hb. simpl in Hv. subst o.
    apply bindM_Ret_inv in Hb as ([sizes errs] & [] & Hs & Hb). unfold retM in Hb. injection Hb as Hb.
    apply app_eq_nil in Hb as [-> [Hp Hr]%app_eq_nil]. pose proof (all_parent_sizes_ok _ _ _ Hs) as Hc.
    rewrite (all_parent_sizes_run _ _ Hc) in Hs. injection Hs as <-.
    split; [done|]. split; [by eapply validateParentCIDRs_ok|by eapply validateInjectionRules_ok].
  - intros (Hc & Hp & Hr). unfold bindM. rewrite all_parent_sizes_run by done. simpl.
    by rewrite (proj2 (validateParentCIDRs_ok _ _) Hp), (proj2 (validateInjectionRules_ok _ _ _) Hr).
Qed.

(** The conditions on a rule that do not depend on the sizes: IDs and paths. *)
Definition rule_well_formed (parentCIDRs : gmap string (list string)) (rule : CIDRInjection) : Prop :=
  NoDup (filter (fun id => id <> "") (inj_ID <$> rule_Injections rule)) /\
  (forall inj, inj ∈ rule_Injections rule -> inj_ID inj <> "" -> parentCIDRs !! inj_ID inj = None) /\
  NoDup (concat ((fun inj => pws_Path <$> GetPaths inj) <$> rule_Injections rule)) /\
  Forall (fun inj => pws_Path <$> GetPaths inj <> []) (rule_Injections rule).

(** Every parent of an injection is a list of parent CIDRs or an earlier injection of the
    rule, and the injection asks for something smaller. *)
Definition rule_nested (parentCIDRs : gmap string (list string)) (rule : CIDRInjection) : Prop :=
  forall l1 inj l2 parent, rule_Injections rule = l1 ++ inj :: l2 -> parent ∈ inj_Parents inj ->
  (is_Some (parentCIDRs !! parent) \/ (parent <> "" /\ exists inj', inj' ∈ l1 /\ inj_ID inj' = parent)) /\
  (forall cidrs, parentCIDRs !! parent = Some cidrs ->
     0 < inj_SubnetSize inj /\ forall c n, c ∈ cidrs -> cidr_size c = Some n -> n < inj_SubnetSize inj) /\
  (forall inj', inj' ∈ l1 -> inj_ID inj' = parent -> parent <> "" -> inj_SubnetSize inj' < inj_SubnetSize inj).

Lemma injections_valid (parentCIDRs : gmap string (list string)) rule :
  injections_ok (max_size 0 <$> parentCIDRs) (rule_Injections rule) <->
  rule_well_formed parentCIDRs rule /\ rule_nested parentCIDRs rule.
Proof.
  assert ((fun inj => pws_Path <$> GetPaths inj) <$> rule_Injections rule = val_paths <$> rule_Injections rule) as Hpaths.
  { apply list_fmap_ext. intros i inj _. apply GetPaths_val_paths. }
  assert (forall id, (max_size 0 <$> parentCIDRs) !! id = None <-> parentCIDRs !! id = None) as Hnone.
  { intros id. rewrite lookup_fmap. apply fmap_None. }
  assert (Forall (fun inj => pws_Path <$> GetPaths inj <> []) (rule_Injections rule) <->
          Forall (fun inj => val_paths inj <> []) (rule_Injections rule)) as Hsome.
  { apply Forall_iff. intros inj. by rewrite GetPaths_val_paths. }
  unfold rule_well_formed, rule_nested. rewrite Hpaths, Hsome.
  assert (forall l1 inj parent, parent_found (max_size 0 <$> parentCIDRs) l1 inj parent <->
    (is_Some (parentCIDRs !! parent) \/ (parent <> "" /\ exists inj', inj' ∈ l1 /\ inj_ID inj' = parent)) /\
    (forall cidrs, parentCIDRs !! parent = Some cidrs ->
       0 < inj_SubnetSize inj /\ forall c n, c ∈ cidrs -> cidr_size c = Some n -> n < inj_SubnetSize inj) /\
    (forall inj', inj' ∈ l1 -> inj_ID inj' = parent -> parent <> "" -> inj_SubnetSize inj' < inj_SubnetSize inj)) as Hfound.
  { intros l1 inj parent. unfold parent_found. rewrite lookup_fmap. setoid_rewrite <- max_size_lt.
    destruct (parentCIDRs !! parent) as [cidrs|]; simpl; rewrite ?fmap_is_Some; naive_solver. }
  split.
  - intros [H1 H2 H3 H4 H5]. split_and!; [done| |done|done|].
    + intros inj Hin Hid. by apply Hnone, H2.
    + intros l1 inj l2 parent Heq Hp. by apply Hfound, (H5 _ _ l2).
  - intros [(H1 & H2 & H3 & H4) H5]. split; [done| |done|done|].
    + intros inj Hin Hid. by apply Hnone, H2.
    + intros l1 inj l2 parent Heq Hp. by apply Hfound, (H5 _ _ l2).
Qed.

(** What a valid config is. *)
Record well_formed_config (cfg : IPAMConfig) : Prop := {
  valid_ids : NoDup (rule_ID <$> InjectionRules (Spec cfg));
  valid_rules : Forall (rule_well_formed (ParentCIDRs (Spec cfg))) (InjectionRules (Spec cfg));
  valid_nesting : Forall (rule_nested (ParentCIDRs (Spec cfg))) (InjectionRules (Spec cfg));
  valid_sizes : sizes_parse (ParentCIDRs (Spec cfg));
  valid_parents : no_overlaps (concat (range (ParentCIDRs (Spec cfg))).*2) }.

(** C30: The validation webhook decides validity: it returns no error for a config exactly if
    rule IDs are unique; within each rule the non-empty injection IDs are unique and none is the
    ID of a parent CIDR list, no path occurs twice and every injection has a path; every parent
    of an injection is a parent CIDR list or an earlier injection of the rule, and the injection
    asks for a size strictly larger than 0 and than each prefix length of the list, and than the
    size of the earlier injection; every parent CIDR has a parsable prefix length; and no parent
    CIDR overlaps with another one, across all lists and within one. In particular such a config
    makes it neither panic nor block. *)
Theorem ValidateConfig_decides cfg : ValidateConfig (Some cfg) = Ret [] <-> well_formed_config cfg.
Proof.
  rewrite ValidateConfig_inv. split.
  - intros (Hs & Hp & Hid & Hr). rewrite (Forall_iff _ _ _ (injections_valid (ParentCIDRs (Spec cfg)))) in Hr.
    apply Forall_and in Hr as [Hw Hn]. by split.
  - intros [Hid Hw Hn Hs Hp]. split_and!; [done..|].
    rewrite (Forall_iff _ _ _ (injections_valid (ParentCIDRs (Spec cfg)))). by apply Forall_and.
Qed.

(** *** A CIDR without a slash *)

Lemma parent_sizes_panics fldPath i sm errs cidrs c u :
  c ∈ cidrs -> length (strings_Split c slash) = 1%nat ->
  exists why, parent_sizes fldPath i sm errs cidrs u = (Panic why, u).
Proof.
  intros Hc Hl. revert i sm errs. induction cidrs as [|d cidrs IH]; intros i sm errs; [by apply not_elem_of_nil in Hc|].
  cbn [parent_sizes]. cbv zeta. destruct (strings_Split d slash !! 1%nat) as [s1|] eqn:Hs; [|by eexists].
  apply elem_of_cons in Hc as [->|Hc].
  - rewrite lookup_ge_None_2 in Hs by lia. done.
  - destruct (Atoi s1). by apply IH.
Qed.

Lemma parent_sizes_nodeadlock fldPath i sm errs cidrs u :
  (parent_sizes fldPath i sm errs cidrs u).1 <> Deadlock.
Proof.
  revert i sm errs. induction cidrs as [|d cidrs IH]; intros i sm errs; [done|].
  cbn [parent_sizes]. cbv zeta. destruct (_ !! 1%nat); [|done]. destruct (Atoi _). apply IH.
Qed.

(** C40: A config with a parent CIDR that has no slash makes the validation webhook panic,
    instead of returning a validation error. *)
Theorem ValidateConfig_slash_panic cfg id cidrs c :
  ParentCIDRs (Spec cfg) !! id = Some cidrs -> c ∈ cidrs ->
  length (strings_Split c slash) = 1%nat ->
  exists why, ValidateConfig (Some cfg) = Panic why.
Proof.
  intros Hid Hc Hl. unfold ValidateConfig, validateSpec, bindM.
  set (r := all_parent_sizes _ _ _).
  assert (exists why, r = (Panic why, tt)) as [why ->]; [|by exists why].
  subst r. unfold all_parent_sizes. apply elem_of_range in Hid.
  generalize (∅ : gmap string Z, @nil field_error). 
  induction (range (ParentCIDRs (Spec cfg))) as [|[id' cidrs'] l IH]; intros acc; [by apply not_elem_of_nil in Hid|].
  simpl. unfold bindM at 1 2. apply elem_of_cons in Hid as [[= <- <-]|Hid].
  - destruct (parent_sizes_panics ([PChild "spec"] ++ [PChild "parentCIDRs"; PKey id]) 0 0 acc.2 cidrs c tt Hc Hl) as [why Hw].
    simpl in Hw. rewrite Hw. by exists why.
  - destruct (parent_sizes _ _ _ _ cidrs' tt) as [[[sm e]|why|] []] eqn:Hp; simpl; [by apply IH|by exists why|].
    exfalso. eapply parent_sizes_nodeadlock. by rewrite Hp.
Qed.
End accepted.
