(* ===== verification/ClusterMutation.v ===== *)
(** * internal/webhooks/cluster-mutation.go *)

From stdpp Require Import base list strings gmap.
From S2P Require Import Prelude Types Externals Runtime Utils.
Open Scope list_scope.
Open Scope Z_scope.

Section mutation.
Context {OM : OpenMCP} {GI : GoIpam} {CU : CtrlUtils} {GO : GoMapOrder}.

(** The references for the matching rules, and whether one is the placeholder (which
    ends the loop). *)
Fixpoint collect_refs (cluster : Cluster) (refs : gmap string string) (rules : list CIDRInjection) :
    (gmap string string * bool) + error :=
  match rules with
  | [] => inl (refs, false)
  | rule :: rules =>
      if rule_Matches rule cluster then
        match GenerateClusterConfigName (Some cluster) (rule_ID rule) with
        | inr err => inr (Errorf "failed to generate ClusterConfig name for rule" (Some err))
        | inl name =>
            if decide (name = EmptyClusterNamePlaceholder) then inl (<[name := ""]> refs, true)
            else collect_refs cluster (<[name := rule_ID rule]> refs) rules
        end
      else collect_refs cluster refs rules
  end.

(** The first placeholder reference is cut out of the list. *)
Fixpoint remove_placeholder (refs : list string) : list string :=
  match refs with
  | [] => []
  | existing :: refs =>
      if decide (existing = EmptyClusterNamePlaceholder) then refs
      else existing :: remove_placeholder refs
  end.

Definition add_ref (existing : list string) (ref : string) : list string :=
  if decide (ref ∈ existing) then existing else existing ++ [ref].

(** The mutated cluster and the error. *)
Definition Default (cluster : Cluster) : M (Cluster * option error) :=
  let! cfg := GetConfig in
  match cfg with
  | None =>
      retM (cluster, Some (Errorf "config not found, unable to inject ClusterConfig references into Cluster" None))
  | Some cfg =>
      match collect_refs cluster ∅ (InjectionRules (Spec cfg)) with
      | inr err => retM (cluster, Some err)
      | inl (refs, generatedPlaceholder) =>
          let existing := if generatedPlaceholder : bool then cl_ClusterConfigs cluster
                          else remove_placeholder (cl_ClusterConfigs cluster) in
          retM (cl_set_ClusterConfigs (foldl add_ref existing (range refs).*1) cluster, None)
      end
  end.
End mutation.

(** ** Theorems *)

Section mutation_theorems.
Context {OM : OpenMCP} {GI : GoIpam} {CU : CtrlUtils} {GO : GoMapOrder}.

(** The reference a matching rule stands for. *)
Definition wants_ref (cluster : Cluster) (rules : list CIDRInjection) (ref : string) : Prop :=
  exists rule, rule ∈ rules /\ rule_Matches rule cluster = true /\
    GenerateClusterConfigName (Some cluster) (rule_ID rule) = inl ref.

Lemma wants_ref_cons cluster rule rules ref :
  wants_ref cluster (rule :: rules) ref <->
  (rule_Matches rule cluster = true /\ GenerateClusterConfigName (Some cluster) (rule_ID rule) = inl ref) \/
  wants_ref cluster rules ref.
Proof. unfold wants_ref. setoid_rewrite elem_of_cons. naive_solver. Qed.

Lemma collect_refs_ok cluster rules refs refs' b :
  collect_refs cluster refs rules = inl (refs', b) ->
  (forall k, is_Some (refs' !! k) -> is_Some (refs !! k) \/ wants_ref cluster rules k) /\
  (forall k, is_Some (refs !! k) -> is_Some (refs' !! k)) /\
  (if b then wants_ref cluster rules EmptyClusterNamePlaceholder /\ is_Some (refs' !! EmptyClusterNamePlaceholder)
   else ~ wants_ref cluster rules EmptyClusterNamePlaceholder /\
        forall k, wants_ref cluster rules k -> is_Some (refs' !! k)).
Proof.
  revert refs. induction rules as [|rule rules IH]; intros refs Hrun; cbn [collect_refs] in Hrun.
  { injection Hrun as <- <-. unfold wants_ref. setoid_rewrite elem_of_nil. naive_solver. }
  pose proof (wants_ref_cons cluster rule rules) as Hcons.
  destruct (rule_Matches rule cluster) eqn:Hm.
  2:{ assert (forall k, wants_ref cluster (rule :: rules) k <-> wants_ref cluster rules k) as Hsame by naive_solver.
      apply IH in Hrun as (H1 & H2 & H3). destruct b; naive_solver. }
  destruct (GenerateClusterConfigName (Some cluster) (rule_ID rule)) as [name|e] eqn:Hn; [|done].
  case_decide as Hp.
  - injection Hrun as <- <-. subst name. split_and!.
    + intros k [<-|?]%lookup_insert_is_Some'; [right; apply Hcons; by left|by left].
    + intros k Hk. apply lookup_insert_is_Some'. by right.
    + apply Hcons. by left.
    + rewrite lookup_insert_eq. by eexists.
  - apply IH in Hrun as (H1 & H2 & H3).
    assert (is_Some (refs' !! name)) as Hname by (apply H2; rewrite lookup_insert_eq; by eexists).
    split_and!.
    + intros k Hk. destruct (H1 k Hk) as [Hi|?]; [|right; apply Hcons; by right].
      apply lookup_insert_is_Some' in Hi as [<-|?]; [right; apply Hcons; by left|by left].
    + intros k Hk. apply H2, lookup_insert_is_Some'. by right.
    + destruct b.
      * destruct H3. split; [apply Hcons; by right|done].
      * destruct H3 as [H3 H4]. split.
        -- intros [[_ [= ->]]|?]%Hcons; done.
        -- intros k [[_ [= <-]]|Hw]%Hcons; [done|by apply H4].
Qed.

Lemma add_refs_elem l existing ref : ref ∈ foldl add_ref existing l <-> ref ∈ existing \/ ref ∈ l.
Proof.
  revert existing. induction l as [|r l IH]; intros existing; simpl; [rewrite elem_of_nil; naive_solver|].
  rewrite IH, elem_of_cons. unfold add_ref. case_decide as Hr; [|rewrite elem_of_app, list_elem_of_singleton];
    naive_solver.
Qed.

Lemma add_refs_NoDup l existing : NoDup existing -> NoDup (foldl add_ref existing l).
Proof.
  revert existing. induction l as [|r l IH]; intros existing Hnd; simpl; [done|]. apply IH.
  unfold add_ref. case_decide; [done|]. apply NoDup_app. split_and!; [done| |apply NoDup_singleton].
  intros x Hx Hx'%list_elem_of_singleton. by subst x.
Qed.

Lemma add_refs_present l existing : (forall r, r ∈ l -> r ∈ existing) -> foldl add_ref existing l = existing.
Proof.
  revert existing. induction l as [|r l IH]; intros existing Hl; simpl; [done|].
  unfold add_ref at 2. rewrite decide_True by (apply Hl; by left). apply IH. intros r' Hr'. apply Hl. by right.
Qed.

Lemma remove_placeholder_elem l r : r <> EmptyClusterNamePlaceholder -> r ∈ remove_placeholder l <-> r ∈ l.
Proof.
  intros Hr. induction l as [|x l IH]; simpl; [done|]. case_decide; rewrite !elem_of_cons; [|by rewrite IH].
  subst x. naive_solver.
Qed.

Lemma remove_placeholder_NoDup l :
  NoDup l -> NoDup (remove_placeholder l) /\ EmptyClusterNamePlaceholder ∉ remove_placeholder l.
Proof.
  induction l as [|x l IH]; intros Hnd; [by split; [constructor|apply not_elem_of_nil]|].
  apply NoDup_cons in Hnd as [Hx Hnd]. simpl. case_decide as Hp; [by subst x|].
  destruct (IH Hnd) as [H1 H2]. split.
  - constructor; [|done]. rewrite remove_placeholder_elem by done. done.
  - apply not_elem_of_cons. by split.
Qed.

Lemma remove_placeholder_absent l : EmptyClusterNamePlaceholder ∉ l -> remove_placeholder l = l.
Proof.
  induction l as [|x l IH]; [done|]. rewrite not_elem_of_cons. intros [Hx Hl]. simpl.
  rewrite decide_False by done. by rewrite IH.
Qed.

(** What a successful run computed. *)
Lemma Default_inv cluster s cluster' s' :
  Default cluster s = (Ret (cluster', None), s') ->
  s' = s /\ exists cfg refs b, config s = Some cfg /\
    collect_refs cluster ∅ (InjectionRules (Spec cfg)) = inl (refs, b) /\
    cluster' = cl_set_ClusterConfigs
      (foldl add_ref (if b : bool then cl_ClusterConfigs cluster else remove_placeholder (cl_ClusterConfigs cluster))
         (range refs).*1) cluster.
Proof.
  unfold Default, GetConfig. intros Hrun. go_run. destruct (config _) as [cfg|] eqn:Hc; [|by go_run].
  destruct (collect_refs cluster ∅ _) as [[refs b]|e] eqn:Hr; [|by go_run]. go_run.
  split; [done|]. by exists cfg, refs, b.
Qed.

(** C31: A successful mutation of a cluster changes only its ClusterConfig references: the
    references afterwards are old ones or wanted by a matching rule; no old one but the
    placeholder is lost; unless the placeholder is wanted, all wanted ones are there; and if the
    old list has no duplicates, neither has the new one, and the placeholder is in it exactly if
    a matching rule wants it (a cluster with no name yet). *)
Theorem Default_refs cluster s cluster' s' cfg :
  Default cluster s = (Ret (cluster', None), s') -> config s = Some cfg ->
  s' = s /\ cl_meta cluster' = cl_meta cluster /\ cl_Purposes cluster' = cl_Purposes cluster /\
  (forall ref, ref ∈ cl_ClusterConfigs cluster' ->
     ref ∈ cl_ClusterConfigs cluster \/ wants_ref cluster (InjectionRules (Spec cfg)) ref) /\
  (forall ref, ref ∈ cl_ClusterConfigs cluster -> ref <> EmptyClusterNamePlaceholder ->
     ref ∈ cl_ClusterConfigs cluster') /\
  (~ wants_ref cluster (InjectionRules (Spec cfg)) EmptyClusterNamePlaceholder ->
   forall ref, wants_ref cluster (InjectionRules (Spec cfg)) ref -> ref ∈ cl_ClusterConfigs cluster') /\
  (NoDup (cl_ClusterConfigs cluster) ->
   NoDup (cl_ClusterConfigs cluster') /\
   (EmptyClusterNamePlaceholder ∈ cl_ClusterConfigs cluster' <->
    wants_ref cluster (InjectionRules (Spec cfg)) EmptyClusterNamePlaceholder)).
Proof.
  intros (-> & cfg' & refs & b & Hc & Hr & ->)%Default_inv Hcfg. rewrite Hcfg in Hc. injection Hc as <-.
  apply collect_refs_ok in Hr as (H1 & _ & H3). simpl.
  assert (forall ref, ref ∈ (range refs).*1 <-> is_Some (refs !! ref)) as Hrange
    by (intros; apply elem_of_range_keys).
  assert (forall ref, is_Some (refs !! ref) -> wants_ref cluster (InjectionRules (Spec cfg)) ref) as Hw.
  { intros ref Hs. destruct (H1 ref Hs) as [[v Hv]|?]; [by rewrite lookup_empty in Hv|done]. }
  setoid_rewrite add_refs_elem. setoid_rewrite Hrange. split_and!; [done..| | | |].
  - intros ref [Hin|?]; [|auto]. left. destruct b; [done|].
    clear - Hin. induction (cl_ClusterConfigs cluster) as [|x l IH]; [done|]. simpl in Hin.
    case_decide; [by right|]. apply elem_of_cons in Hin as [->|?]; [by left|right; auto].
  - intros ref Hin Hne. left. destruct b; [done|]. by apply remove_placeholder_elem.
  - intros Hnp ref Href. right. destruct b; [by destruct H3|by apply H3].
  - intros Hnd. split.
    + apply add_refs_NoDup. destruct b; [done|]. by apply remove_placeholder_NoDup.
    + destruct b; [naive_solver|]. destruct H3 as [H3 _]. split; [|naive_solver].
      intros [Hin|Hs]; [|by apply Hw in Hs]. by apply remove_placeholder_NoDup in Hin.
Qed.

(** C32: The mutation is idempotent: mutating the result again, in the same process state,
    returns it unchanged, provided the selectors do not look at the ClusterConfig references and
    the references had no duplicates. *)
Theorem Default_idempotent cluster s cluster' s' :
  Default cluster s = (Ret (cluster', None), s') ->
  NoDup (cl_ClusterConfigs cluster) ->
  (forall sel, Selector_Matches sel cluster' = Selector_Matches sel cluster) ->
  Default cluster' s = (Ret (cluster', None), s).
Proof.
  intros (-> & cfg & refs & b & Hc & Hr & ->)%Default_inv Hnd Hsel.
  set (refs1 := foldl add_ref _ _) in *.
  assert (forall rules m, collect_refs (cl_set_ClusterConfigs refs1 cluster) m rules = collect_refs cluster m rules) as Hsame.
  { induction rules as [|rule rules IH]; intros m; [done|]. simpl. unfold rule_Matches. rewrite Hsel.
    unfold GenerateClusterConfigName. simpl. repeat (case_match; try done). }
  unfold Default, GetConfig, bindM, getM, retM. rewrite Hc, Hsame, Hr. do 3 f_equal. simpl.
  unfold cl_set_ClusterConfigs. simpl. f_equal.
  assert (forall r, r ∈ (range refs).*1 -> r ∈ refs1) as Hin
    by (intros r Hr'; apply add_refs_elem; by right).
  destruct b; [by apply add_refs_present|].
  rewrite remove_placeholder_absent; [by apply add_refs_present|].
  intros Hp%add_refs_elem. apply collect_refs_ok in Hr as (H1 & _ & H3 & _).
  destruct Hp as [Hp|Hp%elem_of_range_keys].
  - by apply remove_placeholder_NoDup in Hp.
  - destruct (H1 _ Hp) as [[v Hv]|?]; [by rewrite lookup_empty in Hv|done].
Qed.
End mutation_theorems.
