(* ===== verification/DeepCopy.v ===== *)
(** * api/ipam/v1alpha1/zz_generated.deepcopy.go on a heap

    Everywhere else a config is a value. Here slices, maps and pointers are references into
    a heap, the generated functions copy what they refer to, and the theorem is what
    justifies the values: the config behind GetConfig and SetConfig shares nothing with
    its callers. *)

From stdpp Require Import base list strings gmap.
From S2P Require Import Prelude GoStd Types Externals.
Open Scope list_scope.
Open Scope Z_scope.

(** ** The heap *)

Notation loc := positive.

(** A slice that is not nil: an array and the part of it. *)
Record slice : Type := { s_arr : loc; s_off : nat; s_len : nat }.

Section deepcopy.
Context {OM : OpenMCP} {GO : GoMapOrder}.

(** The structs of other packages, with what they keep on the heap: the selector, the
    object metadata, the list metadata, and one heap cell of theirs. *)
Class ForeignTypes : Type := {
  sel_v : Type; meta_v : Type; listmeta_v : Type; foreign_cell : Type;
  sel_zero : sel_v; meta_zero : meta_v; listmeta_zero : listmeta_v }.
Context {FT : ForeignTypes}.

Record inj_v : Type := {
  v_ID : string; v_Path : string; v_Paths : option slice; v_Parents : option slice; v_SubnetSize : Z }.
Record rule_v : Type := { v_ruleID : string; v_Selector : sel_v; v_Injections : option slice }.
(** The pointers: a map, and a duration. *)
Record spec_v : Type := {
  v_ParentCIDRs : option loc; v_InjectionRules : option slice; v_Refresh : option loc }.
Record cfg_v : Type := { v_TypeMeta : string * string; v_Meta : meta_v; v_Spec : spec_v }.
Record list_v : Type := { v_ListType : string * string; v_ListMeta : listmeta_v; v_Items : option slice }.

Definition inj_zero : inj_v := {| v_ID := ""; v_Path := ""; v_Paths := None; v_Parents := None; v_SubnetSize := 0 |}.
Definition rule_zero : rule_v := {| v_ruleID := ""; v_Selector := sel_zero; v_Injections := None |}.
Definition spec_zero : spec_v := {| v_ParentCIDRs := None; v_InjectionRules := None; v_Refresh := None |}.
Definition cfg_zero : cfg_v := {| v_TypeMeta := ("", ""); v_Meta := meta_zero; v_Spec := spec_zero |}.

Inductive cell : Type :=
  | CStrings (l : list string)
  | CInjections (l : list inj_v)
  | CRules (l : list rule_v)
  | CConfigs (l : list cfg_v)
  | CSliceMap (m : gmap string (option slice))
  | CStringMap (m : gmap string string)
  | CMapMap (m : gmap string (option loc))
  | CDuration (d : Z)
  | CSpec (v : spec_v)
  | CConfig (v : cfg_v)
  | CInjection (v : inj_v)
  | CRule (v : rule_v)
  | CPath (v : PathWithSource)
  | CList (v : list_v)
  | CForeign (x : foreign_cell).

Notation heap := (gmap loc cell).
Definition H : Type -> Type := goM heap.

Definition alloc (c : cell) : H loc := fun h => let l := fresh (dom h) in (Ret l, <[l := c]> h).
Definition load (l : loc) : H cell := fun h =>
  match h !! l with Some c => (Ret c, h) | None => (Panic "invalid memory address", h) end.
Definition store (l : loc) (c : cell) : H unit := modifyM (fun h => <[l := c]> h).

(** The arrays of one element type: [p] recognises their cells. *)
Record array_of (V : Type) : Type := {
  mk_array : list V -> cell; is_array : cell -> option (list V); zero : V;
  is_mk : forall l, is_array (mk_array l) = Some l;
  mk_is : forall c l, is_array c = Some l -> c = mk_array l }.
Arguments mk_array {_}. Arguments is_array {_}. Arguments zero {_}. Arguments is_mk {_}. Arguments mk_is {_}.

Definition load_array {V} (T : array_of V) (l : loc) : H (list V) :=
  let! c := load l in
  match is_array T c with Some vs => retM vs | None => panicM "wrong type" end.

(** Reading element [i] of in, writing element [i] of out. *)
Definition load_elem {V} (T : array_of V) (s : slice) (i : nat) : H V :=
  let! vs := load_array T (s_arr s) in
  match vs !! (s_off s + i)%nat with Some v => retM v | None => panicM "index out of range" end.
Definition store_elem {V} (T : array_of V) (l : loc) (i : nat) (v : V) : H unit :=
  let! vs := load_array T l in store l (mk_array T (<[i := v]> vs)).

Definition strings_array : array_of string.
Proof.
  refine {| mk_array := CStrings; is_array := fun c => match c with CStrings l => Some l | _ => None end;
            zero := "" |}; [done|]. intros c vs Hc. destruct c; by simplify_eq.
Defined.
Definition injections_array : array_of inj_v.
Proof.
  refine {| mk_array := CInjections; is_array := fun c => match c with CInjections l => Some l | _ => None end;
            zero := inj_zero |}; [done|]. intros c vs Hc. destruct c; by simplify_eq.
Defined.
Definition rules_array : array_of rule_v.
Proof.
  refine {| mk_array := CRules; is_array := fun c => match c with CRules l => Some l | _ => None end;
            zero := rule_zero |}; [done|]. intros c vs Hc. destruct c; by simplify_eq.
Defined.
Definition configs_array : array_of cfg_v.
Proof.
  refine {| mk_array := CConfigs; is_array := fun c => match c with CConfigs l => Some l | _ => None end;
            zero := cfg_zero |}; [done|]. intros c vs Hc. destruct c; by simplify_eq.
Defined.

(** [make] of an array as long as in, and the loop of DeepCopyInto calls; a nil slice stays nil. *)
Definition copy_slice {V} (T : array_of V) (copy : V -> H V) (s : option slice) : H (option slice) :=
  match s with
  | None => retM None
  | Some s =>
      let! l := alloc (mk_array T (replicate (s_len s) (zero T))) in
      foldM (fun _ i =>
        let! v := (let! v := load_elem T s i in copy v) in
        store_elem T l i v) tt (seq 0 (s_len s)) ;;;
      retM (Some {| s_arr := l; s_off := 0; s_len := s_len s |})
  end.

(** [make] and the builtin [copy] on strings. *)
Definition copy_strings : option slice -> H (option slice) := copy_slice strings_array retM.

(** ** The generated functions

    [X_DeepCopyInto] gives the struct that out points to in the end. *)

Definition SingleCIDRInjection_DeepCopyInto (v : inj_v) : H inj_v :=
  let! paths := copy_strings (v_Paths v) in
  let! parents := copy_strings (v_Parents v) in
  retM {| v_ID := v_ID v; v_Path := v_Path v; v_Paths := paths; v_Parents := parents;
          v_SubnetSize := v_SubnetSize v |}.

Definition PathWithSource_DeepCopyInto (v : PathWithSource) : H PathWithSource := retM v.

(** The methods of the foreign structs. *)
Class ForeignCopies : Type := {
  sel_DeepCopyInto : sel_v -> H sel_v;
  meta_DeepCopyInto : meta_v -> H meta_v;
  listmeta_DeepCopyInto : listmeta_v -> H listmeta_v }.
Context {FC : ForeignCopies}.

Definition CIDRInjection_DeepCopyInto (v : rule_v) : H rule_v :=
  let! sel := sel_DeepCopyInto (v_Selector v) in
  let! injections := copy_slice injections_array SingleCIDRInjection_DeepCopyInto (v_Injections v) in
  retM {| v_ruleID := v_ruleID v; v_Selector := sel; v_Injections := injections |}.

(** The maps of one value type. *)
Record map_of (V : Type) : Type := {
  mk_map : gmap string V -> cell; is_map : cell -> option (gmap string V);
  is_mk_map : forall m, is_map (mk_map m) = Some m }.
Arguments mk_map {_}. Arguments is_map {_}. Arguments is_mk_map {_}.

Definition slice_map : map_of (option slice).
Proof. by refine {| mk_map := CSliceMap; is_map := fun c => match c with CSliceMap m => Some m | _ => None end |}. Defined.
Definition string_map : map_of string.
Proof. by refine {| mk_map := CStringMap; is_map := fun c => match c with CStringMap m => Some m | _ => None end |}. Defined.
Definition map_map : map_of (option loc).
Proof. by refine {| mk_map := CMapMap; is_map := fun c => match c with CMapMap m => Some m | _ => None end |}. Defined.

Definition load_map {V} (T : map_of V) (l : loc) : H (gmap string V) :=
  let! c := load l in
  match is_map T c with Some m => retM m | None => panicM "wrong type" end.
(** Writing [v] at [key] of out. *)
Definition store_map {V} (T : map_of V) (l : loc) (key : string) (v : V) : H unit :=
  let! m := load_map T l in store l (mk_map T (<[key := v]> m)).

(** [make] of a map, and the loop over the entries of in; a nil map stays nil. *)
Definition copy_map {V} (T : map_of V) (copy : V -> H V) (p : option loc) : H (option loc) :=
  match p with
  | None => retM None
  | Some p =>
      let! l := alloc (mk_map T ∅) in
      let! m := load_map T p in
      foldM (fun _ kv =>
        let! outVal := copy kv.2 in
        store_map T l kv.1 outVal) tt (range m) ;;;
      retM (Some l)
  end.

Definition copy_duration (p : option loc) : H (option loc) :=
  match p with
  | None => retM None
  | Some p =>
      let! l := alloc (CDuration 0) in
      let! c := load p in
      match c with CDuration d => store l (CDuration d) ;;; retM (Some l) | _ => panicM "wrong type" end
  end.

Definition IPAMConfigSpec_DeepCopyInto (v : spec_v) : H spec_v :=
  let! parents := copy_map slice_map copy_strings (v_ParentCIDRs v) in
  let! rules := copy_slice rules_array CIDRInjection_DeepCopyInto (v_InjectionRules v) in
  let! refresh := copy_duration (v_Refresh v) in
  retM {| v_ParentCIDRs := parents; v_InjectionRules := rules; v_Refresh := refresh |}.

Definition IPAMConfig_DeepCopyInto (v : cfg_v) : H cfg_v :=
  let! meta := meta_DeepCopyInto (v_Meta v) in
  let! spec := IPAMConfigSpec_DeepCopyInto (v_Spec v) in
  retM {| v_TypeMeta := v_TypeMeta v; v_Meta := meta; v_Spec := spec |}.

Definition IPAMConfigList_DeepCopyInto (v : list_v) : H list_v :=
  let! meta := listmeta_DeepCopyInto (v_ListMeta v) in
  let! items := copy_slice configs_array IPAMConfig_DeepCopyInto (v_Items v) in
  retM {| v_ListType := v_ListType v; v_ListMeta := meta; v_Items := items |}.

(** [if in == nil { return nil }; out := new(T); in.DeepCopyInto(out); return out], for a
    type with the cells [mk]. *)
Definition copy_pointer {V} (mk : V -> cell) (un : cell -> option V) (z : V) (into : V -> H V) (p : option loc) :
    H (option loc) :=
  match p with
  | None => retM None
  | Some p =>
      let! l := alloc (mk z) in
      let! c := load p in
      match un c with
      | Some v => let! v := into v in store l (mk v) ;;; retM (Some l)
      | None => panicM "wrong type"
      end
  end.

Definition IPAMConfig_DeepCopy : option loc -> H (option loc) :=
  copy_pointer CConfig (fun c => match c with CConfig v => Some v | _ => None end) cfg_zero IPAMConfig_DeepCopyInto.
Definition IPAMConfigSpec_DeepCopy : option loc -> H (option loc) :=
  copy_pointer CSpec (fun c => match c with CSpec v => Some v | _ => None end) spec_zero IPAMConfigSpec_DeepCopyInto.
Definition CIDRInjection_DeepCopy : option loc -> H (option loc) :=
  copy_pointer CRule (fun c => match c with CRule v => Some v | _ => None end) rule_zero CIDRInjection_DeepCopyInto.
Definition SingleCIDRInjection_DeepCopy : option loc -> H (option loc) :=
  copy_pointer CInjection (fun c => match c with CInjection v => Some v | _ => None end) inj_zero
    SingleCIDRInjection_DeepCopyInto.
Definition PathWithSource_DeepCopy : option loc -> H (option loc) :=
  copy_pointer CPath (fun c => match c with CPath v => Some v | _ => None end)
    {| pws_Path := ""; pws_Index := 0 |} PathWithSource_DeepCopyInto.
Definition IPAMConfigList_DeepCopy : option loc -> H (option loc) :=
  copy_pointer CList (fun c => match c with CList v => Some v | _ => None end)
    {| v_ListType := ("", ""); v_ListMeta := listmeta_zero; v_Items := None |} IPAMConfigList_DeepCopyInto.

(** The interface values: nil, or the pointer. *)
Definition IPAMConfig_DeepCopyObject (p : option loc) : H (option loc) :=
  let! c := IPAMConfig_DeepCopy p in match c with Some l => retM (Some l) | None => retM None end.
Definition IPAMConfigList_DeepCopyObject (p : option loc) : H (option loc) :=
  let! c := IPAMConfigList_DeepCopy p in match c with Some l => retM (Some l) | None => retM None end.

(** DeepCopyInto and DeepCopy of AppliedRulesAnnotation, itself a map. *)
Definition AppliedRulesAnnotation_DeepCopy : option loc -> H (option loc) :=
  copy_map map_map (copy_map string_map retM).

(** ** What a value on the heap stands for *)

(** A relation between a heap, a value in it and what it stands for. *)
Definition mono {V T} (R : heap -> V -> T -> Prop) : Prop := forall h h' v t, h ⊆ h' -> R h v t -> R h' v t.

(** The call returns, and all it does is to add cells; [Q] is about those. *)
Definition copies {A} (h : heap) (m : H A) (Q : heap -> A -> Prop) : Prop :=
  exists new a, m h = (Ret a, h ∪ new) /\ h ##ₘ new /\ Q new a.

(** The new cells alone hold a copy. *)
Definition copies_ok {V T} (R : heap -> V -> T -> Prop) (copy : V -> H V) : Prop :=
  forall h v t, R h v t -> copies h (copy v) (fun new v' => R new v' t).

Lemma copies_ret {A} h (a : A) (Q : heap -> A -> Prop) : Q ∅ a -> copies h (retM a) Q.
Proof. intros Hq. exists ∅, a. split_and!; [by rewrite map_union_empty|apply map_disjoint_empty_r|done]. Qed.

Lemma copies_bind {A B} h (m : H A) (k : A -> H B) (P : heap -> A -> Prop) (Q : heap -> B -> Prop) :
  copies h m P ->
  (forall new a, h ##ₘ new -> P new a -> copies (h ∪ new) (k a) (fun new2 b => new ##ₘ new2 -> Q (new ∪ new2) b)) ->
  copies h (bindM m k) Q.
Proof.
  intros (new & a & Hrun & Hd & HP) Hk. destruct (Hk new a Hd HP) as (new2 & b & Hrun2 & Hd2 & HQ).
  exists (new ∪ new2), b. rewrite (bindM_Ret _ _ _ _ _ Hrun), Hrun2.
  apply map_disjoint_union_l in Hd2 as [Hd2 Hd3]. split_and!; [by rewrite map_union_assoc| |by apply HQ].
  by apply map_disjoint_union_r.
Qed.

Lemma copies_weaken {A} h (m : H A) (P Q : heap -> A -> Prop) :
  copies h m P -> (forall new a, P new a -> Q new a) -> copies h m Q.
Proof. intros (new & a & ? & ? & ?) HPQ. exists new, a. auto. Qed.

(** A read leaves the heap as it is. *)
Lemma copies_read {A B} h (m : H A) (k : A -> H B) a (Q : heap -> B -> Prop) :
  m h = (Ret a, h) -> copies h (k a) Q -> copies h (bindM m k) Q.
Proof. intros Hm Hk. unfold copies. by rewrite (bindM_Ret _ _ _ _ _ Hm). Qed.

Lemma alloc_run h c : exists l, alloc c h = (Ret l, h ∪ <[l := c]> ∅) /\ h !! l = None.
Proof.
  exists (fresh (dom h)). assert (h !! fresh (dom h) = None) as Hl by apply not_elem_of_dom, is_fresh.
  split; [|done]. unfold alloc. cbv zeta. by rewrite <- insert_union_r, map_union_empty.
Qed.

Lemma store_fresh (h r n : heap) l c c' :
  h !! l = None -> <[l := c']> ((h ∪ <[l := c]> r) ∪ n) = h ∪ <[l := c']> (r ∪ n).
Proof.
  intros Hl. rewrite insert_union_l, insert_union_r by done. rewrite insert_insert_eq.
  by rewrite <- map_union_assoc, insert_union_l.
Qed.

Lemma lookup_new (h r : heap) l c : h !! l = None -> (h ∪ <[l := c]> r) !! l = Some c.
Proof. intros Hl. rewrite lookup_union_r by done. apply lookup_insert_eq. Qed.

(** *** A loop that fills a fresh container *)

Section loop.
Context {X V S : Type} (elem : X -> H V) (update : loc -> X -> V -> H unit) (mk : S -> cell) (upd : S -> X -> V -> S).
Context (E : heap -> X -> V -> Prop).
Context (Hupdate : forall l x v h s, h !! l = Some (mk s) -> update l x v h = (Ret tt, <[l := mk (upd s x v)]> h)).
Context (Hmono : forall h h' x v, h ⊆ h' -> E h x v -> E h' x v).

Lemma loop_copies h l xs : h !! l = None ->
  (forall x h', x ∈ xs -> h ⊆ h' -> copies h' (elem x) (fun new v => E new x v)) ->
  forall s r, h ##ₘ r -> r !! l = None ->
  exists r' vs,
    foldM (fun _ x => let! v := elem x in update l x v) tt xs (h ∪ <[l := mk s]> r) =
      (Ret tt, h ∪ <[l := mk (foldl (fun s xv => upd s xv.1 xv.2) s (zip xs vs))]> r') /\
    h ##ₘ r' /\ r' !! l = None /\ r ⊆ r' /\ Forall2 (E r') xs vs.
Proof.
  intros Hl. induction xs as [|x xs IH]; intros Helem s r Hd Hr.
  { exists r, []. split_and!; done || constructor. }
  destruct (Helem x (h ∪ <[l := mk s]> r)) as (new & v & Hrun & Hdn & HE); [by left|apply map_union_subseteq_l|].
  apply map_disjoint_union_l in Hdn as [Hdn Hrn]. apply map_disjoint_insert_l in Hrn as [Hln Hrn].
  destruct (IH ltac:(intros y h' Hy; apply Helem; by right) (upd s x v) (r ∪ new)) as (r' & vs & Hloop & Hd' & Hr' & Hsub & Hvs).
  { by apply map_disjoint_union_r. }
  { by apply lookup_union_None. }
  exists r', (v :: vs). split_and!; [|done|done| |].
  - cbn [foldM]. assert ((let! v := elem x in update l x v) (h ∪ <[l := mk s]> r) =
      (Ret tt, h ∪ <[l := mk (upd s x v)]> (r ∪ new))) as Hstep.
    { rewrite (bindM_Ret _ _ _ _ _ Hrun), (Hupdate l x v _ s).
      - by rewrite store_fresh.
      - apply lookup_union_Some_l. by apply lookup_new. }
    rewrite (bindM_Ret _ _ _ _ _ Hstep). exact Hloop.
  - etrans; [|exact Hsub]. apply map_union_subseteq_l.
  - constructor; [|done]. apply (Hmono new); [|done]. etrans; [|exact Hsub]. by apply map_union_subseteq_r.
Qed.
End loop.

(** *** Slices *)

Definition reads_slice {V T} (A : array_of V) (R : heap -> V -> T -> Prop) (h : heap) (s : option slice)
    (ts : list T) : Prop :=
  match s with
  | None => ts = []
  | Some s => exists vs, h !! s_arr s = Some (mk_array A vs) /\ (s_off s + s_len s <= length vs)%nat /\
      Forall2 (R h) (take (s_len s) (drop (s_off s) vs)) ts
  end.

Lemma reads_slice_mono {V T} (A : array_of V) (R : heap -> V -> T -> Prop) : mono R -> mono (reads_slice A R).
Proof.
  intros HR h h' [s|] ts Hsub; simpl; [|done]. intros (vs & Hl & Hlen & Hvs). exists vs.
  split_and!; [by eapply lookup_weaken|done|]. eapply Forall2_impl; [done|]. intros v t. by apply HR.
Qed.

Lemma load_array_run {V} (A : array_of V) l vs h :
  h !! l = Some (mk_array A vs) -> load_array A l h = (Ret vs, h).
Proof. intros Hl. unfold load_array, load, bindM. by rewrite Hl, is_mk. Qed.

Lemma load_elem_run {V} (A : array_of V) s i v vs h :
  h !! s_arr s = Some (mk_array A vs) -> vs !! (s_off s + i)%nat = Some v -> load_elem A s i h = (Ret v, h).
Proof. intros Hl Hv. unfold load_elem. rewrite (bindM_Ret _ _ _ _ _ (load_array_run A _ _ _ Hl)). by rewrite Hv. Qed.

Lemma store_elem_run {V} (A : array_of V) l i v h vs :
  h !! l = Some (mk_array A vs) -> store_elem A l i v h = (Ret tt, <[l := mk_array A (<[i := v]> vs)]> h).
Proof. intros Hl. unfold store_elem. by rewrite (bindM_Ret _ _ _ _ _ (load_array_run A _ _ _ Hl)). Qed.

(** Writing an array from left to right. *)
Lemma fill_array {V} (vs acc pad : list V) :
  length pad = length vs ->
  foldl (fun l xv => <[xv.1 := xv.2]> l) (acc ++ pad) (zip (seq (length acc) (length vs)) vs) = acc ++ vs.
Proof.
  revert acc pad. induction vs as [|v vs IH]; intros acc [|x pad] Hlen; simplify_eq/=; [done|].
  replace (<[length acc := v]> (acc ++ x :: pad)) with ((acc ++ [v]) ++ pad).
  2: { rewrite insert_app_r_alt by lia. rewrite Nat.sub_diag. simpl. by rewrite <- app_assoc. }
  specialize (IH (acc ++ [v]) pad). rewrite length_app in IH. simpl in IH. rewrite Nat.add_1_r in IH.
  rewrite IH by lia. by rewrite <- app_assoc.
Qed.

Lemma copy_slice_ok {V T} (A : array_of V) (R : heap -> V -> T -> Prop) (copy : V -> H V) :
  mono R -> copies_ok R copy -> copies_ok (reads_slice A R) (copy_slice A copy).
Proof.
  intros HR Hcopy h [s|] ts; [|intros ->; by apply copies_ret]. intros (vs & Hl & Hlen & Hvs). unfold copy_slice.
  destruct (alloc_run h (mk_array A (replicate (s_len s) (zero A)))) as (l & Halloc & Hfresh).
  assert (length ts = s_len s) as Hts.
  { apply Forall2_length in Hvs. rewrite length_take, length_drop in Hvs. lia. }
  destruct (loop_copies (fun i => let! v := load_elem A s i in copy v) (store_elem A) (mk_array A)
    (fun l i v => <[i := v]> l) (fun h' i v' => forall t, ts !! i = Some t -> R h' v' t)
    ltac:(intros; by apply store_elem_run) ltac:(intros h1 h2 i v' Hsub He t Ht; eapply HR; [done|by apply He])
    h l (seq 0 (s_len s)) Hfresh) with (s := replicate (s_len s) (zero A)) (r := (∅ : heap))
    as (r & new & Hloop & Hd & Hr & _ & Hnew).
  - intros i h' Hi%elem_of_seq Hsub.
    destruct (lookup_lt_is_Some_2 ts i ltac:(lia)) as [t Ht].
    destruct (Forall2_lookup_r _ _ _ _ _ Hvs Ht) as (v & Hv & HRv).
    apply lookup_take_Some in Hv as [Hv _]. rewrite lookup_drop in Hv.
    apply (copies_read _ _ _ v); [eapply load_elem_run; [by eapply lookup_weaken|done]|].
    eapply copies_weaken; [apply (Hcopy h' v t); by eapply HR|]. simpl. intros n a Ha t' Ht'. by simplify_eq.
  - apply map_disjoint_empty_r.
  - apply lookup_empty.
  - assert (length new = s_len s) as Hn by (apply Forall2_length in Hnew; by rewrite length_seq in Hnew).
    exists (<[l := mk_array A new]> r), (Some {| s_arr := l; s_off := 0; s_len := s_len s |}). split_and!.
    + rewrite (bindM_Ret _ _ _ _ _ Halloc), (bindM_Ret _ _ _ _ _ Hloop).
      pose proof (fill_array new [] (replicate (s_len s) (zero A))) as Hfill. simpl in Hfill.
      rewrite length_replicate, Hn in Hfill. by rewrite Hfill.
    + by apply map_disjoint_insert_r.
    + exists new. simpl. split_and!; [apply lookup_insert_eq|lia|]. rewrite drop_0, take_ge by lia.
      apply Forall2_same_length_lookup_2; [congruence|]. intros i v t Hv Ht.
      assert (seq 0 (s_len s) !! i = Some i) as Hi by (apply lookup_seq; apply lookup_lt_Some in Hv; lia).
      apply (HR r); [by apply insert_subseteq|]. by apply (Forall2_lookup_lr _ _ _ _ _ _ Hnew Hi Hv).
Qed.

Definition reads_string (h : heap) (v t : string) : Prop := v = t.

Lemma reads_string_mono : mono reads_string.
Proof. by intros h h' v t. Qed.

Notation reads_strings := (reads_slice strings_array reads_string).

Lemma copy_strings_ok : copies_ok reads_strings copy_strings.
Proof. apply copy_slice_ok; [apply reads_string_mono|]. intros h v t <-. by apply copies_ret. Qed.

(** *** Structs and maps *)

Definition reads_inj (h : heap) (v : inj_v) (t : SingleCIDRInjection) : Prop :=
  v_ID v = inj_ID t /\ v_Path v = inj_Path t /\ reads_strings h (v_Paths v) (inj_Paths t) /\
  reads_strings h (v_Parents v) (inj_Parents t) /\ v_SubnetSize v = inj_SubnetSize t.

(** What the foreign deep copies are relied on for. *)
Class ForeignLaws : Type := {
  ListMeta : Type;
  sel_reads : heap -> sel_v -> Selector -> Prop;
  meta_reads : heap -> meta_v -> ObjectMeta -> Prop;
  listmeta_reads : heap -> listmeta_v -> ListMeta -> Prop;
  sel_mono : mono sel_reads;
  meta_mono : mono meta_reads;
  listmeta_mono : mono listmeta_reads;
  sel_copy : copies_ok sel_reads sel_DeepCopyInto;
  meta_copy : copies_ok meta_reads meta_DeepCopyInto;
  listmeta_copy : copies_ok listmeta_reads listmeta_DeepCopyInto }.
Context {FL : ForeignLaws}.

Definition reads_rule (h : heap) (v : rule_v) (t : CIDRInjection) : Prop :=
  v_ruleID v = rule_ID t /\ sel_reads h (v_Selector v) (rule_Selector t) /\
  reads_slice injections_array reads_inj h (v_Injections v) (rule_Injections t).

(** A possibly nil map: the same keys, related values. *)
Definition reads_map {V T} (A : map_of V) (R : heap -> V -> T -> Prop) (h : heap) (p : option loc)
    (t : option (gmap string T)) : Prop :=
  match p, t with
  | None, None => True
  | Some l, Some ts => exists m, h !! l = Some (mk_map A m) /\ forall k, option_Forall2 (R h) (m !! k) (ts !! k)
  | _, _ => False
  end.

Definition reads_refresh (h : heap) (p : option loc) (t : option Z) : Prop :=
  match p, t with
  | None, None => True
  | Some l, Some d => h !! l = Some (CDuration d)
  | _, _ => False
  end.

Definition reads_spec (h : heap) (v : spec_v) (t : IPAMConfigSpec) : Prop :=
  (exists parents, reads_map slice_map reads_strings h (v_ParentCIDRs v) parents /\ default ∅ parents = ParentCIDRs t) /\
  reads_slice rules_array reads_rule h (v_InjectionRules v) (InjectionRules t) /\
  reads_refresh h (v_Refresh v) (InternalStateRefreshCycleDuration t).

(** With the TypeMeta, which the values of [Types] do not have. *)
Definition reads_cfg (h : heap) (v : cfg_v) (t : (string * string) * IPAMConfig) : Prop :=
  v_TypeMeta v = t.1 /\ meta_reads h (v_Meta v) (cfg_meta t.2) /\ reads_spec h (v_Spec v) (Spec t.2).

Definition reads_pointer {V T} (mk : V -> cell) (R : heap -> V -> T -> Prop) (h : heap) (p : option loc)
    (t : option T) : Prop :=
  match p, t with
  | None, None => True
  | Some l, Some t => exists v, h !! l = Some (mk v) /\ R h v t
  | _, _ => False
  end.

Definition reads_string_map : heap -> option loc -> option (gmap string string) -> Prop :=
  reads_map string_map reads_string.
Definition reads_annotation : heap -> option loc -> option AppliedRulesAnnotation -> Prop :=
  reads_map map_map reads_string_map.

Lemma reads_inj_mono : mono reads_inj.
Proof.
  intros h h' v t Hs (? & ? & ? & ? & ?).
  split_and!; try done; by eapply (reads_slice_mono _ _ reads_string_mono).
Qed.
Lemma reads_rule_mono : mono reads_rule.
Proof.
  intros h h' v t Hs (? & ? & ?). split_and!; [done|by eapply sel_mono|].
  by eapply (reads_slice_mono _ _ reads_inj_mono).
Qed.
Lemma reads_map_mono {V T} (A : map_of V) (R : heap -> V -> T -> Prop) : mono R -> mono (reads_map A R).
Proof.
  intros HR h h' [l|] [ts|] Hs; simpl; try done. intros (m & Hl & Hm). exists m.
  split; [by eapply lookup_weaken|]. intros k. destruct (Hm k); constructor. by eapply HR.
Qed.
Definition strings_mono : mono reads_strings := reads_slice_mono _ _ reads_string_mono.
Lemma reads_refresh_mono : mono reads_refresh.
Proof. intros h h' [l|] [d|] Hs; simpl; try done. intros Hl. by eapply lookup_weaken. Qed.
Lemma reads_spec_mono : mono reads_spec.
Proof.
  intros h h' v t Hs ((ps & Hm & Hp) & Hr & Hd). split_and!.
  - exists ps. split; [|done]. by eapply (reads_map_mono _ _ strings_mono).
  - by eapply (reads_slice_mono _ _ reads_rule_mono).
  - by eapply reads_refresh_mono.
Qed.
Lemma reads_cfg_mono : mono reads_cfg.
Proof. intros h h' v t Hs (? & ? & ?). split_and!; [done|by eapply meta_mono|by eapply reads_spec_mono]. Qed.

(** *** The generated functions copy *)

(** Two copies in a row, for the fields of a struct. *)
Lemma copies_two {A B C TA TB} (RA : heap -> A -> TA -> Prop) (RB : heap -> B -> TB -> Prop) ca cb
    h a b ta tb (k : A -> B -> C) (Q : heap -> C -> Prop) :
  mono RA -> mono RB -> copies_ok RA ca -> copies_ok RB cb -> RA h a ta -> RB h b tb ->
  (forall new a' b', RA new a' ta -> RB new b' tb -> Q new (k a' b')) ->
  copies h (let! a' := ca a in let! b' := cb b in retM (k a' b')) Q.
Proof.
  intros HmA HmB Hca Hcb Ha Hb HQ. eapply copies_bind; [by apply Hca|]. intros n1 a' Hd1 H1.
  eapply copies_bind; [apply Hcb; eapply HmB; [apply map_union_subseteq_l|done]|].
  intros n2 b' _ H2. apply copies_ret. rewrite map_union_empty. intros _ Hd2.
  apply HQ; [eapply HmA; [apply map_union_subseteq_l|done]|eapply HmB; [by apply map_union_subseteq_r|done]].
Qed.

Lemma SingleCIDRInjection_copy : copies_ok reads_inj SingleCIDRInjection_DeepCopyInto.
Proof.
  intros h v t (Hid & Hp & Hps & Hpar & Hsz).
  eapply (copies_two _ _ _ _ _ _ _ _ _ _ _ strings_mono strings_mono copy_strings_ok copy_strings_ok); [done..|].
  intros new a b Ha Hb. by split_and!.
Qed.

Lemma CIDRInjection_copy : copies_ok reads_rule CIDRInjection_DeepCopyInto.
Proof.
  intros h v t (Hid & Hs & Hi).
  eapply (copies_two _ _ _ _ _ _ _ _ _ _ _ sel_mono (reads_slice_mono _ _ reads_inj_mono) sel_copy
    (copy_slice_ok _ _ _ reads_inj_mono SingleCIDRInjection_copy)); [done..|].
  intros new a b Ha Hb. by split_and!.
Qed.

Lemma fill_map {V W} (R : string -> V -> W -> Prop) (m : gmap string V) vs :
  Forall2 (fun kv w => R kv.1 kv.2 w) (range m) vs ->
  forall k, option_Forall2 (R k) (m !! k) ((foldl (fun acc xv => <[xv.1.1 := xv.2]> acc) ∅ (zip (range m) vs) : gmap string W) !! k).
Proof.
  intros Hvs k. set (l := zip (range m) vs).
  assert ((fun xv => xv.1.1) <$> l = (range m).*1) as Hkeys.
  { subst l. change (fun xv : string * V * W => xv.1.1) with (@fst string V ∘ @fst (string * V) W).
    rewrite list_fmap_compose. f_equal. apply fst_zip. apply Forall2_length in Hvs. lia. }
  destruct (m !! k) as [v|] eqn:Hk.
  - assert ((k, v) ∈ range m) as [i Hi]%list_elem_of_lookup by (by apply elem_of_range).
    destruct (Forall2_lookup_l _ _ _ _ _ Hvs Hi) as (w & Hw & HR).
    pose proof (foldl_insert_in (fun xv : string * V * W => xv.1.1) (fun xv => xv.2) l ∅ ((k, v), w)) as Hin.
    simpl in Hin. rewrite Hin; [by constructor| |].
    + rewrite Hkeys. apply range_NoDup.
    + apply list_elem_of_lookup_2 with i. subst l. by apply lookup_zip_with_Some; eauto 6.
  - rewrite (foldl_insert_notin (fun xv : string * V * W => xv.1.1) (fun xv => xv.2)).
    + rewrite lookup_empty. constructor.
    + rewrite Hkeys, elem_of_range_keys, Hk. by intros [].
Qed.

Lemma load_map_run {V} (A : map_of V) l m h : h !! l = Some (mk_map A m) -> load_map A l h = (Ret m, h).
Proof. intros Hl. unfold load_map, load, bindM. by rewrite Hl, is_mk_map. Qed.

Lemma copy_map_ok {V T} (A : map_of V) (R : heap -> V -> T -> Prop) (copy : V -> H V) :
  mono R -> copies_ok R copy -> copies_ok (reads_map A R) (copy_map A copy).
Proof.
  intros HR Hcopy h [p|] [ts|]; try done; [|intros _; by apply copies_ret]. intros (m & Hp & Hm). unfold copy_map.
  destruct (alloc_run h (mk_map A ∅)) as (l & Halloc & Hfresh).
  assert (load_map A p (h ∪ <[l := mk_map A ∅]> ∅) = (Ret m, h ∪ <[l := mk_map A ∅]> ∅)) as Hload.
  { apply load_map_run. by apply lookup_union_Some_l. }
  destruct (loop_copies (fun kv : string * V => copy kv.2) (fun l kv v => store_map A l kv.1 v) (mk_map A)
    (fun m kv v => <[kv.1 := v]> m) (fun h' kv v' => exists t, ts !! kv.1 = Some t /\ R h' v' t)) with
    (h := h) (l := l) (xs := range m) (s := (∅ : gmap string V)) (r := (∅ : heap)) as (r & new & Hloop & Hd & Hr & _ & Hnew).
  - intros l' kv v h' m' Hl'. unfold store_map. by rewrite (bindM_Ret _ _ _ _ _ (load_map_run A _ _ _ Hl')).
  - intros h1 h2 kv v Hsub (t & Ht & Hv). exists t. split; [done|by eapply HR].
  - done.
  - intros [k v] h' Hin%elem_of_range Hsub. specialize (Hm k). rewrite Hin in Hm. inversion Hm as [? t Hv Heq Ht|]; subst.
    eapply copies_weaken; [apply (Hcopy h' v t); by eapply HR|]. simpl. intros n a Ha. by exists t.
  - apply map_disjoint_empty_r.
  - apply lookup_empty.
  - eexists (<[l := _]> r), (Some l). split_and!.
    + rewrite (bindM_Ret _ _ _ _ _ Halloc), (bindM_Ret _ _ _ _ _ Hload), (bindM_Ret _ _ _ _ _ Hloop). done.
    + by apply map_disjoint_insert_r.
    + eexists. split; [apply lookup_insert_eq|]. intros k.
      pose proof (fill_map (fun k _ w => exists t, ts !! k = Some t /\ R r w t) m new Hnew k) as Hfill.
      specialize (Hm k). inversion Hfill as [v w (t & Ht & Hw) Hv Hk|Hv Hk].
      * rewrite Ht. constructor. eapply HR; [|exact Hw]. by apply insert_subseteq.
      * rewrite <- Hv in Hm. inversion Hm. constructor.
Qed.

Lemma copy_duration_ok : copies_ok reads_refresh copy_duration.
Proof.
  intros h [p|] [d|] Hp; try done; [|by apply copies_ret]. unfold copy_duration.
  destruct (alloc_run h (CDuration 0)) as (l & Halloc & Hl). exists (<[l := CDuration d]> ∅), (Some l). split_and!.
  - rewrite (bindM_Ret _ _ _ _ _ Halloc). unfold bindM, load, store, modifyM.
    rewrite (lookup_union_Some_l _ _ _ _ Hp). unfold retM. by rewrite insert_union_r, insert_insert_eq.
  - apply map_disjoint_insert_r. split; [done|apply map_disjoint_empty_r].
  - apply lookup_insert_eq.
Qed.

Lemma IPAMConfigSpec_copy : copies_ok reads_spec IPAMConfigSpec_DeepCopyInto.
Proof.
  intros h v t ((ps & Hps & Heq) & Hr & Hd). unfold IPAMConfigSpec_DeepCopyInto.
  eapply copies_bind; [by apply (copy_map_ok slice_map _ _ strings_mono copy_strings_ok)|]. intros n1 parents Hd1 H1.
  eapply (copies_two _ _ _ _ _ _ _ _ _ _ _ (reads_slice_mono _ _ reads_rule_mono) reads_refresh_mono
    (copy_slice_ok _ _ _ reads_rule_mono CIDRInjection_copy) copy_duration_ok).
  - eapply (reads_slice_mono _ _ reads_rule_mono); [apply map_union_subseteq_l|done].
  - eapply reads_refresh_mono; [apply map_union_subseteq_l|done].
  - intros n2 rules refresh Hrules Hrefresh Hd2. split_and!; simpl.
    + exists ps. split; [|done]. eapply (reads_map_mono _ _ strings_mono); [apply map_union_subseteq_l|done].
    + eapply (reads_slice_mono _ _ reads_rule_mono); [by apply map_union_subseteq_r|done].
    + eapply reads_refresh_mono; [by apply map_union_subseteq_r|done].
Qed.

Lemma IPAMConfig_copy : copies_ok reads_cfg IPAMConfig_DeepCopyInto.
Proof.
  intros h v t (Ht & Hm & Hs).
  eapply (copies_two _ _ _ _ _ _ _ _ _ _ _ meta_mono reads_spec_mono meta_copy IPAMConfigSpec_copy); [done..|].
  intros new a b Ha Hb. by split_and!.
Qed.

(** The list type; its metadata is a foreign struct. *)
Definition reads_list (h : heap) (v : list_v) (t : (string * string) * ListMeta * list ((string * string) * IPAMConfig)) : Prop :=
  v_ListType v = t.1.1 /\ listmeta_reads h (v_ListMeta v) t.1.2 /\ reads_slice configs_array reads_cfg h (v_Items v) t.2.

Lemma IPAMConfigList_copy : copies_ok reads_list IPAMConfigList_DeepCopyInto.
Proof.
  intros h v t (Ht & Hm & Hs).
  eapply (copies_two _ _ _ _ _ _ _ _ _ _ _ listmeta_mono (reads_slice_mono _ _ reads_cfg_mono) listmeta_copy
    (copy_slice_ok _ _ _ reads_cfg_mono IPAMConfig_copy)); [done..|].
  intros new a b Ha Hb. by split_and!.
Qed.

Lemma copy_pointer_ok {V T} mk un z (R : heap -> V -> T -> Prop) (into : V -> H V) :
  (forall v, un (mk v) = Some v) -> mono R -> copies_ok R into ->
  copies_ok (reads_pointer mk R) (copy_pointer mk un z into).
Proof.
  intros Hun HR Hinto h [p|] [t|] Hp; try done; [|by apply copies_ret]. destruct Hp as (v & Hp & Hv).
  unfold copy_pointer. destruct (alloc_run h (mk z)) as (l & Halloc & Hl).
  destruct (Hinto (h ∪ <[l := mk z]> ∅) v t) as (new & v' & Hrun & Hd & Hv'); [by eapply HR; [apply map_union_subseteq_l|]|].
  apply map_disjoint_union_l in Hd as [Hd Hln]. apply map_disjoint_insert_l in Hln as [Hln _].
  exists (<[l := mk v']> new), (Some l). split_and!.
  - rewrite (bindM_Ret _ _ _ _ _ Halloc). unfold bindM at 1, load.
    rewrite (lookup_union_Some_l _ _ _ _ Hp), Hun, (bindM_Ret _ _ _ _ _ Hrun).
    unfold store, modifyM, bindM, retM. rewrite store_fresh by done. by rewrite map_empty_union.
  - by apply map_disjoint_insert_r.
  - exists v'. split; [apply lookup_insert_eq|]. eapply HR; [|done]. by apply insert_subseteq.
Qed.

Definition reads_config : heap -> option loc -> option ((string * string) * IPAMConfig) -> Prop :=
  reads_pointer CConfig reads_cfg.

Lemma reads_config_mono : mono reads_config.
Proof.
  intros h h' [l|] [t|] Hs; simpl; try done. intros (v & Hl & Hv). exists v.
  split; [by eapply lookup_weaken|by eapply reads_cfg_mono].
Qed.

Lemma IPAMConfig_DeepCopy_ok : copies_ok reads_config IPAMConfig_DeepCopy.
Proof. by apply copy_pointer_ok; [|apply reads_cfg_mono|apply IPAMConfig_copy]. Qed.

Lemma IPAMConfigList_DeepCopy_ok : copies_ok (reads_pointer CList reads_list) IPAMConfigList_DeepCopy.
Proof.
  apply copy_pointer_ok; [done| |apply IPAMConfigList_copy]. intros h h' v t Hs (? & ? & ?).
  split_and!; [done|by eapply listmeta_mono|by eapply (reads_slice_mono _ _ reads_cfg_mono)].
Qed.

Lemma AppliedRulesAnnotation_DeepCopy_ok : copies_ok reads_annotation AppliedRulesAnnotation_DeepCopy.
Proof.
  apply copy_map_ok; [apply reads_map_mono, reads_string_mono|]. apply copy_map_ok; [apply reads_string_mono|].
  intros h v t <-. by apply copies_ret.
Qed.

(** ** internal/shared/config.go on the heap *)

(** The heap and the package variable. *)
Definition hstate : Type := heap * option loc.

Definition on_heap {A} (m : H A) : goM hstate A := fun s => let '(r, h) := m s.1 in (r, (h, s.2)).

Definition GetConfig_pointer : goM hstate (option loc) :=
  let! s := getM in on_heap (IPAMConfig_DeepCopy s.2).
Definition SetConfig_pointer (cfg : option loc) : goM hstate unit :=
  let! c := on_heap (IPAMConfig_DeepCopy cfg) in modifyM (fun s => (s.1, c)).

(** C17: The stored config is a value, although configs are pointers to structs with slices and
    maps: SetConfig stores a copy made of new cells only, and whatever happens to all other
    cells of the heap afterwards (the caller's config may be changed in place, cells may be
    added and dropped), GetConfig returns a pointer to the config that was set, again made of
    new cells only, so that changes through it do not reach the stored one. *)
Theorem config_store_isolated h var cfg t :
  reads_config h cfg t ->
  exists new stored,
    SetConfig_pointer cfg (h, var) = (Ret tt, (h ∪ new, stored)) /\ h ##ₘ new /\
    (forall h', h' ##ₘ new ->
       exists new' got,
         GetConfig_pointer (h' ∪ new, stored) = (Ret got, (h' ∪ new ∪ new', stored)) /\
         h' ∪ new ##ₘ new' /\ reads_config new' got t).
Proof.
  intros Hr. destruct (IPAMConfig_DeepCopy_ok h cfg t Hr) as (new & stored & Hrun & Hd & Hnew).
  exists new, stored. split_and!; [|done|].
  - unfold SetConfig_pointer, on_heap, bindM, modifyM. simpl. by rewrite Hrun.
  - intros h' Hd'. destruct (IPAMConfig_DeepCopy_ok (h' ∪ new) stored t) as (new' & got & Hrun' & Hd2 & Hgot).
    { eapply reads_config_mono; [by apply map_union_subseteq_r|done]. }
    exists new', got. split_and!; [|done..]. unfold GetConfig_pointer, on_heap, bindM, getM. simpl. by rewrite Hrun'.
Qed.
End deepcopy.
