(* ===== verification/System.v ===== *)
(** * The process as a whole: the entry points share one lock *)

From stdpp Require Import base list strings gmap.
From S2P Require Import Prelude GoStd Types Externals Runtime Utils Restore RestoreState ClusterController ClusterReconcile ConfigController ClusterMutation.
Open Scope list_scope.
Open Scope Z_scope.

Section locks.
Context {OM : OpenMCP} {GI : GoIpam} {KA : K8sApi} {CU : CtrlUtils} {GO : GoMapOrder}.

Lemma Default_live cluster : live lock_free (Default cluster).
Proof. unfold Default. go_struct. Qed.

Lemma Reconcile_cfg_live t c name : live lock_free (Reconcile_cfg t c name).
Proof.
  unfold Reconcile_cfg, reconcile_cfg, client_GetConfig, client_RemoveConfigAnnotation,
    reconcile_config, finish, queue_clusters.
  pose proof (FetchRelevantClusters_live_gen lock_free (fun _ => request_live_free)).
  assert (forall f : gostate -> gostate, (forall s, IPAM (f s) = IPAM s) -> live lock_free (modifyM f)).
  { intros f Hf. apply modify_live. intros s. unfold lock_free. by rewrite Hf. }
  go_struct.
Qed.

(** A call from outside: a reconciliation, a webhook, the restore at startup. *)
Inductive entry : Type :=
  | ReconcileCluster (er : bool) (ns name : string)
  | ReconcileConfig (t : clock) (c : IPAMConfigController) (name : string)
  | MutateCluster (cluster : Cluster)
  | RestoreState
  | ReleaseCIDRs (cc : ClusterConfig)
  | HandleOrphans (ccs : list ClusterConfig).

Definition run_entry (e : entry) : M unit :=
  match e with
  | ReconcileCluster er ns name => Reconcile er ns name ;;; retM tt
  | ReconcileConfig t c name => Reconcile_cfg t c name ;;; retM tt
  | MutateCluster cluster => Default cluster ;;; retM tt
  | RestoreState => RestoreIPAMFromClusterState ;;; retM tt
  | ReleaseCIDRs cc => ReleaseCIDRsForClusterConfig cc ;;; retM tt
  | HandleOrphans ccs => HandleOrphanedClusterConfigs ccs ;;; retM tt
  end.

(** Calls one after the other; a panic ends only the call it happens in. *)
Fixpoint run_entries (es : list entry) (s : gostate) : list (outcome unit) * gostate :=
  match es with
  | [] => ([], s)
  | e :: es =>
      let '(o, s) := run_entry e s in
      let '(os, s) := run_entries es s in (o :: os, s)
  end.

Lemma run_entry_live e : live lock_free (run_entry e).
Proof. pose proof Default_live. pose proof Reconcile_cfg_live. destruct e; simpl; go_struct. Qed.

(** ** What no call undoes *)

Definition keeps_setup (s s' : gostate) : Prop :=
  (is_Some (IPAM s) -> is_Some (IPAM s')) /\
  providerName s' = providerName s /\ environment s' = environment s.

#[export] Instance keeps_setup_preorder : PreOrder keeps_setup.
Proof.
  unfold keeps_setup. split; [by intros s|].
  intros s1 s2 s3 (? & -> & ->) (? & -> & ->). auto.
Qed.

Lemma modify_keeps f :
  (forall s, IPAM (f s) = IPAM s /\ providerName (f s) = providerName s /\ environment (f s) = environment s) ->
  preserves keeps_setup (modifyM f).
Proof. intros Hf s. unfold keeps_setup. simpl. by destruct (Hf s) as (-> & -> & ->). Qed.
Lemma request_keeps {A} c (answer : list api_call -> A) : preserves keeps_setup (request c answer).
Proof. by intros s. Qed.
Lemma on_IPAM_keeps {A} (m : goM Ipamer A) : preserves keeps_setup (on_IPAM m).
Proof.
  intros s. unfold keeps_setup, on_IPAM. destruct (IPAM s) as [i|] eqn:Hi; [|simpl; by rewrite Hi].
  by destruct (m i).
Qed.
Lemma with_IPAM_lock_keeps {A} (body : M A) : preserves keeps_setup body -> preserves keeps_setup (with_IPAM_lock body).
Proof.
  intros Hb s. unfold with_IPAM_lock. destruct (IPAM s) as [i|] eqn:Hi; [|done]. destruct (lock i); [done|].
  destruct (Hb (st_set_IPAM (Some (set_lock true i)) s)) as (HI & HP & HE). unfold keeps_setup.
  destruct (body _) as [[a|w|] s']; simpl in *; split_and!; try done; intros _; rewrite ?fmap_is_Some; by apply HI.
Qed.
Lemma Eventf_keeps er ty r a : preserves keeps_setup (Eventf er ty r a).
Proof. destruct er; [by apply modify_keeps|apply preserves_ret, _]. Qed.
Hint Resolve request_keeps on_IPAM_keeps with_IPAM_lock_keeps Eventf_keeps : go.
Hint Extern 1 (preserves keeps_setup (modifyM _)) => by apply modify_keeps : go.

Lemma ClusterConfigLabels_keeps cl r : preserves keeps_setup (ClusterConfigLabels cl r).
Proof. unfold ClusterConfigLabels, ProviderName, Environment. go_struct. Qed.
Hint Resolve ClusterConfigLabels_keeps : go.

Lemma Generate_keeps cl r inj : preserves keeps_setup (GenerateClusterConfigForInjectionList cl r inj).
Proof. unfold GenerateClusterConfigForInjectionList. go_struct. Qed.
Lemma FetchRelevantClusters_keeps cfg : preserves keeps_setup (FetchRelevantClusters cfg).
Proof.
  unfold FetchRelevantClusters, fetch_owner, FetchClusterConfigs, client_ListClusters, client_ListClusterConfigs, client_GetCluster.
  go_struct.
Qed.
Lemma FetchClusterConfigs_keeps : preserves keeps_setup FetchClusterConfigs.
Proof. unfold FetchClusterConfigs, client_ListClusterConfigs. go_struct. Qed.
Lemma FetchForCluster_keeps cl : preserves keeps_setup (FetchClusterConfigsForCluster cl).
Proof. unfold FetchClusterConfigsForCluster, client_ListClusterConfigs. go_struct. Qed.
Lemma release_internal_keeps cc : preserves keeps_setup (releaseCIDRsForClusterConfig_internal cc).
Proof. unfold releaseCIDRsForClusterConfig_internal, IPAM_internal, client_PatchClusterConfig. go_struct. Qed.
Hint Resolve Generate_keeps FetchRelevantClusters_keeps FetchClusterConfigs_keeps FetchForCluster_keeps release_internal_keeps : go.

Lemma Check_keeps cl a ccs : preserves keeps_setup (CheckClusterConfigsForCluster cl a ccs).
Proof. unfold CheckClusterConfigsForCluster, check_rule. go_struct. Qed.
Lemma Apply_keeps ri : preserves keeps_setup (Apply ri).
Proof. unfold Apply, apply_all, client_CreateClusterConfig, client_UpdateClusterConfig. go_struct. Qed.
Hint Resolve Check_keeps Apply_keeps : go.

Lemma orphans_keeps ccs : preserves keeps_setup (handleOrphanedClusterConfigs_internal ccs).
Proof.
  unfold handleOrphanedClusterConfigs_internal, handle_orphan, client_GetCluster, client_DeleteClusterConfig. go_struct.
Qed.
Hint Resolve orphans_keeps : go.

Lemma Restore_body_keeps : preserves keeps_setup restore_body.
Proof. unfold restore_body, restore_cluster, restore_finish, client_GetConfig, ProviderName. go_struct. Qed.
Hint Resolve Restore_body_keeps : go.

(** Restore also creates the instance. *)
Lemma Restore_keeps s :
  keeps_setup s (RestoreIPAMFromClusterState s).2 /\ is_Some (IPAM (RestoreIPAMFromClusterState s).2).
Proof.
  unfold RestoreIPAMFromClusterState, bindM at 1 3, getM. case_decide as Hi; unfold bindM, retM, modifyM.
  - pose proof (with_IPAM_lock_keeps _ Restore_body_keeps s) as Hk. split; [done|]. by apply Hk.
  - pose proof (with_IPAM_lock_keeps _ Restore_body_keeps (st_set_IPAM (Some NewIpam) s)) as (HI & HP & HE).
    split; [split|]; [intros _; by apply HI|done|by apply HI].
Qed.

Lemma generate_keeps rule parents : preserves keeps_setup (generateCIDRsForInjectionRule rule parents).
Proof.
  assert (forall size ps, preserves keeps_setup (try_prefixes size ps)).
  { intros size ps. induction ps; simpl; go_struct. }
  assert (forall tmp p size sel, preserves keeps_setup (try_parents tmp p size sel)).
  { intros tmp p size sel. induction sel; simpl; unfold parent_prefixes, fetch_prefixes; go_struct. }
  assert (forall injs p raw tmp, preserves keeps_setup (generate_loop p raw tmp injs)).
  { intros injs. induction injs; intros; cbn [generate_loop]; unfold release_raw; go_struct. }
  unfold generateCIDRsForInjectionRule. go_struct.
Qed.
Hint Resolve generate_keeps : go.

Lemma Manage_keeps cl cfg rules ccs : preserves keeps_setup (ManageInjections cl cfg rules ccs).
Proof.
  assert (forall ps inj errs, preserves keeps_setup (record_patches inj errs ps)).
  { intros ps. induction ps; intros; simpl; go_struct. }
  unfold ManageInjections, record_cc, evaluate_rule. go_struct.
Qed.
Hint Resolve Manage_keeps : go.

Lemma Reconcile_keeps er ns name : preserves keeps_setup (Reconcile er ns name).
Proof.
  unfold Reconcile, reconcile, reconcile_cluster, handleCreateOrUpdate, handleDelete, delete_cc, apply_annotation,
    report_issues, warn, ReleaseCIDRsForClusterConfig, GetConfig, client_GetCluster, client_RemoveClusterAnnotation,
    client_PatchCluster, client_DeleteClusterConfig.
  go_struct.
Qed.

Lemma run_entry_keeps e : preserves keeps_setup (run_entry e).
Proof.
  pose proof Reconcile_keeps. assert (preserves keeps_setup RestoreIPAMFromClusterState) by (intros s; apply Restore_keeps).
  assert (forall c, preserves keeps_setup (Default c)) by (intros c; unfold Default, GetConfig; go_struct).
  assert (forall t c name, preserves keeps_setup (Reconcile_cfg t c name)).
  { intros t c name. unfold Reconcile_cfg, reconcile_cfg, reconcile_config, finish, queue_clusters, GetConfig, SetConfig,
      client_GetConfig, client_RemoveConfigAnnotation. go_struct. }
  destruct e; simpl; unfold ReleaseCIDRsForClusterConfig, HandleOrphanedClusterConfigs; go_struct.
Qed.

(** C20: The state of the process stays well-formed: however reconciliations of clusters and of
    the config, mutation-webhook calls, restores, releases and orphan handling follow each
    other, each with any outcome (a panic included) and with any answers of the API server, an
    existing IPAM instance stays, the two names are unchanged, the non-reentrant IPAM lock is
    free after each call, and none of them ever waits for a lock that its own call holds. *)
Theorem entries_never_block es s :
  lock_free s ->
  Forall (fun o => o <> Deadlock) (run_entries es s).1 /\
  lock_free (run_entries es s).2 /\ keeps_setup s (run_entries es s).2.
Proof.
  revert s. induction es as [|e es IH]; intros s Hs; [by split_and!; [constructor|..]|]. simpl.
  destruct (run_entry_live e s Hs) as [Hd Hf]. pose proof (run_entry_keeps e s) as Hk.
  destruct (run_entry e s) as [o s1]. simpl in *. destruct (IH s1 Hf) as (Hds & Hfs & Hks).
  destruct (run_entries es s1) as [os s2]. simpl in *.
  split_and!; [by constructor|done|]. etrans; [exact Hk|exact Hks].
Qed.
End locks.
