(* ===== verification/ExclusiveRuns.v ===== *)
(** * No CIDR in two places: the life of the program

    Processes that restore, serve reconciliations, are interrupted between two requests and
    started again: whatever the order, the server never shows a CIDR in two places. *)

From stdpp Require Import base list strings gmap.
From S2P Require Import Prelude GoStd GoJson Types Externals Runtime Utils Restore RestoreCheck RestoreIpam RestoreState RestoreDurable ClusterController ClusterGenerate ClusterManage ClusterReconcile AnnotationText Settle Exclusive ExclusiveReconcile ExclusiveRestore ConfigController ClusterMutation System Returns.
Open Scope list_scope.
Open Scope Z_scope.

Section runs.
Context {OM : OpenMCP} {GI : GoIpam} {KA : K8sApi} {CU : CtrlUtils} {GO : GoMapOrder}.
Context {GL : GoIpamLaws} {CL : CtrlUtilsLaws} {OL : OpenMCPLaws}.
Context {AS : ApiStore} {CS : ClusterStore AS} {FS : FaithfulStore CS}.

Hypothesis ConvertPath_text : forall p q, ConvertPath p = inl q -> text p -> text q.
Hypothesis Acquire_text : forall c n x x' p, ipam_AcquireChildPrefix c n x = (x', inl p) -> text (pCidr p).
Hypothesis Selector_same : forall sel a x,
  Name (cl_meta x) = Name (cl_meta a) -> Namespace (cl_meta x) = Namespace (cl_meta a) ->
  Labels (cl_meta x) = Labels (cl_meta a) -> cl_Purposes x = cl_Purposes a ->
  Selector_Matches sel x = Selector_Matches sel a.
Hypothesis Operation_key : OperationAnnotation <> AppliedRulesAnnotationKey.

(** The config, and the clusters that it selects. *)
Context (cfg : IPAMConfig) (managed : string * string -> Prop).
Hypothesis cfg_ids : NoDup (rule_ID <$> InjectionRules (Spec cfg)).
Hypothesis cfg_text : Forall text_rule (InjectionRules (Spec cfg)).
Hypothesis all_named : forall cl r, managed (cluster_key cl) -> named_rule cl r.
Hypothesis GetConfig_spec : forall h name c, api_GetConfig h name = inl c -> Spec c = Spec cfg.
Hypothesis RemoveConfig_spec : forall h c k c', api_RemoveConfigAnnotation h c k = inl c' -> Spec c' = Spec c.

(** ** The config controller and the webhook *)

Notation keeps := (keeps cfg managed).

(** A call that keeps the order however it ends, and returns only such values. *)
Definition keeping {A} (m : M A) (P : A -> Prop) : Prop :=
  forall s o s', m s = (o, s') -> keeps s s' /\ forall r, o = Ret r -> P r.

Lemma keeping_bind {A B} (m : M A) (k : A -> M B) (P : A -> Prop) (Q : B -> Prop) :
  keeping m P -> (forall a, P a -> keeping (k a) Q) -> keeping (bindM m k) Q.
Proof.
  intros Hm Hk s o s' [(a & s1 & Ha & Hb)|(o1 & Ha & _ & Ho)]%bindM_cases; apply Hm in Ha as [H1 HP].
  - apply (Hk a (HP a eq_refl)) in Hb as [H2 HQ]. split; [by etrans|done].
  - split; [done|]. by intros r ->.
Qed.

Lemma keeping_ret {A} (a : A) (P : A -> Prop) : P a -> keeping (retM a) P.
Proof. intros HP s o s' [= <- <-]. split; [done|]. by intros r [= <-]. Qed.

Lemma keeping_true {A} (m : M A) : (forall s o s', m s = (o, s') -> keeps s s') -> keeping m (fun _ => True).
Proof. intros Hm s o s' Hrun. split; [by eapply Hm|done]. Qed.

Lemma keeping_request {A} c (answer : list api_call -> A) :
  match c with CallRemoveConfigAnnotation _ _ => True | c => is_read c = true end ->
  keeping (request c answer) (fun a => exists h, a = answer h).
Proof.
  intros Hc s o s' [= <- <-]. split; [|intros r [= <-]; by eexists]. apply keeps_request; [done..|]. intros _. by destruct c.
Qed.

Lemma keeping_var f :
  (forall s, providerName (f s) = providerName s /\ environment (f s) = environment s /\ calls (f s) = calls s /\
     st_known (f s) = st_known s /\ (configured cfg s -> configured cfg (f s))) ->
  keeping (modifyM f) (fun _ => True).
Proof.
  intros Hf. apply keeping_true. intros s r s' [= _ <-] Ho. destruct (Hf s) as (Hp & He & Hc & Hk & Hcfg).
  destruct (reflexivity (R := keeps) s Ho) as (_ & _ & [Ht Hx Ha Hg] & Hs & Hb).
  split_and!; [done..| |by rewrite Hc|by rewrite Hc].
  split; rewrite ?Hp, ?He, ?Hc; [done..| |by apply Hcfg]. intros o path d Hu. rewrite Hk. by eapply Ha.
Qed.

Lemma keeping_Eventf er ty r a : keeping (Eventf er ty r a) (fun _ => True).
Proof. destruct er; [by apply keeping_var|by apply keeping_ret]. Qed.

Lemma keeping_SetConfig c : (forall x, c = Some x -> Spec x = Spec cfg) -> keeping (SetConfig c) (fun _ => True).
Proof. intros Hc. apply keeping_var. intros s. split_and!; [done..|]. intros _ x Hx. by apply Hc. Qed.

Lemma keeping_Restore : keeping RestoreIPAMFromClusterState (fun _ => True).
Proof.
  apply keeping_true. intros s o s' Hrun Ho.
  destruct (Restore_sound cfg managed Selector_same all_named GetConfig_spec s o s' Hrun (io_config _ _ s Ho))
    as ((_ & _ & Hp & He) & Hs & Hb & Hok); [by split; apply Ho|]. split_and!; auto.
Qed.

Lemma keeping_Fetch c : keeping (FetchRelevantClusters (Some c)) (fun _ => True).
Proof.
  eapply keeping_bind; [by apply keeping_request|]. intros x _. destruct x; by apply keeping_ret.
Qed.

Lemma keeping_queue l : keeping (queue_clusters l) (fun _ => True).
Proof.
  unfold queue_clusters. assert (forall u, keeping (foldM (fun _ cluster =>
    modifyM (fun s => st_set_ClusterWatch (ClusterWatch s ++ [cluster]) s)) u l) (fun _ => True)) as H; [|apply H].
  induction l as [|x l IH]; intros u; [by apply keeping_ret|]. simpl.
  eapply keeping_bind; [by apply keeping_var|]. intros ? _. apply IH.
Qed.

(** Searches for the rules above; the values of a branch are of no interest. *)
Ltac keeping_go :=
  repeat match goal with
  | H : keeping ?m _ |- keeping ?m _ => exact H
  | |- keeping (retM _) _ => apply keeping_ret; exact I
  | |- keeping (Eventf _ _ _ _) _ => apply keeping_Eventf
  | |- keeping RestoreIPAMFromClusterState _ => apply keeping_Restore
  | |- keeping (FetchRelevantClusters _) _ => apply keeping_Fetch
  | |- keeping (queue_clusters _) _ => apply keeping_queue
  | |- keeping (bindM _ _) _ => apply (keeping_bind _ _ (fun _ => True)); [|intros ? _]
  | |- keeping (match ?x with _ => _ end) _ => destruct x
  end.

Lemma keeping_finish t c x : keeping (finish t c x) (fun _ => True).
Proof. unfold finish. keeping_go. Qed.

Lemma keeping_reconcile_config t c x : Spec x = Spec cfg -> keeping (reconcile_config t c x) (fun _ => True).
Proof.
  intros Hx. unfold reconcile_config, GetConfig.
  assert (keeping (SetConfig (Some x)) (fun _ => True)) by (apply keeping_SetConfig; congruence).
  assert (keeping (SetConfig None) (fun _ => True)) by by apply keeping_SetConfig.
  assert (keeping getM (fun _ => True)) by (apply keeping_true; by intros s r s' [= _ <-]).
  pose proof (keeping_finish t c x). keeping_go.
Qed.

Lemma keeping_reconcile_cfg t c name : keeping (reconcile_cfg t c name) (fun _ => True).
Proof.
  unfold reconcile_cfg. assert (keeping (SetConfig None) (fun _ => True)) by by apply keeping_SetConfig.
  destruct (decide _); [keeping_go|].
  eapply keeping_bind; [by apply keeping_request|]. intros [x|e] (h & Hx); [|keeping_go].
  symmetry in Hx. apply GetConfig_spec in Hx. pose proof (keeping_reconcile_config t c x Hx).
  destruct (Annotations (cfg_meta x) !! OperationAnnotation) as [op|]; [|keeping_go].
  repeat case_decide; [keeping_go| |keeping_go].
  eapply keeping_bind; [by apply keeping_request|]. intros [y|e] (h' & Hy); [|keeping_go].
  symmetry in Hy. apply RemoveConfig_spec in Hy. rewrite Hx in Hy. by apply keeping_reconcile_config.
Qed.

Lemma keeping_Reconcile_cfg t c name : keeping (Reconcile_cfg t c name) (fun _ => True).
Proof. unfold Reconcile_cfg. pose proof (keeping_reconcile_cfg t c name). keeping_go. Qed.

Lemma keeping_Default cluster : keeping (Default cluster) (fun _ => True).
Proof.
  unfold Default, GetConfig. assert (keeping getM (fun _ => True)) by (apply keeping_true; by intros s r s' [= _ <-]). keeping_go.
Qed.

(** ** Processes and crashes *)

Context (provider env : string).

(** The calls that the controllers, the webhook and the refresh make. *)
Definition serving (e : entry) : bool :=
  match e with
  | ReconcileCluster _ _ _ | ReconcileConfig _ _ _ | MutateCluster _ | RestoreState => true
  | ReleaseCIDRs _ | HandleOrphans _ => false
  end.

(** A new process with its names set, when the server has answered the requests [h]. *)
Definition process (h : list api_call) (s : gostate) : Prop :=
  calls s = h /\ providerName s = provider /\ environment s = env /\ config s = None /\ IPAM s = None /\
  provider <> "" /\ env <> "".

Definition between (s s' : gostate) (h : list api_call) : Prop := calls s `suffix_of` h /\ h `suffix_of` calls s'.

(** From the requests [h0] on: the requests so far, and the process if it has restored its
    IPAM. A call may end in any way, by a panic too, and the process go on; it may be stopped
    between any two requests, of a restore or of another call. *)
Inductive reached (h0 : list api_call) : list api_call -> option gostate -> Prop :=
  | reached_start : reached h0 h0 None
  | reached_restore h p s o s' :
      reached h0 h p -> process h s -> RestoreIPAMFromClusterState s = (o, s') ->
      reached h0 (calls s') (match o with Ret None => Some s' | _ => None end)
  | reached_call h s e o s' :
      reached h0 h (Some s) -> serving e = true -> run_entry e s = (o, s') -> reached h0 (calls s') (Some s')
  | reached_stop_restore h p s o s' h' :
      reached h0 h p -> process h s -> RestoreIPAMFromClusterState s = (o, s') -> between s s' h' -> reached h0 h' None
  | reached_stop_call h s e o s' h' :
      reached h0 h (Some s) -> serving e = true -> run_entry e s = (o, s') -> between s s' h' -> reached h0 h' None.

Lemma run_entry_in_order e s o s' : serving e = true -> run_entry e s = (o, s') -> ready false s -> keeps s s'.
Proof.
  intros Hserv Hrun Hready. destruct e; simpl in *; try done.
  - pose proof (Reconcile_in_order ConvertPath_text Acquire_text cfg managed Selector_same cfg_ids cfg_text Operation_key) as Hr.
    apply bindM_cases in Hrun as [(r & s1 & Hrec & [= _ <-])|(o1 & Hrec & _)]; by apply (Hr _ _ _ _ _ _ Hrec).
  - assert (keeping (run_entry (ReconcileConfig t c name)) (fun _ => True)) as H; [|by apply (H _ _ _ Hrun)].
    pose proof (keeping_Reconcile_cfg t c name). simpl. keeping_go.
  - assert (keeping (run_entry (MutateCluster cluster)) (fun _ => True)) as H; [|by apply (H _ _ _ Hrun)].
    pose proof (keeping_Default cluster). simpl. keeping_go.
  - assert (keeping (run_entry RestoreState) (fun _ => True)) as H; [|by apply (H _ _ _ Hrun)]. simpl. keeping_go.
Qed.

(** A started process stays one. *)
Lemma ready_lock s : is_Some (IPAM s) -> providerName s <> "" -> environment s <> "" -> lock_free s -> ready false s.
Proof. intros [i Hi] Hp He Hl. unfold lock_free in Hl. rewrite Hi in Hl. split; [by exists i|done]. Qed.

Lemma run_entry_ready e s o s' : run_entry e s = (o, s') -> ready false s -> ready false s'.
Proof.
  intros Hrun ((i & Hi & Hl) & Hp & He). destruct (run_entry_live e s) as [_ Hfree]; [unfold lock_free; by rewrite Hi|].
  pose proof (run_entry_keeps e s) as (Hk & Hp' & He'). rewrite Hrun in *. simpl in *.
  apply ready_lock; [apply Hk; by exists i|congruence..|done].
Qed.

Lemma Restore_ready h s o s' : RestoreIPAMFromClusterState s = (o, s') -> process h s -> ready false s'.
Proof.
  intros Hrun (_ & Hp & He & _ & Hi & Hpn & Hen). destruct (Restore_live s) as [_ Hfree]; [unfold lock_free; by rewrite Hi|].
  destruct (Restore_keeps s) as ((_ & Hp' & He') & Hs). rewrite Hrun in *. simpl in *.
  apply ready_lock; [done|congruence..|done].
Qed.

Definition process_in_order (h : list api_call) (s : gostate) : Prop :=
  calls s = h /\ providerName s = provider /\ environment s = env /\ in_order cfg managed s /\ ready false s.

Notation sound_now := (sound cfg managed provider env).

Lemma start_in_order h s o s' :
  process h s -> RestoreIPAMFromClusterState s = (o, s') -> sound_now h ->
  (forall h', between s s' h' -> sound_now h') /\ between s s' (calls s') /\
  (o = Ret None -> process_in_order (calls s') s').
Proof.
  intros Hproc Hrun Hs. pose proof (Restore_ready _ _ _ _ Hrun Hproc) as Hready. destruct Hproc as (<- & <- & <- & Hc & _).
  destruct (Restore_sound cfg managed Selector_same all_named GetConfig_spec s o s' Hrun) as ((_ & _ & Hp & He) & Hsuf & Hb & Ho);
    [unfold configured; by rewrite Hc|done|].
  split; [intros h' [? ?]; by apply Hb|]. split; [by split|]. intros Hn. split_and!; [done|congruence..|by apply Ho; left|done].
Qed.

Lemma call_in_order h s e o s' :
  process_in_order h s -> serving e = true -> run_entry e s = (o, s') ->
  (forall h', between s s' h' -> sound_now h') /\ process_in_order (calls s') s'.
Proof.
  intros (_ & Hp & He & Ho & Hready) Hserv Hrun.
  destruct (run_entry_in_order e s o s' Hserv Hrun Hready Ho) as (Hp' & He' & Ho' & _ & Hb). rewrite Hp, He in *.
  split; [intros h' [? ?]; by apply Hb|]. split_and!; try done. by eapply run_entry_ready.
Qed.

Lemma reached_sound h0 h p :
  reached h0 h p -> sound_now h0 -> sound_now h /\ forall s, p = Some s -> process_in_order h s.
Proof.
  intros Hr H0.
  induction Hr as [|h p s o s' Hr [IH _] Hp Hrun|h s e o s' Hr [_ IH] Hserv Hrun|h p s o s' h' Hr [IH _] Hp Hrun Hb|
    h s e o s' h' Hr [_ IH] Hserv Hrun Hb].
  - by split.
  - destruct (start_in_order _ _ _ _ Hp Hrun IH) as (Hall & Hend & Hok). split; [by apply Hall|].
    destruct o as [[]| |]; [done| |done..]. intros s1 [= <-]. by apply Hok.
  - destruct (call_in_order _ _ _ _ _ (IH s eq_refl) Hserv Hrun) as [Hall Hok]. split; [|by intros s1 [= <-]].
    destruct Hok as (_ & Hp & He & Ho & _). rewrite <- Hp, <- He. split; apply Ho.
  - split; [|done]. by apply (start_in_order _ _ _ _ Hp Hrun IH).
  - split; [|done]. by apply (call_in_order _ _ _ _ _ (IH s eq_refl) Hserv Hrun).
Qed.

End runs.
