(* ===== verification/Progress.v ===== *)
(** * Progress: on well-formed objects every call of the process returns

    [live] says that no call blocks; here, that none panics either, as long as the
    process was started properly and the objects on the API server are well formed. Each
    panic of the code (a nil pointer, a nil map, an unset name) is excluded by one of the
    conditions. *)

From stdpp Require Import base list strings gmap.
From S2P Require Import Prelude GoStd GoJson Types Externals Runtime Utils Restore RestoreCheck RestoreIpam RestoreState ClusterController Returns ClusterGenerate ClusterManage ClusterReconcile ConfigController ClusterMutation System.
Open Scope list_scope.
Open Scope Z_scope.

(** ** A well-formed API server *)

Section progress.
Context {OM : OpenMCP} {GI : GoIpam} {KA : K8sApi} {CU : CtrlUtils} {GO : GoMapOrder}.

(** Each patch has a value, a JSON string. *)
Definition good_patch (p : JSONPatch) : Prop :=
  exists raw c, p_Value p = Some raw /\ json_Unmarshal_string "" raw = Some c.
Definition good_cc (cc : ClusterConfig) : Prop := Forall good_patch (cc_Patches cc).

(** The annotation can be parsed, and has no null entry and no empty rule ID. *)
Definition good_cluster (cl : Cluster) : Prop :=
  exists a, parse_applied_rules cl = inl a /\ map_Forall (fun r v => r <> "" /\ is_Some v) a.

Class GoodApi : Prop := {
  good_List h labels ns items : api_ListClusterConfigs h labels ns = inl items -> Forall good_cc items;
  good_Patch h old new cc : api_PatchClusterConfig h old new = inl cc -> good_cc new -> good_cc cc;
  good_Get h ns name cl : api_GetCluster h ns name = inl cl -> good_cluster cl;
  good_Remove h cl key cl' : api_RemoveClusterAnnotation h cl key = inl cl' -> good_cluster cl -> good_cluster cl';
  Shorten_total name : exists short, ShortenToXCharacters name K8sMaxNameLength = inl short }.

End progress.

Section calls.
Context {OM : OpenMCP} {GI : GoIpam} {KA : K8sApi} {CU : CtrlUtils} {GO : GoMapOrder}.
Context {CL : CtrlUtilsLaws} {GA : GoodApi}.

(** *** utils.go *)

Definition good_ccs (r : list ClusterConfig + error) : Prop :=
  match r with inl ccs => Forall good_cc ccs | inr _ => True end.
Definition good_cc_map (r : gmap string ClusterConfig + error) : Prop :=
  match r with inl ccs => map_Forall (fun _ cc => good_cc cc) ccs | inr _ => True end.

Lemma FetchClusterConfigs_returns b : returns (ready b) good_ccs FetchClusterConfigs.
Proof.
  unfold FetchClusterConfigs, client_ListClusterConfigs.
  eapply returns_bind; [apply ClusterConfigLabels_returns|]. intros labels _.
  apply (returns_bind _ (fun r => match r with inl l => Forall good_cc l | inr _ => True end)).
  { apply request_returns. intros h. destruct (api_ListClusterConfigs _ _ _) eqn:Hl; [by eapply good_List|done]. }
  intros [items|e] Hi; apply returns_ret; simpl; [|done]. by rewrite ProjectSliceToSlice_map, list_fmap_id.
Qed.

Lemma FetchClusterConfigsForCluster_returns b cl : returns (ready b) good_cc_map (FetchClusterConfigsForCluster cl).
Proof.
  unfold FetchClusterConfigsForCluster, client_ListClusterConfigs.
  eapply returns_bind; [apply ClusterConfigLabels_returns|]. intros labels _.
  apply (returns_bind _ (fun r => match r with inl l => Forall good_cc l | inr _ => True end)).
  { apply request_returns. intros h. destruct (api_ListClusterConfigs _ _ _) eqn:Hl; [by eapply good_List|done]. }
  intros [items|e] Hi; apply returns_ret; simpl; [|done]. intros k cc Hk.
  apply ProjectSliceToMap_sound, list_elem_of_fmap in Hk as (cc' & ? & Hin). simplify_eq.
  rewrite Forall_forall in Hi. by apply Hi.
Qed.

Lemma FetchRelevantClusters_returns b cfg : returns (ready b) (fun _ => True) (FetchRelevantClusters cfg).
Proof.
  pose proof (FetchClusterConfigs_returns b) as Hf%returns_any.
  unfold FetchRelevantClusters, fetch_owner, client_GetCluster, client_ListClusters. go_returns.
Qed.

Lemma Generate_returns b cl r inj :
  returns (ready b) (fun x => r <> "" -> exists cc, x = inl cc) (GenerateClusterConfigForInjectionList cl r inj).
Proof.
  unfold GenerateClusterConfigForInjectionList.
  destruct (GenerateClusterConfigName (Some cl) r) as [name|e] eqn:Hn.
  - eapply returns_bind; [apply ClusterConfigLabels_returns|]. intros labels _. apply returns_ret. intros _. by eexists.
  - apply returns_ret. intros Hr. exfalso. unfold GenerateClusterConfigName in Hn.
    rewrite decide_False in Hn by done. case_decide; [done|].
    destruct (Shorten_total (Name (cl_meta cl) +:+ "--ipam--" +:+ r)) as [short Hs]. by rewrite Hs in Hn.
Qed.

Lemma release_returns b cc :
  returns (ready b) (fun r => good_cc cc -> good_cc r.2) (releaseCIDRsForClusterConfig_internal cc).
Proof.
  unfold releaseCIDRsForClusterConfig_internal.
  eapply returns_bind; [apply IPAM_internal_returns|]. intros [d|e] _; [|by apply returns_ret].
  destruct (ipam_Load d ipam_New) as [x [e|]]; [by apply returns_ret|].
  destruct (release_patches_Ret (cc_Patches cc) x) as [r Hr].
  destruct (release_patches (cc_Patches cc) x) as [o x']. simpl in Hr. subst o.
  destruct r as [e|]; [by apply returns_ret|]. cbv zeta.
  destruct (RemoveFinalizer _ _) as [fs changed].
  apply (returns_bind _ (fun r => good_cc cc -> good_cc r.2)).
  - destruct changed; [|by apply returns_ret].
    apply (returns_bind _ (fun r => match r with inl cc' => good_cc cc -> good_cc cc' | inr _ => True end)).
    + apply request_returns. intros h. destruct (api_PatchClusterConfig _ _ _) eqn:Hp; [|done].
      intros Hg. by eapply good_Patch.
    + intros [cc'|e] Hg; by apply returns_ret.
  - intros [[e|] cc'] Hg; [by apply returns_ret|].
    eapply returns_bind; [apply set_internal_returns|]. intros _ _. by apply returns_ret.
Qed.
End calls.

Section restore.
Context {OM : OpenMCP} {GI : GoIpam} {KA : K8sApi} {CU : CtrlUtils} {GO : GoMapOrder}.
Context {CL : CtrlUtilsLaws} {GA : GoodApi}.

(** *** restore.go *)

(** The check has a result when the rules without a ClusterConfig have an ID. *)
Definition named (a : AppliedRulesAnnotation) (ccs : gmap string ClusterConfig) : Prop :=
  forall r, is_Some (a !! r) -> ccs !! r = None -> r <> "".

Lemma check_rule_returns b cl ccs acc ri :
  returns (ready b)
    (fun acc' => (ccs !! ri.1 = None -> ri.1 <> "") -> check_errs acc = None -> check_errs acc' = None)
    (check_rule cl ccs acc ri).
Proof.
  destruct ri as [r injections]. unfold check_rule. case_decide; [by apply returns_ret|].
  simpl. destruct (ccs !! r) as [cc|] eqn:Hcc; [by apply returns_ret|].
  eapply returns_bind; [apply Generate_returns|]. intros [cc|e] Hg.
  - case_decide; by apply returns_ret.
  - apply returns_ret. intros Hr. destruct (Hg (Hr eq_refl)). done.
Qed.

Lemma Check_returns b cl a ccs :
  returns (ready b) (fun r => forall A, a = Some A -> named A ccs -> exists ri, r = inl ri)
    (CheckClusterConfigsForCluster cl a (Some ccs)).
Proof.
  unfold CheckClusterConfigsForCluster.
  destruct a as [A|]; [|destruct (parse_applied_rules cl) as [A|e]; [|by apply returns_ret]].
  all: apply (returns_bind _ (fun r => r = inl ccs)); [by apply returns_ret|]; intros _ ->; cbv zeta.
  - apply (returns_bind _ (fun acc => named A ccs -> check_errs acc = None)).
    + apply (returns_foldM _ _ (fun acc => named A ccs -> check_errs acc = None)); [done|].
      intros acc [r mi] Hacc Hin%elem_of_range. eapply returns_weaken; [apply check_rule_returns|].
      simpl. intros acc' Hc Hn. apply Hc; [|by apply Hacc]. intros Hr. apply Hn; [|done].
      rewrite missing_injections_lookup in Hin. apply fmap_Some in Hin as (v & Hv & _). by eexists.
    + intros acc Hacc. destruct (check_errs acc) eqn:He; apply returns_ret; intros A' [= <-] Hn.
      * by specialize (Hacc Hn).
      * by eexists.
  - apply (returns_bind _ (fun _ => True)).
    + apply (returns_foldM _ _ (fun _ => True)); [done|]. intros acc [r mi] _ _.
      eapply returns_any, check_rule_returns.
    + intros acc _. destruct (check_errs acc); by apply returns_ret.
Qed.

Definition good_acc (acc : restore_acc) : Prop :=
  Forall good_cc (r_ccs acc) /\ map_Forall (fun _ cc => good_cc cc) (r_handled acc).

Lemma Forall_keep (P Q : ClusterConfig -> Prop) `{!forall x, Decision (Q x)} l : Forall P l -> Forall P (filter Q l).
Proof. rewrite !Forall_forall. intros Hl x [_ Hx]%list_elem_of_filter. by apply Hl. Qed.

Lemma good_add_handled l m :
  Forall good_cc l -> map_Forall (fun _ cc => good_cc cc) m ->
  map_Forall (fun _ cc => good_cc cc) (foldl add_handled m l).
Proof.
  intros Hl. revert m. induction Hl as [|cc l Hc Hl IH]; intros m Hm; simpl; [done|].
  apply IH. by apply map_Forall_insert_2.
Qed.

Lemma good_values (m : gmap string ClusterConfig) :
  map_Forall (fun _ cc => good_cc cc) m -> Forall good_cc (range m).*2.
Proof.
  intros Hm. apply Forall_forall. intros cc ([k cc'] & -> & Hin%elem_of_range)%list_elem_of_fmap. by eapply Hm.
Qed.

Lemma restore_cluster_returns b acc cl : good_acc acc -> returns (ready b) good_acc (restore_cluster acc cl).
Proof.
  intros [Hc Hh]. unfold restore_cluster. cbv zeta.
  set (acc0 := {| r_ccs := _; r_handled := _; r_errs := _ |}).
  assert (good_acc acc0) as Hacc0.
  { split; simpl; [by apply Forall_keep|]. apply good_add_handled; [by apply Forall_keep|done]. }
  eapply returns_bind; [eapply returns_any, Check_returns|]. intros [ir|e] _; [|by apply returns_ret].
  destruct (Size (Some ir)) as [n1 n2]. case_match; [|by apply returns_ret].
  eapply returns_bind; [apply Apply_returns|]. intros [e|] _; [by apply returns_ret|].
  eapply returns_bind; [apply FetchClusterConfigsForCluster_returns|].
  intros [updated|e] Hu; [|by apply returns_ret]. apply returns_ret. split; [apply Hacc0|]. simpl.
  apply good_add_handled; [by apply good_values|apply Hacc0].
Qed.

Lemma handle_orphan_returns b acc cc :
  good_cc cc -> Forall good_cc acc.1 -> returns (ready b) (fun acc' => Forall good_cc acc'.1) (handle_orphan acc cc).
Proof.
  intros Hcc Hacc. destruct acc as [remaining errs]. simpl in Hacc. unfold handle_orphan, client_GetCluster. cbv zeta.
  assert (forall cc', good_cc cc' -> Forall good_cc (remaining ++ [cc'])) as Hsnoc.
  { intros cc' Hg. apply Forall_app. by repeat constructor. }
  case_decide; [by apply returns_ret|].
  eapply returns_bind; [apply request_returns_any|]. intros [c|e] _; [apply returns_ret; by apply Hsnoc|].
  eapply returns_bind.
  { instantiate (1 := fun _ => True). unfold client_DeleteClusterConfig. case_decide; [apply request_returns_any|by apply returns_ret]. }
  intros err _. destruct (IgnoreNotFound err); [apply returns_ret; by apply Hsnoc|].
  apply (returns_bind _ (fun r => good_cc r.2)).
  { case_decide; [|by apply returns_ret]. eapply returns_weaken; [apply release_returns|]. auto. }
  intros [[err'|] cc'] Hg; simpl in Hg; [apply returns_ret; by apply Hsnoc|].
  case_decide; apply returns_ret; [done|by apply Hsnoc].
Qed.

Lemma handleOrphaned_returns b ccs :
  Forall good_cc ccs -> returns (ready b) (fun r => Forall good_cc r.1) (handleOrphanedClusterConfigs_internal ccs).
Proof.
  intros Hccs. unfold handleOrphanedClusterConfigs_internal.
  apply (returns_bind _ (fun r => Forall good_cc r.1)).
  - apply (returns_foldM _ _ (fun r => Forall good_cc r.1)); [constructor|].
    intros acc cc Hacc Hin. rewrite Forall_forall in Hccs. by apply handle_orphan_returns; [apply Hccs|].
  - intros [remaining [e|]] Hr; by apply returns_ret.
Qed.

Lemma register_patches_Ret parents tmp ps x :
  Forall good_patch ps -> exists r x', register_patches parents tmp ps x = (Ret r, x').
Proof.
  intros Hps. revert tmp x. induction Hps as [|p ps (raw & c & Hv & Hc) Hps IH]; intros tmp x;
    cbn [register_patches]; [by eexists _, _|].
  case_decide; [apply IH|]. rewrite Hv, Hc.
  destruct (identifyParentPrefix _ _) as [[parent|]|e]; [|..|by eexists _, _].
  - case_decide; [apply IH|]. destruct (ipam_AcquireSpecificChildPrefix _ _ _) as [x' [child|e]]; [apply IH|by eexists _, _].
  - destruct (fetchOrNewPrefix c x) as [x' [q|e]]; [apply IH|by eexists _, _].
Qed.

Lemma register_ccs_Ret parents ccs x :
  Forall good_cc ccs -> exists r x', register_ccs parents ccs x = (Ret r, x').
Proof.
  intros Hccs. revert x. induction Hccs as [|cc ccs Hcc Hccs IH]; intros x; simpl; [by eexists _, _|].
  destruct (register_patches_Ret parents [] (cc_Patches cc) x Hcc) as (r & x' & Hr).
  rewrite (bindM_Ret _ _ _ _ _ Hr). destruct r; [by eexists _, _|apply IH].
Qed.

Lemma ipamFromClusterConfigs_Ret cfg ccs :
  Forall good_cc ccs -> exists r, ipamFromClusterConfigs cfg ccs = Ret r.
Proof.
  intros Hccs. unfold ipamFromClusterConfigs. cbv zeta.
  assert (forall cidrs acc x, exists r x', register_parents acc cidrs x = (Ret r, x')) as Hp.
  { induction cidrs as [|c cidrs IH]; intros acc x; simpl; [by eexists _, _|].
    destruct (fetchOrNewPrefix c x) as [x' [q|e]]; [apply IH|by eexists _, _]. }
  destruct (Hp (concat (range (ParentCIDRs (Spec cfg))).*2) [] ipam_New) as (r & x & Hr).
  rewrite (bindM_Ret _ _ _ _ _ Hr). destruct r as [ps|e]; [|by eexists].
  destruct (register_ccs_Ret ps ccs x Hccs) as (r & x' & ->). destruct r; by eexists.
Qed.

Lemma restore_finish_returns b cfg acc : good_acc acc -> returns (ready b) (fun _ => True) (restore_finish cfg acc).
Proof.
  intros [Hc Hh]. unfold restore_finish. destruct (r_errs acc); [by apply returns_ret|].
  apply (returns_bind _ (fun r => map_Forall (fun _ cc => good_cc cc) r.1)).
  - case_decide; [by apply returns_ret|].
    eapply returns_bind; [by apply handleOrphaned_returns|]. intros [remaining [e|]] Hr; apply returns_ret; [done|].
    simpl. apply good_add_handled; [by apply Forall_keep|done].
  - intros [handled [e|]] Hg; [by apply returns_ret|]. simpl in Hg.
    destruct (ipamFromClusterConfigs_Ret cfg (range handled).*2) as [r ->]; [by apply good_values|].
    destruct r as [x|e]; [|by apply returns_ret]. go_returns.
Qed.

Lemma restore_body_returns b : returns (ready b) (fun _ => True) restore_body.
Proof.
  unfold restore_body. apply (returns_bind _ (fun _ => True)); [by eapply returns_any, returns_get|]. intros s _.
  apply (returns_bind _ (fun _ => True)).
  { unfold client_GetConfig. destruct (config s); [by apply returns_ret|]. go_returns. }
  intros [cfg|e] _; [|by apply returns_ret].
  eapply returns_bind; [apply FetchRelevantClusters_returns|]. intros [clusters|e] _; [|by apply returns_ret].
  eapply returns_bind; [apply FetchClusterConfigs_returns|]. intros [ccs|e] Hccs; [|by apply returns_ret].
  apply (returns_bind _ good_acc).
  - apply returns_foldM; [by split|]. intros acc cl Hacc _. by apply restore_cluster_returns.
  - intros acc Hacc. by apply restore_finish_returns.
Qed.

Lemma Restore_returns : returns (ready false) (fun _ => True) RestoreIPAMFromClusterState.
Proof.
  unfold RestoreIPAMFromClusterState.
  intros s Hs. unfold bindM at 1, getM. pose proof Hs as ((i & Hi & _) & _). rewrite decide_True by (by rewrite Hi).
  unfold bindM at 1, retM. by apply (with_IPAM_lock_returns _ _ (restore_body_returns true)).
Qed.

Lemma HandleOrphaned_returns ccs : Forall good_cc ccs -> returns (ready false) (fun _ => True) (HandleOrphanedClusterConfigs ccs).
Proof. intros Hccs. by eapply with_IPAM_lock_returns, returns_any, handleOrphaned_returns. Qed.

Lemma Release_returns cc : returns (ready false) (fun _ => True) (ReleaseCIDRsForClusterConfig cc).
Proof. by eapply with_IPAM_lock_returns, returns_any, release_returns. Qed.
End restore.

Section clusters.
Context {OM : OpenMCP} {GI : GoIpam} {KA : K8sApi} {CU : CtrlUtils} {GO : GoMapOrder}.
Context {CL : CtrlUtilsLaws} {GA : GoodApi}.

(** *** cluster/controller.go *)

Lemma record_patches_returns b m errs ps :
  Forall good_patch ps ->
  returns (ready b) (fun r => is_Some r.1 /\ r.2 = errs) (record_patches (Some m) errs ps).
Proof.
  intros Hps. revert m. induction Hps as [|p ps (raw & c & Hv & Hc) Hps IH]; intros m; simpl; [by apply returns_ret|].
  case_match; [apply IH|]. rewrite Hv, Hc. apply IH.
Qed.

(** What the evaluation of the existing ClusterConfigs keeps: no error, no null map, and
    an ID for each rule without a ClusterConfig. *)
Definition well_recorded (ccs : gmap string ClusterConfig) (acc : AppliedRulesAnnotation * list error) : Prop :=
  acc.2 = [] /\ map_Forall (fun _ v => is_Some v) acc.1 /\ named acc.1 ccs.

Lemma record_cc_returns b ccs acc r cc :
  ccs !! r = Some cc -> good_cc cc -> well_recorded ccs acc ->
  returns (ready b) (well_recorded ccs) (record_cc acc (r, cc)).
Proof.
  intros Hr Hcc (He & Hs & Hn). destruct acc as [a errs]. simpl in *. subst errs. unfold record_cc.
  set (o := match a !! r with Some m => m | None => Some ∅ end).
  assert (is_Some o) as [m Hm]. { subst o. destruct (a !! r) eqn:Ha; [by eapply Hs|done]. } rewrite Hm.
  eapply returns_bind; [by apply record_patches_returns|]. intros [v errs] [Hv Heq]. simpl in Heq. subst errs. apply returns_ret.
  split_and!; simpl; [done|by apply map_Forall_insert_2|].
  intros r' Hr' Hnone. apply lookup_insert_is_Some in Hr' as [<-|[_ Hr']]; [congruence|]. by apply Hn.
Qed.

Lemma ManageInjections_returns cl cfg rules ccs :
  good_cluster cl -> map_Forall (fun _ cc => good_cc cc) ccs ->
  returns (ready false) (fun r => is_Some r.1.1) (ManageInjections cl (Some cfg) rules ccs).
Proof.
  intros (a & Ha & Hgood) Hccs. unfold ManageInjections. rewrite Ha.
  apply (returns_bind _ (well_recorded ccs)).
  - apply returns_foldM.
    + split_and!; simpl; [done|by intros r v Hv; apply (Hgood r v Hv)|]. intros r [v Hv] _. by apply (Hgood r v Hv).
    + intros acc [r cc] Hacc Hin%elem_of_range. by eapply record_cc_returns; [| |done]; [|by eapply Hccs].
  - intros [applied errs] (He & Hs & Hn). simpl in He, Hs, Hn. subst errs. simpl.
    eapply returns_bind; [apply Check_returns|]. intros ir Hir. destruct (Hir _ eq_refl Hn) as [ir' ->].
    apply (returns_bind _ (fun _ => True)).
    + apply (returns_foldM _ _ (fun _ => True)); [done|]. intros acc rule _ _. apply evaluate_rule_returns.
    + intros [res allErrs] _. apply returns_ret. by eexists.
Qed.

(** The config read where one is known to be stored. *)
Lemma with_config {A} (Q : A -> Prop) (k : option IPAMConfig -> M A) s :
  (forall cfg, returns (ready false) Q (k (Some cfg))) -> is_Some (config s) -> ready false s ->
  exists a s', bindM GetConfig k s = (Ret a, s') /\ ready false s' /\ Q a.
Proof.
  intros Hk [cfg Hcfg] Hs. rewrite (bindM_Ret GetConfig _ _ (Some cfg) s); [by apply Hk|].
  unfold GetConfig, bindM, getM, retM. by rewrite Hcfg.
Qed.

Lemma handleCreateOrUpdate_returns er rr cl rules s :
  good_cluster cl -> is_Some (config s) -> ready false s ->
  exists r s', handleCreateOrUpdate er rr cl rules s = (Ret r, s') /\ ready false s' /\ True.
Proof.
  intros Hcl Hcfg Hs. unfold handleCreateOrUpdate, report_issues, warn. apply with_config; [|done..]. intros cfg.
  eapply returns_bind; [apply FetchClusterConfigsForCluster_returns|]. intros [ccs|e] Hccs; [|by apply returns_ret].
  eapply returns_bind; [by apply ManageInjections_returns|]. intros [[res action] err] [ir Hir]. simpl in Hir. subst res.
  pose proof (apply_annotation_returns er ir). pose proof (Apply_returns false). go_returns.
Qed.

Lemma reconcile_cluster_returns er cl : good_cluster cl -> returns (ready false) (fun _ => True) (reconcile_cluster er cl).
Proof.
  intros Hcl s Hs. unfold reconcile_cluster, GetConfig, bindM at 1 2, getM, retM at 1.
  destruct (config s) as [cfg|] eqn:Hcfg; [|by eexists _, _]. cbv zeta. case_decide; [by eexists _, _|].
  apply handleCreateOrUpdate_returns; [done| |done]. by rewrite Hcfg.
Qed.

Lemma delete_cc_returns errs cc : good_cc cc -> returns (ready false) (fun _ => True) (delete_cc errs cc).
Proof.
  intros Hcc. unfold delete_cc, client_DeleteClusterConfig. pose proof Release_returns. go_returns.
Qed.

Lemma handleDelete_returns ns name : returns (ready false) (fun _ => True) (handleDelete ns name).
Proof.
  unfold handleDelete. eapply returns_bind; [apply FetchClusterConfigsForCluster_returns|].
  intros [ccs|e] Hccs; [|by apply returns_ret].
  apply (returns_foldM _ _ (fun _ => True)); [done|]. intros errs cc _ Hin.
  apply delete_cc_returns. by apply (proj1 (Forall_forall _ _) (good_values _ Hccs)).
Qed.

Lemma reconcile_returns er ns name : returns (ready false) (fun _ => True) (reconcile er ns name).
Proof.
  unfold reconcile, client_GetCluster, client_RemoveClusterAnnotation.
  apply (returns_bind _ (fun r => match r with inl cl => good_cluster cl | inr _ => True end)).
  { apply request_returns. intros h. destruct (api_GetCluster _ _ _) eqn:Hg; [by eapply good_Get|done]. }
  intros [cl|e] Hcl.
  - pose proof (reconcile_cluster_returns er cl Hcl). repeat (case_match; try (by apply returns_ret); try done).
    apply (returns_bind _ (fun r => match r with inl cl => good_cluster cl | inr _ => True end)).
    { apply request_returns. intros h. destruct (api_RemoveClusterAnnotation _ _ _) eqn:Hg; [by eapply good_Remove|done]. }
    intros [cl'|e'] Hcl'; [by apply reconcile_cluster_returns|by apply returns_ret].
  - case_match; [|by apply returns_ret]. pose proof (handleDelete_returns ns name). go_returns.
Qed.

Lemma Reconcile_returns er ns name : returns (ready false) (fun _ => True) (Reconcile er ns name).
Proof. unfold Reconcile. pose proof (reconcile_returns er ns name). go_returns. Qed.

(** *** config/controller.go and the mutation webhook *)

Lemma Reconcile_cfg_returns t c name : returns (ready false) (fun _ => True) (Reconcile_cfg t c name).
Proof.
  assert (forall f : gostate -> gostate, (forall s, ready false s -> ready false (f s)) ->
    returns (ready false) (fun _ => True) (modifyM f)) as Hm by (intros; by apply returns_modify).
  pose proof Restore_returns. pose proof (FetchRelevantClusters_returns false).
  unfold Reconcile_cfg, reconcile_cfg, client_GetConfig, client_RemoveConfigAnnotation, reconcile_config, finish,
    queue_clusters. go_returns.
Qed.

Lemma Default_returns cluster : returns (ready false) (fun _ => True) (Default cluster).
Proof. unfold Default. go_returns. Qed.

(** The arguments that callers hand in themselves. *)
Definition good_entry (e : entry) : Prop :=
  match e with
  | ReleaseCIDRs cc => good_cc cc
  | HandleOrphans ccs => Forall good_cc ccs
  | _ => True
  end.

Lemma entry_returns e : good_entry e -> returns (ready false) (fun _ => True) (run_entry e).
Proof.
  intros He. pose proof Reconcile_returns. pose proof Reconcile_cfg_returns. pose proof Default_returns.
  pose proof Restore_returns. pose proof Release_returns. pose proof HandleOrphaned_returns.
  destruct e; simpl in *; go_returns.
Qed.

Lemma run_entries_return es s :
  Forall good_entry es -> ready false s ->
  (run_entries es s).1 = (fun _ => Ret tt) <$> es /\ ready false (run_entries es s).2.
Proof.
  intros Hes. revert s. induction Hes as [|e es He Hes IH]; intros s Hs; [done|]. simpl.
  destruct (entry_returns e He s Hs) as ([] & s1 & -> & Hs1 & _).
  destruct (IH s1 Hs1) as [Ho Hr]. destruct (run_entries es s1) as [os s2]. simpl in *. by subst os.
Qed.

End clusters.
