(* ===== verification/ThreadSteps.v ===== *)
(** * The entry points of the process as threads

    Each call of [System] cut into its operations, with the theorems of [Pool] applied
    to all of them. *)

From stdpp Require Import base list strings gmap relations.
From S2P Require Import Prelude GoStd GoJson Types Externals Runtime Utils Restore RestoreState ClusterController ConfigController ClusterMutation System Threads Pool.
Open Scope list_scope.
Open Scope Z_scope.

(** ** Cutting along the definition *)

Create HintDb nodeadlock.

(** The first case of an [outcome] that is a deadlock is impossible. *)
Ltac steps_deadlock := exfalso; solve [eauto with nodeadlock].

Ltac steps_go :=
  lazymatch goal with
  | |- Steps ?md (retM ?a) => exact (steps_stop md (Ret a) ltac:(discriminate))
  | |- Steps ?md (panicM ?w) => exact (steps_stop md (Panic w) ltac:(discriminate))
  | |- Steps _ (bindM _ _) => apply steps_bind; [steps_go|intros; steps_go]
  | |- Steps _ (foldM _ _ _) => apply steps_foldM; intros; steps_go
  | |- Steps _ (with_IPAM_lock _) => apply steps_locked; steps_go
  | |- Steps _ getM => apply steps_lift, steps_getM
  | |- Steps _ (modifyM _) => apply steps_lift, steps_modifyM; done
  | |- Steps _ (request _ _) => apply steps_lift, steps_request
  | |- Steps _ (on_IPAM (modifyM _)) => apply steps_on_IPAM_plain; [done|by intros ?]
  | |- Steps _ (on_IPAM (on_internal _)) => apply steps_on_IPAM_plain; [done|intros ?; apply on_internal_plain]
  | |- Steps _ (on_IPAM (locked (on_internal _))) => apply steps_on_IPAM_locked; intros ?; apply on_internal_plain
  | |- Steps _ (fun s => (Deadlock, s)) => steps_deadlock
  | |- Steps _ (match ?x with _ => _ end) =>
      lazymatch type of x with
      | (outcome _ * _)%type => destruct x as [[]] eqn:?; steps_go
      | outcome _ => destruct x eqn:?; steps_go
      | _ => destruct x; steps_go
      end
  | |- Steps _ (let x := _ in _) => cbv zeta; steps_go
  | |- Steps _ _ => first [exact _ | apply steps_lift; exact _]
  end.

Section entries.
Context {OM : OpenMCP} {GI : GoIpam} {KA : K8sApi} {CU : CtrlUtils} {GO : GoMapOrder}.

(** *** config.go, requests, events *)

#[export] Instance ProviderName_steps : Steps Pure ProviderName.
Proof. unfold ProviderName. steps_go. Defined.
#[export] Instance Environment_steps : Steps Pure Environment.
Proof. unfold Environment. steps_go. Defined.
#[export] Instance GetConfig_steps : Steps Pure GetConfig.
Proof. unfold GetConfig. steps_go. Defined.
#[export] Instance SetConfig_steps cfg : Steps Pure (SetConfig cfg).
Proof. unfold SetConfig. steps_go. Defined.
#[export] Instance Eventf_steps er ty r a : Steps Pure (Eventf er ty r a).
Proof. unfold Eventf. steps_go. Defined.

(** *** utils.go *)

#[export] Instance ClusterConfigLabels_steps cl r : Steps Pure (ClusterConfigLabels cl r).
Proof. unfold ClusterConfigLabels. steps_go. Defined.
#[export] Instance FetchClusterConfigs_steps : Steps Pure FetchClusterConfigs.
Proof. unfold FetchClusterConfigs, client_ListClusterConfigs. steps_go. Defined.
#[export] Instance FetchFor_steps cl : Steps Pure (FetchClusterConfigsForCluster cl).
Proof. unfold FetchClusterConfigsForCluster, client_ListClusterConfigs. steps_go. Defined.
#[export] Instance FetchRelevant_steps cfg : Steps Pure (FetchRelevantClusters cfg).
Proof. unfold FetchRelevantClusters, fetch_owner, client_ListClusters, client_GetCluster. steps_go. Defined.
#[export] Instance Generate_steps cl r inj : Steps Pure (GenerateClusterConfigForInjectionList cl r inj).
Proof. unfold GenerateClusterConfigForInjectionList. steps_go. Defined.

Lemma release_patches_not_deadlock ps x y : release_patches ps x = (Deadlock, y) -> False.
Proof. intros H. destruct (release_patches_Ret ps x) as [r Hr]. by rewrite H in Hr. Qed.
Hint Resolve release_patches_not_deadlock : nodeadlock.

#[export] Instance release_internal_steps cc : Steps Held (releaseCIDRsForClusterConfig_internal cc).
Proof. unfold releaseCIDRsForClusterConfig_internal, IPAM_internal, client_PatchClusterConfig. steps_go. Defined.
#[export] Instance Release_steps cc : Steps Free (ReleaseCIDRsForClusterConfig cc).
Proof. unfold ReleaseCIDRsForClusterConfig. steps_go. Defined.

(** *** restore.go *)

#[export] Instance Check_steps cl a ccs : Steps Pure (CheckClusterConfigsForCluster cl a ccs).
Proof. unfold CheckClusterConfigsForCluster, check_rule. steps_go. Defined.
#[export] Instance Apply_steps ri : Steps Pure (Apply ri).
Proof. unfold Apply, apply_all, client_CreateClusterConfig, client_UpdateClusterConfig. steps_go. Defined.
#[export] Instance restore_cluster_steps acc cl : Steps Pure (restore_cluster acc cl).
Proof. unfold restore_cluster. steps_go. Defined.
#[export] Instance orphans_steps ccs : Steps Held (handleOrphanedClusterConfigs_internal ccs).
Proof.
  unfold handleOrphanedClusterConfigs_internal, handle_orphan, client_GetCluster, client_DeleteClusterConfig. steps_go.
Defined.
#[export] Instance HandleOrphaned_steps ccs : Steps Free (HandleOrphanedClusterConfigs ccs).
Proof. unfold HandleOrphanedClusterConfigs. steps_go. Defined.

Lemma ipamFrom_not_deadlock cfg ccs : ipamFromClusterConfigs cfg ccs = Deadlock -> False.
Proof. apply ipamFromClusterConfigs_nodeadlock. Qed.
Hint Resolve ipamFrom_not_deadlock : nodeadlock.

#[export] Instance restore_finish_steps cfg acc : Steps Held (restore_finish cfg acc).
Proof. unfold restore_finish. steps_go. Defined.
#[export] Instance restore_body_steps : Steps Held restore_body.
Proof. unfold restore_body, client_GetConfig. steps_go. Defined.

(** The test whether the instance exists and its creation are two operations: only a
    process that has an instance already keeps the discipline, as [disc] supposes. *)
#[export] Instance restore_locked_steps : Steps Free (with_IPAM_lock restore_body).
Proof. steps_go. Defined.

Definition Restore_prog : prog (option error) :=
  Next getM (fun s =>
    prog_bind (if decide (is_Some (IPAM s)) then Stop (Ret tt)
               else atom (modifyM (st_set_IPAM (Some NewIpam))))
      (fun _ => steps (with_IPAM_lock restore_body))).

Lemma Restore_prog_run s : run Restore_prog s = RestoreIPAMFromClusterState s.
Proof.
  unfold RestoreIPAMFromClusterState, Restore_prog. cbn [run].
  unfold bindM at 1 2, getM. rewrite run_bind. unfold bindM.
  destruct (decide (is_Some (IPAM s))); cbn [run atom retM modifyM]; unfold bindM, modifyM; apply steps_run.
Qed.

#[export] Instance Restore_steps : Steps Free RestoreIPAMFromClusterState.
Proof.
  refine {| steps := Restore_prog; steps_run := Restore_prog_run |}.
  intros s Hs _. split; [done|]. exists false. split; [by apply lock_step_same|].
  rewrite decide_True by done. exact (@steps_disc _ _ Free _ _ restore_locked_steps).
Defined.

(** *** The cluster controller *)

#[export] Instance AcquireChildPrefix_steps c n : Steps Free (on_IPAM (AcquireChildPrefix c n)).
Proof. unfold AcquireChildPrefix. steps_go. Defined.
#[export] Instance PrefixFrom_steps c : Steps Free (on_IPAM (PrefixFrom c)).
Proof. unfold PrefixFrom. steps_go. Defined.
#[export] Instance ReleaseChildPrefix_steps p : Steps Free (on_IPAM (ReleaseChildPrefix p)).
Proof. unfold ReleaseChildPrefix. steps_go. Defined.

#[export] Instance try_prefixes_steps size ps : Steps Free (try_prefixes size ps).
Proof. induction ps as [|p ps IH]; cbn [try_prefixes]; steps_go. Defined.
#[export] Instance fetch_prefixes_steps cidrs : Steps Free (fetch_prefixes cidrs).
Proof. unfold fetch_prefixes. steps_go. Defined.
#[export] Instance parent_prefixes_steps tmp pc id : Steps Free (parent_prefixes tmp pc id).
Proof. unfold parent_prefixes. steps_go. Defined.
#[export] Instance try_parents_steps tmp pc size sel : Steps Free (try_parents tmp pc size sel).
Proof. induction sel as [|id sel IH]; cbn [try_parents]; steps_go. Defined.
#[export] Instance release_raw_steps raw : Steps Free (release_raw raw).
Proof. unfold release_raw. steps_go. Defined.
#[export] Instance generate_loop_steps pc raw tmp injs : Steps Free (generate_loop pc raw tmp injs).
Proof. revert raw tmp. induction injs as [|inj injs IH]; intros raw tmp; cbn [generate_loop]; steps_go. Defined.
#[export] Instance generateCIDRs_steps rule pc : Steps Free (generateCIDRsForInjectionRule rule pc).
Proof. unfold generateCIDRsForInjectionRule. steps_go. Defined.
#[export] Instance record_patches_steps inj errs ps : Steps Pure (record_patches inj errs ps).
Proof. revert inj errs. induction ps as [|p ps IH]; intros inj errs; cbn [record_patches]; steps_go. Defined.
#[export] Instance record_cc_steps acc rc : Steps Pure (record_cc acc rc).
Proof. unfold record_cc. steps_go. Defined.
#[export] Instance evaluate_rule_steps cl cfg A I acc rule : Steps Free (evaluate_rule cl cfg A I acc rule).
Proof. unfold evaluate_rule. steps_go. Defined.
#[export] Instance ManageInjections_steps cl cfg rules ccs : Steps Free (ManageInjections cl cfg rules ccs).
Proof. unfold ManageInjections. steps_go. Defined.

#[export] Instance apply_annotation_steps er ir errs cl : Steps Pure (apply_annotation er ir errs cl).
Proof. unfold apply_annotation, warn, client_PatchCluster. steps_go. Defined.
#[export] Instance report_issues_steps er issues errs : Steps Pure (report_issues er issues errs).
Proof. unfold report_issues, warn. steps_go. Defined.
#[export] Instance handleCreateOrUpdate_steps er rr cl rules : Steps Free (handleCreateOrUpdate er rr cl rules).
Proof. unfold handleCreateOrUpdate, warn. steps_go. Defined.
#[export] Instance handleDelete_steps ns name : Steps Free (handleDelete ns name).
Proof. unfold handleDelete, delete_cc, client_DeleteClusterConfig. steps_go. Defined.
#[export] Instance Reconcile_steps er ns name : Steps Free (Reconcile er ns name).
Proof.
  unfold Reconcile, reconcile, reconcile_cluster, client_GetCluster, client_RemoveClusterAnnotation. steps_go.
Defined.

(** *** The config controller and the webhook *)

#[export] Instance finish_steps t c cfg : Steps Free (finish t c cfg).
Proof. unfold finish. steps_go. Defined.
#[export] Instance reconcile_config_steps t c cfg : Steps Free (reconcile_config t c cfg).
Proof. unfold reconcile_config, queue_clusters. steps_go. Defined.
#[export] Instance Reconcile_cfg_steps t c name : Steps Free (Reconcile_cfg t c name).
Proof. unfold Reconcile_cfg, reconcile_cfg, client_GetConfig, client_RemoveConfigAnnotation. steps_go. Defined.
#[export] Instance Default_steps cluster : Steps Pure (Default cluster).
Proof. unfold Default. steps_go. Defined.

#[export] Instance run_entry_steps e : Steps Free (run_entry e).
Proof. destruct e; cbn [run_entry]; steps_go. Defined.

(** ** The calls of the process, interleaved *)

Definition thread (e : entry) : prog unit := steps (run_entry e).

Lemma lockb_free s : lock_free s <-> lockb s = false.
Proof. unfold lock_free, lockb. by destruct (IPAM s). Qed.


Lemma entries_in_turn prev es s :
  lock_free s ->
  rtc pool_step ((Stop <$> prev) ++ (thread <$> es), s)
    ((Stop <$> prev) ++ (Stop <$> (run_entries es s).1), (run_entries es s).2).
Proof.
  revert prev s. induction es as [|e es IH]; intros prev s Hs; [done|]. simpl.
  destruct (run_entry e s) as [o s1] eqn:He.
  destruct (run_entry_live e s Hs) as [Ho Hf]. rewrite He in Ho, Hf. simpl in *.
  specialize (IH (prev ++ [o]) s1 Hf). destruct (run_entries es s1) as [os s2]. simpl in *.
  rewrite !fmap_app, <- !app_assoc in IH. simpl in IH. etrans; [|exact IH].
  pose proof (run_steps ((Stop <$> prev) ++ thread e :: (thread <$> es)) s (length (Stop <$> prev) + 0)
    (thread e) o s1) as Hrun.
  rewrite insert_app_r in Hrun. apply Hrun; [|by rewrite <- He; apply steps_run|done].
  by rewrite lookup_app_r, Nat.add_comm, Nat.add_sub by lia.
Qed.

End entries.
