(* ===== verification/Ownership.v ===== *)
(** * Which thread owns which CIDR

    A rely-guarantee argument for pools: a thread owns the CIDRs it has acquired and not
    given back. [owns p H Q]: whatever the others do to CIDRs outside of [H], the program
    [p], owning [H], only takes unknown CIDRs and only gives back its own, and if it ends
    with a value, [Q] holds of the value and what it then owns. *)

From stdpp Require Import base list strings gmap relations.
From S2P Require Import Prelude GoStd GoJson Types Externals Runtime Utils Restore RestoreCheck ClusterController ClusterGenerate ClusterManage Threads Pool ThreadSteps.
Open Scope list_scope.
Open Scope Z_scope.

Section ownership.
Context {OM : OpenMCP} {GI : GoIpam} {GL : GoIpamLaws}.

(** The owned CIDRs go from [H] to [H'] in a step: new ones were unknown, the CIDRs of
    others are untouched. *)
Definition transfer (H H' : gset string) (s s' : gostate) : Prop :=
  H' ⊆ st_known s' /\ H' ∖ H ## st_known s /\ st_known s ∖ H ⊆ st_known s'.

Fixpoint owns {A} (p : prog A) (H : gset string) (Q : A -> gset string -> Prop) : Prop :=
  match p with
  | Stop (Ret a) => Q a H
  | Stop _ => True
  | Next op k => forall s, H ⊆ st_known s ->
      match op s with
      | (Ret x, s') => exists H', transfer H H' s s' /\ owns (k x) H' Q
      | (Panic _, s') => exists H', transfer H H' s s'
      | (Deadlock, _) => True
      end
  end.

Lemma transfer_same H s s' : st_known s' = st_known s -> H ⊆ st_known s -> transfer H H s s'.
Proof. unfold transfer. intros ->. set_solver. Qed.

Lemma owns_weaken {A} (p : prog A) H (Q Q' : A -> gset string -> Prop) :
  (forall a H', Q a H' -> Q' a H') -> owns p H Q -> owns p H Q'.
Proof.
  intros HQ. revert H. induction p as [[a|w|]|X op k IH]; intros H; simpl; [apply HQ|done..|].
  intros Hp s Hs. specialize (Hp s Hs). destruct (op s) as [[x|w|] s']; [|done..].
  destruct Hp as (H' & Ht & Hk). exists H'. auto.
Qed.

Lemma owns_bind {A B} (p : prog A) (k : A -> prog B) H Q :
  owns p H (fun a H' => owns (k a) H' Q) -> owns (prog_bind p k) H Q.
Proof.
  revert H. induction p as [[a|w|]|X op k' IH]; intros H; simpl; [done..|].
  intros Hp s Hs. specialize (Hp s Hs). destruct (op s) as [[x|w|] s']; [|done..].
  destruct Hp as (H' & Ht & Hk). exists H'. auto.
Qed.

(** An invariant on the elements visited, the accumulator and the owned CIDRs. *)
Lemma owns_fold {A B} (f : B -> A -> prog B) (I : list A -> B -> gset string -> Prop) l b H :
  I [] b H ->
  (forall done x rest b H, l = done ++ x :: rest -> I done b H -> owns (f b x) H (I (done ++ [x]))) ->
  owns (prog_fold f b l) H (I l).
Proof.
  intros H0 Hstep.
  cut (forall todo done b H, l = done ++ todo -> I done b H -> owns (prog_fold f b todo) H (I l)).
  { intros Hcut. by apply (Hcut l [] b H). }
  clear b H H0. intros todo. induction todo as [|x todo IH]; intros done b H Hl HI; simpl.
  - by rewrite Hl, app_nil_r.
  - apply owns_bind. eapply owns_weaken; [|by eapply Hstep]. intros b' H' HI'.
    apply (IH (done ++ [x])); [by rewrite <- app_assoc|done].
Qed.

Lemma owns_pure {A} (p : prog A) H (Q : A -> gset string -> Prop) :
  pure p -> (forall a, Q a H) -> owns p H Q.
Proof.
  intros Hp HQ. induction p as [[a|w|]|X op k IH]; simpl in *; [done..|].
  intros s Hs. specialize (Hp s).
  assert (forall s', IPAM s' = IPAM s -> transfer H H s s') as Hsame.
  { intros s' HI. apply transfer_same; [|done]. unfold st_known. by rewrite HI. }
  destruct (op s) as [[x|w|] s']; [|by exists H; apply Hsame|done].
  destruct Hp as [HI Hp]. exists H. split; [by apply Hsame|]. by apply IH.
Qed.

(** ** Pools of owners *)

(** What each thread owns, and [F], which nobody owns: all of it known, all of it disjoint. *)
Definition pool_owns {A} (F : gset string) (Qs : list (A -> gset string -> Prop)) (c : list (prog A) * gostate) : Prop :=
  exists Hs : list (gset string), length Hs = length c.1 /\ F ⊆ st_known c.2 /\
    (forall i H, Hs !! i = Some H -> H ## F) /\
    (forall i H, Hs !! i = Some H -> H ⊆ st_known c.2) /\
    (forall i j H H', i <> j -> Hs !! i = Some H -> Hs !! j = Some H' -> H ## H') /\
    (forall i p H Q, c.1 !! i = Some p -> Hs !! i = Some H -> Qs !! i = Some Q -> owns p H Q).

Lemma pool_owns_step {A} F (Qs : list (A -> gset string -> Prop)) c c' :
  length Qs = length c.1 -> pool_owns F Qs c -> pool_step c c' -> pool_owns F Qs c' /\ length Qs = length c'.1.
Proof.
  intros HQs (Hs & Hlen & HF & HFd & Hk & Hd & Ho) Hstep. destruct Hstep as [ts s i p p' s' Hi Hp]. simpl in *.
  split; [|by rewrite length_insert]. pose proof (lookup_lt_Some _ _ _ Hi) as Hlt.
  destruct (lookup_lt_is_Some_2 Hs i) as [H HH]; [lia|]. destruct (lookup_lt_is_Some_2 Qs i) as [Q HQ]; [lia|].
  assert (exists H', transfer H H' s s' /\ owns p' H' Q) as (H' & (Ht1 & Ht2 & Ht3) & Hp').
  { specialize (Ho i p H Q Hi HH HQ). destruct p as [|X op k]; [done|]. simpl in *.
    specialize (Ho s (Hk _ _ HH)). destruct (op s) as [[x|w|] s1]; simplify_eq; [done|].
    destruct Ho as [H' Ht]. by exists H'. }
  exists (<[i := H']> Hs). cbn [fst snd]. rewrite !length_insert. split_and!; [done|..].
  - specialize (HFd _ _ HH). set_solver.
  - intros j K HK. destruct (decide (i = j)) as [<-|Hne].
    + rewrite list_lookup_insert_eq in HK by lia. injection HK as <-. specialize (HFd _ _ HH). set_solver.
    + rewrite list_lookup_insert_ne in HK by done. by apply (HFd j).
  - intros j K HK. destruct (decide (i = j)) as [<-|Hne].
    + rewrite list_lookup_insert_eq in HK by lia. by injection HK as <-.
    + rewrite list_lookup_insert_ne in HK by done. specialize (Hd j i K H (not_eq_sym Hne) HK HH).
      specialize (Hk _ _ HK). set_solver.
  - assert (forall j K, i <> j -> Hs !! j = Some K -> H' ## K) as Hdis.
    { intros j K Hne HK. specialize (Hd j i K H (not_eq_sym Hne) HK HH). specialize (Hk _ _ HK). set_solver. }
    intros j1 j2 K1 K2 Hne H1 H2. destruct (decide (i = j1)) as [<-|Hn1]; [|destruct (decide (i = j2)) as [<-|Hn2]].
    + rewrite list_lookup_insert_eq in H1 by lia. rewrite list_lookup_insert_ne in H2 by done.
      injection H1 as <-. by apply (Hdis j2).
    + rewrite list_lookup_insert_eq in H2 by lia. rewrite list_lookup_insert_ne in H1 by done.
      injection H2 as <-. symmetry. by apply (Hdis j1).
    + rewrite list_lookup_insert_ne in H1, H2 by done. by apply (Hd j1 j2).
  - intros j q K R Hj HK HR. destruct (decide (i = j)) as [<-|Hne].
    + rewrite list_lookup_insert_eq in Hj by lia. rewrite list_lookup_insert_eq in HK by lia. by simplify_eq.
    + rewrite list_lookup_insert_ne in Hj by done. rewrite list_lookup_insert_ne in HK by done. by apply (Ho j).
Qed.

Lemma pool_owns_steps {A} F (Qs : list (A -> gset string -> Prop)) c c' :
  length Qs = length c.1 -> pool_owns F Qs c -> rtc pool_step c c' -> pool_owns F Qs c'.
Proof.
  intros HQs Hc Hsteps. revert HQs Hc. induction Hsteps as [|c c1 c2 Hstep _ IH]; [done|].
  intros HQs Hc. destruct (pool_owns_step F Qs c c1 HQs Hc Hstep). auto.
Qed.

(** Threads that start with nothing. *)
Lemma pool_owns_start {A} (Qs : list (A -> gset string -> Prop)) ts s :
  Forall2 (fun p Q => owns p ∅ Q) ts Qs -> pool_owns (st_known s) Qs (ts, s).
Proof.
  intros Hts. exists (replicate (length ts) ∅). rewrite length_replicate. split_and!; [done|done|..]; simpl.
  - intros i H [-> _]%lookup_replicate. set_solver.
  - by intros i H [-> _]%lookup_replicate.
  - by intros i j H H' _ [-> _]%lookup_replicate [-> _]%lookup_replicate.
  - intros i p H Q Hp [-> _]%lookup_replicate HQ. by eapply Forall2_lookup_lr in Hts.
Qed.
End ownership.
