(* ===== verification/ConcurrentAlloc.v ===== *)
(** * ManageInjections beside other allocations

    What the goroutines that allocate own ([Ownership]), along the definitions of
    ClusterController: a CIDR handed out by one of them is never handed out by another
    one, whatever the order of their operations. *)

From stdpp Require Import base list strings gmap relations.
From S2P Require Import Prelude GoStd GoJson Types Externals Runtime Utils Restore RestoreCheck RestoreIpam ClusterController ClusterGenerate ClusterManage Threads Pool ThreadSteps Ownership.
Open Scope list_scope.
Open Scope Z_scope.

(** The program of a call, one construct at a time. *)
Ltac owns_cbn := cbn [steps steps_bind steps_foldM steps_stop steps_lift steps_on_IPAM_locked steps_atom atom].
Ltac owns_step lem := owns_cbn; apply owns_bind; eapply owns_weaken; [|apply lem].

Section alloc.
Context {OM : OpenMCP} {GI : GoIpam} {KA : K8sApi} {CU : CtrlUtils} {GO : GoMapOrder}.
Context {GL : GoIpamLaws} {CL : CtrlUtilsLaws}.

(** ** The methods of the wrapper *)

Lemma ipam_owns {A} (op : ipamS -> ipamS * A) H (Q : A -> gset string -> Prop) :
  (forall x x' r, H ⊆ known x -> op x = (x', r) ->
     exists H', H' ⊆ known x' /\ H' ∖ H ## known x /\ known x ∖ H ⊆ known x' /\ Q r H') ->
  owns (atom (on_IPAM (locked (on_internal op)))) H Q.
Proof.
  intros Hop s Hs. unfold on_IPAM, locked, on_internal.
  destruct (IPAM s) as [i|] eqn:Hi; [|exists H; by apply transfer_same].
  destruct (lock i) eqn:Hl; [done|]. simpl. destruct (op (internal i)) as [x' r] eqn:Ho.
  assert (st_known s = known (internal i)) as Hk by (unfold st_known; by rewrite Hi).
  rewrite Hk in Hs. destruct (Hop _ _ _ Hs Ho) as (H' & H1 & H2 & H3 & HQ).
  exists H'. split; [|done]. unfold transfer. by rewrite Hk.
Qed.

Lemma acquire_owns c n H :
  owns (steps (on_IPAM (AcquireChildPrefix c n))) H (fun r H' =>
    match r with inl p => pCidr p ∉ H /\ H' = {[pCidr p]} ∪ H | inr _ => H' = H end).
Proof.
  apply ipam_owns. intros x x' [p|e] HH Hop.
  - apply AcquireChild_ok in Hop as (Hn & _ & _ & Hk & _). exists ({[pCidr p]} ∪ H).
    rewrite Hk. set_solver.
  - apply AcquireChild_err in Hop as (Hk & _). exists H. rewrite Hk. set_solver.
Qed.

Lemma prefix_from_owns c H : owns (steps (on_IPAM (PrefixFrom c))) H (fun _ H' => H' = H).
Proof. apply ipam_owns. intros x x' r HH [(Hk & _) _]%lookup_one. exists H. rewrite Hk. set_solver. Qed.

Lemma release_owns p H :
  pCidr p ∈ H ->
  owns (steps (on_IPAM (ReleaseChildPrefix p))) H (fun _ H' => H ∖ {[pCidr p]} ⊆ H' /\ H' ⊆ H).
Proof.
  intros Hp. apply ipam_owns. intros x x' [e|] HH Hop.
  - apply Release_err in Hop as (Hk & _). exists H. rewrite Hk. set_solver.
  - apply Release_ok in Hop as (Hk & _). exists (H ∖ {[pCidr p]}). rewrite Hk. set_solver.
Qed.

(** ** One injection *)

(** A new CIDR, or nothing. *)
Definition took (H : gset string) (r : option Prefix) (H' : gset string) : Prop :=
  match r with Some p => pCidr p ∉ H /\ H' = {[pCidr p]} ∪ H | None => H' = H end.

Lemma try_prefixes_owns size ps H : owns (steps (try_prefixes size ps)) H (took H).
Proof.
  induction ps as [|p ps IH]; [done|]. owns_step acquire_owns.
  intros [q|e] H' Hq; [exact Hq|]. subst H'. exact IH.
Qed.

Lemma fetch_prefixes_owns cidrs H : owns (steps (fetch_prefixes cidrs)) H (fun _ H' => H' = H).
Proof.
  apply (owns_fold _ (fun _ _ H' => H' = H)); [done|]. intros done c rest b H1 _ ->.
  owns_step prefix_from_owns. by intros r H' ->.
Qed.

Lemma parent_prefixes_owns tmp pc id H : owns (steps (parent_prefixes tmp pc id)) H (fun _ H' => H' = H).
Proof.
  unfold parent_prefixes_steps, parent_prefixes. destruct (tmp !! id) as [ps|]; [done|].
  destruct (pc !! id) as [cidrs|]; [apply fetch_prefixes_owns|done].
Qed.

Lemma try_parents_owns tmp pc size sel H : owns (steps (try_parents tmp pc size sel)) H (took H).
Proof.
  induction sel as [|id sel IH]; [done|]. owns_step parent_prefixes_owns. intros ps H' ->.
  owns_step try_prefixes_owns. intros [q|] H' Hq; [exact Hq|]. simpl in Hq. subst H'. exact IH.
Qed.

(** ** The injections of a rule *)

(** An injection with one path. The rollback of generateCIDRsForInjectionRule gives a CIDR
    back once for every path it is stored under: with two paths, the second time it may
    already belong to another goroutine. *)
Definition single (inj : SingleCIDRInjection) : Prop := (length (GetPaths inj) <= 1)%nat.

(** What [raw] stores was taken since [H0] was owned, under one path each. *)
Definition raw_owned (H0 : gset string) (raw : gmap string Prefix) (H : gset string) : Prop :=
  H0 ⊆ H /\ (forall path p, raw !! path = Some p -> pCidr p ∈ H /\ pCidr p ∉ H0) /\
  (forall p1 p2 q1 q2, raw !! p1 = Some q1 -> raw !! p2 = Some q2 -> pCidr q1 = pCidr q2 -> p1 = p2).

Lemma raw_owned_add H0 raw H p inj :
  single inj -> pCidr p ∉ H -> raw_owned H0 raw H -> raw_owned H0 (add_raw p raw inj) ({[pCidr p]} ∪ H).
Proof.
  unfold single, add_raw. intros Hs Hp (H1 & H2 & H3).
  assert (raw_owned H0 raw ({[pCidr p]} ∪ H)) as Hraw.
  { split_and!; [set_solver| |done]. intros path q Hq. destruct (H2 path q Hq). set_solver. }
  destruct (GetPaths inj) as [|pws [|? ?]]; simpl in *; [done| |lia]. split_and!; [set_solver|..].
  - intros path q [[_ <-]|[_ Hq]]%lookup_insert_Some; [set_solver|]. destruct Hraw as (_ & Hraw & _). by eapply Hraw.
  - intros p1 p2 q1 q2 [[<- <-]|[Hn1 Hq1]]%lookup_insert_Some [[<- <-]|[Hn2 Hq2]]%lookup_insert_Some He.
    + done.
    + destruct (H2 p2 q2 Hq2) as [Hin _]. by rewrite <- He in Hin.
    + destruct (H2 p1 q1 Hq1) as [Hin _]. by rewrite He in Hin.
    + by apply (H3 p1 p2 q1 q2).
Qed.

Lemma release_raw_owns H0 raw H :
  raw_owned H0 raw H -> owns (steps (release_raw raw)) H (fun _ H' => H0 ⊆ H').
Proof.
  intros (H1 & H2 & H3).
  eapply owns_weaken; [|apply (owns_fold _ (fun done _ H' => H0 ⊆ H' /\
    forall path p, raw !! path = Some p -> (path, p) ∉ done -> pCidr p ∈ H'))].
  - by intros [] H' [? _].
  - split; [done|]. intros path p Hp _. by apply (H2 path).
  - intros done [path p] rest [] H' Hl (HH & Hin).
    assert (raw !! path = Some p) as Hp by (apply elem_of_range; rewrite Hl; set_solver).
    owns_step release_owns.
    + intros r H'' [Hr _]. simpl. split.
      * intros c Hc. apply Hr, elem_of_difference. split; [by apply HH|].
        intros ->%elem_of_singleton. by destruct (H2 path p Hp).
      * intros path' q Hq Hni. apply Hr, elem_of_difference. split; [apply (Hin path'); set_solver|].
        intros He%elem_of_singleton. destruct Hni. rewrite (H3 path' path q p Hq Hp He) in Hq |- *.
        simplify_eq. set_solver.
    + apply (Hin path); [done|]. intros Hd. pose proof (range_NoDup raw) as Hnd.
      rewrite Hl, fmap_app, fmap_cons in Hnd. apply NoDup_app in Hnd as (_ & Hnd & _).
      apply (Hnd path); [|by left]. apply list_elem_of_fmap. by exists (path, p).
Qed.

Lemma generate_loop_owns H0 pc raw tmp injs H :
  Forall single injs -> raw_owned H0 raw H ->
  owns (steps (generate_loop pc raw tmp injs)) H (fun r H' =>
    H0 ⊆ H' /\ match r with inl raw' => forall path p, raw' !! path = Some p -> pCidr p ∈ H' | inr _ => True end).
Proof.
  intros Hs. revert raw tmp H. induction Hs as [|inj injs Hi _ IH]; intros raw tmp H Hraw.
  { destruct Hraw as (H1 & H2 & _). split; [done|]. intros path p Hp. by destruct (H2 path p Hp). }
  owns_step try_parents_owns. intros [p|] H' Hp; simpl in Hp.
  - destruct Hp as [Hp ->]. apply IH. by apply raw_owned_add.
  - subst H'. owns_cbn. apply owns_bind. eapply owns_weaken; [|by apply release_raw_owns].
    intros [] H' HH. by split.
Qed.

Lemma generate_owns rule pc H :
  Forall single (rule_Injections rule) ->
  owns (steps (generateCIDRsForInjectionRule rule pc)) H (fun r H' =>
    H ⊆ H' /\ match r with inl m => forall path c, m !! path = Some c -> c ∈ H' | inr _ => True end).
Proof.
  intros Hs. owns_step (generate_loop_owns H); [|done|].
  - intros [raw|e] H' [HH Hr]; (split; [done|]); [|done]. intros path c Hc.
    rewrite (ProjectMapToMap_id _ (fun _ v => pCidr v)), map_lookup_imap in Hc.
    destruct (raw !! path) as [p|] eqn:Hp; [|done]. simpl in Hc. simplify_eq. by apply (Hr path).
  - split_and!; [done|..]; intros *; by rewrite lookup_empty.
Qed.

(** Normalising keeps the number of paths. *)
Lemma normalize_paths_single I pwss inj n :
  (inj_Paths inj = [] -> inj_Paths (normalize_paths I pwss inj n).1 = []) /\
  (Forall (fun pws => 0 <= pws_Index pws) pwss ->
   inj_Path (normalize_paths I pwss inj n).1 = inj_Path inj /\
   length (inj_Paths (normalize_paths I pwss inj n).1) = length (inj_Paths inj)).
Proof.
  revert inj n. induction pwss as [|pws pwss IH]; intros inj n; cbn [normalize_paths]; [done|].
  assert (forall path, (inj_Paths inj = [] -> inj_Paths (inj_set_path pws path inj) = []) /\
    (0 <= pws_Index pws -> inj_Path (inj_set_path pws path inj) = inj_Path inj /\
       length (inj_Paths (inj_set_path pws path inj)) = length (inj_Paths inj))) as Hset.
  { intros path. unfold inj_set_path. destruct (Z.ltb_spec (pws_Index pws) 0); simpl; [split; [done|lia]|].
    rewrite length_insert. split; [by intros ->|done]. }
  destruct (ConvertPath (pws_Path pws)) as [path|e]; cbv zeta.
  - destruct (Hset path) as [Hs1 Hs2].
    assert (forall n', (inj_Paths inj = [] ->
        inj_Paths (normalize_paths I pwss (inj_set_path pws path inj) n').1 = []) /\
      (Forall (fun pws => 0 <= pws_Index pws) (pws :: pwss) ->
       inj_Path (normalize_paths I pwss (inj_set_path pws path inj) n').1 = inj_Path inj /\
       length (inj_Paths (normalize_paths I pwss (inj_set_path pws path inj) n').1) = length (inj_Paths inj))) as Hrec.
    { intros n'. destruct (IH (inj_set_path pws path inj) n') as [H1 H2]. split; [auto|].
      intros [Hi Hf]%Forall_cons. destruct (Hs2 Hi) as [<- <-]. by apply H2. }
    repeat case_decide; [..|apply Hrec]; (split; [exact Hs1|]); intros [Hi _]%Forall_cons; by apply Hs2.
  - destruct (IH inj {| n_paths := n_paths n; n_issue := n_issue n;
               n_errs := n_errs n ++ [Errorf "error converting path" (Some (Lib e))] |}) as [H1 H2].
    split; [done|]. intros [_ Hf]%Forall_cons. by apply H2.
Qed.

Lemma normalize_injections_single I injs n :
  Forall single injs -> Forall single (normalize_injections I injs n).1.
Proof.
  intros Hs. revert n. induction Hs as [|inj injs Hi _ IH]; intros n; cbn [normalize_injections]; [done|].
  pose proof (normalize_paths_single I (GetPaths inj) inj n) as [H1 H2].
  destruct (normalize_paths I (GetPaths inj) inj n) as [inj' n']. specialize (IH n').
  destruct (normalize_injections I injs n') as [injs' n'']. constructor; [|done]. clear IH. simpl in *.
  unfold single, GetPaths in *. rewrite length_app, length_imap in *.
  destruct (decide (inj_Path inj = "")) as [He|He]; simpl in *.
  - destruct H2 as [Hp Hl]; [|rewrite Hp, Hl, decide_True; done].
    apply Forall_forall. intros pws (k & x & -> & _)%elem_of_lookup_imap. simpl. lia.
  - rewrite H1 by (destruct (inj_Paths inj); [done|simpl in Hi; lia]). by case_decide; simpl; lia.
Qed.

(** ** ManageInjections *)

(** The CIDRs recorded for the rules that [A] does not have. *)
Definition new_owned (A b : AppliedRulesAnnotation) (H : gset string) : Prop :=
  forall r path c, A !! r = None -> ann_map b r !! path = Some c -> c ∈ H.

Lemma new_owned_insert A b r m H H' :
  new_owned A b H -> H ⊆ H' -> (forall path c, m !! path = Some c -> c ∈ H') ->
  new_owned A (<[r := Some m]> b) H'.
Proof.
  intros Ho HH Hm r' path c Hr. unfold ann_map. destruct (decide (r' = r)) as [->|Hne].
  - rewrite lookup_insert_eq. apply Hm.
  - rewrite lookup_insert_ne by done. intros Hc. apply HH. by apply (Ho r' path c).
Qed.

Lemma evaluate_rule_owns cl cfg A I acc rule H :
  Forall single (rule_Injections rule) -> new_owned A (AnnotationToApply acc.1) H ->
  owns (steps (evaluate_rule cl cfg A I acc rule)) H (fun acc' H' => new_owned A (AnnotationToApply acc'.1) H').
Proof.
  intros Hs Ho. destruct acc as [res errs]. simpl in Ho. unfold evaluate_rule_steps, evaluate_rule.
  destruct (A !! rule_ID rule); [exact Ho|].
  pose proof (normalize_injections_single I (rule_Injections rule) {| n_paths := ∅; n_issue := None; n_errs := [] |} Hs) as Hs'.
  destruct (normalize_injections _ _ _) as [injs n]. simpl in Hs'. cbv zeta.
  destruct (_ !! rule_ID rule); [exact Ho|]. destruct cfg as [cfg|]; [|done].
  owns_step generate_owns; [|done]. intros [m|e] H' [HH Hm].
  2:{ intros r path c HA Hc. apply HH. by apply (Ho r path c). }
  owns_cbn. apply owns_bind.
  apply owns_pure; [exact (steps_disc (md := Pure))|]. intros [cc|e].
  - case_decide; by apply (new_owned_insert _ _ _ _ H).
  - by apply (new_owned_insert _ _ _ _ H).
Qed.

(** Recording the existing ClusterConfigs has no operation of its own. *)
Definition no_operation {A} (p : prog A) : Prop := exists o, p = Stop o.

Lemma no_operation_bind {A B} (p : prog A) (k : A -> prog B) :
  no_operation p -> (forall a, no_operation (k a)) -> no_operation (prog_bind p k).
Proof. intros [[a|w|] ->] Hk; [apply Hk|by eexists..]. Qed.

Lemma no_operation_fold {A B} (f : B -> A -> prog B) l b :
  (forall b x, no_operation (f b x)) -> no_operation (prog_fold f b l).
Proof.
  intros Hf. revert b. induction l as [|x l IH]; intros b; [by eexists|]. simpl.
  apply no_operation_bind; [apply Hf|exact IH].
Qed.

Lemma record_patches_no_operation inj errs ps : no_operation (steps (record_patches inj errs ps)).
Proof.
  revert inj errs. induction ps as [|p ps IH]; intros inj errs; [by eexists|].
  cbn. destruct (nil_map inj !! p_Path p); [apply IH|]. destruct (p_Value p) as [raw|]; [|by eexists].
  destruct (json_Unmarshal_string "" raw); [|apply IH]. destruct inj; [apply IH|by eexists].
Qed.

Lemma record_no_operation acc rcs : no_operation (prog_fold (fun b x => steps (record_cc b x)) acc rcs).
Proof.
  apply no_operation_fold. intros [a errs] [r cc]. unfold record_cc_steps, record_cc. owns_cbn.
  apply no_operation_bind; [apply record_patches_no_operation|]. intros [inj es]. by eexists.
Qed.

Lemma record_rules ccs a A errs :
  prog_fold (fun b x => steps (record_cc b x)) (a, []) (range ccs) = Stop (Ret (A, errs)) ->
  forall r, a !! r = None -> ccs !! r = None -> A !! r = None.
Proof.
  intros Hp r Ha Hcc.
  pose (s := {| config := None; ClusterWatch := []; IPAM := None; providerName := ""; environment := "";
                calls := []; events := [] |}).
  assert (foldM record_cc (a, []) (range ccs) s = (Ret (A, errs), s)) as (_ & _ & Hd & _)%record_loop.
  { transitivity (run (Stop (Ret (A, errs))) s); [|done]. rewrite <- Hp. symmetry. apply prog_fold_run. }
  apply eq_None_not_Some. rewrite Hd, Ha, Hcc. by intros [[]|[]].
Qed.

(** A call of ManageInjections. *)
Record job : Type := {
  j_cl : Cluster;
  j_cfg : option IPAMConfig;
  j_rules : list CIDRInjection;
  j_ccs : gmap string ClusterConfig }.

Definition manage_result : Type := option InjectionManagementResult * string * option error.

Definition manage_thread (j : job) : prog manage_result :=
  steps (ManageInjections (j_cl j) (j_cfg j) (j_rules j) (j_ccs j)).

Definition single_paths (j : job) : Prop := forall rule, rule ∈ j_rules j -> Forall single (rule_Injections rule).

(** The result of [j] records the CIDR for a rule that the cluster did not have yet. *)
Definition hands_out (j : job) (r : manage_result) (cidr : string) : Prop :=
  exists res a rule path, r.1.1 = Some res /\ parse_applied_rules (j_cl j) = inl a /\
    a !! rule = None /\ j_ccs j !! rule = None /\
    ann_map (AnnotationToApply res) rule !! path = Some cidr.

Lemma manage_owns j :
  single_paths j -> owns (manage_thread j) ∅ (fun r H => forall cidr, hands_out j r cidr -> cidr ∈ H).
Proof.
  destruct j as [cl cfg rules ccs]. unfold single_paths, hands_out, manage_thread. simpl. intros Hs.
  unfold ManageInjections_steps, ManageInjections. destruct (parse_applied_rules cl) as [a|e].
  2:{ intros cidr (res & _ & _ & _ & H & _). done. }
  owns_cbn. destruct (record_no_operation (a, []) (range ccs)) as [o Hp]. rewrite Hp.
  destruct o as [[A errs]|w|]; [|done..]. pose proof (record_rules ccs a A errs Hp) as HA. cbn [prog_bind].
  destruct (errors_Join (Some <$> errs)); [by intros cidr (? & _ & _ & _ & ? & _)|]. cbv zeta. owns_cbn.
  apply owns_bind, owns_pure; [exact (steps_disc (md := Pure))|]. intros [ri|e].
  2:{ intros cidr (? & _ & _ & _ & ? & _). done. }
  owns_cbn. apply owns_bind.
  eapply owns_weaken; [|apply (owns_fold _ (fun _ acc H => new_owned A (AnnotationToApply acc.1) H))].
  - intros [res errs'] H Ho cidr (res' & a' & rule & path & Hr & Ha & Hrule & Hcc & Hc).
    simpl in *. simplify_eq. apply (Ho rule path); auto.
  - intros r path c HAr. unfold ann_map. simpl. by rewrite HAr.
  - intros done rule rest acc H Hl Ho. apply evaluate_rule_owns; [|done]. apply Hs. rewrite Hl. set_solver.
Qed.

(** C6: Allocations do not collide, however they interleave: any number of calls of
    ManageInjections, their operations (the IPAM wrapper's methods, reads of package variables)
    in any order, whose injections have one path each. At any moment, the CIDRs that a call
    which has ended records for a rule the cluster did not have before were unknown to the IPAM
    at the beginning, are known now, and no other call that has ended has recorded one of them
    for a new rule. *)
Theorem Manage_concurrent jobs s c :
  Forall single_paths jobs ->
  rtc pool_step (manage_thread <$> jobs, s) c ->
  (forall i j r cidr, jobs !! i = Some j -> c.1 !! i = Some (Stop (Ret r)) -> hands_out j r cidr ->
     cidr ∉ st_known s /\ cidr ∈ st_known c.2) /\
  (forall i1 i2 j1 j2 r1 r2 cidr, i1 <> i2 ->
     jobs !! i1 = Some j1 -> c.1 !! i1 = Some (Stop (Ret r1)) -> hands_out j1 r1 cidr ->
     jobs !! i2 = Some j2 -> c.1 !! i2 = Some (Stop (Ret r2)) -> hands_out j2 r2 cidr -> False).
Proof.
  intros Hjobs Hsteps.
  pose (Q := fun (j : job) (r : manage_result) (H : gset string) => forall cidr, hands_out j r cidr -> cidr ∈ H).
  assert (pool_owns (st_known s) (Q <$> jobs) c) as (Hs & Hlen & HF & HFd & Hk & Hd & Ho).
  { eapply pool_owns_steps; [|apply pool_owns_start|exact Hsteps]; [simpl; by rewrite !length_fmap|].
    apply Forall2_fmap, Forall_Forall2_diag. eapply Forall_impl; [exact Hjobs|]. intros j Hj. exact (manage_owns j Hj). }
  assert (forall i j r cidr, jobs !! i = Some j -> c.1 !! i = Some (Stop (Ret r)) -> hands_out j r cidr ->
            exists H, Hs !! i = Some H /\ cidr ∈ H) as Hown.
  { intros i j r cidr Hj Hc Hout. destruct (lookup_lt_is_Some_2 Hs i) as [H HH].
    { rewrite Hlen. by eapply lookup_lt_Some. }
    exists H. split; [done|]. refine (Ho i _ H (Q j) Hc HH _ cidr Hout). by rewrite list_lookup_fmap, Hj. }
  split.
  - intros i j r cidr Hj Hc Hout. destruct (Hown i j r cidr Hj Hc Hout) as (H & HH & Hin).
    specialize (HFd _ _ HH). specialize (Hk _ _ HH). set_solver.
  - intros i1 i2 j1 j2 r1 r2 cidr Hne Hj1 Hc1 Ho1 Hj2 Hc2 Ho2.
    destruct (Hown _ _ _ _ Hj1 Hc1 Ho1) as (H1 & HH1 & Hin1).
    destruct (Hown _ _ _ _ Hj2 Hc2 Ho2) as (H2 & HH2 & Hin2).
    exact (Hd i1 i2 H1 H2 Hne HH1 HH2 cidr Hin1 Hin2).
Qed.
End alloc.
