(* ===== verification/Startup.v ===== *)
(** * cmd/platform-service-gardener-ipam: options, the commands "run" and "init"

    main.go, app/app.go, app/run.go, app/init.go, app/print.go and api/install. The
    framework the commands drive (controller-runtime's manager, certificate watchers, the
    CRD and webhook installers, yaml, the process environment) is the class [Framework];
    what the manager calls while it runs is an arbitrary sequence of [entry]s. *)

From stdpp Require Import base list strings gmap.
From Stdlib Require Import Ascii.
From S2P Require Import Prelude GoStd Types Externals Runtime Utils Restore RestoreState ConfigController Events ClusterMutation System Returns Progress.
Open Scope list_scope.
Open Scope Z_scope.

(** ** path/filepath on Unix *)

(** [filepath.Clean] on the parts between the slashes; the kept ones are reversed. *)
Fixpoint clean_parts (rooted : bool) (kept : list string) (parts : list string) : list string :=
  match parts with
  | [] => kept
  | part :: parts =>
      if decide (part = "" \/ part = ".") then clean_parts rooted kept parts
      else if decide (part = "..") then
        match kept with
        | [] => clean_parts rooted (if rooted then [] else [".."]) parts
        | k :: rest => clean_parts rooted (if decide (k = "..") then ".." :: kept else rest) parts
        end
      else clean_parts rooted (part :: kept) parts
  end.

Definition filepath_Clean (path : string) : string :=
  let rooted := match path with String "/"%char _ => true | _ => false end in
  let joined := String.concat "/" (rev (clean_parts rooted [] (strings_Split path slash))) in
  if rooted then String slash joined else if decide (joined = "") then "." else joined.

(** [filepath.Join]: empty elements at the front are dropped. *)
Fixpoint filepath_Join (elems : list string) : string :=
  match elems with
  | [] => ""
  | e :: rest => if decide (e = "") then filepath_Join rest else filepath_Clean (String.concat "/" elems)
  end.

Example Join_plain : filepath_Join ["/certs"; "tls.crt"] = "/certs/tls.crt".
Proof. reflexivity. Qed.
Example Join_dots : filepath_Join ["certs/./a/../"; "tls.crt"] = "certs/tls.crt".
Proof. reflexivity. Qed.
Example Join_above_root : filepath_Join ["/../x"; "../../y"] = "/y".
Proof. reflexivity. Qed.
Example Join_empty : filepath_Join [""; "a"] = "a".
Proof. reflexivity. Qed.

(** ** Options *)

(** RawSharedOptions; [Log] and [PlatformCluster] have no effect on the control flow. *)
Record SharedOptions : Type := {
  o_Environment : string;
  o_ProviderName : string;
  DryRun : bool;
  WebhooksDisabled : bool }.

(** The flags' defaults (AddPersistentFlags). *)
Definition default_SharedOptions : SharedOptions :=
  {| o_Environment := ""; o_ProviderName := ""; DryRun := false; WebhooksDisabled := false |}.

Record RawRunOptions : Type := {
  MetricsAddr : string; MetricsCertPath : string; MetricsCertName : string; MetricsCertKey : string;
  WebhookCertPath : string; WebhookCertName : string; WebhookCertKey : string;
  EnableLeaderElection : bool; ProbeAddr : string; PprofAddr : string;
  SecureMetrics : bool; EnableHTTP2 : bool }.

(** RunOptions.AddFlags *)
Definition default_RawRunOptions : RawRunOptions :=
  {| MetricsAddr := "0"; MetricsCertPath := ""; MetricsCertName := "tls.crt"; MetricsCertKey := "tls.key";
     WebhookCertPath := ""; WebhookCertName := "tls.crt"; WebhookCertKey := "tls.key";
     EnableLeaderElection := false; ProbeAddr := ":8081"; PprofAddr := "";
     SecureMetrics := true; EnableHTTP2 := false |}.

(** The groups that api/install registers: those of other packages, and the IPAM group. *)
Inductive foreign_group : Type := ClientGo | ApiExt | ClustersV1 | ProviderV1 | GardenV1.
Inductive api_group : Type := Foreign (g : foreign_group) | IpamV1.

Record group_version : Type := { gv_Group : string; gv_Version : string }.

Section startup.
Context {OM : OpenMCP} {GI : GoIpam} {KA : K8sApi} {CU : CtrlUtils} {GO : GoMapOrder}.
Context {CP : CtrlPredicates}.

(** The kinds of handle the framework gives out. *)
Class FrameworkTypes : Type := {
  CertWatcher : Type;
  Scheme : Type;
  NewScheme : Scheme;
  CustomResourceDefinition : Type }.

Context {FT : FrameworkTypes}.

(** A function that modifies a tls.Config. *)
Inductive tls_opt : Type :=
  | DisableHTTP2
  | GetCertificate (w : CertWatcher).

(** FilterProvider: whether it is set (to WithAuthenticationAndAuthorization). *)
Record MetricsServerOptions : Type := {
  BindAddress : string; SecureServing : bool; m_TLSOpts : list tls_opt; FilterProvider : bool }.

(** The fields filled in Complete. *)
Record Completed : Type := {
  TLSOpts : list tls_opt;
  WebhookTLSOpts : list tls_opt;
  MetricsOptions : MetricsServerOptions;
  MetricsCertWatcher : option CertWatcher;
  WebhookCertWatcher : option CertWatcher;
  ProviderNamespace : string }.

Record RunOptions : Type := { o_Shared : SharedOptions; o_Raw : RawRunOptions }.

(** ctrl.Options *)
Record ManagerOptions : Type := {
  mo_Scheme : Scheme; mo_Metrics : MetricsServerOptions; mo_WebhookTLSOpts : list tls_opt;
  mo_HealthProbeBindAddress : string; mo_PprofBindAddress : string;
  mo_LeaderElection : bool; mo_LeaderElectionID : string }.

(** What ctrl.NewWebhookManagedBy is given: the type, WithValidator, WithDefaulter. *)
Record WebhookSetup : Type := { ws_Kind : watched_kind; ws_Validator : bool; ws_Defaulter : bool }.

(** The webhook types and options that init installs. *)
Record APIType : Type := { at_Kind : watched_kind; at_Validator : bool; at_Defaulter : bool; at_FailurePolicyIgnore : bool }.
Record InstallOptions : Type := {
  io_ServiceName : string; io_SecretName : string; io_Namespace : string; io_ServicePort : Z;
  io_TargetPort : Z; io_SelectorLabels : gmap string string }.
Record CertOptions : Type := { co_ServiceName : string; co_SecretName : string; co_Namespace : string }.

(** An effect on the framework. *)
Inductive fw_call : Type :=
  | GetLogger
  | InitializeRESTConfig
  | InitializeClient (s : Scheme)
  | NewManager (o : ManagerOptions)
  | CompleteConfigController (ws : list watch)
  | CompleteClusterController (ws : list watch)
  | CompleteWebhook (w : WebhookSetup)
  | AddToManager (w : CertWatcher)
  | AddHealthzCheck (name : string)
  | AddReadyzCheck (name : string)
  | StartManager
  | CreateOrUpdateCRDs (crds : list CustomResourceDefinition + exterr)
  | GenerateCertificate (o : CertOptions)
  | InstallWebhooks (types : list APIType) (o : InstallOptions)
  | UninstallWebhooks (types : list APIType) (o : InstallOptions).

(** The answers depend on what was asked before (newest first). *)
Class Framework : Type := {
  fw_answer : list fw_call -> fw_call -> option exterr;
  certwatcher_New : list fw_call -> string -> string -> CertWatcher + exterr;
  (** the groups of other packages *)
  AddToScheme : foreign_group -> Scheme -> Scheme + exterr;
  AddToGroupVersion : Scheme -> group_version -> Scheme;
  AddKnownTypes : Scheme -> group_version -> list string -> Scheme;
  (** the embedded directory [manifests] of api/crds, parsed *)
  CRDsFromFileSystem : string -> list CustomResourceDefinition + exterr;
  (** the calls the manager makes between its start and its end *)
  schedule : list fw_call -> IPAMConfigController -> list entry;
  os_Getenv : string -> string;
  time_Now : list fw_call -> Z;
  EnvVariablePodNamespace : string;
  WebhookSecretName : string -> string + exterr;
  ShortenToXCharactersUnsafe : string -> Z -> string;
  APIServerEndpoint : string;
  yaml_Marshal_SharedOptions : SharedOptions -> string + exterr;
  yaml_Marshal_RunOptions : RawRunOptions -> string + exterr;
  yaml_Marshal_map : gmap string string -> string + exterr }.

Context {FW : Framework}.

(** The process while a command runs: the package variables of internal/shared, the calls
    of the framework (newest first), what was printed, and for each start of the manager
    the state it was started in and the outcomes of the calls it made. *)
Record process : Type := {
  vars : gostate;
  fw_calls : list fw_call;
  printed : list string;
  served : list (gostate * list (outcome unit)) }.

Definition P : Type -> Type := goM process.

Definition pr_set_vars (s : gostate) (p : process) : process :=
  {| vars := s; fw_calls := fw_calls p; printed := printed p; served := served p |}.
Definition pr_add_call (c : fw_call) (p : process) : process :=
  {| vars := vars p; fw_calls := c :: fw_calls p; printed := printed p; served := served p |}.
Definition pr_print (line : string) (p : process) : process :=
  {| vars := vars p; fw_calls := fw_calls p; printed := printed p ++ [line]; served := served p |}.

(** A call of internal/shared or of a controller. *)
Definition lift {A} (m : M A) : P A := fun p =>
  let '(r, s) := m (vars p) in (r, pr_set_vars s p).

Definition fw (c : fw_call) : P (option exterr) := fun p =>
  (Ret (fw_answer (fw_calls p) c), pr_add_call c p).

Definition Println (line : string) : P unit := modifyM (pr_print line).

(** mgr.Start: serves until it ends with an error or without. *)
Definition mgr_Start (cfgCtrl : IPAMConfigController) : P (option exterr) := fun p =>
  let '(outs, s) := run_entries (schedule (fw_calls p) cfgCtrl) (vars p) in
  (Ret (fw_answer (fw_calls p) StartManager),
   {| vars := s; fw_calls := StartManager :: fw_calls p; printed := printed p;
      served := served p ++ [(vars p, outs)] |}).

(** ** api/ipam/v1alpha1: the scheme *)

Definition GroupVersion : group_version := {| gv_Group := GroupName; gv_Version := "v1alpha1" |}.

(** The function SchemeBuilder is created with, and the one that init() of config_types.go
    registers. *)
Definition SchemeBuilder : list (Scheme -> Scheme + error) :=
  [fun scheme => inl (AddToGroupVersion scheme GroupVersion);
   fun scheme => inl (AddKnownTypes scheme GroupVersion ["IPAMConfig"; "IPAMConfigList"])].

(** runtime.SchemeBuilder.AddToScheme: up to the first error. *)
Fixpoint SchemeBuilder_AddToScheme (fs : list (Scheme -> Scheme + error)) (scheme : Scheme) : Scheme + error :=
  match fs with
  | [] => inl scheme
  | f :: fs => match f scheme with inl scheme => SchemeBuilder_AddToScheme fs scheme | inr err => inr err end
  end.

Definition AddToScheme_group (g : api_group) (scheme : Scheme) : Scheme + error :=
  match g with
  | Foreign g => match AddToScheme g scheme with inl scheme => inl scheme | inr err => inr (Lib err) end
  | IpamV1 => SchemeBuilder_AddToScheme SchemeBuilder scheme
  end.

(** ** api/crds/crds.go *)

Definition CRDs : list CustomResourceDefinition + exterr := CRDsFromFileSystem "manifests".

(** ** api/install/install.go *)

(** [utilruntime.Must(g.AddToScheme(scheme))] for each group. *)
Definition install_groups (gs : list api_group) (scheme : Scheme) : P Scheme :=
  foldM (fun scheme g =>
    match AddToScheme_group g scheme with
    | inl scheme => retM scheme
    | inr _ => panicM "utilruntime.Must"
    end) scheme gs.

Definition InstallCRDAPIs : Scheme -> P Scheme := install_groups [Foreign ClientGo; Foreign ApiExt].
Definition InstallOperatorAPIsPlatform : Scheme -> P Scheme :=
  install_groups [Foreign ClientGo; IpamV1; Foreign ClustersV1; Foreign ProviderV1; Foreign GardenV1].

(** ** app/print.go *)

(** [cmd.Print(string(data))], or the error. *)
Definition print_yaml (what : string) (r : string + exterr) : P unit :=
  match r with
  | inl data => Println data
  | inr err => Println ("error marshalling " +:+ what +:+ ": " +:+ err_msg err)
  end.

Definition PrintRaw_shared (o : SharedOptions) : P unit :=
  print_yaml "raw shared options" (yaml_Marshal_SharedOptions o).
Definition PrintCompleted_shared (o : SharedOptions) : P unit :=
  print_yaml "completed shared options"
    (yaml_Marshal_map (<["platformCluster" := APIServerEndpoint]> {["providerName" := o_ProviderName o]})).

Definition PrintRawOptions_init (o : SharedOptions) : P unit :=
  Println "########## RAW OPTIONS START ##########" ;;;
  PrintRaw_shared o ;;;
  Println "########## RAW OPTIONS END ##########".
Definition PrintCompletedOptions_init (o : SharedOptions) : P unit :=
  Println "########## COMPLETED OPTIONS START ##########" ;;;
  PrintCompleted_shared o ;;;
  Println "########## COMPLETED OPTIONS END ##########".

Definition PrintRaw_run (o : RunOptions) : P unit :=
  print_yaml "raw options" (yaml_Marshal_RunOptions (o_Raw o)).
Definition PrintRawOptions_run (o : RunOptions) : P unit :=
  Println "########## RAW OPTIONS START ##########" ;;;
  PrintRaw_shared (o_Shared o) ;;;
  PrintRaw_run o ;;;
  Println "########## RAW OPTIONS END ##########".
Definition PrintCompleted_run : P unit :=
  print_yaml "completed options" (yaml_Marshal_map ∅).
Definition PrintCompletedOptions_run (o : RunOptions) : P unit :=
  Println "########## COMPLETED OPTIONS START ##########" ;;;
  PrintCompleted_shared (o_Shared o) ;;;
  PrintCompleted_run ;;;
  Println "########## COMPLETED OPTIONS END ##########".

(** ** app/app.go *)

Definition Complete_shared (o : SharedOptions) : P (option error) :=
  if decide (o_Environment o = "") then retM (Some (Errorf "environment must not be empty" None))
  else
    lift (SetEnvironment (o_Environment o)) ;;;
    if decide (o_ProviderName o = "") then retM (Some (Errorf "provider-name must not be empty" None))
    else
      lift (SetProviderName (o_ProviderName o)) ;;;
      let! err := fw GetLogger in
      match err with
      | Some err => retM (Some (Lib err))
      | None =>
          let! err := fw InitializeRESTConfig in
          retM (Lib <$> err)
      end.

(** ** app/run.go *)

(** A certificate watcher for [dir], unless [dir] is empty. *)
Definition cert_watcher (dir name key : string) : P (option CertWatcher + exterr) := fun p =>
  (Ret (if decide (dir = "") then inl None
        else match certwatcher_New (fw_calls p) (filepath_Join [dir; name]) (filepath_Join [dir; key]) with
             | inl w => inl (Some w)
             | inr err => inr err
             end), p).

Definition watcher_opts (w : option CertWatcher) : list tls_opt :=
  match w with Some w => [GetCertificate w] | None => [] end.

(** RunOptions.Complete. The slices of TLS options start out nil or full, so [append]
    copies them and no two share an array. *)
Definition Complete_run (o : RunOptions) : P (Completed + error) :=
  let! err := Complete_shared (o_Shared o) in
  match err with
  | Some err => retM (inr err)
  | None =>
      let raw := o_Raw o in
      let namespace := os_Getenv EnvVariablePodNamespace in
      if decide (namespace = "") then retM (inr (Errorf "environment variable must be set" None))
      else
        let tlsOpts := if EnableHTTP2 raw then [] else [DisableHTTP2] in
        let! webhook := cert_watcher (WebhookCertPath raw) (WebhookCertName raw) (WebhookCertKey raw) in
        match webhook with
        | inr err => retM (inr (Errorf "failed to initialize webhook certificate watcher" (Some (Lib err))))
        | inl webhook =>
            let! metrics := cert_watcher (MetricsCertPath raw) (MetricsCertName raw) (MetricsCertKey raw) in
            match metrics with
            | inr err => retM (inr (Errorf "failed to initialize metrics certificate watcher" (Some (Lib err))))
            | inl metrics =>
                retM (inl
                  {| TLSOpts := tlsOpts;
                     WebhookTLSOpts := tlsOpts ++ watcher_opts webhook;
                     MetricsOptions :=
                       {| BindAddress := MetricsAddr raw; SecureServing := SecureMetrics raw;
                          m_TLSOpts := tlsOpts ++ watcher_opts metrics; FilterProvider := SecureMetrics raw |};
                     MetricsCertWatcher := metrics; WebhookCertWatcher := webhook;
                     ProviderNamespace := namespace |})
            end
        end
  end.

(** [if err := ...; err != nil { return fmt.Errorf("...: %w", err) }] *)
Definition try_fw (what : string) (c : fw_call) (k : P (option error)) : P (option error) :=
  let! err := fw c in
  match err with
  | Some err => retM (Some (Errorf what (Some (Lib err))))
  | None => k
  end.

Definition add_watcher (what : string) (w : option CertWatcher) (k : P (option error)) : P (option error) :=
  match w with
  | Some w => try_fw what (AddToManager w) k
  | None => k
  end.

(** internal/webhooks: SetupWebhookWithManager of both webhooks. *)
Definition ConfigValidator_SetupWebhookWithManager : WebhookSetup :=
  {| ws_Kind := KIPAMConfig; ws_Validator := true; ws_Defaulter := false |}.
Definition ReferenceInjector_SetupWebhookWithManager : WebhookSetup :=
  {| ws_Kind := KCluster; ws_Validator := false; ws_Defaulter := true |}.

Definition setup_webhooks (o : SharedOptions) (k : P (option error)) : P (option error) :=
  if WebhooksDisabled o then k
  else
    try_fw "unable to set up IPAMConfig validation webhook" (CompleteWebhook ConfigValidator_SetupWebhookWithManager)
      (try_fw "unable to set up Cluster reference injection webhook" (CompleteWebhook ReferenceInjector_SetupWebhookWithManager) k).

(** RunOptions.Run behind the restored state: controllers, webhooks, checks, start. *)
Definition run_manager (o : RunOptions) (c : Completed) : P (option error) :=
  let! p := getM in
  let cfgCtrl := NewIPAMConfigController (o_ProviderName (o_Shared o)) true (time_Now (fw_calls p)) in
  try_fw "unable to add IPAMConfig reconciler to manager" (CompleteConfigController (config_watches cfgCtrl))
    (let! ws := lift cluster_watches in
     try_fw "unable to add Cluster reconciler to manager" (CompleteClusterController ws)
       (setup_webhooks (o_Shared o)
         (add_watcher "unable to add metrics certificate watcher to manager" (MetricsCertWatcher c)
           (add_watcher "unable to add webhook certificate watcher to manager" (WebhookCertWatcher c)
             (try_fw "unable to set up health check" (AddHealthzCheck "healthz")
               (try_fw "unable to set up ready check" (AddReadyzCheck "readyz")
                 (let! err := mgr_Start cfgCtrl in
                  retM match err with
                       | Some err => Some (Errorf "problem running manager" (Some (Lib err)))
                       | None => None
                       end))))))).

Definition manager_options (o : RunOptions) (c : Completed) (scheme : Scheme) : ManagerOptions :=
  {| mo_Scheme := scheme; mo_Metrics := MetricsOptions c; mo_WebhookTLSOpts := WebhookTLSOpts c;
     mo_HealthProbeBindAddress := ProbeAddr (o_Raw o); mo_PprofBindAddress := PprofAddr (o_Raw o);
     mo_LeaderElection := EnableLeaderElection (o_Raw o);
     mo_LeaderElectionID := "github.com/openmcp-project/platform-service-gardener-ipam" |}.

Definition Run (o : RunOptions) (c : Completed) : P (option error) :=
  let! scheme := InstallOperatorAPIsPlatform NewScheme in
  let! err := fw (InitializeClient scheme) in
  match err with
  | Some err => retM (Some (Lib err))
  | None =>
      try_fw "unable to create manager" (NewManager (manager_options o c scheme))
        (let! svcCfg := lift (client_GetConfig (o_ProviderName (o_Shared o))) in
         match svcCfg with
         | inr err =>
             retM (Some (Errorf (if is_not_found err then "GardenerIPAMConfig not found"
                                 else "error getting GardenerIPAMConfig") (Some (Lib err))))
         | inl svcCfg =>
             lift (SetConfig (Some svcCfg)) ;;;
             let! err := lift RestoreIPAMFromClusterState in
             match err with
             | Some err => retM (Some (Errorf "error restoring IPAM state from cluster" (Some err)))
             | None => run_manager o c
             end
         end)
  end.

(** The Run function of the "run" command; its panics carry the error. *)
Definition run_command (o : RunOptions) : P unit :=
  PrintRawOptions_run o ;;;
  let! c := Complete_run o in
  match c with
  | inr _ => panicM "error completing options"
  | inl c =>
      PrintCompletedOptions_run o ;;;
      if DryRun (o_Shared o) then Println "=== END OF DRY RUN ==="
      else
        let! err := Run o c in
        match err with
        | Some _ => panicM "run"
        | None => retM tt
        end
  end.

(** ** app/init.go *)

Definition WebhookPortPod : Z := 9443.
Definition WebhookPortSvc : Z := 443.

Definition webhookTypes : list APIType :=
  [{| at_Kind := KIPAMConfig; at_Validator := true; at_Defaulter := false; at_FailurePolicyIgnore := true |};
   {| at_Kind := KCluster; at_Validator := false; at_Defaulter := true; at_FailurePolicyIgnore := false |}].

(** "init" installs the webhooks that "run" serves. *)
Example webhooks_agree :
  (fun w => (ws_Kind w, ws_Validator w, ws_Defaulter w)) <$>
    [ConfigValidator_SetupWebhookWithManager; ReferenceInjector_SetupWebhookWithManager] =
  (fun w => (at_Kind w, at_Validator w, at_Defaulter w)) <$> webhookTypes.
Proof. done. Qed.

Definition whServiceName (o : SharedOptions) : string :=
  ShortenToXCharactersUnsafe (o_ProviderName o) (K8sMaxNameLength - Z.of_nat (String.length "-webhook")) +:+ "-webhook".

Definition installOpts (o : SharedOptions) (secret namespace : string) : InstallOptions :=
  {| io_ServiceName := whServiceName o; io_SecretName := secret; io_Namespace := namespace;
     io_ServicePort := WebhookPortSvc; io_TargetPort := WebhookPortPod;
     io_SelectorLabels :=
       <["app.kubernetes.io/component" := "controller"]>
       (<["app.kubernetes.io/managed-by" := "openmcp-operator"]>
       (<["app.kubernetes.io/name" := "PlatformService"]>
       {["app.kubernetes.io/instance" := o_ProviderName o]})) |}.

Definition certOpts (o : SharedOptions) (secret namespace : string) : CertOptions :=
  {| co_ServiceName := whServiceName o; co_SecretName := secret; co_Namespace := namespace |}.

Definition Run_init (o : SharedOptions) : P (option error) :=
  let! scheme := InstallCRDAPIs NewScheme in
  let! scheme := InstallOperatorAPIsPlatform scheme in
  let! err := fw (InitializeClient scheme) in
  match err with
  | Some err => retM (Some (Lib err))
  | None =>
      try_fw "error creating/updating CRDs" (CreateOrUpdateCRDs CRDs)
        (let namespace := os_Getenv EnvVariablePodNamespace in
         if decide (namespace = "") then retM (Some (Errorf "environment variable is not set" None))
         else
           match WebhookSecretName (o_ProviderName o) with
           | inr err => retM (Some (Errorf "unable to determine webhook secret name" (Some (Lib err))))
           | inl secret =>
               if WebhooksDisabled o then
                 try_fw "unable to uninstall webhooks"
                   (UninstallWebhooks webhookTypes (installOpts o secret namespace)) (retM None)
               else
                 try_fw "unable to generate webhook certificate" (GenerateCertificate (certOpts o secret namespace))
                   (try_fw "unable to install webhooks"
                     (InstallWebhooks webhookTypes (installOpts o secret namespace)) (retM None))
           end)
  end.

Definition Complete_init (o : SharedOptions) : P (option error) :=
  let! err := Complete_shared o in
  match err with
  | Some err => retM (Some err)
  | None => retM None
  end.

Definition init_command (o : SharedOptions) : P unit :=
  PrintRawOptions_init o ;;;
  let! err := Complete_init o in
  match err with
  | Some _ => panicM "error completing options"
  | None =>
      PrintCompletedOptions_init o ;;;
      if DryRun o then Println "=== END OF DRY RUN ==="
      else
        let! err := Run_init o in
        match err with
        | Some _ => panicM "init"
        | None => retM tt
        end
  end.

(** ** Theorems *)

(** The process when main is entered. *)
Definition fresh_process : process :=
  {| vars := {| config := None; ClusterWatch := []; IPAM := None; providerName := ""; environment := "";
                calls := []; events := [] |};
     fw_calls := []; printed := []; served := [] |}.

(** *** What does not start the manager *)

Definition same_served (p p' : process) : Prop := served p' = served p.
#[export] Instance same_served_preorder : PreOrder same_served.
Proof. unfold same_served. split; [by intros p|]. intros p1 p2 p3. by intros -> ->. Qed.

Lemma lift_served {A} (m : M A) : preserves same_served (lift m).
Proof. intros p. unfold lift, same_served. by destruct (m (vars p)). Qed.
Lemma fw_served c : preserves same_served (fw c).
Proof. by intros p. Qed.
Lemma Println_served l : preserves same_served (Println l).
Proof. by intros p. Qed.
Lemma cert_watcher_served d n k : preserves same_served (cert_watcher d n k).
Proof. by intros p. Qed.
Hint Resolve lift_served fw_served Println_served cert_watcher_served : go.

Lemma install_groups_served gs scheme : preserves same_served (install_groups gs scheme).
Proof. unfold install_groups. go_struct. Qed.
Lemma Complete_shared_served o : preserves same_served (Complete_shared o).
Proof. unfold Complete_shared. go_struct. Qed.
Hint Resolve install_groups_served Complete_shared_served : go.
Lemma Complete_run_served o : preserves same_served (Complete_run o).
Proof. unfold Complete_run. go_struct. Qed.
Lemma print_yaml_served w r : preserves same_served (print_yaml w r).
Proof. unfold print_yaml. go_struct. Qed.
Hint Resolve Complete_run_served print_yaml_served : go.
Lemma PrintRawOptions_served o : preserves same_served (PrintRawOptions_run o).
Proof. unfold PrintRawOptions_run, PrintRaw_shared, PrintRaw_run. go_struct. Qed.
Lemma PrintCompletedOptions_served o : preserves same_served (PrintCompletedOptions_run o).
Proof. unfold PrintCompletedOptions_run, PrintCompleted_shared, PrintCompleted_run. go_struct. Qed.
Hint Resolve PrintRawOptions_served PrintCompletedOptions_served : go.

Section served.
Context (Q : gostate * list (outcome unit) -> Prop).

(** All starts of the manager in the run of [m] from [p] satisfy [Q]. *)
Definition all_served {A} (m : P A) (p : process) : Prop := Forall Q (served (m p).2).

Lemma all_served_quiet {A} (m : P A) p : preserves same_served m -> Forall Q (served p) -> all_served m p.
Proof. intros Hm Hp. unfold all_served. by rewrite (Hm p). Qed.

Lemma all_served_bind {A B} (m : P A) (k : A -> P B) p :
  preserves same_served m -> Forall Q (served p) ->
  (forall a p1, m p = (Ret a, p1) -> Forall Q (served p1) -> all_served (k a) p1) -> all_served (bindM m k) p.
Proof.
  intros Hm Hp Hk. specialize (Hm p). unfold all_served, bindM.
  destruct (m p) as [[a|w|] p1] eqn:Hrun; unfold same_served in Hm; simpl in Hm;
    [|simpl; by rewrite Hm..].
  apply (Hk a p1); [done|by rewrite Hm].
Qed.

Lemma all_served_try what c k p :
  Forall Q (served p) ->
  (forall p1, vars p1 = vars p -> Forall Q (served p1) -> all_served k p1) -> all_served (try_fw what c k) p.
Proof.
  intros Hp Hk. unfold try_fw. apply all_served_bind; [apply fw_served|done|].
  intros [e|] p1 Hrun Hp1; unfold fw in Hrun; [by apply all_served_quiet|]. apply Hk; [|done]. by injection Hrun as _ <-.
Qed.

Lemma all_served_add what w k p :
  Forall Q (served p) ->
  (forall p1, vars p1 = vars p -> Forall Q (served p1) -> all_served k p1) -> all_served (add_watcher what w k) p.
Proof. intros Hp Hk. destruct w; simpl; [by apply all_served_try|by apply Hk]. Qed.

Lemma run_manager_served o c p :
  (forall h ctl, Q (vars p, (run_entries (schedule h ctl) (vars p)).1)) -> Forall Q (served p) ->
  all_served (run_manager o c) p.
Proof.
  intros HQ Hp. unfold run_manager. apply all_served_bind; [apply preserves_get, _|done|].
  intros p0 p0' [= <- <-] _. apply all_served_try; [done|]. intros p1 Hv1 Hp1.
  apply all_served_bind; [apply lift_served|done|]. intros ws p2 Hws Hp2.
  assert (vars p2 = vars p) as Hv2.
  { unfold lift, cluster_watches, ProviderName, Environment, bindM, getM, retM, panicM in Hws.
    repeat case_decide; simplify_eq; done. }
  apply all_served_try; [done|]. intros p3 Hv3 Hp3. unfold setup_webhooks.
  assert (forall p4, vars p4 = vars p -> Forall Q (served p4) ->
    all_served (add_watcher "unable to add metrics certificate watcher to manager" (MetricsCertWatcher c)
      (add_watcher "unable to add webhook certificate watcher to manager" (WebhookCertWatcher c)
        (try_fw "unable to set up health check" (AddHealthzCheck "healthz")
          (try_fw "unable to set up ready check" (AddReadyzCheck "readyz")
            (let! err := mgr_Start (NewIPAMConfigController (o_ProviderName (o_Shared o)) true (time_Now (fw_calls p))) in
             retM match err with
                  | Some err => Some (Errorf "problem running manager" (Some (Lib err)))
                  | None => None
                  end))))) p4) as Hrest.
  { intros p4 Hv4 Hp4. apply all_served_add; [done|]. intros p5 Hv5 Hp5.
    apply all_served_add; [done|]. intros p6 Hv6 Hp6. apply all_served_try; [done|]. intros p7 Hv7 Hp7.
    apply all_served_try; [done|]. intros p8 Hv8 Hp8.
    assert (vars p8 = vars p) as Hv by congruence. unfold all_served, mgr_Start, bindM.
    destruct (run_entries _ (vars p8)) as [outs s] eqn:Hrun. simpl. apply Forall_app. split; [done|].
    constructor; [|done]. rewrite Hv in *.
    specialize (HQ (fw_calls p8) (NewIPAMConfigController (o_ProviderName (o_Shared o)) true (time_Now (fw_calls p)))).
    by rewrite Hrun in HQ. }
  destruct (WebhooksDisabled (o_Shared o)); [apply Hrest; congruence || done|].
  apply all_served_try; [done|]. intros p4 Hv4 Hp4. apply all_served_try; [done|]. intros p5 Hv5 Hp5.
  apply Hrest; [congruence|done].
Qed.
End served.

(** *** The run command *)

Lemma Complete_shared_ok o p p1 :
  Complete_shared o p = (Ret None, p1) ->
  o_ProviderName o <> "" /\ o_Environment o <> "" /\
  vars p1 = st_set_names (o_ProviderName o) (o_Environment o) (vars p).
Proof.
  unfold Complete_shared. case_decide; [by intros; go_run|]. intros Hrun.
  apply bindM_Ret_inv in Hrun as ([] & p2 & Henv & Hrun). case_decide; [by go_run|].
  apply bindM_Ret_inv in Hrun as ([] & p3 & Hname & Hrun).
  split_and!; [done..|].
  assert (vars p1 = vars p3) as ->.
  { unfold fw in Hrun. go_run. case_match; go_run; done. }
  unfold lift, SetEnvironment, bindM, getM, modifyM, panicM in Henv.
  repeat case_decide; simplify_eq/=.
  unfold lift, SetProviderName, bindM, getM, modifyM, panicM in Hname.
  repeat case_decide; simplify_eq/=. done.
Qed.

Lemma Complete_run_ok o p c p1 :
  Complete_run o p = (Ret (inl c), p1) ->
  o_ProviderName (o_Shared o) <> "" /\ o_Environment (o_Shared o) <> "" /\
  vars p1 = st_set_names (o_ProviderName (o_Shared o)) (o_Environment (o_Shared o)) (vars p).
Proof.
  unfold Complete_run. intros Hrun. apply bindM_Ret_inv in Hrun as ([e|] & p2 & Hs & Hrun); [by go_run|].
  apply Complete_shared_ok in Hs as (? & ? & <-). split_and!; [done..|].
  case_decide; [by go_run|]. unfold cert_watcher in Hrun.
  repeat (go_run; case_match; try (by go_run)). all: go_run; done.
Qed.

Lemma print_vars o p : vars (PrintRawOptions_run o p).2 = vars p.
Proof.
  unfold PrintRawOptions_run, PrintRaw_shared, PrintRaw_run, print_yaml, Println, bindM, modifyM.
  by repeat (case_match; simplify_eq/=).
Qed.
Lemma print_completed_vars o p : vars (PrintCompletedOptions_run o p).2 = vars p.
Proof.
  unfold PrintCompletedOptions_run, PrintCompleted_shared, PrintCompleted_run, print_yaml, Println, bindM, modifyM.
  by repeat (case_match; simplify_eq/=).
Qed.

Lemma install_groups_vars gs scheme p : vars (install_groups gs scheme p).2 = vars p.
Proof.
  revert scheme. unfold install_groups. induction gs as [|g gs IH]; intros scheme; simpl; [done|].
  unfold bindM. destruct (AddToScheme_group g scheme) as [x|e]; simpl; [apply IH|done].
Qed.

Context {GL : GoIpamLaws} {CL : CtrlUtilsLaws}.

(** The state in which the manager may be started: names and config of the options, an
    instance just restored, the lock free. *)
Definition well_started (o : SharedOptions) (s : gostate) : Prop :=
  exists h cfg s0,
    api_GetConfig h (o_ProviderName o) = inl cfg /\ config s0 = Some cfg /\ restored cfg s0 s /\
    config s = Some cfg /\ providerName s = o_ProviderName o /\ environment s = o_Environment o /\ ready false s.

Lemma restore_well_started o s cfg h s' :
  api_GetConfig h (o_ProviderName o) = inl cfg -> config s = Some cfg -> lock_free s ->
  providerName s = o_ProviderName o -> o_ProviderName o <> "" ->
  environment s = o_Environment o -> o_Environment o <> "" ->
  RestoreIPAMFromClusterState s = (Ret None, s') -> well_started o s'.
Proof.
  intros Hapi Hcfg Hlock Hp Hpn He Hen Hrun.
  pose proof (Restore_restored s cfg s' Hcfg Hrun) as Hr.
  pose proof (Restore_keeps s) as [(_ & Hp' & He') Hi]. pose proof (run_entry_live RestoreState s Hlock) as [_ Hf].
  simpl in Hf. unfold bindM in Hf. rewrite Hrun in *. simpl in *.
  exists h, cfg, s. destruct Hr as (all & ccs & handled & Ha & Hccs & Hh & Hk & Hv). pose proof Hv as (Hc & _).
  split_and!; try done; try congruence.
  - by exists all, ccs, handled.
  - split; [|split; congruence]. destruct Hi as [i Hi]. exists i. split; [done|]. unfold lock_free in Hf. by rewrite Hi in Hf.
Qed.

Lemma Run_served (Q : gostate * list (outcome unit) -> Prop) o c p :
  (forall s h ctl, well_started (o_Shared o) s -> Q (s, (run_entries (schedule h ctl) s).1)) ->
  lock_free (vars p) -> providerName (vars p) = o_ProviderName (o_Shared o) -> o_ProviderName (o_Shared o) <> "" ->
  environment (vars p) = o_Environment (o_Shared o) -> o_Environment (o_Shared o) <> "" ->
  Forall Q (served p) -> all_served Q (Run o c) p.
Proof.
  intros HQ Hlock Hp Hpn He Hen Hs. unfold Run.
  apply all_served_bind; [apply install_groups_served|done|]. intros scheme p1 Hrun Hs1.
  pose proof (install_groups_vars [Foreign ClientGo; IpamV1; Foreign ClustersV1; Foreign ProviderV1; Foreign GardenV1] NewScheme p) as Hv1.
  unfold InstallOperatorAPIsPlatform in Hrun. rewrite Hrun in Hv1. simpl in Hv1. clear Hrun.
  apply all_served_bind; [apply fw_served|done|]. intros [e|] p2 Hrun Hs2; [by apply all_served_quiet; [apply preserves_ret, _|]|].
  assert (vars p2 = vars p) as Hv2 by (injection Hrun as _ <-; done). clear Hrun.
  apply all_served_try; [done|]. intros p3 Hv3 Hs3. rewrite Hv2 in Hv3.
  apply all_served_bind; [apply lift_served|done|]. intros [cfg|e] p4 Hrun Hs4; [|by apply all_served_quiet; [apply preserves_ret, _|]].
  unfold lift, client_GetConfig, request in Hrun. rewrite Hv3 in Hrun. injection Hrun as Hcfg <-. simpl in Hs4.
  apply all_served_bind; [apply lift_served|done|]. intros [] p5 [= <-] Hs5.
  apply all_served_bind; [apply lift_served|done|]. intros [e|] p6 Hrun Hs6; [by apply all_served_quiet; [apply preserves_ret, _|]|].
  unfold lift in Hrun. simpl in Hrun. destruct (RestoreIPAMFromClusterState _) as [r s'] eqn:Hres.
  injection Hrun as -> <-.
  apply run_manager_served; [|done]. intros h ctl. apply HQ. simpl.
  eapply restore_well_started; [exact Hcfg|..|exact Hres]; try done.
Qed.

Lemma dry_run_calls o p :
  DryRun (o_Shared o) = true -> calls (vars (run_command o p).2) = calls (vars p).
Proof.
  intros Hdry. unfold run_command.
  pose proof (print_vars o p) as Hp. unfold bindM at 1. destruct (PrintRawOptions_run o p) as [[[]| |] p1]; simpl in Hp; try (by rewrite <- Hp).
  unfold bindM at 1. rewrite <- Hp. clear p Hp.
  assert (preserves (fun p p' => calls (vars p') = calls (vars p)) (Complete_run (o))) as Hc.
  { assert (PreOrder (fun p p' => calls (vars p') = calls (vars p))) as Hpre.
    { split; [by intros q|]. intros q1 q2 q3. by intros -> ->. }
    assert (forall e, preserves (fun p p' => calls (vars p') = calls (vars p)) (lift (SetEnvironment e))) as He.
    { intros e q. unfold lift, SetEnvironment, bindM, getM, modifyM, panicM. by repeat case_decide. }
    assert (forall e, preserves (fun p p' => calls (vars p') = calls (vars p)) (lift (SetProviderName e))) as Hn.
    { intros e q. unfold lift, SetProviderName, bindM, getM, modifyM, panicM. by repeat case_decide. }
    assert (forall c, preserves (fun p p' => calls (vars p') = calls (vars p)) (fw c)) as Hf by (by intros c q).
    assert (forall d n k, preserves (fun p p' => calls (vars p') = calls (vars p)) (cert_watcher d n k)) as Hw
      by (by intros d n k q).
    unfold Complete_run, Complete_shared. go_struct. }
  specialize (Hc p1). destruct (Complete_run o p1) as [[[c|e]| |] p2]; try done. rewrite Hdry.
  pose proof (print_completed_vars o p2) as Hp. unfold bindM at 1.
  destruct (PrintCompletedOptions_run o p2) as [[[]| |] p3]; simpl in *; congruence.
Qed.

(** The "run" command starts the manager only in a proper state ([well_started]) and not in a
    dry run, which sends no request at all. If the API server's objects are well formed,
    every call the manager then makes, in whatever order, returns. *)
Lemma run_command_serves o :
  let p := (run_command o fresh_process).2 in
  Forall (fun started =>
      DryRun (o_Shared o) = false /\ well_started (o_Shared o) started.1 /\
      (GoodApi -> (forall h c, Forall good_entry (schedule h c)) -> Forall (fun out => out = Ret tt) started.2))
    (served p) /\
  (DryRun (o_Shared o) = true -> calls (vars p) = []).
Proof.
  split; [|intros Hdry; by rewrite dry_run_calls].
  set (Q := fun started : gostate * list (outcome unit) => _).
  change (all_served Q (run_command o) fresh_process). unfold run_command.
  apply all_served_bind; [apply PrintRawOptions_served|constructor|]. intros [] p1 Hrun Hs1.
  pose proof (print_vars o fresh_process) as Hv1. rewrite Hrun in Hv1. simpl in Hv1. clear Hrun.
  apply all_served_bind; [apply Complete_run_served|done|]. intros [c|e] p2 Hrun Hs2;
    [|apply all_served_quiet; [apply preserves_panic, _|done]].
  apply Complete_run_ok in Hrun as (Hpn & Hen & Hv2). rewrite Hv1 in Hv2.
  apply all_served_bind; [apply PrintCompletedOptions_served|done|]. intros [] p3 Hrun Hs3.
  pose proof (print_completed_vars o p2) as Hv3. rewrite Hrun, Hv2 in Hv3. simpl in Hv3. clear Hrun.
  destruct (DryRun (o_Shared o)) eqn:Hdry; [by apply all_served_quiet; [apply Println_served|]|].
  assert (all_served Q (Run o c) p3) as Hserved.
  { apply Run_served; rewrite ?Hv3; try done. intros s h ctl Hs. unfold Q. simpl. split_and!; [done|done|].
    intros Hgood Hsch. destruct Hs as (? & ? & ? & _ & _ & _ & _ & _ & _ & Hready).
    destruct (run_entries_return (schedule h ctl) s (Hsch h ctl) Hready) as [-> _].
    apply Forall_fmap, Forall_true. done. }
  unfold all_served, bindM in *. by destruct (Run o c p3) as [[[e|]| |] p4].
Qed.
End startup.
