(* ===== verification/Commands.v ===== *)
(** * The command line: main.go, app/app.go, the constructors and flags of "run" and "init"

    The flag sets and the subcommands of cobra: which flags exist, with which defaults and
    variables, and what each subcommand does with the options. Reading the arguments is
    the class [Cobra]. *)

From stdpp Require Import base list strings gmap.
From S2P Require Import Prelude GoStd Types Externals Runtime Utils Restore RestoreState ConfigController Events ClusterMutation System Returns Progress Startup.
Open Scope list_scope.
Open Scope Z_scope.

(** ** Flags *)

Inductive flag_value : Type := SVal (s : string) | BVal (b : bool).

(** A flag of a pflag.FlagSet that writes to options of type [O]. *)
Record flag (O : Type) : Type := {
  f_name : string;
  f_value : flag_value;
  f_set : flag_value -> O -> O }.
Arguments f_name {_} _.
Arguments f_value {_} _.
Arguments f_set {_} _ _ _.

Definition StringVar {O} (p : string -> O -> O) (name value : string) : flag O :=
  {| f_name := name; f_value := SVal value; f_set := fun v o => match v with SVal s => p s o | BVal _ => o end |}.
Definition BoolVar {O} (p : bool -> O -> O) (name : string) (value : bool) : flag O :=
  {| f_name := name; f_value := BVal value; f_set := fun v o => match v with BVal b => p b o | SVal _ => o end |}.

(** Registering a flag writes its default to the variable. *)
Definition register {O} (fs : list (flag O)) (o : O) : O := foldl (fun o f => f_set f (f_value f) o) o fs.

(** One flag given on the command line, then all of them in order. *)
Definition give {O} (fs : list (flag O)) (o : O) (arg : string * flag_value) : O :=
  foldl (fun o f => if decide (f_name f = arg.1) then f_set f arg.2 o else o) o fs.
Definition give_all {O} (fs : list (flag O)) (args : list (string * flag_value)) (o : O) : O := foldl (give fs) o args.

(** *** SharedOptions *)

Definition zero_SharedOptions : SharedOptions :=
  {| o_Environment := ""; o_ProviderName := ""; DryRun := false; WebhooksDisabled := false |}.

Definition AddPersistentFlags : list (flag SharedOptions) :=
  [StringVar (fun s o => {| o_Environment := s; o_ProviderName := o_ProviderName o; DryRun := DryRun o;
                            WebhooksDisabled := WebhooksDisabled o |}) "environment" "";
   StringVar (fun s o => {| o_Environment := o_Environment o; o_ProviderName := s; DryRun := DryRun o;
                            WebhooksDisabled := WebhooksDisabled o |}) "provider-name" "";
   BoolVar (fun b o => {| o_Environment := o_Environment o; o_ProviderName := o_ProviderName o; DryRun := b;
                          WebhooksDisabled := WebhooksDisabled o |}) "dry-run" false;
   BoolVar (fun b o => {| o_Environment := o_Environment o; o_ProviderName := o_ProviderName o; DryRun := DryRun o;
                          WebhooksDisabled := b |}) "disable-webhooks" false].

(** *** RawRunOptions *)

Definition zero_RawRunOptions : RawRunOptions :=
  {| MetricsAddr := ""; MetricsCertPath := ""; MetricsCertName := ""; MetricsCertKey := "";
     WebhookCertPath := ""; WebhookCertName := ""; WebhookCertKey := "";
     EnableLeaderElection := false; ProbeAddr := ""; PprofAddr := "";
     SecureMetrics := false; EnableHTTP2 := false |}.

(** The fields as a list, to write one of them. *)
Definition raw_strings (o : RawRunOptions) : list string :=
  [MetricsAddr o; MetricsCertPath o; MetricsCertName o; MetricsCertKey o;
   WebhookCertPath o; WebhookCertName o; WebhookCertKey o; ProbeAddr o; PprofAddr o].
Definition raw_bools (o : RawRunOptions) : list bool := [EnableLeaderElection o; SecureMetrics o; EnableHTTP2 o].
Definition raw_of (ss : list string) (bs : list bool) : RawRunOptions :=
  let s i := nth i ss "" in let b i := nth i bs false in
  {| MetricsAddr := s 0%nat; MetricsCertPath := s 1%nat; MetricsCertName := s 2%nat; MetricsCertKey := s 3%nat;
     WebhookCertPath := s 4%nat; WebhookCertName := s 5%nat; WebhookCertKey := s 6%nat;
     EnableLeaderElection := b 0%nat; ProbeAddr := s 7%nat; PprofAddr := s 8%nat;
     SecureMetrics := b 1%nat; EnableHTTP2 := b 2%nat |}.
Definition raw_set_string (i : nat) (v : string) (o : RawRunOptions) : RawRunOptions :=
  raw_of (<[i := v]> (raw_strings o)) (raw_bools o).
Definition raw_set_bool (i : nat) (v : bool) (o : RawRunOptions) : RawRunOptions :=
  raw_of (raw_strings o) (<[i := v]> (raw_bools o)).

Definition AddFlags_run : list (flag RawRunOptions) :=
  [StringVar (raw_set_string 0) "metrics-bind-address" "0";
   StringVar (raw_set_string 7) "health-probe-bind-address" ":8081";
   StringVar (raw_set_string 8) "pprof-bind-address" "";
   BoolVar (raw_set_bool 0) "leader-elect" false;
   BoolVar (raw_set_bool 1) "metrics-secure" true;
   StringVar (raw_set_string 4) "webhook-cert-path" "";
   StringVar (raw_set_string 5) "webhook-cert-name" "tls.crt";
   StringVar (raw_set_string 6) "webhook-cert-key" "tls.key";
   StringVar (raw_set_string 1) "metrics-cert-path" "";
   StringVar (raw_set_string 2) "metrics-cert-name" "tls.crt";
   StringVar (raw_set_string 3) "metrics-cert-key" "tls.key";
   BoolVar (raw_set_bool 2) "enable-http2" false].

Definition AddFlags_init : list (flag SharedOptions) := [].

(** The defaults that [Startup] lists are those of the flags. *)
Example defaults_registered :
  register AddPersistentFlags zero_SharedOptions = default_SharedOptions /\
  register AddFlags_run zero_RawRunOptions = default_RawRunOptions.
Proof. done. Qed.

Lemma raw_of_fields o : raw_of (raw_strings o) (raw_bools o) = o.
Proof. by destruct o. Qed.

(** The options of a subcommand for the flags given to it. *)
Definition shared_options (args : list (string * flag_value)) : SharedOptions :=
  give_all (AddPersistentFlags ++ AddFlags_init) args (register AddPersistentFlags zero_SharedOptions).
Definition run_options (args : list (string * flag_value)) : RunOptions :=
  {| o_Shared := give_all AddPersistentFlags args (register AddPersistentFlags zero_SharedOptions);
     o_Raw := give_all AddFlags_run args (register AddFlags_run zero_RawRunOptions) |}.

Section commands.
Context {OM : OpenMCP} {GI : GoIpam} {KA : K8sApi} {CU : CtrlUtils} {GO : GoMapOrder}.
Context {CP : CtrlPredicates} {FT : FrameworkTypes} {FW : Framework}.

(** ** Commands *)

Record command : Type := {
  Use : string;
  Short : string;
  local_flags : list string;
  command_Run : list (string * flag_value) -> P unit }.

(** pflag panics when a flag set gets a name twice. *)
Definition new_flags (names : list string) : P unit :=
  if decide (NoDup names) then retM tt else panicM "flag redefined".

Definition NewInitCommand : P command :=
  new_flags (f_name <$> AddFlags_init) ;;;
  retM {| Use := "init"; Short := "Initialize Platform Service Gardener-IPAM";
          local_flags := f_name <$> AddFlags_init;
          command_Run := fun args => init_command (shared_options args) |}.

Definition NewRunCommand : P command :=
  new_flags (f_name <$> AddFlags_run) ;;;
  retM {| Use := "run"; Short := "Run the Platform Service Gardener-IPAM";
          local_flags := f_name <$> AddFlags_run;
          command_Run := fun args => run_command (run_options args) |}.

(** What cobra and the packages that register flags of their own do. *)
Class Cobra : Type := {
  logging_flags : list string;
  config_path_flag : string;
  (** the arguments of the process, read with the persistent flags and the subcommands:
      a usage error, nothing to run (help), or a subcommand and the flags given *)
  cobra_parse : list string -> list command -> (option (command * list (string * flag_value)) + exterr);
  fips_Verify : outcome unit }.
Context {CO : Cobra}.

(** Only a subcommand that was added. *)
Class CobraLaws : Prop :=
  cobra_parse_command names cmds cmd args : cobra_parse names cmds = inl (Some (cmd, args)) -> cmd ∈ cmds.

Definition persistent_flags : list string :=
  logging_flags ++ [config_path_flag] ++ (f_name <$> AddPersistentFlags).

Definition NewPlatformServiceGardenerIPAMCommand : P (list command) :=
  new_flags persistent_flags ;;;
  let! init := NewInitCommand in
  let! run := NewRunCommand in
  retM [init; run].

(** cmd.Execute() *)
Definition Execute (cmds : list command) : P (option exterr) :=
  match cobra_parse persistent_flags cmds with
  | inr err => retM (Some err)
  | inl None => retM None
  | inl (Some (cmd, args)) => command_Run cmd args ;;; retM None
  end.

(** The exit code. *)
Definition main : P Z :=
  (fun p => (fips_Verify, p)) ;;;
  let! cmds := NewPlatformServiceGardenerIPAMCommand in
  let! err := Execute cmds in
  match err with
  | Some err => Println (err_msg err) ;;; retM 1
  | None => retM 0
  end.

(** ** Theorems *)

(** What a flag is in the end: the last value given, or the default. *)
Definition given {V} (get : flag_value -> V -> V) (name : string) (d : V) (args : list (string * flag_value)) : V :=
  foldl (fun v arg => if decide (name = arg.1) then get arg.2 v else v) d args.
Definition given_string : string -> string -> list (string * flag_value) -> string :=
  given (fun v d => match v with SVal s => s | BVal _ => d end).
Definition given_bool : string -> bool -> list (string * flag_value) -> bool :=
  given (fun v d => match v with BVal b => b | SVal _ => d end).

Lemma given_snoc {V} (get : flag_value -> V -> V) name d args arg :
  given get name d (args ++ [arg]) =
  if decide (name = arg.1) then get arg.2 (given get name d args) else given get name d args.
Proof. unfold given. by rewrite foldl_app. Qed.

Lemma give_all_snoc {O} (fs : list (flag O)) args arg o : give_all fs (args ++ [arg]) o = give fs (give_all fs args o) arg.
Proof. unfold give_all. by rewrite foldl_app. Qed.

Lemma give_unknown {O} (fs : list (flag O)) o arg : arg.1 ∉ f_name <$> fs -> give fs o arg = o.
Proof.
  unfold give. revert o. induction fs as [|f fs IH]; intros o Hn; [done|]. rewrite fmap_cons in Hn.
  apply not_elem_of_cons in Hn as [Hf Hn]. simpl. rewrite decide_False by done. by apply IH.
Qed.

(** Whether the last flag given is the one of the name, is decided for each name in turn. *)
Ltac flag_case arg fs :=
  destruct (decide (arg.1 ∈ f_name <$> fs)) as [Hin|Hni];
  [destruct arg as [name v]; simpl in Hin;
   repeat match goal with |- context [given ?g ?n ?d ?l] => generalize (given g n d l); intros ? end;
   repeat (apply elem_of_cons in Hin as [->|Hin]; [destruct v; vm_compute; reflexivity|]);
   by apply elem_of_nil in Hin
  |rewrite give_unknown by done; simpl in Hni;
   repeat (apply not_elem_of_cons in Hni as [? Hni]); by rewrite !decide_False by done].

Lemma shared_given args :
  give_all AddPersistentFlags args (register AddPersistentFlags zero_SharedOptions) =
  {| o_Environment := given_string "environment" "" args; o_ProviderName := given_string "provider-name" "" args;
     DryRun := given_bool "dry-run" false args; WebhooksDisabled := given_bool "disable-webhooks" false args |}.
Proof.
  induction args as [|arg args IH] using rev_ind; [done|]. rewrite give_all_snoc, IH.
  unfold given_string, given_bool. rewrite !given_snoc. flag_case arg AddPersistentFlags.
Qed.

Lemma raw_given args :
  give_all AddFlags_run args (register AddFlags_run zero_RawRunOptions) =
  {| MetricsAddr := given_string "metrics-bind-address" "0" args;
     MetricsCertPath := given_string "metrics-cert-path" "" args;
     MetricsCertName := given_string "metrics-cert-name" "tls.crt" args;
     MetricsCertKey := given_string "metrics-cert-key" "tls.key" args;
     WebhookCertPath := given_string "webhook-cert-path" "" args;
     WebhookCertName := given_string "webhook-cert-name" "tls.crt" args;
     WebhookCertKey := given_string "webhook-cert-key" "tls.key" args;
     EnableLeaderElection := given_bool "leader-elect" false args;
     ProbeAddr := given_string "health-probe-bind-address" ":8081" args;
     PprofAddr := given_string "pprof-bind-address" "" args;
     SecureMetrics := given_bool "metrics-secure" true args;
     EnableHTTP2 := given_bool "enable-http2" false args |}.
Proof.
  induction args as [|arg args IH] using rev_ind; [done|]. rewrite give_all_snoc, IH.
  unfold given_string, given_bool. rewrite !given_snoc. flag_case arg AddFlags_run.
Qed.

Lemma run_options_given args :
  o_Environment (o_Shared (run_options args)) = given_string "environment" "" args /\
  o_ProviderName (o_Shared (run_options args)) = given_string "provider-name" "" args /\
  DryRun (o_Shared (run_options args)) = given_bool "dry-run" false args /\
  EnableLeaderElection (o_Raw (run_options args)) = given_bool "leader-elect" false args.
Proof. unfold run_options. cbn [o_Shared o_Raw]. by rewrite shared_given, raw_given. Qed.

(** *** init starts no manager *)

Hint Resolve lift_served fw_served Println_served install_groups_served Complete_shared_served print_yaml_served : go.

Lemma init_command_served o : preserves same_served (init_command o).
Proof.
  unfold init_command, Complete_init, PrintRawOptions_init, PrintRaw_shared, PrintCompletedOptions_init, PrintCompleted_shared, Run_init,
    InstallCRDAPIs, InstallOperatorAPIsPlatform, try_fw. go_struct.
Qed.

Lemma new_flags_same names p r p' : new_flags names p = (Ret r, p') -> p' = p.
Proof. unfold new_flags. case_decide; [by intros [= _ <-]|done]. Qed.

Lemma commands_built p cmds p' :
  NewPlatformServiceGardenerIPAMCommand p = (Ret cmds, p') ->
  p' = p /\ exists init run, cmds = [init; run] /\
    Use init = "init" /\ (forall args, command_Run init args = init_command (shared_options args)) /\
    Use run = "run" /\ (forall args, command_Run run args = run_command (run_options args)).
Proof.
  unfold NewPlatformServiceGardenerIPAMCommand, NewInitCommand, NewRunCommand. intros Hrun.
  apply bindM_Ret_inv in Hrun as ([] & p1 & ->%new_flags_same & Hrun).
  apply bindM_Ret_inv in Hrun as (init & p2 & Hi & Hrun).
  apply bindM_Ret_inv in Hi as ([] & p3 & ->%new_flags_same & [= <- <-]).
  apply bindM_Ret_inv in Hrun as (run & p4 & Hr & [= <- <-]).
  apply bindM_Ret_inv in Hr as ([] & p5 & ->%new_flags_same & [= <- <-]).
  split; [done|]. by eexists _, _.
Qed.

(** The flag sets have no name twice, so building the commands does not panic. *)
Lemma commands_return p :
  NoDup (logging_flags ++ [config_path_flag]) ->
  (forall n, n ∈ logging_flags ++ [config_path_flag] -> n ∉ f_name <$> AddPersistentFlags) ->
  exists cmds, NewPlatformServiceGardenerIPAMCommand p = (Ret cmds, p) /\ Use <$> cmds = ["init"; "run"].
Proof.
  intros Hn Hf.
  assert (NoDup persistent_flags) as Hp.
  { unfold persistent_flags. rewrite app_assoc. apply NoDup_app. split_and!; [done|done|].
    apply (bool_decide_unpack _). vm_compute. exact I. }
  unfold NewPlatformServiceGardenerIPAMCommand, new_flags. rewrite decide_True by done. by eexists.
Qed.

(** Both parts of a bind keep to [Q]. *)
Lemma bind_served {A B} (Q : gostate * list (outcome unit) -> Prop) (m : P A) (k : A -> P B) p :
  all_served Q m p -> (forall a p1, m p = (Ret a, p1) -> Forall Q (served p1) -> all_served Q (k a) p1) ->
  all_served Q (bindM m k) p.
Proof.
  unfold all_served, bindM. intros Hm Hk. destruct (m p) as [[a|w|] p1]; [|done..]. by apply Hk.
Qed.

Context {GL : GoIpamLaws} {CL : CtrlUtilsLaws}.

End commands.
