(* ===== verification/Sim.v ===== *)
(** * An executable environment

    One implementation of every interface the components are proved against, with the
    proofs of its laws: so the laws can hold together, and the theorems can be applied to
    concrete runs. The instances are plain definitions; who wants them as instances
    declares them. *)

From stdpp Require Import base list strings gmap pretty.
From S2P Require Import Prelude GoStd GoJson Types Externals Runtime.
Open Scope list_scope.
Open Scope Z_scope.

(** ** Iteration order *)

Definition sim_order : GoMapOrder.
Proof. refine {| range := fun V m => map_to_list m |}. done. Defined.

(** Another order of the same entries. *)
Definition sim_order_rev : GoMapOrder.
Proof. refine {| range := fun V m => rev (map_to_list m) |}. intros V m. symmetry. apply Permutation_rev. Defined.

(** ** The openmcp packages: a selector is a cluster's name, or empty *)

Definition sim_openmcp : OpenMCP := {|
  Selector := option string;
  Selector_Matches := fun sel cl =>
    match sel with None => true | Some n => bool_decide (Name (cl_meta cl) = n) end;
  Selector_Validate := fun sel =>
    match sel with
    | Some n => if decide (n = "") then Some (ErrOther "empty selector") else None
    | None => None
    end;
  GardenGroupName := "gardener.openmcp.cloud";
  ClustersGroupVersion := "clusters.openmcp.cloud/v1alpha1";
  ManagedByLabel := "openmcp.cloud/managed-by";
  ManagedPurposeLabel := "openmcp.cloud/managed-purpose";
  EnvironmentLabel := "openmcp.cloud/environment";
  OperationAnnotation := "openmcp.cloud/operation";
  OperationAnnotationValueIgnore := "ignore";
  OperationAnnotationValueReconcile := "reconcile";
  ADD := "add" |}.

Definition sim_openmcp_laws : @OpenMCPLaws sim_openmcp.
Proof.
  split; [done|]. apply (bool_decide_unpack _). by vm_compute.
Defined.

(** ** The IPAM: hierarchical names, such as 10.1.2/24 inside 10.1/16 *)

(** A known prefix and the prefix it was sliced from. *)
Notation sim_reg := (gmap string (option (gmap string string))).

Definition sim_parent (v : option (gmap string string)) : option string :=
  v ≫= fun m => m !! "parent".
Definition sim_child (c : string) : option (gmap string string) := Some {[ "parent" := c ]}.

Definition net (c : string) : string :=
  match strings_Split c slash with n :: _ => n | [] => "" end.

(** The first free name of the size inside the parent. *)
Fixpoint free_child (c : string) (n : Z) (x : sim_reg) (k : nat) : option string :=
  match k with
  | O => None
  | S k' =>
      match free_child c n x k' with
      | Some d => Some d
      | None =>
          let d := net c +:+ "." +:+ pretty k' +:+ "/" +:+ pretty n in
          if decide (x !! d = None /\ cidr_size d = Some n /\ valid_utf8 d = true /\ Forall (fun kv => net kv.1 <> net d) (map_to_list x))
          then Some d else None
      end
  end.

Definition sim_find (c : string) (x : sim_reg) : sim_reg * (string + exterr) :=
  (x, if decide (is_Some (x !! c)) then inl c else inr (ErrNotFound "prefix not found")).

Definition sim_add (c : string) (v : option (gmap string string)) (x : sim_reg) : sim_reg * (string + exterr) :=
  if decide (is_Some (cidr_size c)) then (<[c := v]> x, inl c) else (x, inr (ErrOther "invalid prefix")).

Definition sim_acquire (c : string) (n : Z) (x : sim_reg) : sim_reg * (string + exterr) :=
  if decide (is_Some (x !! c)) then
    match free_child c n x 8 with
    | Some d => (<[d := sim_child c]> x, inl d)
    | None => (x, inr (ErrOther "no free child"))
    end
  else (x, inr (ErrNotFound "prefix not found")).

Definition sim_acquire_specific (c d : string) (x : sim_reg) : sim_reg * (string + exterr) :=
  if decide (is_Some (x !! c) /\ x !! d = None) then (<[d := sim_child c]> x, inl d)
  else (x, inr (ErrOther "not available")).

Definition sim_releasable (x : sim_reg) (c : string) : bool :=
  match x !! c with
  | Some v => match sim_parent v with Some p => bool_decide (is_Some (x !! p)) | None => false end
  | None => false
  end.

Definition sim_release (c : string) (x : sim_reg) : sim_reg * option exterr :=
  if sim_releasable x c then (delete c x, None) else (x, Some (ErrOther "not a child prefix")).

Definition sim_overlap (as' bs : list string) : option exterr :=
  if existsb (fun a => existsb (fun b =>
       String.prefix (net a +:+ ".") (net b +:+ ".") || String.prefix (net b +:+ ".") (net a +:+ ".")) bs) as'
  then Some (ErrOther "prefix overlaps another") else None.

Definition sim_dump (x : sim_reg) : sim_reg * (string + exterr) :=
  let d := json_Marshal_map2 x in
  (x, if decide (json_Unmarshal_map2 d = Some x) then inl d else inr (ErrOther "cannot be dumped")).

Definition sim_load (d : string) (x : sim_reg) : sim_reg * option exterr :=
  match json_Unmarshal_map2 d with Some y => (y, None) | None => (x, Some (ErrOther "malformed dump")) end.

Definition sim_ipam : GoIpam := {|
  ipamS := sim_reg;
  Prefix := string;
  IP := string;
  pCidr := fun p => p;
  ipam_New := ∅;
  ipam_PrefixFrom := sim_find;
  ipam_NewPrefix := fun c => sim_add c None;
  ipam_DeletePrefix := fun c x => (delete c x, inl c);
  ipam_AcquireChildPrefix := sim_acquire;
  ipam_AcquireSpecificChildPrefix := sim_acquire_specific;
  ipam_ReleaseChildPrefix := sim_release;
  ipam_AcquireIP := fun c x => (x, inr (ErrOther "no addresses"));
  ipam_AcquireSpecificIP := fun c i x => (x, inr (ErrOther "no addresses"));
  ipam_ReleaseIP := fun i x => (x, inr (ErrOther "no addresses"));
  ipam_ReleaseIPFromPrefix := fun c i x => (x, Some (ErrOther "no addresses"));
  ipam_Dump := sim_dump;
  ipam_Load := sim_load;
  ipam_ReadAllPrefixCidrs := fun x => (x, inl (map_to_list x).*1);
  ipam_CreateNamespace := fun n x => (x, Some (ErrOther "no namespaces"));
  ipam_DeleteNamespace := fun n x => (x, Some (ErrOther "no namespaces"));
  ipam_ListNamespaces := fun x => (x, inl []);
  PrefixesOverlapping := sim_overlap |}.

Definition sim_view : @IpamView sim_ipam :=
  @Build_IpamView sim_ipam
    (fun x : sim_reg => dom x)
    (fun x : sim_reg => filter (fun c => sim_releasable x c = true) (dom x))
    (fun (x : sim_reg) c => dom (filter (fun kv => sim_parent kv.2 = Some c) x))
    (fun c => c).

Lemma free_child_ok c n x k d : free_child c n x k = Some d -> x !! d = None /\ cidr_size d = Some n /\ valid_utf8 d = true.
Proof.
  induction k as [|k IH]; simpl; [done|]. destruct (free_child c n x k); [auto|].
  case_decide; [|done]. intros [= <-]. naive_solver.
Qed.

Lemma sim_releasable_insert x c d v :
  x !! d = None -> sim_releasable x c = true -> sim_releasable (<[d := v]> x) c = true.
Proof.
  unfold sim_releasable. intros Hd Hr. rewrite lookup_insert_ne by (intros ->; by rewrite Hd in Hr).
  destruct (x !! c) as [w|]; [|done]. destruct (sim_parent w) as [p|]; [|done].
  apply bool_decide_eq_true in Hr. apply bool_decide_eq_true.
  apply lookup_insert_is_Some'. by right.
Qed.

Lemma sim_releasable_new x c d :
  x !! d = None -> is_Some (x !! c) -> sim_releasable (<[d := sim_child c]> x) d = true.
Proof.
  intros Hd Hc. unfold sim_releasable. rewrite lookup_insert_eq. simpl. rewrite lookup_singleton_eq.
  apply bool_decide_eq_true. apply lookup_insert_is_Some'. by right.
Qed.

Lemma sim_slices_insert x c d v e :
  x !! d = None ->
  e ∈ dom (filter (fun kv => sim_parent kv.2 = Some c) (<[d := v]> x : sim_reg)) ->
  e ∈ dom (filter (fun kv => sim_parent kv.2 = Some c) x) \/ (e = d /\ sim_parent v = Some c).
Proof.
  intros Hd He. apply elem_of_dom in He as [w Hw]. apply map_lookup_filter_Some in Hw as [Hw Hp].
  destruct (decide (d = e)) as [->|Hne].
  - rewrite lookup_insert_eq in Hw. right. by simplify_eq.
  - rewrite lookup_insert_ne in Hw by done. left. apply elem_of_dom. exists w.
    by apply map_lookup_filter_Some.
Qed.

Lemma sim_release_children x c e :
  sim_releasable x e = true -> e <> c ->
  e ∉ dom (filter (fun kv => sim_parent kv.2 = Some c) x) -> sim_releasable (delete c x) e = true.
Proof.
  unfold sim_releasable. intros Hr Hne Hs. rewrite lookup_delete_ne by done.
  destruct (x !! e) as [w|] eqn:He; [|done]. destruct (sim_parent w) as [p|] eqn:Hp; [|done].
  apply bool_decide_eq_true in Hr. apply bool_decide_eq_true. rewrite lookup_delete_ne; [done|].
  intros ->. apply Hs, elem_of_dom. exists w. by apply map_lookup_filter_Some.
Qed.

Lemma sim_slices_delete x c d e :
  e ∈ dom (filter (fun kv => sim_parent kv.2 = Some d) (delete c x : sim_reg)) ->
  e ∈ dom (filter (fun kv => sim_parent kv.2 = Some d) x).
Proof.
  intros [w [Hw Hp]%map_lookup_filter_Some]%elem_of_dom. apply lookup_delete_Some in Hw as [_ Hw].
  apply elem_of_dom. exists w. by apply map_lookup_filter_Some.
Qed.

Lemma sim_same x : @same_view sim_ipam sim_view x x.
Proof. by unfold same_view. Qed.

Definition sim_ipam_laws : @GoIpamLaws sim_ipam.
Proof.
  apply (@Build_GoIpamLaws sim_ipam sim_view); simpl; try done.
  - intros s c e [w [Hw _]%map_lookup_filter_Some]%elem_of_dom. by apply elem_of_dom_2 in Hw.
  - intros c s p. unfold sim_find. simpl. case_decide as H; [|done]. intros [= <-].
    split; [done|]. by apply elem_of_dom.
  - intros c s Hc%elem_of_dom. unfold sim_find. simpl. rewrite decide_True by done. by eexists.
  - unfold sim_add. intros c s s' p. case_decide; [|done]. intros [= <- <-].
    split; [done|]. by rewrite dom_insert_L.
  - unfold sim_add. intros c s s' e. case_decide; [done|]. intros [= <- _]. apply sim_same.
  - unfold sim_acquire. intros c n s s' p. case_decide as Hc; [|done].
    destruct (free_child c n s 8) as [d|] eqn:Hf; [|done]. intros [= <- <-].
    apply free_child_ok in Hf as (Hd & Hn & _). split_and!; [by apply not_elem_of_dom|done|done|by rewrite dom_insert_L| |].
    + intros e. rewrite elem_of_union, elem_of_singleton, !elem_of_filter, dom_insert_L, elem_of_union, elem_of_singleton.
      intros [->|[Hr He]].
      * split; [by apply sim_releasable_new|by left].
      * split; [by apply sim_releasable_insert|by right].
    + intros e d' Hin%sim_slices_insert; [|done]. destruct Hin as [?|[-> Hp]]; apply elem_of_union; [by left|].
      right. unfold sim_parent, sim_child in Hp. simpl in Hp. rewrite lookup_singleton_eq in Hp.
      injection Hp as ->. rewrite decide_True by done. by apply elem_of_singleton.
  - unfold sim_acquire. intros c n s s' e. case_decide; [|intros [= <- _]; apply sim_same].
    destruct (free_child c n s 8); [done|]. intros [= <- _]. apply sim_same.
  - unfold sim_acquire_specific. intros c d s s' p. case_decide; [|done]. intros [= <- <-].
    split; [done|]. by rewrite dom_insert_L.
  - unfold sim_acquire_specific. intros c d s s' e. case_decide; [done|]. intros [= <- _]. apply sim_same.
  - unfold sim_release. intros p s s'. destruct (sim_releasable s p); [|done]. intros [= <-].
    split_and!; [by rewrite dom_delete_L| |].
    + intros e. rewrite elem_of_difference, elem_of_union, elem_of_singleton, !elem_of_filter, dom_delete_L,
        elem_of_difference, elem_of_singleton.
      intros [[Hr He] Hn]. split_and!; [apply sim_release_children; naive_solver|done|naive_solver].
    + intros c e. apply sim_slices_delete.
  - unfold sim_release. intros p s s' e. destruct (sim_releasable s p); [done|]. intros [= <- _]. apply sim_same.
  - unfold sim_release. intros p s [Hp _]%elem_of_filter. by rewrite Hp.
  - unfold sim_dump, sim_load. simpl. intros s d s'. case_decide as Hd; [|done]. intros [= <-].
    rewrite Hd. intros [= <-]. apply sim_same.
Defined.

(** ** controller-utils *)

Definition sim_utils : CtrlUtils := {|
  ConvertPath := fun p => if decide (p = "") then inr (ErrOther "empty path") else inl p;
  ShortenToXCharacters := fun s n =>
    if decide (Z.of_nat (String.length s) <= n) then inl s
    else if decide (0 <= n) then inl (String.substring 0 (Z.to_nat n) s)
    else inr (ErrOther "negative length");
  K8sMaxNameLength := 63;
  AddFinalizer := fun fs f => if decide (f ∈ fs) then (fs, false) else (fs ++ [f], true);
  RemoveFinalizer := fun fs f => (filter (fun g => g <> f) fs, bool_decide (f ∈ fs));
  AggregateMap := fun V A m f a => foldl (fun acc kv => f kv.1 kv.2 acc) a (map_to_list m);
  ProjectSliceToSlice := fun A B l f => f <$> l;
  ProjectSliceToMap := fun A V l f => foldl (fun m kv => <[kv.1 := kv.2]> m) ∅ (f <$> l);
  ProjectMapToMap := fun V W m f =>
    foldl (fun acc kv => <[(f kv.1 kv.2).1 := (f kv.1 kv.2).2]> acc) ∅ (map_to_list m) |}.

Lemma substring_length s n : (String.length (String.substring 0 n s) <= n)%nat.
Proof.
  revert n. induction s as [|c s IH]; intros [|n]; simpl; try lia. specialize (IH n). lia.
Qed.

Definition sim_utils_laws : @CtrlUtilsLaws sim_utils.
Proof.
  split; simpl.
  - intros s n Hn. by rewrite decide_True.
  - intros s n s'. case_decide; [by intros [= <-]|]. case_decide; [|done]. intros [= <-].
    pose proof (substring_length s (Z.to_nat n)). lia.
  - intros fs f Hf. by rewrite decide_False.
  - intros fs f Hf. by rewrite decide_True.
  - intros fs f [? _]%list_elem_of_filter. done.
  - intros fs f g Hg. rewrite list_elem_of_filter. naive_solver.
  - done.
  - intros fs f Hf. induction fs as [|g fs IH]; [done|]. apply not_elem_of_cons in Hf as [Hg Hf].
    rewrite filter_cons, decide_True by done. by rewrite IH.
  - intros V A m f a. by exists (map_to_list m).
  - done.
  - intros A V l f k v Hk. apply foldl_insert_some in Hk as [([k' v'] & Hin & <- & <-)|[Hk _]]; [done|].
    by rewrite lookup_empty in Hk.
  - intros A V l f k Hk. by apply foldl_insert_is_some.
  - intros V W m g. apply map_eq. intros k. rewrite map_lookup_imap.
    destruct (m !! k) as [v|] eqn:Hm; simpl.
    + apply (foldl_insert_in fst (fun kv => g kv.1 kv.2) (map_to_list m) ∅ (k, v)).
      * apply NoDup_fst_map_to_list.
      * by apply elem_of_map_to_list.
    + rewrite (foldl_insert_notin fst (fun kv => g kv.1 kv.2)); [by rewrite lookup_empty|].
      intros ([k' v] & -> & Hin)%list_elem_of_fmap. apply elem_of_map_to_list in Hin. simpl in Hm. congruence.
Defined.

(** ** The API server *)

Section server.
Notation cluster := Cluster.

(** What the server stores. *)
Record store : Type := {
  st_clusters : list cluster;
  st_ccs : list ClusterConfig;
  st_cfgs : list (@IPAMConfig sim_openmcp) }.

Definition same_key (ns name : string) (m : ObjectMeta) : bool :=
  bool_decide (Namespace m = ns) && bool_decide (Name m = name).

Definition find_cc (st : store) (ns name : string) : option ClusterConfig :=
  List.find (fun cc => same_key ns name (cc_meta cc)) (st_ccs st).

Definition set_ccs (l : list ClusterConfig) (st : store) : store :=
  {| st_clusters := st_clusters st; st_ccs := l; st_cfgs := st_cfgs st |}.
Definition set_clusters (l : list cluster) (st : store) : store :=
  {| st_clusters := l; st_ccs := st_ccs st; st_cfgs := st_cfgs st |}.

Definition put_cc (cc : ClusterConfig) (st : store) : store :=
  set_ccs ((fun cc' => if same_key (Namespace (cc_meta cc)) (Name (cc_meta cc)) (cc_meta cc')
                       then cc else cc') <$> st_ccs st) st.
Definition put_cluster (c : cluster) (st : store) : store :=
  set_clusters ((fun c' => if same_key (Namespace (cl_meta c)) (Name (cl_meta c)) (cl_meta c')
                           then c else c') <$> st_clusters st) st.

(** An object with finalizers is only marked. *)
Definition mark_deleted (cc : ClusterConfig) : ClusterConfig :=
  {| cc_meta := {| Name := Name (cc_meta cc); Namespace := Namespace (cc_meta cc); UID := UID (cc_meta cc);
                   Labels := Labels (cc_meta cc); Annotations := Annotations (cc_meta cc);
                   Finalizers := Finalizers (cc_meta cc); OwnerReferences := OwnerReferences (cc_meta cc);
                   DeletionTimestamp := Some 1 |};
     cc_PatchOptions := cc_PatchOptions cc; cc_Patches := cc_Patches cc |}.

(** The store after one request, and whether the request is refused. *)
Definition serve (fail : @api_call sim_openmcp -> option exterr) (c : @api_call sim_openmcp) (st : store) :
    store * option exterr :=
  match fail c with
  | Some e => (st, Some e)
  | None =>
      match c with
      | CallCreateClusterConfig cc =>
          match find_cc st (Namespace (cc_meta cc)) (Name (cc_meta cc)) with
          | Some _ => (st, Some (ErrOther "already exists"))
          | None => (set_ccs (st_ccs st ++ [cc]) st, None)
          end
      | CallUpdateClusterConfig cc | CallPatchClusterConfig _ cc =>
          match find_cc st (Namespace (cc_meta cc)) (Name (cc_meta cc)) with
          | Some _ => (put_cc cc st, None)
          | None => (st, Some (ErrNotFound "not found"))
          end
      | CallDeleteClusterConfig ns name =>
          match find_cc st ns name with
          | Some cc =>
              (if decide (Finalizers (cc_meta cc) = [])
               then set_ccs (filter (fun cc => same_key ns name (cc_meta cc) = false) (st_ccs st)) st
               else put_cc (mark_deleted cc) st, None)
          | None => (st, Some (ErrNotFound "not found"))
          end
      | CallPatchCluster _ new => (put_cluster new st, None)
      | _ => (st, None)
      end
  end.

Fixpoint replay (fail : @api_call sim_openmcp -> option exterr) (st : store) (h : list (@api_call sim_openmcp)) : store :=
  match h with
  | [] => st
  | c :: h => (serve fail c (replay fail st h)).1
  end.

Definition answer {A} (fail : @api_call sim_openmcp -> option exterr) (c : @api_call sim_openmcp)
    (st : store) (a : A + exterr) : A + exterr :=
  match (serve fail c st).2 with Some e => inr e | None => a end.

Definition found {A} (o : option A) : A + exterr :=
  match o with Some a => inl a | None => inr (ErrNotFound "not found") end.

Definition sim_api (fail : @api_call sim_openmcp -> option exterr) (st0 : store) : @K8sApi sim_openmcp :=
  let now h := replay fail st0 h in
  @Build_K8sApi sim_openmcp
    (fun h ns name => answer fail (CallGetCluster ns name) (now h)
       (found (List.find (fun c => same_key ns name (cl_meta c)) (st_clusters (now h)))))
    (fun h => answer fail CallListClusters (now h) (inl (st_clusters (now h))))
    (fun h name => answer fail (CallGetConfig name) (now h)
       (found (List.find (fun c => bool_decide (Name (cfg_meta c) = name)) (st_cfgs (now h)))))
    (fun h labels ns => answer fail (CallListClusterConfigs labels ns) (now h)
       (inl (filter (fun cc => bool_decide (labels ⊆ Labels (cc_meta cc)) &&
               match ns with Some ns => bool_decide (Namespace (cc_meta cc) = ns) | None => true end = true)
               (st_ccs (now h)))))
    (fun h cc => (serve fail (CallCreateClusterConfig cc) (now h)).2)
    (fun h cc => (serve fail (CallUpdateClusterConfig cc) (now h)).2)
    (fun h old new => answer fail (CallPatchClusterConfig old new) (now h) (inl new))
    (fun h ns name => (serve fail (CallDeleteClusterConfig ns name) (now h)).2)
    (fun h old new => answer fail (CallPatchCluster old new) (now h) (inl new))
    (fun h c key => answer fail (CallRemoveClusterAnnotation (Namespace (cl_meta c)) (Name (cl_meta c)) key) (now h)
       (inl (cl_set_Annotations (delete key (Annotations (cl_meta c))) c)))
    (fun h cfg key => answer fail (CallRemoveConfigAnnotation (Name (cfg_meta cfg)) key) (now h)
       (inl {| cfg_meta := set_Annotations (delete key (Annotations (cfg_meta cfg))) (cfg_meta cfg); Spec := Spec cfg |})).
End server.

(** No request fails but for the reasons the server has. *)
Definition no_failure : @api_call sim_openmcp -> option exterr := fun _ => None.
