(* ===== verification/SetupSim.v ===== *)
(** * An executable environment for the events, the startup and the heap

    Instances of the interfaces of [Events], [Startup] and [DeepCopy], and an API server
    whose answers stay the same, in which every object is well formed. *)

From stdpp Require Import base list strings gmap.
From S2P Require Import Prelude GoStd GoJson Types Externals Runtime Utils Restore RestoreState ConfigController Events DeepCopy System Returns Progress Startup Sim.
Open Scope list_scope.
Open Scope Z_scope.

(** ** An API server that answers the same each time *)

Definition static_api (cl : Cluster) (cc : ClusterConfig) (cfg : @IPAMConfig sim_openmcp) : @K8sApi sim_openmcp :=
  @Build_K8sApi sim_openmcp
    (fun _ ns name =>
       if decide (ns = Namespace (cl_meta cl) /\ name = Name (cl_meta cl)) then inl cl else inr (ErrNotFound "not found"))
    (fun _ => inl [cl])
    (fun _ name => if decide (name = Name (cfg_meta cfg)) then inl cfg else inr (ErrNotFound "not found"))
    (fun _ labels ns =>
       inl (filter (fun cc => bool_decide (labels ⊆ Labels (cc_meta cc)) = true) [cc]))
    (fun _ _ => None)
    (fun _ _ => None)
    (fun _ _ new => inl new)
    (fun _ _ _ => None)
    (fun _ _ new => inl new)
    (fun _ cl key => inl (cl_set_Annotations (delete key (Annotations (cl_meta cl))) cl))
    (fun _ cfg key =>
       inl {| cfg_meta := set_Annotations (delete key (Annotations (cfg_meta cfg))) (cfg_meta cfg); Spec := Spec cfg |}).

Lemma static_good cl cc cfg :
  @good_cluster sim_openmcp cl -> good_cc cc -> @GoodApi sim_openmcp (static_api cl cc cfg) sim_utils.
Proof.
  intros Hcl Hcc. split.
  - intros h labels ns items [= <-]. apply Forall_forall. intros cc' [_ ->%list_elem_of_singleton]%list_elem_of_filter. done.
  - by intros h old new cc' [= <-].
  - intros h ns name cl'. simpl. case_decide; [by intros [= <-]|done].
  - intros h cl' key cl2 [= <-] (a & Ha & Hgood). unfold good_cluster, parse_applied_rules in *. simpl.
    destruct (decide (key = @AppliedRulesAnnotationKey sim_openmcp)) as [->|Hne].
    + rewrite lookup_delete_eq. exists ∅. split; [done|apply map_Forall_empty].
    + rewrite lookup_delete_ne by done. by exists a.
  - intros name. simpl. case_decide; by eexists.
Qed.

(** ** Predicates *)

Section predicates.
#[local] Existing Instance sim_openmcp.
#[local] Existing Instance sim_ipam.

Definition sim_decide (f : event -> bool) (ev : event) : M bool := retM (f ev).

Definition sim_predicates : CtrlPredicates := {|
  predicate := event -> M bool;
  accepts := fun p ev => p ev;
  pred_And := fun ps ev => foldM (fun acc p => if acc : bool then p ev else retM false) true ps;
  pred_Or := fun ps ev => foldM (fun acc p => if acc : bool then retM true else p ev) false ps;
  pred_Not := fun p ev => let! b := p ev in retM (negb b);
  NewPredicateFuncs := fun f ev => f (event_object ev);
  GenerationChangedPredicate := sim_decide (fun _ => true);
  OnCreatePredicate := sim_decide (fun ev => match ev with ECreate _ => true | _ => false end);
  OnUpdatePredicate := sim_decide (fun ev => match ev with EUpdate _ _ => true | _ => false end);
  OnDeletePredicate := sim_decide (fun ev => match ev with EDelete _ => true | _ => false end);
  DeletionTimestampChangedPredicate := sim_decide (fun ev =>
    match ev with
    | EUpdate old new => negb (bool_decide (DeletionTimestamp (obj_meta old) = DeletionTimestamp (obj_meta new)))
    | _ => false
    end);
  ExactNamePredicate := fun name ns => sim_decide (fun ev => bool_decide (Name (obj_meta (event_object ev)) = name));
  HasLabelPredicate := fun k v => sim_decide (fun ev => has_label k v (event_object ev));
  HasAnnotationPredicate := fun k v => sim_decide (fun ev => has_annotation k v (event_object ev));
  GotAnnotationPredicate := fun k v => sim_decide (fun ev =>
    match ev with EUpdate old new => negb (has_annotation k v old) && has_annotation k v new | _ => false end);
  LostAnnotationPredicate := fun k v => sim_decide (fun ev =>
    match ev with EUpdate old new => has_annotation k v old && negb (has_annotation k v new) | _ => false end) |}.

Lemma sim_and_false ps ev s :
  @foldM gostate _ _ (fun acc (p : event -> M bool) => if acc : bool then p ev else retM false) false ps s = (Ret false, s).
Proof. induction ps as [|p ps IH]; [done|]. exact IH. Qed.
Lemma sim_or_true ps ev s :
  @foldM gostate _ _ (fun acc (p : event -> M bool) => if acc : bool then retM true else p ev) true ps s = (Ret true, s).
Proof. induction ps as [|p ps IH]; [done|]. exact IH. Qed.

Definition sim_predicates_laws : @CtrlPredicatesLaws _ _ sim_predicates.
Proof.
  split; unfold answers; simpl; try done; try (intros; by eexists).
  - intros s ev ps bs Hps. induction Hps as [|p b ps bs Hp Hps IH]; [done|]. simpl.
    rewrite (bindM_Ret _ _ _ _ _ Hp). destruct b; [exact IH|]. apply sim_and_false.
  - intros s ev ps bs Hps. induction Hps as [|p b ps bs Hp Hps IH]; [done|]. simpl.
    rewrite (bindM_Ret _ _ _ _ _ Hp). destruct b; [|exact IH]. apply sim_or_true.
  - intros s ev p b Hp. by rewrite (bindM_Ret _ _ _ _ _ Hp).
  - intros s old new Hd. unfold sim_decide, retM. by rewrite bool_decide_false.
Defined.
End predicates.

(** ** The framework: nothing fails, and the manager makes the calls it is given *)

Definition sim_framework_types : FrameworkTypes := {|
  CertWatcher := string; Scheme := list string; NewScheme := []; CustomResourceDefinition := string |}.
#[local] Existing Instance sim_framework_types.

Definition sim_framework (es : list entry) :
    @Framework sim_openmcp sim_ipam sim_predicates sim_framework_types := {|
  fw_answer := fun _ _ => None;
  certwatcher_New := fun _ cert key => inl (cert +:+ " " +:+ key);
  AddToScheme := fun g scheme => inl (scheme ++ ["foreign"]);
  AddToGroupVersion := fun scheme gv => scheme ++ [gv_Version gv];
  AddKnownTypes := fun scheme gv kinds => scheme ++ kinds;
  CRDsFromFileSystem := fun dir => inl [dir];
  schedule := fun _ _ => es;
  os_Getenv := fun name => if decide (name = "POD_NAMESPACE") then "openmcp-system" else "";
  time_Now := fun _ => 0;
  EnvVariablePodNamespace := "POD_NAMESPACE";
  WebhookSecretName := fun name => inl (name +:+ "-secret");
  ShortenToXCharactersUnsafe := fun s n => String.substring 0 (Z.to_nat n) s;
  APIServerEndpoint := "https://platform";
  yaml_Marshal_SharedOptions := fun _ => inl "shared";
  yaml_Marshal_RunOptions := fun _ => inl "run";
  yaml_Marshal_map := fun _ => inl "{}" |}.

(** ** The foreign structs of a config: values without references *)

Definition sim_foreign_types : ForeignTypes := {|
  sel_v := option string; meta_v := ObjectMeta; listmeta_v := unit; foreign_cell := unit;
  sel_zero := None;
  meta_zero := {| Name := ""; Namespace := ""; UID := ""; Labels := ∅; Annotations := ∅; Finalizers := [];
                  OwnerReferences := []; DeletionTimestamp := None |};
  listmeta_zero := tt |}.

Definition sim_foreign_copies : @ForeignCopies sim_foreign_types :=
  @Build_ForeignCopies sim_foreign_types retM retM retM.

Lemma retM_copies `{ForeignTypes} {V} : copies_ok (fun _ (v t : V) => v = t) retM.
Proof. intros h v t ->. by apply copies_ret. Qed.

Definition sim_foreign_laws : @ForeignLaws sim_openmcp sim_foreign_types sim_foreign_copies.
Proof.
  refine (@Build_ForeignLaws sim_openmcp sim_foreign_types sim_foreign_copies unit
    (fun _ v t => v = t) (fun _ v t => v = t) (fun _ v t => v = t) _ _ _ retM_copies retM_copies retM_copies);
    by intros h h' v t _ ->.
Defined.
