(* ===== verification/MapServer.v ===== *)
(** * An API server with its clusters and ClusterConfigs in maps

    An instance of [K8sApi] that nobody else writes to, with the laws of [RestoreDurable],
    [Settle] and [Exclusive]. *)

From stdpp Require Import base list strings gmap.
From S2P Require Import Prelude GoStd GoJson Types Externals Runtime Utils Restore RestoreDurable Settle Exclusive Sim.
Open Scope list_scope.
Open Scope Z_scope.

Section map_api.
#[local] Existing Instance sim_openmcp.
Context (cls : list Cluster) (ccs : list ClusterConfig) (cfg : IPAMConfig).

Fixpoint map_stored (h : list api_call) : gmap string ClusterConfig :=
  match h with
  | [] => list_to_map ((fun cc => (key cc, cc)) <$> ccs)
  | CallCreateClusterConfig cc :: h =>
      match map_stored h !! key cc with None => <[key cc := cc]> (map_stored h) | Some _ => map_stored h end
  | CallUpdateClusterConfig cc :: h =>
      match map_stored h !! key cc with Some _ => <[key cc := cc]> (map_stored h) | None => map_stored h end
  | CallPatchClusterConfig old new :: h =>
      match map_stored h !! key old with
      | Some cc => <[key old := cc_set_Finalizers (Finalizers (cc_meta new)) cc]> (map_stored h)
      | None => map_stored h
      end
  | CallDeleteClusterConfig ns name :: h => delete (objectKeyFromStrings ns name) (map_stored h)
  | _ :: h => map_stored h
  end.

Definition without (k : string) (c : Cluster) : Cluster := cl_set_Annotations (delete k (Annotations (cl_meta c))) c.

Fixpoint map_clusters (h : list api_call) : gmap (string * string) Cluster :=
  match h with
  | [] => list_to_map ((fun c => (cluster_key c, c)) <$> cls)
  | CallPatchCluster old new :: h =>
      match map_clusters h !! cluster_key new with
      | Some _ => <[cluster_key new := new]> (map_clusters h)
      | None => map_clusters h
      end
  | CallRemoveClusterAnnotation ns name k :: h => alter (without k) (ns, name) (map_clusters h)
  | _ :: h => map_clusters h
  end.

Definition map_api : K8sApi :=
  {| api_GetCluster := fun h ns name =>
       match map_clusters h !! (ns, name) with Some cl => inl cl | None => inr (ErrNotFound "not found") end;
     api_ListClusters := fun h => inl (map_to_list (map_clusters h)).*2;
     api_GetConfig := fun _ name => if decide (name = Name (cfg_meta cfg)) then inl cfg else inr (ErrNotFound "not found");
     api_ListClusterConfigs := fun h labels ns =>
       inl (filter (fun cc => bool_decide (labels ⊆ Labels (cc_meta cc)) &&
              match ns with Some ns => bool_decide (Namespace (cc_meta cc) = ns) | None => true end = true)
              (map_to_list (map_stored h)).*2);
     api_CreateClusterConfig := fun h cc =>
       match map_stored h !! key cc with None => None | Some _ => Some (ErrOther "already exists") end;
     api_UpdateClusterConfig := fun h cc =>
       match map_stored h !! key cc with Some _ => None | None => Some (ErrNotFound "not found") end;
     api_PatchClusterConfig := fun h old new =>
       match map_stored h !! key old with
       | Some cc => inl (cc_set_Finalizers (Finalizers (cc_meta new)) cc)
       | None => inr (ErrNotFound "not found")
       end;
     api_DeleteClusterConfig := fun h ns name => None;
     api_PatchCluster := fun h _ new =>
       match map_clusters h !! cluster_key new with Some _ => inl new | None => inr (ErrNotFound "not found") end;
     api_RemoveClusterAnnotation := fun h c k =>
       match map_clusters h !! cluster_key c with Some c => inl (without k c) | None => inr (ErrNotFound "not found") end;
     api_RemoveConfigAnnotation := fun _ cfg key => inl cfg |}.

Lemma map_stored_key h k cc : map_stored h !! k = Some cc -> key cc = k.
Proof.
  revert k cc. induction h as [|c h IH]; simpl.
  - intros k cc Hk%elem_of_list_to_map_2. apply list_elem_of_fmap in Hk as (y & [= -> ->] & _). done.
  - assert (forall x k cc, <[key x := x]> (map_stored h) !! k = Some cc -> key cc = k) as Hins.
    { intros x k cc [[<- <-]|[_ Hk]]%lookup_insert_Some; [done|by apply IH]. }
    intros k cc. destruct c as [| | | | | |old new| | | |]; try apply IH; repeat case_match; try apply IH; try apply Hins.
    + intros [[<- <-]|[_ Hk]]%lookup_insert_Some; [|by apply IH].
      match goal with H : map_stored h !! key old = _ |- _ => by apply IH in H end.
    + intros [_ Hk]%lookup_delete_Some. by apply IH.
Qed.

Hypothesis Hnames : Forall (fun c => Name (cl_meta c) <> "") cls.

Lemma map_clusters_key h k c : map_clusters h !! k = Some c -> cluster_key c = k /\ Name (cl_meta c) <> "".
Proof.
  revert k c. induction h as [|x h IH]; simpl.
  - intros k c Hk%elem_of_list_to_map_2. apply list_elem_of_fmap in Hk as (y & [= -> ->] & Hy). split; [done|].
    rewrite Forall_forall in Hnames. by apply Hnames.
  - intros k c. destruct x as [| | | | | | | |old new|ns name key|]; try apply IH.
    2:{ intros [(<- & y & Hy & ->)|[_ Hk]]%lookup_alter_Some; [by apply IH in Hy|by apply IH]. }
    destruct (map_clusters h !! cluster_key new) eqn:Hn; [|apply IH].
    intros [[<- <-]|[_ Hk]]%lookup_insert_Some; [|by apply IH]. split; [done|].
    apply IH in Hn as [[= _ Heq] Hne]. by rewrite <- Heq.
Qed.

Definition map_api_store : ApiStore (KA := map_api).
Proof.
  apply (@Build_ApiStore _ map_api map_stored); simpl.
  - apply map_stored_key.
  - intros h labels ns items cc [= <-]. rewrite list_elem_of_filter, andb_true_iff, bool_decide_eq_true.
    assert (cc ∈ (map_to_list (map_stored h)).*2 <-> map_stored h !! key cc = Some cc) as ->.
    { rewrite list_elem_of_fmap. split.
      - intros ([k v] & -> & Hk%elem_of_map_to_list). simpl. by rewrite (map_stored_key _ _ _ Hk).
      - intros Hk. exists (key cc, cc). by rewrite elem_of_map_to_list. }
    destruct ns; rewrite ?bool_decide_eq_true; naive_solver.
  - by intros h [].
  - intros h cc. destruct (map_stored h !! key cc); [done|]. split; [done|]. by exists cc.
  - intros h cc. destruct (map_stored h !! key cc); [|done]. by exists cc.
  - intros h old new cc. destruct (map_stored h !! key old) eqn:Ho; [|done]. intros [= <-].
    by apply map_stored_key in Ho.
  - intros h all [= <-]. split.
    + assert ((fun c => cluster_key c) <$> (map_to_list (map_clusters h)).*2 = (map_to_list (map_clusters h)).*1) as ->;
        [|apply NoDup_fst_map_to_list].
      rewrite <- list_fmap_compose. apply list_fmap_ext. intros i [k c] Hi%list_elem_of_lookup_2.
      apply elem_of_map_to_list, map_clusters_key in Hi as [Hk _]. exact Hk.
    + intros c ([k v] & -> & Hk%elem_of_map_to_list)%list_elem_of_fmap. by apply map_clusters_key in Hk as [_ ?].
Defined.

Definition map_cluster_store : ClusterStore map_api_store.
Proof.
  apply (@Build_ClusterStore _ map_api map_api_store map_clusters); simpl.
  - intros h ns name c. destruct (map_clusters h !! (ns, name)) as [c'|] eqn:Hc; [|done]. intros [= <-].
    pose proof Hc as [[= H1 H2] Hne]%map_clusters_key. split_and!; [done..|by rewrite <- H2].
  - intros h old new c. destruct (map_clusters h !! cluster_key new); [|done]. by intros [= <-].
  - by intros h [].
  - done.
  - intros h cc. destruct (map_stored h !! key cc); [done|]. intros _. by exists cc.
  - intros h cc. destruct (map_stored h !! key cc); [|done]. intros _. by exists cc.
Defined.

(** What is there after a request, and what was there before. *)
Lemma map_ccs_after h c k x :
  match c with CallPatchClusterConfig old new => same_content old new | _ => True end ->
  map_stored (c :: h) !! k = Some x ->
  exists y, same_content y x /\
    (map_stored h !! k = Some y \/ c = CallCreateClusterConfig y \/ c = CallUpdateClusterConfig y).
Proof.
  assert (forall k x, map_stored h !! k = Some x -> exists y, same_content y x /\
    (map_stored h !! k = Some y \/ c = CallCreateClusterConfig y \/ c = CallUpdateClusterConfig y)) as Hold.
  { intros k' x' Hx. exists x'. split; [done|by left]. }
  assert (forall y k x, c = CallCreateClusterConfig y \/ c = CallUpdateClusterConfig y ->
    <[key y := y]> (map_stored h) !! k = Some x -> exists z, same_content z x /\
    (map_stored h !! k = Some z \/ c = CallCreateClusterConfig z \/ c = CallUpdateClusterConfig z)) as Hnew.
  { intros y k' x' Hc [[<- <-]|[_ Hk]]%lookup_insert_Some; [exists y; split; [done|by right]|by apply Hold]. }
  intros _. destruct c as [| | | |cc|cc|old new|ns name| | |]; simpl; try apply Hold.
  - destruct (map_stored h !! key cc); [apply Hold|]. apply Hnew. by left.
  - destruct (map_stored h !! key cc); [|apply Hold]. apply Hnew. by right.
  - destruct (map_stored h !! key old) as [cc|] eqn:Ho; [|apply Hold].
    intros [[<- <-]|[_ Hk]]%lookup_insert_Some; [|by apply Hold]. exists cc. split; [done|by left].
  - intros [_ Hk]%lookup_delete_Some. by apply Hold.
Qed.

Lemma map_clusters_after h c k x :
  match c with CallRemoveClusterAnnotation _ _ a => a <> AppliedRulesAnnotationKey | _ => True end ->
  map_clusters (c :: h) !! k = Some x ->
  exists y, map_clusters h !! k = Some y /\
    (same_rules y x \/ exists old new, c = CallPatchCluster old new /\ k = cluster_key new /\ same_cluster new x).
Proof.
  assert (forall k x, map_clusters h !! k = Some x -> exists y, map_clusters h !! k = Some y /\
    (same_rules y x \/ exists old new, c = CallPatchCluster old new /\ k = cluster_key new /\ same_cluster new x)) as Hold.
  { intros k' x' Hx. exists x'. split; [done|by left]. }
  destruct c as [| | | | | | | |old new|ns name a|]; intros Hc; simpl; try apply Hold.
  - destruct (map_clusters h !! cluster_key new) as [y|] eqn:Hy; [|apply Hold].
    intros [[<- <-]|[_ Hk]]%lookup_insert_Some; [|by apply Hold]. exists y. split; [done|]. right. by exists old, new.
  - intros [(<- & y & Hy & ->)|[_ Hk]]%lookup_alter_Some; [|by apply Hold]. exists y. split; [done|]. left.
    unfold same_rules. simpl. by rewrite lookup_delete_ne.
Qed.

Definition map_faithful : FaithfulStore map_cluster_store.
Proof.
  apply (@Build_FaithfulStore _ map_api map_api_store map_cluster_store); simpl.
  - apply map_ccs_after.
  - apply map_clusters_after.
  - intros h c k [x Hx]. destruct c as [| | | | | | | |old new|ns name a|]; simpl; try by exists x.
    + destruct (map_clusters h !! cluster_key new); [|by exists x].
      destruct (decide (cluster_key new = k)) as [<-|Hne]; [rewrite lookup_insert_eq|rewrite lookup_insert_ne by done]; by eexists.
    + destruct (decide ((ns, name) = k)) as [<-|Hne]; [rewrite lookup_alter_eq, Hx|rewrite lookup_alter_ne by done]; by eexists.
  - intros h ns name e. destruct (map_clusters h !! (ns, name)) eqn:Hc; [done|]. done.
  - intros h c k x. destruct (map_clusters h !! _) as [y|] eqn:Hy; [|done]. intros [= <-]. by rewrite lookup_alter_eq, Hy.
  - intros h k c [<- Hne]%map_clusters_key. done.
  - intros h all c [= <-]. rewrite list_elem_of_fmap. split.
    + intros ([k c'] & -> & Hk%elem_of_map_to_list). simpl. by pose proof Hk as [-> _]%map_clusters_key.
    + intros Hk. exists (cluster_key c, c). by rewrite elem_of_map_to_list.
Defined.
End map_api.
