(* ===== verification/Witnesses.v ===== *)
(** * Concrete runs

    The environment of [Sim.v] with one cluster, one config and one injection rule, the
    states the program goes through, and every conditional theorem applied to one of
    them. *)

From stdpp Require Import base list strings gmap.
From S2P Require Import Prelude GoStd GoJson Types Externals Runtime Utils Restore RestoreCheck RestoreIpam RestoreState ClusterController ClusterGenerate ClusterManage ClusterReconcile ConfigController ConfigValidation ClusterMutation System Sim.
Open Scope string_scope.
Open Scope list_scope.
Open Scope Z_scope.

#[local] Existing Instance sim_order.
#[local] Existing Instance sim_openmcp.
#[local] Existing Instance sim_openmcp_laws.
#[local] Existing Instance sim_ipam.
#[local] Existing Instance sim_ipam_laws.
#[local] Existing Instance sim_utils.
#[local] Existing Instance sim_utils_laws.

(** ** The objects *)

Definition meta (ns name : string) (ann : gmap string string) : ObjectMeta :=
  {| Name := name; Namespace := ns; UID := "uid-1"; Labels := ∅; Annotations := ann; Finalizers := [];
     OwnerReferences := []; DeletionTimestamp := None |}.

Definition c1 : Cluster := {| cl_meta := meta "ns" "c1" ∅; cl_Purposes := ["workload"]; cl_ClusterConfigs := [] |}.

Definition inj (path parent : string) (size : Z) : SingleCIDRInjection :=
  {| inj_ID := ""; inj_Path := path; inj_Paths := []; inj_Parents := [parent]; inj_SubnetSize := size |}.

Definition r1 : CIDRInjection :=
  {| rule_ID := "r1"; rule_Selector := None; rule_Injections := [inj "/spec/a" "p" 16; inj "/spec/b" "p" 24] |}.

Definition cfg1 : IPAMConfig :=
  {| cfg_meta := meta "" "gardener-ipam" ∅;
     Spec := {| ParentCIDRs := {[ "p" := ["10/8"] ]}; InjectionRules := [r1];
                InternalStateRefreshCycleDuration := None |} |}.

Definition world0 : store := {| st_clusters := [c1]; st_ccs := []; st_cfgs := [cfg1] |}.

Definition pool (l : list (string * option (gmap string string))) : Ipamer :=
  {| internal := list_to_map l; lock := false; parents := [] |}.

(** Config and parents are loaded, nothing is handed out. *)
Definition s0 : gostate :=
  {| config := Some cfg1; ClusterWatch := []; IPAM := Some (pool [("10/8", None)]);
     providerName := "gardener-ipam"; environment := "dev"; calls := []; events := [] |}.

Definition api0 : K8sApi := sim_api no_failure world0.

(** ** Reading a finished run *)

Lemma split_run {A} (x : outcome A * gostate) (r : A) : x.1 = Ret r -> x = (Ret r, x.2).
Proof. destruct x. simpl. by intros ->. Qed.

Definition ret {A} (d : A) (x : outcome A * gostate) : A :=
  match x.1 with Ret a => a | _ => d end.

Lemma ret_run {A} (d : A) (x : outcome A * gostate) :
  match x.1 with Ret _ => true | _ => false end = true -> x = (Ret (ret d x), x.2).
Proof. destruct x as [[] s]; unfold ret; simpl; by intros. Qed.

(** A run that is known to return a value with a property is stated with the value read
    off: only the test has to be computed, not the states compared. *)
Lemma run_test {A} (test : A -> bool) (x : outcome A * gostate) :
  match x.1 with Ret a => test a | _ => false end = true -> exists a, x = (Ret a, x.2) /\ test a = true.
Proof. destruct x as [[a| |] s]; simpl; [by exists a|done..]. Qed.

Definition is_none {A} (o : option A) : bool := match o with None => true | Some _ => false end.

Lemma run_none {A} (x : outcome (option A) * gostate) :
  match x.1 with Ret a => is_none a | _ => false end = true -> x = (Ret None, x.2).
Proof. by intros ([a|] & H & Ht)%run_test. Qed.

Lemma run_fst_none {A B} (d : option A * B) (x : outcome (option A * B) * gostate) :
  match x.1 with Ret a => is_none a.1 | _ => false end = true -> x = (Ret (None, (ret d x).2), x.2).
Proof. intros ([[a|] b] & H & Ht)%run_test; [done|]. rewrite H. done. Qed.

Lemma run_snd_none {A B} (d : A * option B) (x : outcome (A * option B) * gostate) :
  match x.1 with Ret a => is_none a.2 | _ => false end = true -> x = (Ret ((ret d x).1, None), x.2).
Proof. intros ([a [b|]] & H & Ht)%run_test; [done|]. rewrite H. done. Qed.

(** The boolean [true], by computing the other side. *)
Ltac vm_true := vm_cast_no_check (@eq_refl bool true).

(** An equation between closed terms, by computing both sides. *)
Ltac vm_run := match goal with |- _ = ?r => vm_cast_no_check (@eq_refl _ r) end.

(** Decides a closed proposition by computing it. *)
Ltac by_compute := apply (bool_decide_unpack _); vm_compute; exact I.

#[local] Instance releasable_dec X x : Decision (releasable X x).
Proof.
  unfold releasable. change (forall c, c ∈ X -> slices x c ## X) with (set_Forall (fun c => slices x c ## X) X).
  apply _.
Defined.
#[local] Instance st_releasable_dec X s : Decision (st_releasable X s).
Proof. unfold st_releasable. destruct (IPAM s); apply _. Defined.

(** ** The states *)

(** After the first reconciliation: the annotated cluster and its ClusterConfig. *)
Definition s1 : gostate := (Reconcile (KA := api0) false "ns" "c1" s0).2.

Definition inj1 : gmap string string := {[ "/spec/a" := "10.0/16"; "/spec/b" := "10.1/24" ]}.
Definition ann1 : AppliedRulesAnnotation := {[ "r1" := Some inj1 ]}.
Definition c1a : Cluster :=
  cl_set_Annotations {[ AppliedRulesAnnotationKey := json_Marshal_map2 ann1 ]} c1.

Definition no_cc : ClusterConfig := {| cc_meta := meta "" "" ∅; cc_PatchOptions := None; cc_Patches := [] |}.
Definition cc1 : ClusterConfig :=
  match (GenerateClusterConfigForInjectionList c1 "r1" inj1 s0).1 with Ret (inl cc) => cc | _ => no_cc end.

Example s1_as_expected :
  st_known s1 = {[ "10/8"; "10.0/16"; "10.1/24" ]} /\
  calls s1 !! 0%nat = Some (CallCreateClusterConfig cc1) /\
  calls s1 !! 1%nat = Some (CallPatchCluster c1 c1a).
Proof. split_and!; vm_run. Qed.

Definition world1 : store := {| st_clusters := [c1a]; st_ccs := [cc1]; st_cfgs := [cfg1] |}.
Definition api1 : K8sApi := sim_api no_failure world1.

(** ** Sorting and generating (utils.go) *)

Definition unsorted : ClusterConfig :=
  cc_set_Patches [injection_patch "/spec/b" "10.1/24"; injection_patch "/spec/a" "10.0/16"] no_cc.

Lemma SortPatches_sorted_witness :
  Forall sized (cc_Patches unsorted) /\
  StronglySorted patch_before (cc_Patches (SortPatches unsorted)).
Proof.
  assert (Forall sized (cc_Patches unsorted)) as H by (repeat constructor; vm_compute; discriminate).
  split; [exact H|]. exact (proj2 (SortPatches_sorted unsorted H)).
Defined.

Definition blocked : list JSONPatch :=
  [injection_patch "/spec/b" "10.1/24"; injection_patch "/spec/x" "none"; injection_patch "/spec/a" "10.0/16"].

(** The larger network is still behind the smaller one. *)
Lemma SortPatches_incomparable_kept_witness :
  cc_Patches (SortPatches (cc_set_Patches blocked no_cc)) = blocked.
Proof.
  rewrite (SortPatches_incomparable_kept (cc_set_Patches blocked no_cc)
             [injection_patch "/spec/b" "10.1/24"] (injection_patch "/spec/x" "none")
             [injection_patch "/spec/a" "10.0/16"]).
  - reflexivity.
  - vm_compute. lia.
  - reflexivity.
  - reflexivity.
Defined.

Lemma inj1_sized path cidr : inj1 !! path = Some cidr ->
  exists n, valid_utf8 cidr = true /\ cidr_size cidr = Some n /\ 0 <= n.
Proof.
  unfold inj1. intros [[_ <-]|[_ [_ <-]%lookup_singleton_Some]]%lookup_insert_Some;
    [exists 16|exists 24]; by vm_compute.
Qed.

Lemma Generate_order_independent_witness :
  GenerateClusterConfigForInjectionList (GO := sim_order) c1 "r1" inj1 s0 =
  GenerateClusterConfigForInjectionList (GO := sim_order_rev) c1 "r1" inj1 s0.
Proof. exact (Generate_order_independent sim_order sim_order_rev c1 "r1" inj1 s0 inj1_sized). Defined.

Lemma Generate_correct_witness :
  GenerateClusterConfigForInjectionList c1 "r1" inj1 s0 = (Ret (inl cc1), s0) /\
  Finalizers (cc_meta cc1) = [CIDRManagementFinalizer] /\
  cc_Patches cc1 ≡ₚ injection_patches (map_to_list inj1).
Proof.
  assert (GenerateClusterConfigForInjectionList c1 "r1" inj1 s0 = (Ret (inl cc1), s0)) as H
    by (vm_run).
  destruct (Generate_correct c1 "r1" inj1 s0 cc1 s0 H) as (_ & _ & _ & Hf & _ & _ & _ & _ & _ & Hp).
  exact (conj H (conj Hf Hp)).
Defined.

(** ** Releasing *)

Definition patch_fails (c : api_call) : option exterr :=
  match c with CallPatchClusterConfig _ _ => Some (ErrOther "connection refused") | _ => None end.

Definition released_err : outcome (option error * ClusterConfig) * gostate :=
  ReleaseCIDRsForClusterConfig (KA := sim_api patch_fails world1) cc1 s1.

Lemma release_atomic_witness : st_known released_err.2 = st_known s1.
Proof.
  assert (released_err = (Ret (Some (Errorf "error removing CIDR management finalizer"
            (Some (Lib (ErrOther "connection refused")))), (ret (None, no_cc) released_err).2), released_err.2)) as H
    by (vm_run).
  exact (proj1 (release_atomic (KA := sim_api patch_fails world1) _ _ _ _ _ H)).
Defined.

Definition released_ok : outcome (option error * ClusterConfig) * gostate :=
  ReleaseCIDRsForClusterConfig (KA := api1) cc1 s1.


(** ** Checking ClusterConfigs *)

Definition check0 : RestorationInstruction :=
  match (CheckClusterConfigsForCluster (KA := api0) c1 (Some ann1) (Some ∅) s0).1 with
  | Ret (inl ri) => ri
  | _ => {| ClusterConfigsToCreate := []; ClusterConfigsToUpdate := [] |}
  end.

Lemma check0_run :
  CheckClusterConfigsForCluster (KA := api0) c1 (Some ann1) (Some ∅) s0 = (Ret (inl check0), s0).
Proof. vm_run. Qed.

Lemma Check_restores_missing_witness :
  exists n mi, GenerateClusterConfigForInjectionList c1 "r1" mi s0 = (Ret (inl n), s0) /\
    injection_patch "/spec/a" "10.0/16" ∈ cc_Patches n /\
    (Name (cc_meta n) = EmptyClusterNamePlaceholder \/ n ∈ ClusterConfigsToCreate check0).
Proof.
  exact (Check_restores_missing (KA := api0) c1 ann1 ∅ s0 check0 s0 "r1" (Some inj1) "/spec/a" "10.0/16"
           check0_run eq_refl eq_refl).
Defined.

(** The ClusterConfig lost one of its patches and its finalizer. *)
Definition damaged : ClusterConfig :=
  cc_set_Finalizers [] (cc_set_Patches [injection_patch "/spec/a" "10.0/16"] cc1).
Definition check1 : RestorationInstruction :=
  match (CheckClusterConfigsForCluster (KA := api0) c1 (Some ann1) (Some {[ "r1" := damaged ]}) s0).1 with
  | Ret (inl ri) => ri
  | _ => {| ClusterConfigsToCreate := []; ClusterConfigsToUpdate := [] |}
  end.

Lemma check1_run :
  CheckClusterConfigsForCluster (KA := api0) c1 (Some ann1) (Some {[ "r1" := damaged ]}) s0 =
    (Ret (inl check1), s0).
Proof. vm_run. Qed.

Lemma Check_changes_only_missing_witness :
  length (ClusterConfigsToUpdate check1) = 1%nat /\ ClusterConfigsToCreate check1 = [] /\
  forall u, u ∈ ClusterConfigsToUpdate check1 ->
    exists r cc, ({[ "r1" := damaged ]} : gmap string ClusterConfig) !! r = Some cc /\
      cc_Patches u ≡ₚ cc_Patches cc ++ injection_patches (range (missing ann1 {[ "r1" := damaged ]} r)).
Proof.
  split; [vm_run|]. split; [vm_run|]. intros u Hu.
  destruct (proj1 (Check_changes_only_missing (KA := api0) c1 ann1 {[ "r1" := damaged ]} s0 check1 s0 check1_run) u Hu)
    as (r & cc & H1 & H2 & _).
  exact (ex_intro _ r (ex_intro _ cc (conj H1 H2))).
Defined.

Lemma c1_not_placeholder r name :
  GenerateClusterConfigName (Some c1) r = inl name -> name <> EmptyClusterNamePlaceholder.
Proof.
  unfold GenerateClusterConfigName. case_decide; [done|]. case_decide; [done|]. simpl.
  case_decide; [by intros [= <-]|]. by intros [= <-].
Qed.

Lemma Check_converges_witness :
  CheckClusterConfigsForCluster (KA := api0) c1 (Some ann1)
    (Some (apply_instruction check1 {[ "r1" := damaged ]})) s1 =
    (Ret (inl {| ClusterConfigsToCreate := []; ClusterConfigsToUpdate := [] |}), s1).
Proof.
  apply (Check_converges (KA := api0) c1 ann1 {[ "r1" := damaged ]} s0 check1 s0 s1 check1_run).
  - intros r cc [<- <-]%lookup_singleton_Some. vm_run.
  - exact c1_not_placeholder.
Defined.

(** ** Restoring *)

Definition restored : outcome (option error) * gostate := RestoreIPAMFromClusterState (KA := api1) s0.


Definition list_fails (c : api_call) : option exterr :=
  match c with CallListClusters => Some (ErrOther "timeout") | _ => None end.
Definition not_restored : outcome (option error) * gostate :=
  RestoreIPAMFromClusterState (KA := sim_api list_fails world1) s1.

Lemma Restore_failure_witness :
  not_restored.1 <> Ret None /\ st_known not_restored.2 ⊆ st_known s1.
Proof.
  assert (not_restored = (Ret (Some (Errorf "error fetching Cluster resources for IPAM state restoration"
    (Some (Errorf "unable to list Cluster resources" (Some (Lib (ErrOther "timeout"))))))), not_restored.2)) as H
    by vm_run.
  split; [rewrite H; discriminate|].
  exact (proj1 (Restore_failure (KA := sim_api list_fails world1) s1 _ not_restored.2 H)).
Defined.

Lemma cc1_target : target cc1 <> "".
Proof. assert (target cc1 = "c1") as -> by vm_run. discriminate. Qed.

Definition world_orphan : store := {| st_clusters := []; st_ccs := [cc1]; st_cfgs := [cfg1] |}.
Definition api_orphan : K8sApi := sim_api no_failure world_orphan.
Definition s1_idle : gostate := st_set_calls [] s1.
Definition orphan_run : outcome (list ClusterConfig * option error) * gostate :=
  handle_orphan (KA := api_orphan) ([], None) cc1 s1_idle.

Lemma handle_orphan_gone_witness :
  st_known orphan_run.2 = st_known s1 ∖ patch_cidrs (cc_Patches cc1) /\
  st_known orphan_run.2 = {[ "10/8" ]}.
Proof.
  assert (orphan_run = (Ret ((ret ([], None) orphan_run).1, None), orphan_run.2)) as H
    by (apply run_snd_none; vm_true).
  assert (st_releasable (patch_cidrs (cc_Patches cc1)) s1_idle) as Hr by by_compute.
  assert (CIDRManagementFinalizer ∈ Finalizers (cc_meta cc1)) as Hf by by_compute.
  assert (DeletionTimestamp (cc_meta cc1) = None) as Hd by vm_run.
  assert (api_GetCluster (K8sApi := api_orphan) (calls s1_idle) (Namespace (cc_meta cc1)) (target cc1) =
            inr (ErrNotFound "not found")) as Hg by vm_run.
  split; [|vm_run].
  exact (proj1 (proj2 (handle_orphan_gone (KA := api_orphan) [] None cc1 s1_idle _ _ _
           cc1_target Hd Hf Hr Hg H))).
Defined.

Definition get_fails (c : api_call) : option exterr :=
  match c with CallGetCluster _ _ => Some (ErrOther "timeout") | _ => None end.
Definition api_get_fails : K8sApi := sim_api get_fails world1.
Definition get_fails_run : outcome (list ClusterConfig * option error) * gostate :=
  handle_orphan (KA := api_get_fails) ([], None) cc1 s1_idle.

(** The cluster exists, one request timed out: the ClusterConfig is deleted. *)
Lemma handle_orphan_any_error_deletes_witness :
  CallDeleteClusterConfig "ns" "c1--ipam--r1" ∈ calls get_fails_run.2 /\
  st_known get_fails_run.2 = {[ "10/8" ]}.
Proof.
  assert (get_fails_run = (Ret (ret ([], None) get_fails_run), get_fails_run.2)) as H
    by (apply ret_run; vm_true).
  assert (DeletionTimestamp (cc_meta cc1) = None) as Hd by vm_run.
  assert (api_GetCluster (K8sApi := api_get_fails) (calls s1_idle) (Namespace (cc_meta cc1)) (target cc1) =
            inr (ErrOther "timeout")) as Hg by vm_run.
  split; [|vm_run].
  exact (handle_orphan_any_error_deletes (KA := api_get_fails) [] None cc1 s1_idle _ _ _ cc1_target Hd Hg H).
Defined.

(** ** Generating CIDRs *)

Definition parents1 : gmap string (list string) := ParentCIDRs (Spec cfg1).
Definition generated : outcome (gmap string string + error) * gostate := generateCIDRsForInjectionRule r1 parents1 s0.

Lemma generate_correct_witness :
  generated = (Ret (inl inj1), generated.2) /\
  exists acquired : list string, length acquired = 2%nat /\
    st_known generated.2 = list_to_set acquired ∪ st_known s0.
Proof.
  assert (generated = (Ret (inl inj1), generated.2)) as H by vm_run. split; [exact H|].
  destruct (generate_correct r1 parents1 s0 inj1 generated.2 H) as (_ & acquired & Hl & _ & _ & Hk & _).
  exact (ex_intro _ acquired (conj Hl Hk)).
Defined.

(** The second injection asks for a parent nobody configured. *)
Definition r_bad : CIDRInjection :=
  {| rule_ID := "bad"; rule_Selector := None; rule_Injections := [inj "/spec/a" "p" 16; inj "/spec/b" "q" 24] |}.
Definition rolled_back : outcome (gmap string string + error) * gostate := generateCIDRsForInjectionRule r_bad parents1 s0.

Lemma r_bad_plain : plain ∅ parents1 (rule_Injections r_bad).
Proof.
  intros i id Hi _. split; [done|]. intros i' Hi' Hne. exfalso. apply Hne.
  simpl in Hi'. apply elem_of_cons in Hi' as [->|Hi']; [done|]. by apply list_elem_of_singleton in Hi' as ->.
Qed.


(** ** ManageInjections *)

Definition no_res : InjectionManagementResult :=
  {| im_Instruction := {| ClusterConfigsToCreate := []; ClusterConfigsToUpdate := [] |};
     AnnotationToApply := ∅; RulesWithIssues := ∅; SkippedBecauseAlreadyAppliedRules := ∅ |}.

(** The first pass, and a pass over the annotated cluster. *)
Definition manage0 : outcome (option InjectionManagementResult * string * option error) * gostate :=
  ManageInjections (KA := api0) c1 (Some cfg1) [r1] ∅ s0.
Definition res0 : InjectionManagementResult := default no_res (ret (None, "", None) manage0).1.1.
Definition manage1 : outcome (option InjectionManagementResult * string * option error) * gostate :=
  ManageInjections (KA := api1) c1a (Some cfg1) [r1] {[ "r1" := cc1 ]} s1.
Definition res1 : InjectionManagementResult := default no_res (ret (None, "", None) manage1).1.1.

Lemma manage_run (x : outcome (option InjectionManagementResult * string * option error) * gostate) :
  match x.1 with Ret (Some _, _, None) => true | _ => false end = true ->
  x = (Ret (Some (default no_res (ret (None, "", None) x).1.1), (ret (None, "", None) x).1.2, None), x.2).
Proof. by destruct x as [[[[[?|] ?] [?|]]| |] ?]. Qed.

Lemma manage0_run : manage0 = (Ret (Some res0, (ret (None, "", None) manage0).1.2, None), manage0.2).
Proof. apply manage_run. vm_true. Qed.
Lemma manage1_run : manage1 = (Ret (Some res1, (ret (None, "", None) manage1).1.2, None), manage1.2).
Proof. apply manage_run. vm_true. Qed.
Lemma parse_c1 : parse_applied_rules c1 = inl ∅.
Proof. vm_run. Qed.
Lemma parse_c1a : parse_applied_rules c1a = inl ann1.
Proof. vm_run. Qed.

Lemma Manage_annotation_immutable_witness : keeps ann1 (AnnotationToApply res1).
Proof.
  exact (proj1 (Manage_annotation_immutable (KA := api1) c1a (Some cfg1) [r1] {[ "r1" := cc1 ]} s1
           res1 _ _ _ ann1 manage1_run parse_c1a)).
Defined.

Lemma Manage_allocations_fresh_witness :
  ann_map (AnnotationToApply res0) "r1" = inj1 /\ new_cidrs (ann_map (AnnotationToApply res0) "r1") s0 manage0.2.
Proof.
  split; [vm_run|].
  exact (proj1 (Manage_allocations_fresh (KA := api0) c1 (Some cfg1) [r1] ∅ s0 res0 _ _ _ ∅ manage0_run parse_c1)
           "r1" eq_refl eq_refl).
Defined.

Lemma Manage_accounts_for_rules_witness :
  "r1" ∈ SkippedBecauseAlreadyAppliedRules res0 \/ "r1" ∈ dom (RulesWithIssues res0) \/
  exists m, AnnotationToApply res0 !! "r1" = Some (Some m).
Proof.
  assert (r1 ∈ [r1]) as Hin by (left).
  pose proof (Manage_accounts_for_rules (KA := api0) c1 (Some cfg1) [r1] ∅ s0 res0 _ _ ∅ r1 manage0_run parse_c1 Hin) as H.
  destruct H as [H|[H|(m & H & _)]]; [left; exact H|right; left; exact H|right; right; exact (ex_intro _ m H)].
Defined.

Lemma Manage_idempotent_witness : manage1.2 = s1 /\ RulesWithIssues res1 = ∅.
Proof.
  assert (forall rule, rule ∈ [r1] -> is_Some (ann1 !! rule_ID rule) \/
    is_Some (({[ "r1" := cc1 ]} : gmap string ClusterConfig) !! rule_ID rule)) as Hr.
  { intros rule Hin. apply list_elem_of_singleton in Hin as ->. left. vm_compute. eexists. reflexivity. }
  destruct (Manage_idempotent (KA := api1) c1a (Some cfg1) [r1] {[ "r1" := cc1 ]} s1 res1 _ _ _ ann1
              manage1_run parse_c1a Hr) as (H1 & _ & H2 & _).
  exact (conj H1 H2).
Defined.

(** ** Reconciling clusters *)

Definition with_ann (ann : gmap string string) : K8sApi :=
  sim_api no_failure {| st_clusters := [cl_set_Annotations ann c1]; st_ccs := []; st_cfgs := [cfg1] |}.
Definition api_ignore : K8sApi := with_ann {[ OperationAnnotation := OperationAnnotationValueIgnore ]}.
Definition api_malformed : K8sApi := with_ann {[ AppliedRulesAnnotationKey := "oops" ]}.

Definition s0_other : gostate :=
  st_set_config (Some {| cfg_meta := cfg_meta cfg1;
    Spec := {| ParentCIDRs := parents1; InternalStateRefreshCycleDuration := None;
               InjectionRules := [{| rule_ID := "r2"; rule_Selector := Some "c2"; rule_Injections := [] |}] |} |}) s0.

Lemma Reconcile_left_alone_witness :
  Reconcile (KA := api_ignore) true "ns" "c1" s0 = (Ret None, st_set_calls [CallGetCluster "ns" "c1"] s0) /\
  Reconcile (KA := api0) true "ns" "c1" s0_other = (Ret None, st_set_calls [CallGetCluster "ns" "c1"] s0_other).
Proof.
  assert (Annotations (cl_meta c1) !! OperationAnnotation = None) as Hn by vm_run.
  split.
  - refine (Reconcile_left_alone (KA := api_ignore) true "ns" "c1" s0
             (cl_set_Annotations {[ OperationAnnotation := OperationAnnotationValueIgnore ]} c1)
             ltac:(vm_run) (or_introl _)). vm_run.
  - refine (Reconcile_left_alone (KA := api0) true "ns" "c1" s0_other c1 ltac:(vm_run) (or_intror (conj _ _))).
    + rewrite Hn. discriminate.
    + vm_cast_no_check (@eq_refl bool false).
Defined.

Lemma Reconcile_malformed_annotation_panics_witness :
  exists why, (Reconcile (KA := api_malformed) true "ns" "c1" s0).1 = Panic why.
Proof.
  exact (Reconcile_malformed_annotation_panics (KA := api_malformed) true "ns" "c1" s0
           (cl_set_Annotations {[ AppliedRulesAnnotationKey := "oops" ]} c1) cfg1 ∅
           (Errorf "unable to recover applied rules"
             (Some (Errorf "error unmarshaling the applied rules annotation json string" None)))
           ltac:(vm_run) ltac:(vm_run) ltac:(vm_run) ltac:(vm_run) ltac:(vm_run) ltac:(vm_run)).
Defined.

Definition annotated : outcome (option error * Cluster) * gostate := apply_annotation (KA := api0) true res0 None c1 s0.
Definition annotated_cl : Cluster := (ret (None, c1) annotated).2.

Lemma apply_annotation_roundtrip_witness :
  parse_applied_rules annotated_cl = inl (AnnotationToApply res0).
Proof.
  assert (annotated = (Ret (None, annotated_cl), annotated.2)) as H by vm_run.
  assert (AnnotationToApply res0 = ann1) as Ha by vm_run.
  assert (size (AnnotationToApply res0) <> 0%nat) as Hs by (rewrite Ha; discriminate).
  assert (valid_annotation (AnnotationToApply res0)) as Hv.
  { rewrite Ha. unfold ann1. intros k v [<- <-]%lookup_singleton_Some. split; [vm_run|].
    intros k v. unfold inj1. intros [[<- <-]|[_ [<- <-]%lookup_singleton_Some]]%lookup_insert_Some; split; vm_run. }
  apply (apply_annotation_roundtrip (KA := api0) true res0 None c1 s0 None annotated_cl annotated.2 H Hs Hv).
  intros old new c [= <-]. reflexivity.
Defined.

Definition deleted : outcome (option error) * gostate := handleDelete (KA := api_orphan) "ns" "c1" s1_idle.

Lemma handleDelete_frees_all_witness :
  st_known deleted.2 = {[ "10/8" ]} /\
  exists items ccs : list ClusterConfig, (forall cc, cc ∈ ccs -> cc ∈ items) /\
    (st_releasable (all_cidrs ccs) s1_idle -> st_known deleted.2 = st_known s1_idle ∖ all_cidrs ccs).
Proof.
  assert (deleted = (Ret None, deleted.2)) as H by (apply run_none; vm_true). split; [vm_run|].
  destruct (handleDelete_frees_all (KA := api_orphan) "ns" "c1" s1_idle deleted.2 H)
    as (items & ccs & _ & H1 & _ & H2).
  exact (ex_intro _ items (ex_intro _ ccs (conj H1 H2))).
Defined.

(** ** The config controller *)

Lemma requeue_after_bounds_witness : requeue_after (600 * second_ns) 90 30 = 601 * second_ns - 60.
Proof.
  destruct (requeue_after_bounds (600 * second_ns) 90 30) as [H _];
    [vm_compute; reflexivity|vm_compute; split; discriminate|vm_compute; discriminate|].
  rewrite H. reflexivity.
Defined.

Definition clock0 : clock := {| t_check := 0; t_refreshed := 0; t_since := 0 |}.
Definition ctl0 : IPAMConfigController := {| ctl_ProviderName := "gardener-ipam"; ctl_er := true; lastRefreshTime := 0 |}.

(** The new config's only rule has an invalid selector. *)
Definition cfg_invalid : IPAMConfig :=
  {| cfg_meta := cfg_meta cfg1;
     Spec := {| ParentCIDRs := parents1; InternalStateRefreshCycleDuration := None;
                InjectionRules := [{| rule_ID := "r2"; rule_Selector := Some ""; rule_Injections := [] |}] |} |}.
Definition api_invalid : K8sApi :=
  sim_api no_failure {| st_clusters := [c1]; st_ccs := []; st_cfgs := [cfg_invalid] |}.

Lemma Reconcile_cfg_keeps_valid_witness :
  valid_config s0 /\ valid_config (Reconcile_cfg (KA := api_invalid) clock0 ctl0 "gardener-ipam" s0).2.
Proof.
  assert (valid_config s0) as H by reflexivity.
  exact (conj H (Reconcile_cfg_keeps_valid (KA := api_invalid) clock0 ctl0 "gardener-ipam" s0 H)).
Defined.


(** ** Validation *)

Lemma cfg1_accepted : ValidateConfig (Some cfg1) = Ret [].
Proof. vm_run. Qed.

(** A /8 cannot be taken from a /8. *)
Definition cfg_large : IPAMConfig :=
  {| cfg_meta := cfg_meta cfg1;
     Spec := {| ParentCIDRs := {[ "p" := ["10/8"] ]};
                InjectionRules := [{| rule_ID := "r1"; rule_Selector := None; rule_Injections := [inj "/spec/a" "p" 8] |}];
                InternalStateRefreshCycleDuration := None |} |}.

Lemma ValidateConfig_decides_witness : well_formed_config cfg1 /\ ~ well_formed_config cfg_large.
Proof.
  split; [exact (proj1 (ValidateConfig_decides cfg1) cfg1_accepted)|].
  intros Hw. pose proof (proj2 (ValidateConfig_decides cfg_large) Hw) as Hv.
  vm_compute in Hv. discriminate.
Defined.

Definition cfg_noslash : IPAMConfig :=
  {| cfg_meta := cfg_meta cfg1;
     Spec := {| ParentCIDRs := {[ "p" := ["10/8"; "11"] ]}; InjectionRules := [];
                InternalStateRefreshCycleDuration := None |} |}.

Lemma ValidateConfig_slash_panic_witness : exists why, ValidateConfig (Some cfg_noslash) = Panic why.
Proof.
  assert ("11" ∈ ["10/8"; "11"]) as Hin by (right; left).
  exact (ValidateConfig_slash_panic cfg_noslash "p" ["10/8"; "11"] "11" eq_refl Hin eq_refl).
Defined.

(** ** The mutating webhook *)

Definition c1_old : Cluster := cl_set_ClusterConfigs ["other"; EmptyClusterNamePlaceholder] c1.
Definition c1_new : Cluster := cl_set_ClusterConfigs ["other"; "c1--ipam--r1"] c1.

Lemma c1_mutated : Default c1_old s0 = (Ret (c1_new, None), s0).
Proof. vm_run. Qed.

Lemma Default_refs_witness :
  "c1--ipam--r1" ∈ cl_ClusterConfigs c1_old \/ wants_ref c1_old [r1] "c1--ipam--r1".
Proof.
  assert ("c1--ipam--r1" ∈ cl_ClusterConfigs c1_new) as Hin by (right; left).
  destruct (Default_refs c1_old s0 c1_new s0 cfg1 c1_mutated eq_refl) as (_ & _ & _ & H & _).
  exact (H _ Hin).
Defined.

Lemma Default_idempotent_witness : Default c1_new s0 = (Ret (c1_new, None), s0).
Proof.
  assert (NoDup (cl_ClusterConfigs c1_old)) as Hnd by by_compute.
  apply (Default_idempotent c1_old s0 c1_new s0 c1_mutated Hnd). intros sel. reflexivity.
Defined.

(** ** The lock *)

Lemma entries_never_block_witness :
  lock_free (run_entries (KA := api1) [ReconcileCluster true "ns" "c1"; RestoreState; ReleaseCIDRs cc1] s0).2 /\
  keeps_setup s0 (run_entries (KA := api1) [ReconcileCluster true "ns" "c1"; RestoreState; ReleaseCIDRs cc1] s0).2.
Proof.
  exact (proj2 (entries_never_block (KA := api1)
           [ReconcileCluster true "ns" "c1"; RestoreState; ReleaseCIDRs cc1] s0 eq_refl)).
Defined.
