(* ===== verification/SetupWitnesses.v ===== *)
(** * Concrete runs of the startup, the events and the copies

    The theorems of [ClusterLeak], [Progress], [Events], [Startup], [Commands] and [DeepCopy] applied to
    the objects of [Witnesses]. *)

From stdpp Require Import base list strings gmap.
From S2P Require Import Prelude GoStd GoJson Types Externals Runtime Utils Restore RestoreCheck RestoreState RestoreDurable Settle ClusterController ClusterManage ClusterLeak ClusterGenerate ConfigController Interplay Events DeepCopy System Returns Progress Startup Commands Sim SetupSim MapServer Witnesses.
Open Scope string_scope.
Open Scope list_scope.
Open Scope Z_scope.

#[local] Existing Instance sim_order.
#[local] Existing Instance sim_openmcp.
#[local] Existing Instance sim_openmcp_laws.
#[local] Existing Instance sim_ipam.
#[local] Existing Instance sim_ipam_laws.
#[local] Existing Instance sim_utils.
#[local] Existing Instance sim_utils_laws.
#[local] Existing Instance sim_predicates.
#[local] Existing Instance sim_predicates_laws.
#[local] Existing Instance sim_framework_types.
#[local] Existing Instance sim_foreign_types.
#[local] Existing Instance sim_foreign_copies.
#[local] Existing Instance sim_foreign_laws.

(** ** A restart

    The ClusterConfig of [c1] has lost one of its patches. *)

Definition cc_lost : ClusterConfig := cc_set_Patches [injection_patch "/spec/a" "10.0/16"] cc1.
Definition api_lost : K8sApi := map_api [c1a] [cc_lost] cfg1.
Definition s_started : gostate := st_set_IPAM None s0.
Definition restored_lost : outcome (option error) * gostate := RestoreIPAMFromClusterState (KA := api_lost) s_started.

Lemma restored_lost_run : restored_lost = (Ret None, restored_lost.2).
Proof. apply run_none. vm_true. Qed.

Lemma api_lost_stored k cc : map_stored [cc_lost] [] !! k = Some cc -> k = key cc_lost /\ cc = cc_lost.
Proof. simpl. by intros [[<- <-]|[_ ?%lookup_empty_Some]]%lookup_insert_Some. Qed.

Lemma Restore_durable_witness :
  "10.0/16" ∈ st_known restored_lost.2 /\ "10.1/24" ∈ st_known restored_lost.2.
Proof.
  assert (Forall (fun c => Name (cl_meta c) <> "") [c1a]) as Hname by by repeat constructor.
  set (AS := map_api_store [c1a] [cc_lost] cfg1 Hname).
  assert (one_per_rule s_started (@server_ccs sim_openmcp api_lost AS (calls s_started))) as Hone.
  { intros k1 k2 x y [-> _]%api_lost_stored [-> _]%api_lost_stored. done. }
  assert (c1a ∈ [c1a]) as Hin by by left.
  assert (relevant cfg1 c1a = true) as Hrel by vm_true.
  destruct (Restore_durable (KA := api_lost) s_started cfg1 _ [c1a] c1a eq_refl Hone restored_lost_run eq_refl Hin Hrel)
    as [Hstored Hannotated].
  split.
  - apply (Hstored (key cc_lost) cc_lost "10.0/16"); [vm_run| |vm_true|].
    + unfold ours. by_compute.
    + exists (injection_patch "/spec/a" "10.0/16"). split_and!; [by left|done|vm_run].
  - destruct (Hannotated ann1 "r1" "/spec/b" "10.1/24") as [H|(k & cc & Hk & _ & _ & _ & Hp)]; [vm_run| |vm_run|exact H|].
    + unfold named_rule. intros name Hn. vm_compute in Hn. injection Hn as <-. discriminate.
    + apply api_lost_stored in Hk as [_ ->]. vm_compute in Hp. discriminate.
Defined.

(** ** A reconciliation, twice

    [c1] has the annotation of its first rule, whose ClusterConfig has lost a patch, and a
    second rule is new: the first reconciliation writes the annotation, creates a
    ClusterConfig and updates the other; the second one only reads. *)

Definition r2 : CIDRInjection :=
  {| rule_ID := "r2"; rule_Selector := Some "c1"; rule_Injections := [inj "/spec/c" "p" 20] |}.
Definition cfg2 : IPAMConfig :=
  {| cfg_meta := meta "" "gardener-ipam" ∅;
     Spec := {| ParentCIDRs := {[ "p" := ["10/8"] ]}; InjectionRules := [r1; r2];
                InternalStateRefreshCycleDuration := None |} |}.
Definition api_settle : K8sApi := map_api [c1a] [cc_lost] cfg2.
Definition s_settle : gostate :=
  {| config := Some cfg2; ClusterWatch := [];
     IPAM := Some (pool [("10/8", None); ("10.0/16", sim_child "10/8"); ("10.1/24", sim_child "10/8")]);
     providerName := "gardener-ipam"; environment := "dev"; calls := []; events := [] |}.
Definition settle_run : outcome (option error) * gostate := Reconcile (KA := api_settle) true "ns" "c1" s_settle.

Lemma settle_run_ok : settle_run = (Ret None, settle_run.2).
Proof. apply run_none. vm_true. Qed.

Definition request_kind (c : api_call) : string :=
  match c with
  | CallGetCluster _ _ => "get" | CallListClusterConfigs _ _ => "list" | CallPatchCluster _ _ => "annotate"
  | CallCreateClusterConfig _ => "create" | CallUpdateClusterConfig _ => "update" | _ => "other"
  end.

Example settle_requests : request_kind <$> calls settle_run.2 = ["update"; "create"; "annotate"; "list"; "get"].
Proof. vm_run. Qed.

Lemma named_c1 r : named_rule c1a r.
Proof.
  unfold named_rule, GenerateClusterConfigName. intros name. case_decide; [done|]. rewrite decide_False by done.
  cbn [ShortenToXCharacters sim_utils]. case_decide; [by intros [= <-]|].
  rewrite decide_True by (vm_compute; done). by intros [= <-].
Qed.

Lemma sim_ConvertPath_text p q : ConvertPath p = inl q -> valid_utf8 p = true -> valid_utf8 q = true.
Proof. simpl. case_decide; [done|]. by intros [= <-]. Qed.

Lemma sim_Acquire_text c n x x' p : ipam_AcquireChildPrefix c n x = (x', inl p) -> valid_utf8 (pCidr p) = true.
Proof.
  simpl. unfold sim_acquire. case_decide; [|done]. destruct (free_child c n x 8) eqn:Hf; [|done].
  intros [= _ <-]. by apply free_child_ok in Hf as (_ & _ & ?).
Qed.

Lemma sim_Selector_same sel (a x : Cluster) :
  Name (cl_meta x) = Name (cl_meta a) -> Namespace (cl_meta x) = Namespace (cl_meta a) ->
  Labels (cl_meta x) = Labels (cl_meta a) -> cl_Purposes x = cl_Purposes a ->
  Selector_Matches sel x = Selector_Matches sel a.
Proof. intros Hn _ _ _. simpl. destruct sel; [by rewrite Hn|done]. Qed.

Definition c1_settled : Cluster :=
  match api_GetCluster (K8sApi := api_settle) (calls settle_run.2) "ns" "c1" with inl c => c | inr _ => c1 end.

Lemma Reconcile_settles_witness :
  settle_run = (Ret None, settle_run.2) /\
  exists ev, Reconcile (KA := api_settle) true "ns" "c1" settle_run.2 =
    (Ret None, st_set_events ev (st_set_calls (list_call settle_run.2 c1_settled :: CallGetCluster "ns" "c1" ::
      calls settle_run.2) settle_run.2)).
Proof.
  split; [exact settle_run_ok|].
  assert (Forall (fun c => Name (cl_meta c) <> "") [c1a]) as Hname by by repeat constructor.
  set (AS := map_api_store [c1a] [cc_lost] cfg2 Hname).
  assert (orderly (KA := api_settle) (AS := AS) s_settle c1a (applicable cfg2 c1a)) as Hord.
  { split.
    - by_compute.
    - intros k1 k2 x y [-> _]%api_lost_stored [-> _]%api_lost_stored. done.
    - apply named_c1.
    - by_compute.
    - intros x (Hx & _). apply api_lost_stored in Hx as [_ ->]. split; [vm_true|]. by_compute. }
  assert (OperationAnnotation <> AppliedRulesAnnotationKey) as Hop by (vm_compute; discriminate).
  destruct (Reconcile_settles (KA := api_settle) (AS := AS) (CS := map_cluster_store [c1a] [cc_lost] cfg2 Hname)
    sim_ConvertPath_text sim_Acquire_text sim_Selector_same Hop true "ns" "c1" s_settle _ c1a cfg2 settle_run_ok
    ltac:(vm_run) ltac:(vm_run) eq_refl ltac:(vm_true) Hord) as (cl' & _ & _ & Hagain).
  apply (Hagain true c1_settled); [vm_run|]. by eexists.
Defined.

(** ** No CIDR is taken and forgotten *)

Lemma sim_ConvertPath_nonempty p q : ConvertPath p = inl q -> q = "" -> p = "".
Proof. simpl. case_decide; [done|]. by intros [= <-]. Qed.

Lemma Manage_no_leak_witness :
  "10.1/24" ∈ st_known manage0.2 <->
  "10.1/24" ∈ st_known s0 \/
  exists r path, (∅ : AppliedRulesAnnotation) !! r = None /\ (∅ : gmap string ClusterConfig) !! r = None /\
    ann_map (AnnotationToApply res0) r !! path = Some "10.1/24".
Proof.
  assert (NoDup (rule_ID <$> [r1])) as Hnd by apply NoDup_singleton.
  assert (Forall (fun rule => has_paths (rule_Injections rule)) [r1]) as Hp by (repeat constructor; discriminate).
  exact (Manage_no_leak (KA := api0) sim_ConvertPath_nonempty c1 (Some cfg1) [r1] ∅ s0 res0 _ _ ∅
           manage0_run parse_c1 Hnd Hp "10.1/24").
Defined.

(** ** A new parent CIDR *)

Definition cfg_new_parents : IPAMConfig :=
  {| cfg_meta := cfg_meta cfg1;
     Spec := {| ParentCIDRs := {[ "p" := ["20/8"] ]}; InjectionRules := [r1];
                InternalStateRefreshCycleDuration := None |} |}.

Definition clock0 : clock := {| t_check := 0; t_refreshed := 0; t_since := 0 |}.
Definition ctl0 : IPAMConfigController := NewIPAMConfigController "gardener-ipam" true 0.
Definition reconfigured : outcome result * gostate := reconcile_config (KA := api0) clock0 ctl0 cfg_new_parents s0.
Definition generated : outcome (gmap string string + error) * gostate :=
  generateCIDRsForInjectionRule r1 {[ "p" := ["20/8"] ]} reconfigured.2.

Lemma new_parents_unused_witness :
  config reconfigured.2 = Some cfg_new_parents /\ st_known generated.2 = st_known s0.
Proof.
  assert (forall id cidrs, ParentCIDRs (Spec cfg_new_parents) !! id = Some cidrs -> unregistered cidrs s0) as Hp.
  { intros id cidrs Hid. change (({[ "p" := ["20/8"] ]} : gmap string (list string)) !! id = Some cidrs) in Hid.
    apply lookup_singleton_Some in Hid as [<- <-]. repeat constructor. by_compute. }
  split; [vm_run|].
  assert (rule_Injections r1 <> []) as Hne by discriminate.
  exact (proj2 (new_parents_unused (KA := api0) clock0 ctl0 cfg_new_parents s0 _ _ r1 _ _ eq_refl Hp Hne
    (ret_run (failed ctl0 "" (Lib (ErrOther ""))) reconfigured ltac:(vm_true))
    (ret_run (inl ∅) generated ltac:(vm_true)))).
Defined.

(** ** Every call returns *)

Definition api_good : K8sApi := static_api c1a cc1 cfg1.

Lemma good_cc1 : good_cc cc1.
Proof.
  assert (cc_Patches cc1 = [injection_patch "/spec/a" "10.0/16"; injection_patch "/spec/b" "10.1/24"]) as H by vm_run.
  unfold good_cc. rewrite H. repeat constructor; eexists _, _; split; reflexivity.
Qed.

Lemma good_c1a : good_cluster c1a.
Proof.
  exists ann1. split; [vm_run|]. unfold ann1. intros r v [<- <-]%lookup_singleton_Some. split; [discriminate|by eexists].
Qed.

#[local] Instance api_is_good : GoodApi (KA := api_good) := static_good c1a cc1 cfg1 good_c1a good_cc1.

Definition calls_made : list entry :=
  [ReconcileCluster true "ns" "c1"; MutateCluster c1; RestoreState;
   ReconcileConfig {| t_check := 0; t_refreshed := 0; t_since := 0 |}
     (NewIPAMConfigController "gardener-ipam" true 0) "gardener-ipam";
   ReconcileCluster true "ns" "gone"; ReleaseCIDRs cc1; HandleOrphans [cc1]].

Lemma good_calls : Forall good_entry calls_made.
Proof. pose proof good_cc1 as H. unfold calls_made. by rewrite !Forall_cons, Forall_nil; simpl; rewrite Forall_singleton. Qed.

Lemma s0_ready : ready false s0.
Proof. split; [by eexists|]. done. Qed.


(** ** The start *)

#[local] Instance framework1 : Framework := sim_framework calls_made.

(** The command line [run --environment dev --provider-name gardener-ipam]. *)
Definition flags1 : list (string * flag_value) := [("environment", SVal "dev"); ("provider-name", SVal "gardener-ipam")].

#[local] Instance cobra1 : Cobra := {|
  logging_flags := ["verbosity"; "format"];
  config_path_flag := "platform-cluster";
  cobra_parse := fun _ cmds =>
    match List.find (fun cmd => bool_decide (Use cmd = "run")) cmds with
    | Some cmd => inl (Some (cmd, flags1))
    | None => inr (ErrOther "unknown command")
    end;
  fips_Verify := Ret tt |}.

Lemma cobra1_laws : CobraLaws.
Proof.
  intros names cmds cmd args. simpl. destruct (List.find _ cmds) as [c|] eqn:Hf; [|done].
  intros [= <- _]. apply list_elem_of_In. by apply List.find_some in Hf as [? _].
Qed.

Definition main1 : outcome Z * process := main (KA := api_good) fresh_process.

(** The manager is started once, and the process ends with exit code 0. *)
Example main1_started :
  main1.1 = Ret 0 /\ length (served main1.2) = 1%nat /\ fw_calls main1.2 !! 0%nat = Some StartManager.
Proof. split_and!; vm_run. Qed.

Example commands1 : exists cmds, NewPlatformServiceGardenerIPAMCommand (KA := api_good) fresh_process = (Ret cmds, fresh_process).
Proof.
  destruct (commands_return (KA := api_good) fresh_process) as (cmds & H & _); [by_compute|apply Forall_forall; by_compute|by exists cmds].
Qed.


(** ** Events *)

Definition c1_ignored : Cluster := cl_set_Annotations {[ OperationAnnotation := OperationAnnotationValueIgnore ]} c1.

Lemma cluster_events_witness :
  accepts cluster_predicate (ECreate (OCluster c1)) s0 = (Ret true, s0) /\
  accepts cluster_predicate (EUpdate (OCluster c1_ignored) (OCluster c1)) s0 = (Ret true, s0) /\
  accepts cluster_predicate (EDelete (OCluster c1_ignored)) s0 = (Ret false, s0).
Proof.
  assert (wanted s0 c1 = true) as H1 by vm_run. assert (wanted s0 c1_ignored = false) as H2 by vm_run.
  assert (triggered (OCluster c1_ignored) (OCluster c1) = true) as H3 by vm_run.
  destruct (cluster_events s0 c1) as (Hc & _ & Hu & _). destruct (cluster_events s0 c1_ignored) as (_ & Hd & _).
  specialize (Hu (OCluster c1_ignored)). rewrite H1 in Hc, Hu. rewrite H3 in Hu. rewrite H2 in Hd.
  exact (conj Hc (conj Hu Hd)).
Defined.

Lemma cc1_generated : GenerateClusterConfigForInjectionList c1 "r1" inj1 s0 = (Ret (inl cc1), s0).
Proof. vm_run. Qed.


(** ** The config on a heap *)

(** [cfg1], with an array that has room behind the slice. *)
Definition heap1 : gmap loc cell :=
  list_to_map
    [(1%positive, CConfig {| v_TypeMeta := ("", ""); v_Meta := cfg_meta cfg1;
        v_Spec := {| v_ParentCIDRs := Some 2%positive; v_Refresh := None;
                     v_InjectionRules := Some {| s_arr := 4%positive; s_off := 0; s_len := 1 |} |} |});
     (2%positive, CSliceMap {[ "p" := Some {| s_arr := 3%positive; s_off := 1; s_len := 1 |} ]});
     (3%positive, CStrings ["unused"; "10/8"; ""]);
     (4%positive, CRules [{| v_ruleID := "r1"; v_Selector := None;
        v_Injections := Some {| s_arr := 5%positive; s_off := 0; s_len := 2 |} |}]);
     (5%positive, CInjections
        [{| v_ID := ""; v_Path := "/spec/a"; v_Paths := None; v_SubnetSize := 16;
            v_Parents := Some {| s_arr := 6%positive; s_off := 0; s_len := 1 |} |};
         {| v_ID := ""; v_Path := "/spec/b"; v_Paths := None; v_SubnetSize := 24;
            v_Parents := Some {| s_arr := 6%positive; s_off := 0; s_len := 1 |} |}]);
     (6%positive, CStrings ["p"])].

Lemma heap1_reads : reads_config heap1 (Some 1%positive) (Some (("", ""), cfg1)).
Proof.
  eexists. split; [reflexivity|]. split_and!; [done|done|].
  assert (reads_slice strings_array reads_string heap1 (Some {| s_arr := 6%positive; s_off := 0; s_len := 1 |}) ["p"]) as Hp.
  { eexists. split_and!; [reflexivity|simpl; lia|by repeat constructor]. }
  split_and!.
  - exists (Some {[ "p" := ["10/8"] ]}). split; [|reflexivity]. eexists. split; [reflexivity|]. intros k. simpl.
    destruct (decide (k = "p")) as [->|Hne].
    + rewrite !lookup_singleton_eq. constructor. eexists. split_and!; [reflexivity|simpl; lia|by repeat constructor].
    + rewrite !lookup_singleton_ne by done. constructor.
  - eexists. split_and!; [reflexivity|simpl; lia|]. repeat constructor. simpl.
    eexists. split_and!; [reflexivity|simpl; lia|]. repeat constructor; done.
  - done.
Qed.

Lemma config_store_isolated_witness :
  exists new stored, SetConfig_pointer (Some 1%positive) (heap1, None) = (Ret tt, (heap1 ∪ new, stored)).
Proof.
  destruct (config_store_isolated heap1 None _ _ heap1_reads) as (new & stored & H & _). exact (ex_intro _ new (ex_intro _ stored H)).
Defined.
