(* ===== verification/RunWitnesses.v ===== *)
(** * A concrete life of the program

    Two clusters, one rule for both, and a process that is stopped right after it has written
    an annotation: the theorem of [ExclusiveRuns] applied to that run. *)

From stdpp Require Import base list strings gmap.
From S2P Require Import Prelude GoStd GoJson Types Externals Runtime Utils Restore RestoreState RestoreDurable Settle Exclusive ExclusiveReconcile ExclusiveRuns ClusterController ClusterGenerate ClusterManage AnnotationText ConfigController Events System Sim SetupSim MapServer Witnesses SetupWitnesses.
Open Scope string_scope.
Open Scope list_scope.
Open Scope Z_scope.

#[local] Existing Instance sim_order.
#[local] Existing Instance sim_openmcp.
#[local] Existing Instance sim_openmcp_laws.
#[local] Existing Instance sim_ipam.
#[local] Existing Instance sim_ipam_laws.
#[local] Existing Instance sim_utils.
#[local] Existing Instance sim_utils_laws.

(** ** The server *)

Definition c2 : Cluster := {| cl_meta := meta "ns" "c2" ∅; cl_Purposes := ["workload"]; cl_ClusterConfigs := [] |}.
Definition r_all : CIDRInjection :=
  {| rule_ID := "all"; rule_Selector := None; rule_Injections := [inj "/spec/a" "p" 16] |}.
Definition cfg_all : IPAMConfig :=
  {| cfg_meta := meta "" "gardener-ipam" ∅;
     Spec := {| ParentCIDRs := {[ "p" := ["10/8"] ]}; InjectionRules := [r_all];
                InternalStateRefreshCycleDuration := None |} |}.
Definition api_two : K8sApi := map_api [c1; c2] [] cfg_all.
#[local] Existing Instance api_two.

(** ** The run *)

Definition new_process (h : list api_call) : gostate :=
  {| config := None; ClusterWatch := []; IPAM := None; providerName := "gardener-ipam"; environment := "dev";
     calls := h; events := [] |}.
Definition configure : entry :=
  ReconcileConfig {| t_check := 0; t_refreshed := 0; t_since := 0 |} (NewIPAMConfigController "gardener-ipam" true 0) "gardener-ipam".

Definition restored1 : gostate := Eval vm_compute in (RestoreIPAMFromClusterState (new_process [])).2.
Definition configured1 : gostate := Eval vm_compute in (run_entry configure restored1).2.
Definition served1 : gostate := Eval vm_compute in (run_entry (ReconcileCluster true "ns" "c1") configured1).2.
Definition served2 : gostate := Eval vm_compute in (run_entry (ReconcileCluster true "ns" "c2") served1).2.
(** Stopped before the ClusterConfig of [c2] is created. *)
Definition stopped : list api_call := tail (calls served2).
Definition restored2 : gostate := Eval vm_compute in (RestoreIPAMFromClusterState (new_process stopped)).2.
Definition configured2 : gostate := Eval vm_compute in (run_entry configure restored2).2.
Definition last : gostate := Eval vm_compute in (run_entry (ReconcileCluster true "ns" "c2") configured2).2.

Lemma restored1_run : RestoreIPAMFromClusterState (new_process []) = (Ret None, restored1).
Proof. vm_run. Qed.
Lemma configured1_run : run_entry configure restored1 = (Ret tt, configured1).
Proof. vm_run. Qed.
Lemma served1_run : run_entry (ReconcileCluster true "ns" "c1") configured1 = (Ret tt, served1).
Proof. vm_run. Qed.
Lemma served2_run : run_entry (ReconcileCluster true "ns" "c2") served1 = (Ret tt, served2).
Proof. vm_run. Qed.
Lemma restored2_run : RestoreIPAMFromClusterState (new_process stopped) = (Ret None, restored2).
Proof. vm_run. Qed.
Lemma configured2_run : run_entry configure restored2 = (Ret tt, configured2).
Proof. vm_run. Qed.
Lemma last_run : run_entry (ReconcileCluster true "ns" "c2") configured2 = (Ret tt, last).
Proof. vm_run. Qed.

(** The second process creates what the first one could not any more; then the
    reconciliation only reads. *)
Example run_requests :
  request_kind <$> take 4 (calls served2) = ["create"; "annotate"; "list"; "get"] /\
  request_kind <$> take 2 (calls restored2) = ["list"; "create"] /\
  request_kind <$> take 2 (calls last) = ["list"; "get"].
Proof. split_and!; vm_run. Qed.

(** The CIDRs in the ClusterConfigs on the server. *)
Definition in_use (h : list api_call) : list (string * option string) :=
  cc ← (map_to_list (map_stored [] h)).*2; p ← cc_Patches cc; [(target cc, patch_cidr p)].
Example run_uses : in_use (calls last) = [("c1", Some "10.0/16"); ("c2", Some "10.1/16")].
Proof. vm_run. Qed.

(** ** The laws *)

Lemma two_named : Forall (fun c => Name (cl_meta c) <> "") [c1; c2].
Proof. by repeat constructor. Qed.

#[local] Instance two_store : ApiStore := map_api_store [c1; c2] [] cfg_all two_named.
#[local] Instance two_clusters : ClusterStore two_store := map_cluster_store [c1; c2] [] cfg_all two_named.
#[local] Instance two_faithful : FaithfulStore two_clusters := map_faithful [c1; c2] [] cfg_all two_named.

Definition both (k : string * string) : Prop := exists cl, map_clusters [c1; c2] [] !! k = Some cl /\ relevant cfg_all cl = true.

Lemma two_at k cl : map_clusters [c1; c2] [] !! k = Some cl -> k = cluster_key cl /\ (cl = c1 \/ cl = c2).
Proof.
  intros Hk%elem_of_list_to_map_2. apply list_elem_of_fmap in Hk as (y & [= -> ->] & Hy). split; [done|].
  rewrite !elem_of_cons in Hy. destruct Hy as [->|[->|Hy%not_elem_of_nil]]; [by left|by right|done].
Qed.

Lemma both_named cl r : both (cluster_key cl) -> named_rule cl r.
Proof.
  intros (y & [Hk Hy]%two_at & _) name. unfold GenerateClusterConfigName.
  assert (Name (cl_meta cl) = "c1" \/ Name (cl_meta cl) = "c2") as Hn.
  { injection Hk as _ ->. destruct Hy as [->| ->]; [by left|by right]. }
  case_decide; [done|]. rewrite decide_False by by destruct Hn as [->| ->].
  cbn [ShortenToXCharacters sim_utils]. case_decide; [destruct Hn as [->| ->]; by intros [= <-]|].
  rewrite decide_True by (vm_compute; done). destruct Hn as [->| ->]; by intros [= <-].
Qed.

Lemma two_sound : sound cfg_all both "gardener-ipam" "dev" [].
Proof.
  assert (server_ccs [] = ∅) as Hs by reflexivity.
  assert (forall who path c, ~ uses "gardener-ipam" "dev" both [] who path c) as Hno.
  { intros who path c [x p d Hx _ _ _|cl a r path' d Hcl _ Ha Hd]; [rewrite Hs in Hx; by apply lookup_empty_Some in Hx|].
    apply two_at in Hcl as [_ Hcl]. assert (parse_applied_rules cl = inl ∅) as He by (destruct Hcl as [->| ->]; vm_run).
    rewrite He in Ha. injection Ha as <-. unfold ann_map in Hd. rewrite lookup_empty in Hd. simpl in Hd. by apply lookup_empty_Some in Hd. }
  split; [|split].
  - split; rewrite ?Hs; [by intros k x ?%lookup_empty_Some..|]. done.
  - by intros who path d1 d2 ?%Hno.
  - by intros who1 who2 p1 p2 d1 d2 ?%Hno.
Qed.

(** ** The run is one of the program *)

#[local] Notation reached_two := (reached "gardener-ipam" "dev" []).

Lemma reached_restored1 : reached_two (calls restored1) (Some restored1).
Proof.
  exact (reached_restore "gardener-ipam" "dev" [] [] None (new_process []) (Ret None) restored1 (reached_start _ _ _) ltac:(by split_and!) restored1_run).
Qed.

Lemma reached_served1 : reached_two (calls served1) (Some served1).
Proof.
  apply (reached_call "gardener-ipam" "dev" [] (calls configured1) configured1 (ReconcileCluster true "ns" "c1") (Ret tt)); [|done|].
  - apply (reached_call "gardener-ipam" "dev" [] (calls restored1) restored1 configure (Ret tt)); [exact reached_restored1|done|].
    exact configured1_run.
  - exact served1_run.
Qed.

Lemma reached_stopped : reached_two stopped None.
Proof.
  apply (reached_stop_call "gardener-ipam" "dev" [] (calls served1) served1 (ReconcileCluster true "ns" "c2") (Ret tt) served2);
    [exact reached_served1|done|exact served2_run|]. split.
  - exists (tail (take 4 (calls served2))). vm_run.
  - exists (take 1 (calls served2)). vm_run.
Qed.

Lemma reached_restored2 : reached_two (calls restored2) (Some restored2).
Proof.
  apply (reached_restore "gardener-ipam" "dev" [] stopped None (new_process stopped) (Ret None) restored2); [exact reached_stopped|by split_and!|].
  exact restored2_run.
Qed.

Lemma reached_last : reached_two (calls last) (Some last).
Proof.
  apply (reached_call "gardener-ipam" "dev" [] (calls configured2) configured2 (ReconcileCluster true "ns" "c2") (Ret tt)); [|done|].
  - apply (reached_call "gardener-ipam" "dev" [] (calls restored2) restored2 configure (Ret tt)); [exact reached_restored2|done|].
    exact configured2_run.
  - exact last_run.
Qed.

Definition cc2 : ClusterConfig := default no_cc (map_stored [] (calls last) !! "ns/c2--ipam--all").

Lemma c2_uses : uses "gardener-ipam" "dev" both (calls last) (owner_of cc2) "/spec/a" "10.1/16".
Proof.
  apply (uses_cc "gardener-ipam" "dev" both (calls last) cc2 (injection_patch "/spec/a" "10.1/16"));
    [vm_run|unfold our_cc; by_compute|by_compute|vm_run].
Qed.

Lemma operation_key : OperationAnnotation <> AppliedRulesAnnotationKey.
Proof. vm_compute. discriminate. Qed.
Lemma all_ids : NoDup (rule_ID <$> InjectionRules (Spec cfg_all)).
Proof. apply NoDup_singleton. Qed.
Lemma all_text : Forall text_rule (InjectionRules (Spec cfg_all)).
Proof. by_compute. Qed.
Lemma two_GetConfig h name c : api_GetConfig h name = inl c -> Spec c = Spec cfg_all.
Proof. simpl. case_decide; [|done]. by intros [= <-]. Qed.
Lemma two_RemoveConfig h (c : IPAMConfig) k c' : api_RemoveConfigAnnotation h c k = inl c' -> Spec c' = Spec c.
Proof. by intros [= <-]. Qed.

