(* ===== verification/PoolWitnesses.v ===== *)
(** * Concrete interleavings

    The goroutines of [ThreadSteps] and [ConcurrentAlloc] in the environment of
    [Witnesses], and the theorems about pools applied. *)

From stdpp Require Import base list strings gmap relations.
From S2P Require Import Prelude GoStd GoJson Types Externals Runtime Utils Restore RestoreState ClusterController ClusterGenerate ClusterManage System Threads Pool ThreadSteps Ownership ConcurrentAlloc Sim SetupSim Witnesses.
Open Scope string_scope.
Open Scope list_scope.
Open Scope Z_scope.

#[local] Existing Instance sim_order.
#[local] Existing Instance sim_openmcp.
#[local] Existing Instance sim_openmcp_laws.
#[local] Existing Instance sim_ipam.
#[local] Existing Instance sim_ipam_laws.
#[local] Existing Instance sim_utils.
#[local] Existing Instance sim_utils_laws.

(** The configuration a schedule leads to. *)
Definition scheduled {A} (sched : list nat) (c : list (prog A) * gostate) : list (prog A) * gostate :=
  default c (run_schedule sched c).

Lemma scheduled_steps {A} sched (c : list (prog A) * gostate) : rtc pool_step c (scheduled sched c).
Proof.
  unfold scheduled. destruct (run_schedule sched c) as [c'|] eqn:Hc; [|done]. by apply run_schedule_steps in Hc.
Qed.

Definition returned {A} (d : A) (ts : list (prog A)) (i : nat) : A :=
  match ts !! i with Some (Stop (Ret a)) => a | _ => d end.

Lemma returned_spec {A} (d : A) ts i :
  match ts !! i with Some (Stop (Ret _)) => true | _ => false end = true ->
  ts !! i = Some (Stop (Ret (returned d ts i))).
Proof. unfold returned. by destruct (ts !! i) as [[[]|]|]. Qed.

(** ** Calls of all kinds *)

Definition c2 : Cluster := {| cl_meta := meta "ns" "c2" ∅; cl_Purposes := ["workload"]; cl_ClusterConfigs := [] |}.

Definition some_calls : list entry := [ReconcileCluster true "ns" "c1"; RestoreState; MutateCluster c1].



(** ** Two allocations, one operation each in turn *)

Definition job1 : job := {| j_cl := c1; j_cfg := Some cfg1; j_rules := [r1]; j_ccs := ∅ |}.
Definition job2 : job := {| j_cl := c2; j_cfg := Some cfg1; j_rules := [r1]; j_ccs := ∅ |}.

Definition in_turn : list (prog manage_result) * gostate :=
  scheduled [0; 1; 0; 1; 0; 1; 0; 1; 0; 1; 0; 1]%nat (manage_thread (KA := api0) <$> [job1; job2], s0).
Definition result_of (i : nat) : manage_result := returned (None, "", None) in_turn.1 i.

Lemma hands_out_intro j (r : manage_result) rule path cidr :
  match r.1.1 with Some _ => true | None => false end = true ->
  parse_applied_rules (j_cl j) = inl ∅ -> j_ccs j !! rule = None ->
  ann_map (AnnotationToApply (default no_res r.1.1)) rule !! path = Some cidr -> hands_out j r cidr.
Proof.
  intros Hr Ha Hcc Hc. destruct (r.1.1) as [res|] eqn:He; [|done]. exists res, ∅, rule, path.
  by rewrite lookup_empty.
Qed.

Lemma jobs_single : Forall single_paths [job1; job2].
Proof.
  repeat constructor; intros rule Hin; apply list_elem_of_singleton in Hin as ->; repeat constructor.
Qed.

Lemma Manage_concurrent_witness :
  hands_out job1 (result_of 0) "10.0/16" /\ hands_out job2 (result_of 1) "10.1/16" /\
  "10.0/16" ∈ st_known in_turn.2 /\ ~ hands_out job2 (result_of 1) "10.0/16".
Proof.
  pose proof (Manage_concurrent (KA := api0) [job1; job2] s0 in_turn jobs_single
                (scheduled_steps _ _)) as [Hk Hd].
  assert (in_turn.1 !! 0%nat = Some (Stop (Ret (result_of 0)))) as H0 by (apply returned_spec; vm_true).
  assert (in_turn.1 !! 1%nat = Some (Stop (Ret (result_of 1)))) as H1 by (apply returned_spec; vm_true).
  assert (hands_out job1 (result_of 0) "10.0/16") as Ho1.
  { apply (hands_out_intro _ _ "r1" "/spec/a"); [vm_true|vm_run|reflexivity|vm_run]. }
  assert (hands_out job2 (result_of 1) "10.1/16") as Ho2.
  { apply (hands_out_intro _ _ "r1" "/spec/a"); [vm_true|vm_run|reflexivity|vm_run]. }
  split; [exact Ho1|split; [exact Ho2|split]].
  - exact (proj2 (Hk 0%nat job1 _ _ eq_refl H0 Ho1)).
  - intros Ho. refine (Hd 0%nat 1%nat job1 job2 _ _ _ _ eq_refl H0 Ho1 eq_refl H1 Ho). discriminate.
Defined.
