(* ===== verification/Findings.v ===== *)
(** * What the code does not guarantee

    Runs of the program in the environment of [Witnesses] in which it does not do what its
    comments say or what its authors want, one for each defect that shows in a run. *)

From stdpp Require Import base list strings gmap relations.
From S2P Require Import Prelude GoStd GoJson Types Externals Runtime Utils Restore RestoreState ClusterController ClusterGenerate ClusterManage ConfigController System Threads Pool ThreadSteps Ownership ConcurrentAlloc Startup Commands Sim SetupSim Witnesses SetupWitnesses PoolWitnesses.
Open Scope string_scope.
Open Scope list_scope.
Open Scope Z_scope.

#[local] Existing Instance sim_order.
#[local] Existing Instance sim_openmcp.
#[local] Existing Instance sim_openmcp_laws.
#[local] Existing Instance sim_ipam.
#[local] Existing Instance sim_ipam_laws.
#[local] Existing Instance sim_utils.
#[local] Existing Instance sim_utils_laws.
#[local] Existing Instance sim_predicates.
#[local] Existing Instance sim_framework_types.

(** ** A refresh between two allocations

    Both injections of the rule ask for the same size. RestoreIPAMFromClusterState runs
    after the first acquisition; nothing records that CIDR yet, and the second injection
    gets it again. Both calls end without an error. *)

Definition r_same : CIDRInjection :=
  {| rule_ID := "r1"; rule_Selector := None; rule_Injections := [inj "/spec/a" "p" 16; inj "/spec/b" "p" 16] |}.
Definition cfg_same : IPAMConfig :=
  {| cfg_meta := meta "" "gardener-ipam" ∅;
     Spec := {| ParentCIDRs := {[ "p" := ["10/8"] ]}; InjectionRules := [r_same];
                InternalStateRefreshCycleDuration := None |} |}.
Definition api_same : K8sApi := sim_api no_failure {| st_clusters := [c1]; st_ccs := []; st_cfgs := [cfg_same] |}.
Definition s_same : gostate := st_set_config (Some cfg_same) s0.

Definition refreshed : list (prog unit) * gostate :=
  scheduled (replicate 8 0%nat ++ replicate 9 1%nat ++ replicate 7 0%nat)
    (thread (KA := api_same) <$> [ReconcileCluster true "ns" "c1"; RestoreState], s_same).

(** The patches of the ClusterConfigs created, as (path, value). *)
Definition created_patches (h : list api_call) : list (list (string * option string)) :=
  omap (fun c => match c with
                 | CallCreateClusterConfig cc => Some ((fun p => (p_Path p, p_Value p)) <$> cc_Patches cc)
                 | _ => None
                 end) h.

Definition is_ret {A} (p : prog A) : bool := match p with Stop (Ret _) => true | _ => false end.

Theorem refresh_between_allocations :
  rtc pool_step (thread (KA := api_same) <$> [ReconcileCluster true "ns" "c1"; RestoreState], s_same) refreshed /\
  forallb is_ret refreshed.1 = true /\
  exists v, created_patches (calls refreshed.2) = [[("/spec/a", Some v); ("/spec/b", Some v)]].
Proof.
  split_and!; [apply scheduled_steps|vm_true|]. exists (json_Marshal_string "10.0/16"). vm_run.
Qed.

(** ** A rollback that gives a CIDR back twice

    The first injection of the rule has two paths and the second one no parent: the CIDR
    of the first is given back twice, and between the two another goroutine has acquired
    it. What is recorded for that one's cluster is not known any more. *)

Definition r_two : CIDRInjection :=
  {| rule_ID := "two"; rule_Selector := None;
     rule_Injections :=
       [{| inj_ID := ""; inj_Path := "/spec/a"; inj_Paths := ["/spec/b"]; inj_Parents := ["p"]; inj_SubnetSize := 16 |};
        inj "/spec/c" "q" 24] |}.
Definition r_one : CIDRInjection :=
  {| rule_ID := "one"; rule_Selector := None; rule_Injections := [inj "/spec/a" "p" 16] |}.

Definition rolled_back_beside : list (prog manage_result) * gostate :=
  scheduled [0; 0; 0; 1; 1; 1; 1; 0]%nat
    (manage_thread (KA := api0) <$>
       [{| j_cl := c1; j_cfg := Some cfg1; j_rules := [r_two]; j_ccs := ∅ |};
        {| j_cl := c2; j_cfg := Some cfg1; j_rules := [r_one]; j_ccs := ∅ |}], s0).

Example rollback_releases_twice :
  forallb is_ret rolled_back_beside.1 = true /\
  hands_out {| j_cl := c2; j_cfg := Some cfg1; j_rules := [r_one]; j_ccs := ∅ |}
    (returned (None, "", None) rolled_back_beside.1 1) "10.0/16" /\
  "10.0/16" ∉ st_known rolled_back_beside.2.
Proof.
  split_and!; [vm_true| |by_compute].
  apply (hands_out_intro _ _ "one" "/spec/a"); [vm_true|vm_run|reflexivity|vm_run].
Qed.

(** ** Rules that share a path or an ID

    The injected paths are collected before the loop over the rules: two new rules with
    the same path are both applied. *)

Definition r_a : CIDRInjection :=
  {| rule_ID := "a"; rule_Selector := None; rule_Injections := [inj "/spec/a" "p" 16] |}.
Definition r_b : CIDRInjection :=
  {| rule_ID := "b"; rule_Selector := None; rule_Injections := [inj "/spec/a" "p" 24] |}.

Definition managed (rules : list CIDRInjection) : outcome manage_result * gostate :=
  ManageInjections (KA := api0) c1 (Some cfg1) rules ∅ s0.
Definition managed_res (rules : list CIDRInjection) : InjectionManagementResult :=
  default no_res (ret (None, "", None) (managed rules)).1.1.

Example same_path_twice :
  (managed [r_a; r_b]).1 = Ret (Some (managed_res [r_a; r_b]), EventActionCIDRGeneration, None) /\
  RulesWithIssues (managed_res [r_a; r_b]) = ∅ /\
  ann_map (AnnotationToApply (managed_res [r_a; r_b])) "a" = {[ "/spec/a" := "10.0/16" ]} /\
  ann_map (AnnotationToApply (managed_res [r_a; r_b])) "b" = {[ "/spec/a" := "10.1/24" ]}.
Proof. split_and!; vm_run. Qed.

(** Two rules with one ID: the CIDR of the first is taken and not recorded. *)
Definition r_a' : CIDRInjection :=
  {| rule_ID := "a"; rule_Selector := None; rule_Injections := [inj "/spec/b" "p" 24] |}.

Example same_id_twice :
  (managed [r_a; r_a']).1 = Ret (Some (managed_res [r_a; r_a']), EventActionCIDRGeneration, None) /\
  AnnotationToApply (managed_res [r_a; r_a']) = {[ "a" := Some {[ "/spec/b" := "10.1/24" ]} ]} /\
  st_known (managed [r_a; r_a']).2 = {[ "10/8"; "10.0/16"; "10.1/24" ]}.
Proof. split_and!; vm_run. Qed.

(** ** A path that cannot be converted

    The conversion error is reported, but the rule is applied with the path as it is. *)

Definition r_path : CIDRInjection :=
  {| rule_ID := "r"; rule_Selector := None;
     rule_Injections := [{| inj_ID := ""; inj_Path := ""; inj_Paths := [""]; inj_Parents := ["p"]; inj_SubnetSize := 16 |}] |}.

Example unconverted_path :
  (ret (None, "", None) (managed [r_path])).2 <> None /\
  RulesWithIssues (managed_res [r_path]) = ∅ /\
  ann_map (AnnotationToApply (managed_res [r_path])) "r" = {[ "" := "10.0/16" ]} /\
  (fun cc => (fun p => (p_Path p, p_Value p)) <$> cc_Patches cc) <$> ClusterConfigsToCreate (im_Instruction (managed_res [r_path])) =
    [[("", Some (json_Marshal_string "10.0/16"))]].
Proof. split_and!; [vm_compute; discriminate|vm_run..]. Qed.

(** ** An annotation with a null entry

    The inner map is nil, and the path of the existing ClusterConfig is written to it. *)

Definition c1_null : Cluster :=
  cl_set_Annotations {[ AppliedRulesAnnotationKey := json_Marshal_map2 {[ "r1" := None ]} ]} c1.

Example null_entry_panics :
  (ManageInjections (KA := api0) c1_null (Some cfg1) [r1] {[ "r1" := cc1 ]} s0).1 = Panic "assignment to entry in nil map".
Proof. vm_run. Qed.

(** ** Clusters that cannot be fetched

    Without a config, FetchRelevantClusters never reports that a cluster could not be
    fetched: once the ClusterConfigs are listed it returns no error, whatever the API
    server answers. *)
Theorem fetch_errors_dropped `{KA : K8sApi} s ccs s1 r s' :
  FetchClusterConfigs s = (Ret (inl ccs), s1) ->
  FetchRelevantClusters None s = (Ret r, s') -> exists cls, r = inl cls.
Proof.
  intros Hccs Hrun. unfold FetchRelevantClusters in Hrun. rewrite (bindM_Ret _ _ _ _ _ Hccs) in Hrun.
  apply bindM_Ret_inv in Hrun as ([tmp errs] & s2 & _ & [= <- _]). by eexists.
Qed.

(** ** An invalid config at the start

    The config controller refuses to store [cfg_invalid]; "run" stores it unchecked. *)

#[local] Instance idle_framework : Framework := sim_framework [].
#[local] Existing Instance cobra1.

Example invalid_config_started :
  (main (KA := api_invalid) fresh_process).1 = Ret 0 /\
  (fun started => config started.1) <$> served (main (KA := api_invalid) fresh_process).2 = [Some cfg_invalid] /\
  validate_rules (InjectionRules (Spec cfg_invalid)) <> None.
Proof. split_and!; [vm_run|vm_run|]. discriminate. Qed.
